(** * LTC exchange backend: the aggregation-and-cache layer of [main.py]

    A shallow embedding of the FastAPI service in [src/main.py]: the
    in-memory store of custom exchanges, the Binance reference-price
    gateway, the CoinGecko fetch-and-merge step, the sort-and-rank step and
    the two-tier Redis cache of [get_ltc_exchanges].

    Python values are modelled as follows.
    - [float] is IEEE binary64: Rocq's primitive [float], decomposed with
      [Prim2SF] where the digits are needed ([math.floor], [f"{x:.4f}"]).
    - [int] is [Z]; [str] is the [string] of its UTF-8 bytes; [str.lower]
      and [float] read the characters as Python 3.11 does, by the tables
      of Unicode 14.0.
    - [Optional[T]] is [option T]; a pydantic model is a [Record].
    - the global [custom_exchanges] dict is an insertion-ordered association
      list; the Redis server is a [gmap] from keys to (ttl, payload).
    - a coroutine is a state-and-exception computation over a [World]. *)

From Stdlib Require Import ZArith List String Ascii DecimalString Bool Lia Sorted.
From Stdlib Require Import Floats.
From Stdlib Require DecimalN DecimalPos FloatLemmas.
From stdpp Require Import gmap strings sorting.
Import ListNotations.

#[local] Set Warnings "-inexact-float".
#[local] Open Scope string_scope.
#[local] Open Scope Z_scope.

(** ** Python strings *)

Module PyStr.

(** ASCII letters only, as [float] reads [inf] and [nan]: C's [tolower]
    in the "C" locale. *)
Definition is_upper (c : ascii) : bool :=
  let n := nat_of_ascii c in (65 <=? n)%nat && (n <=? 90)%nat.

Definition lower_char (c : ascii) : ascii :=
  if is_upper c then ascii_of_nat (nat_of_ascii c + 32) else c.

Fixpoint ascii_lower (s : string) : string :=
  match s with
  | EmptyString => EmptyString
  | String c s' => String (lower_char c) (ascii_lower s')
  end.

(** *** The characters of a [str]

    The bytes are read as UTF-8, surrogates included; a byte that
    starts no character is kept apart, above the last code point, and
    written back as it is. *)
Definition byte (c : ascii) : Z := Z.of_N (N_of_ascii c).

Definition continuation (c : ascii) : option Z :=
  let n := byte c in
  if (128 <=? n) && (n <? 192) then Some (n - 128) else None.

Fixpoint decode (l : list ascii) : list Z :=
  match l with
  | [] => []
  | b0 :: l1 =>
      let n0 := byte b0 in
      let stray := (1114112 + n0) :: decode l1 in
      if n0 <? 128 then n0 :: decode l1
      else
        match l1 with
        | b1 :: l2 =>
            match continuation b1 with
            | Some n1 =>
                if (194 <=? n0) && (n0 <? 224) then ((n0 - 192) * 64 + n1) :: decode l2
                else
                  match l2 with
                  | b2 :: l3 =>
                      match continuation b2 with
                      | Some n2 =>
                          let c3 := ((n0 - 224) * 64 + n1) * 64 + n2 in
                          if (224 <=? n0) && (n0 <? 240) then
                            if 2048 <=? c3 then c3 :: decode l3 else stray
                          else
                            match l3 with
                            | b3 :: l4 =>
                                match continuation b3 with
                                | Some n3 =>
                                    let c4 := (((n0 - 240) * 64 + n1) * 64 + n2) * 64 + n3 in
                                    if (240 <=? n0) && (n0 <? 245) && (65536 <=? c4)
                                       && (c4 <? 1114112)
                                    then c4 :: decode l4 else stray
                                | None => stray
                                end
                            | [] => stray
                            end
                      | None => stray
                      end
                  | [] => stray
                  end
            | None => stray
            end
        | [] => stray
        end
  end.

Definition of_byte (n : Z) : ascii := ascii_of_N (Z.to_N n).

Definition encode (c : Z) : list ascii :=
  if c <? 128 then [of_byte c]
  else if c <? 2048 then [of_byte (192 + c / 64); of_byte (128 + c mod 64)]
  else if c <? 65536 then
    [of_byte (224 + c / 4096); of_byte (128 + (c / 64) mod 64); of_byte (128 + c mod 64)]
  else if c <? 1114112 then
    [of_byte (240 + c / 262144); of_byte (128 + (c / 4096) mod 64);
     of_byte (128 + (c / 64) mod 64); of_byte (128 + c mod 64)]
  else [of_byte (c - 1114112)].

(** *** [s.lower()] *)

(** The characters with a lower-case form, in Unicode 14.0: from [first]
    to [last] in steps of [step], the lower-case form is [delta] away. *)
Definition lower_table : list (Z * Z * Z * Z) :=
  [
    (65, 90, 1, 32); (192, 214, 1, 32); (216, 222, 1, 32); (256, 302, 2, 1);
    (306, 310, 2, 1); (313, 327, 2, 1); (330, 374, 2, 1); (376, 376, 1, -121);
    (377, 381, 2, 1); (385, 385, 1, 210); (386, 388, 2, 1); (390, 390, 1, 206);
    (391, 391, 1, 1); (393, 394, 1, 205); (395, 395, 1, 1); (398, 398, 1, 79);
    (399, 399, 1, 202); (400, 400, 1, 203); (401, 401, 1, 1); (403, 403, 1, 205);
    (404, 404, 1, 207); (406, 406, 1, 211); (407, 407, 1, 209); (408, 408, 1, 1);
    (412, 412, 1, 211); (413, 413, 1, 213); (415, 415, 1, 214); (416, 420, 2, 1);
    (422, 422, 1, 218); (423, 423, 1, 1); (425, 425, 1, 218); (428, 428, 1, 1);
    (430, 430, 1, 218); (431, 431, 1, 1); (433, 434, 1, 217); (435, 437, 2, 1);
    (439, 439, 1, 219); (440, 440, 1, 1); (444, 444, 1, 1); (452, 452, 1, 2);
    (453, 453, 1, 1); (455, 455, 1, 2); (456, 456, 1, 1); (458, 458, 1, 2);
    (459, 475, 2, 1); (478, 494, 2, 1); (497, 497, 1, 2); (498, 500, 2, 1);
    (502, 502, 1, -97); (503, 503, 1, -56); (504, 542, 2, 1); (544, 544, 1, -130);
    (546, 562, 2, 1); (570, 570, 1, 10795); (571, 571, 1, 1); (573, 573, 1, -163);
    (574, 574, 1, 10792); (577, 577, 1, 1); (579, 579, 1, -195); (580, 580, 1, 69);
    (581, 581, 1, 71); (582, 590, 2, 1); (880, 882, 2, 1); (886, 886, 1, 1);
    (895, 895, 1, 116); (902, 902, 1, 38); (904, 906, 1, 37); (908, 908, 1, 64);
    (910, 911, 1, 63); (913, 929, 1, 32); (931, 939, 1, 32); (975, 975, 1, 8);
    (984, 1006, 2, 1); (1012, 1012, 1, -60); (1015, 1015, 1, 1); (1017, 1017, 1, -7);
    (1018, 1018, 1, 1); (1021, 1023, 1, -130); (1024, 1039, 1, 80); (1040, 1071, 1, 32);
    (1120, 1152, 2, 1); (1162, 1214, 2, 1); (1216, 1216, 1, 15); (1217, 1229, 2, 1);
    (1232, 1326, 2, 1); (1329, 1366, 1, 48); (4256, 4293, 1, 7264); (4295, 4295, 1, 7264);
    (4301, 4301, 1, 7264); (5024, 5103, 1, 38864); (5104, 5109, 1, 8); (7312, 7354, 1, -3008);
    (7357, 7359, 1, -3008); (7680, 7828, 2, 1); (7838, 7838, 1, -7615); (7840, 7934, 2, 1);
    (7944, 7951, 1, -8); (7960, 7965, 1, -8); (7976, 7983, 1, -8); (7992, 7999, 1, -8);
    (8008, 8013, 1, -8); (8025, 8031, 2, -8); (8040, 8047, 1, -8); (8072, 8079, 1, -8);
    (8088, 8095, 1, -8); (8104, 8111, 1, -8); (8120, 8121, 1, -8); (8122, 8123, 1, -74);
    (8124, 8124, 1, -9); (8136, 8139, 1, -86); (8140, 8140, 1, -9); (8152, 8153, 1, -8);
    (8154, 8155, 1, -100); (8168, 8169, 1, -8); (8170, 8171, 1, -112); (8172, 8172, 1, -7);
    (8184, 8185, 1, -128); (8186, 8187, 1, -126); (8188, 8188, 1, -9); (8486, 8486, 1, -7517);
    (8490, 8490, 1, -8383); (8491, 8491, 1, -8262); (8498, 8498, 1, 28); (8544, 8559, 1, 16);
    (8579, 8579, 1, 1); (9398, 9423, 1, 26); (11264, 11311, 1, 48); (11360, 11360, 1, 1);
    (11362, 11362, 1, -10743); (11363, 11363, 1, -3814); (11364, 11364, 1, -10727); (11367, 11371, 2, 1);
    (11373, 11373, 1, -10780); (11374, 11374, 1, -10749); (11375, 11375, 1, -10783); (11376, 11376, 1, -10782);
    (11378, 11378, 1, 1); (11381, 11381, 1, 1); (11390, 11391, 1, -10815); (11392, 11490, 2, 1);
    (11499, 11501, 2, 1); (11506, 11506, 1, 1); (42560, 42604, 2, 1); (42624, 42650, 2, 1);
    (42786, 42798, 2, 1); (42802, 42862, 2, 1); (42873, 42875, 2, 1); (42877, 42877, 1, -35332);
    (42878, 42886, 2, 1); (42891, 42891, 1, 1); (42893, 42893, 1, -42280); (42896, 42898, 2, 1);
    (42902, 42920, 2, 1); (42922, 42922, 1, -42308); (42923, 42923, 1, -42319); (42924, 42924, 1, -42315);
    (42925, 42925, 1, -42305); (42926, 42926, 1, -42308); (42928, 42928, 1, -42258); (42929, 42929, 1, -42282);
    (42930, 42930, 1, -42261); (42931, 42931, 1, 928); (42932, 42946, 2, 1); (42948, 42948, 1, -48);
    (42949, 42949, 1, -42307); (42950, 42950, 1, -35384); (42951, 42953, 2, 1); (42960, 42960, 1, 1);
    (42966, 42968, 2, 1); (42997, 42997, 1, 1); (65313, 65338, 1, 32); (66560, 66599, 1, 40);
    (66736, 66771, 1, 40); (66928, 66938, 1, 39); (66940, 66954, 1, 39); (66956, 66962, 1, 39);
    (66964, 66965, 1, 39); (68736, 68786, 1, 64); (71840, 71871, 1, 32); (93760, 93791, 1, 32);
    (125184, 125217, 1, 34)
  ].

(** The case-ignorable characters, as ranges. *)
Definition case_ignorable_table : list (Z * Z) :=
  [
    (39, 39); (46, 46); (58, 58); (94, 94); (96, 96); (168, 168);
    (173, 173); (175, 175); (180, 180); (183, 184); (688, 879); (884, 885);
    (890, 890); (900, 901); (903, 903); (1155, 1161); (1369, 1369); (1375, 1375);
    (1425, 1469); (1471, 1471); (1473, 1474); (1476, 1477); (1479, 1479); (1524, 1524);
    (1536, 1541); (1552, 1562); (1564, 1564); (1600, 1600); (1611, 1631); (1648, 1648);
    (1750, 1757); (1759, 1768); (1770, 1773); (1807, 1807); (1809, 1809); (1840, 1866);
    (1958, 1968); (2027, 2037); (2042, 2042); (2045, 2045); (2070, 2093); (2137, 2139);
    (2184, 2184); (2192, 2193); (2200, 2207); (2249, 2306); (2362, 2362); (2364, 2364);
    (2369, 2376); (2381, 2381); (2385, 2391); (2402, 2403); (2417, 2417); (2433, 2433);
    (2492, 2492); (2497, 2500); (2509, 2509); (2530, 2531); (2558, 2558); (2561, 2562);
    (2620, 2620); (2625, 2626); (2631, 2632); (2635, 2637); (2641, 2641); (2672, 2673);
    (2677, 2677); (2689, 2690); (2748, 2748); (2753, 2757); (2759, 2760); (2765, 2765);
    (2786, 2787); (2810, 2815); (2817, 2817); (2876, 2876); (2879, 2879); (2881, 2884);
    (2893, 2893); (2901, 2902); (2914, 2915); (2946, 2946); (3008, 3008); (3021, 3021);
    (3072, 3072); (3076, 3076); (3132, 3132); (3134, 3136); (3142, 3144); (3146, 3149);
    (3157, 3158); (3170, 3171); (3201, 3201); (3260, 3260); (3263, 3263); (3270, 3270);
    (3276, 3277); (3298, 3299); (3328, 3329); (3387, 3388); (3393, 3396); (3405, 3405);
    (3426, 3427); (3457, 3457); (3530, 3530); (3538, 3540); (3542, 3542); (3633, 3633);
    (3636, 3642); (3654, 3662); (3761, 3761); (3764, 3772); (3782, 3782); (3784, 3789);
    (3864, 3865); (3893, 3893); (3895, 3895); (3897, 3897); (3953, 3966); (3968, 3972);
    (3974, 3975); (3981, 3991); (3993, 4028); (4038, 4038); (4141, 4144); (4146, 4151);
    (4153, 4154); (4157, 4158); (4184, 4185); (4190, 4192); (4209, 4212); (4226, 4226);
    (4229, 4230); (4237, 4237); (4253, 4253); (4348, 4348); (4957, 4959); (5906, 5908);
    (5938, 5939); (5970, 5971); (6002, 6003); (6068, 6069); (6071, 6077); (6086, 6086);
    (6089, 6099); (6103, 6103); (6109, 6109); (6155, 6159); (6211, 6211); (6277, 6278);
    (6313, 6313); (6432, 6434); (6439, 6440); (6450, 6450); (6457, 6459); (6679, 6680);
    (6683, 6683); (6742, 6742); (6744, 6750); (6752, 6752); (6754, 6754); (6757, 6764);
    (6771, 6780); (6783, 6783); (6823, 6823); (6832, 6862); (6912, 6915); (6964, 6964);
    (6966, 6970); (6972, 6972); (6978, 6978); (7019, 7027); (7040, 7041); (7074, 7077);
    (7080, 7081); (7083, 7085); (7142, 7142); (7144, 7145); (7149, 7149); (7151, 7153);
    (7212, 7219); (7222, 7223); (7288, 7293); (7376, 7378); (7380, 7392); (7394, 7400);
    (7405, 7405); (7412, 7412); (7416, 7417); (7468, 7530); (7544, 7544); (7579, 7679);
    (8125, 8125); (8127, 8129); (8141, 8143); (8157, 8159); (8173, 8175); (8189, 8190);
    (8203, 8207); (8216, 8217); (8228, 8228); (8231, 8231); (8234, 8238); (8288, 8292);
    (8294, 8303); (8305, 8305); (8319, 8319); (8336, 8348); (8400, 8432); (11388, 11389);
    (11503, 11505); (11631, 11631); (11647, 11647); (11744, 11775); (11823, 11823); (12293, 12293);
    (12330, 12333); (12337, 12341); (12347, 12347); (12441, 12446); (12540, 12542); (40981, 40981);
    (42232, 42237); (42508, 42508); (42607, 42610); (42612, 42621); (42623, 42623); (42652, 42655);
    (42736, 42737); (42752, 42785); (42864, 42864); (42888, 42890); (42994, 42996); (43000, 43001);
    (43010, 43010); (43014, 43014); (43019, 43019); (43045, 43046); (43052, 43052); (43204, 43205);
    (43232, 43249); (43263, 43263); (43302, 43309); (43335, 43345); (43392, 43394); (43443, 43443);
    (43446, 43449); (43452, 43453); (43471, 43471); (43493, 43494); (43561, 43566); (43569, 43570);
    (43573, 43574); (43587, 43587); (43596, 43596); (43632, 43632); (43644, 43644); (43696, 43696);
    (43698, 43700); (43703, 43704); (43710, 43711); (43713, 43713); (43741, 43741); (43756, 43757);
    (43763, 43764); (43766, 43766); (43867, 43871); (43881, 43883); (44005, 44005); (44008, 44008);
    (44013, 44013); (64286, 64286); (64434, 64450); (65024, 65039); (65043, 65043); (65056, 65071);
    (65106, 65106); (65109, 65109); (65279, 65279); (65287, 65287); (65294, 65294); (65306, 65306);
    (65342, 65342); (65344, 65344); (65392, 65392); (65438, 65439); (65507, 65507); (65529, 65531);
    (66045, 66045); (66272, 66272); (66422, 66426); (67456, 67461); (67463, 67504); (67506, 67514);
    (68097, 68099); (68101, 68102); (68108, 68111); (68152, 68154); (68159, 68159); (68325, 68326);
    (68900, 68903); (69291, 69292); (69446, 69456); (69506, 69509); (69633, 69633); (69688, 69702);
    (69744, 69744); (69747, 69748); (69759, 69761); (69811, 69814); (69817, 69818); (69821, 69821);
    (69826, 69826); (69837, 69837); (69888, 69890); (69927, 69931); (69933, 69940); (70003, 70003);
    (70016, 70017); (70070, 70078); (70089, 70092); (70095, 70095); (70191, 70193); (70196, 70196);
    (70198, 70199); (70206, 70206); (70367, 70367); (70371, 70378); (70400, 70401); (70459, 70460);
    (70464, 70464); (70502, 70508); (70512, 70516); (70712, 70719); (70722, 70724); (70726, 70726);
    (70750, 70750); (70835, 70840); (70842, 70842); (70847, 70848); (70850, 70851); (71090, 71093);
    (71100, 71101); (71103, 71104); (71132, 71133); (71219, 71226); (71229, 71229); (71231, 71232);
    (71339, 71339); (71341, 71341); (71344, 71349); (71351, 71351); (71453, 71455); (71458, 71461);
    (71463, 71467); (71727, 71735); (71737, 71738); (71995, 71996); (71998, 71998); (72003, 72003);
    (72148, 72151); (72154, 72155); (72160, 72160); (72193, 72202); (72243, 72248); (72251, 72254);
    (72263, 72263); (72273, 72278); (72281, 72283); (72330, 72342); (72344, 72345); (72752, 72758);
    (72760, 72765); (72767, 72767); (72850, 72871); (72874, 72880); (72882, 72883); (72885, 72886);
    (73009, 73014); (73018, 73018); (73020, 73021); (73023, 73029); (73031, 73031); (73104, 73105);
    (73109, 73109); (73111, 73111); (73459, 73460); (78896, 78904); (92912, 92916); (92976, 92982);
    (92992, 92995); (94031, 94031); (94095, 94111); (94176, 94177); (94179, 94180); (110576, 110579);
    (110581, 110587); (110589, 110590); (113821, 113822); (113824, 113827); (118528, 118573); (118576, 118598);
    (119143, 119145); (119155, 119170); (119173, 119179); (119210, 119213); (119362, 119364); (121344, 121398);
    (121403, 121452); (121461, 121461); (121476, 121476); (121499, 121503); (121505, 121519); (122880, 122886);
    (122888, 122904); (122907, 122913); (122915, 122916); (122918, 122922); (123184, 123197); (123566, 123566);
    (123628, 123631); (125136, 125142); (125252, 125259); (127995, 127999); (917505, 917505); (917536, 917631);
    (917760, 917999)
  ].

(** The cased characters that are not case-ignorable, as ranges. *)
Definition cased_table : list (Z * Z) :=
  [
    (65, 90); (97, 122); (170, 170); (181, 181); (186, 186); (192, 214);
    (216, 246); (248, 442); (444, 447); (452, 659); (661, 687); (880, 883);
    (886, 887); (891, 893); (895, 895); (902, 902); (904, 906); (908, 908);
    (910, 929); (931, 1013); (1015, 1153); (1162, 1327); (1329, 1366); (1376, 1416);
    (4256, 4293); (4295, 4295); (4301, 4301); (4304, 4346); (4349, 4351); (5024, 5109);
    (5112, 5117); (7296, 7304); (7312, 7354); (7357, 7359); (7424, 7467); (7531, 7543);
    (7545, 7578); (7680, 7957); (7960, 7965); (7968, 8005); (8008, 8013); (8016, 8023);
    (8025, 8025); (8027, 8027); (8029, 8029); (8031, 8061); (8064, 8116); (8118, 8124);
    (8126, 8126); (8130, 8132); (8134, 8140); (8144, 8147); (8150, 8155); (8160, 8172);
    (8178, 8180); (8182, 8188); (8450, 8450); (8455, 8455); (8458, 8467); (8469, 8469);
    (8473, 8477); (8484, 8484); (8486, 8486); (8488, 8488); (8490, 8493); (8495, 8500);
    (8505, 8505); (8508, 8511); (8517, 8521); (8526, 8526); (8544, 8575); (8579, 8580);
    (9398, 9449); (11264, 11387); (11390, 11492); (11499, 11502); (11506, 11507); (11520, 11557);
    (11559, 11559); (11565, 11565); (42560, 42605); (42624, 42651); (42786, 42863); (42865, 42887);
    (42891, 42894); (42896, 42954); (42960, 42961); (42963, 42963); (42965, 42969); (42997, 42998);
    (43002, 43002); (43824, 43866); (43872, 43880); (43888, 43967); (64256, 64262); (64275, 64279);
    (65313, 65338); (65345, 65370); (66560, 66639); (66736, 66771); (66776, 66811); (66928, 66938);
    (66940, 66954); (66956, 66962); (66964, 66965); (66967, 66977); (66979, 66993); (66995, 67001);
    (67003, 67004); (68736, 68786); (68800, 68850); (71840, 71903); (93760, 93823); (119808, 119892);
    (119894, 119964); (119966, 119967); (119970, 119970); (119973, 119974); (119977, 119980); (119982, 119993);
    (119995, 119995); (119997, 120003); (120005, 120069); (120071, 120074); (120077, 120084); (120086, 120092);
    (120094, 120121); (120123, 120126); (120128, 120132); (120134, 120134); (120138, 120144); (120146, 120485);
    (120488, 120512); (120514, 120538); (120540, 120570); (120572, 120596); (120598, 120628); (120630, 120654);
    (120656, 120686); (120688, 120712); (120714, 120744); (120746, 120770); (120772, 120779); (122624, 122633);
    (122635, 122654); (125184, 125251); (127280, 127305); (127312, 127337); (127344, 127369)
  ].

Fixpoint in_ranges (c : Z) (ranges : list (Z * Z)) : bool :=
  match ranges with
  | [] => false
  | (first, last) :: ranges' =>
      if c <? first then false
      else if c <=? last then true
      else in_ranges c ranges'
  end.

Definition case_ignorable (c : Z) : bool := in_ranges c case_ignorable_table.

Definition cased (c : Z) : bool := in_ranges c cased_table.

Fixpoint to_lower (c : Z) (table : list (Z * Z * Z * Z)) : Z :=
  match table with
  | [] => c
  | (first, last, step, delta) :: table' =>
      if c <? first then c
      else if (c <=? last) && ((c - first) mod step =? 0) then c + delta
      else to_lower c table'
  end.

(** The lower-case form of one character: that of the capital I with a
    dot above is two characters long. *)
Definition to_lower_full (c : Z) : list Z :=
  if c =? 304 then [105; 775] else [to_lower c lower_table].

(** Whether the next character that counts is a cased one. *)
Fixpoint followed_by_cased (l : list Z) : bool :=
  match l with
  | [] => false
  | c :: l' => if case_ignorable c then followed_by_cased l' else cased c
  end.

(** A capital sigma becomes the final sigma when a cased character
    stands before it and none after it, case-ignorable characters not
    counting; [before] says whether one stands before. *)
Fixpoint lower_points (before : bool) (l : list Z) : list Z :=
  match l with
  | [] => []
  | c :: l' =>
      ((if c =? 931 then [if before && negb (followed_by_cased l') then 962 else 963]
        else to_lower_full c)
       ++ lower_points (if case_ignorable c then before else cased c) l')%list
  end.

Definition lower (s : string) : string :=
  string_of_list_ascii
    (List.concat (map encode (lower_points false (decode (list_ascii_of_string s))))).

(** [s.replace(c, '')] for a one-character [c] *)
Fixpoint remove_char (c : ascii) (s : string) : string :=
  match s with
  | EmptyString => EmptyString
  | String a s' =>
      if Ascii.eqb a c then remove_char c s' else String a (remove_char c s')
  end.

(** [str(n)] for a natural number *)
Definition digits (n : N) : string := NilEmpty.string_of_uint (N.to_uint n).

(** Commas every three digits; the list holds the least significant
    digit first. *)
Fixpoint group3 (l : list ascii) : list ascii :=
  match l with
  | a :: b :: c :: ((_ :: _) as rest) => a :: b :: c :: ","%char :: group3 rest
  | _ => l
  end.

Definition group_thousands (s : string) : string :=
  string_of_list_ascii (rev (group3 (rev (list_ascii_of_string s)))).

(** [f"{n:,}"] for an [int] *)
Definition format_int_comma (n : Z) : string :=
  (if n <? 0 then "-" else "") ++ group_thousands (digits (Z.abs_N n)).

(** [s.rjust(w, '0')] *)
Definition zero_pad (w : nat) (s : string) : string :=
  string_of_list_ascii (repeat "0"%char (w - String.length s)) ++ s.

End PyStr.

(** ** Python floats *)

Module PyFloat.

(** What the conversions of [main.py] can raise. *)
Inductive float_error := ValueError | OverflowError.

Definition sign_str (s : bool) : string := if s then "-" else "".

(** The integer nearest to [m * 2^e], ties to even ([m >= 0]). *)
Definition round_half_even (m e : Z) : Z :=
  if 0 <=? e then m * 2 ^ e
  else
    let den := 2 ^ (- e) in
    let q := m / den in
    let r := m mod den in
    match 2 * r ?= den with
    | Lt => q
    | Gt => q + 1
    | Eq => if Z.even q then q else q + 1
    end.

(** The decimal rendering of [n / 10^d] with [d] fractional digits. *)
Definition fixed_digits (d : nat) (n : Z) : string :=
  let p := 10 ^ Z.of_nat d in
  PyStr.digits (Z.to_N (n / p)) ++
  match d with
  | O => ""
  | _ => "." ++ PyStr.zero_pad d (PyStr.digits (Z.to_N (n mod p)))
  end.

(** [f"{x:.<d>f}"]: the exact binary value rounded to [d] decimals,
    ties to even. *)
Definition format_fixed (d : nat) (x : float) : string :=
  match Prim2SF x with
  | S754_nan => "nan"
  | S754_infinity s => sign_str s ++ "inf"
  | S754_zero s => sign_str s ++ fixed_digits d 0
  | S754_finite s m e =>
      sign_str s ++ fixed_digits d (round_half_even (Zpos m * 10 ^ Z.of_nat d) e)
  end.

(** [math.floor(x)] *)
Definition floor (x : float) : float_error + Z :=
  match Prim2SF x with
  | S754_nan => inl ValueError
  | S754_infinity _ => inl OverflowError
  | S754_zero _ => inr 0
  | S754_finite s m e =>
      let v := if s then Zneg m else Zpos m in
      inr (if 0 <=? e then v * 2 ^ e else v / 2 ^ (- e))
  end.

(** [float(n)] for an [int]: nearest double, ties to even. *)
Definition of_int (n : Z) : float_error + float :=
  match binary_normalize prec emax n 0 false with
  | S754_infinity _ => inl OverflowError
  | sf => inr (SF2Prim sf)
  end.

(** The double nearest to [(-1)^s * n / d], for [n, d > 0]. *)
Definition of_ratio (s : bool) (n d : Z) : float :=
  let k := Z.max 0 (55 + Z.log2_up d - Z.log2 n) in
  let num := n * 2 ^ k in
  let q := num / d in
  let r := num mod d in
  let loc :=
    if r =? 0 then loc_Exact else loc_Inexact (2 * r ?= d) in
  SF2Prim (binary_round_aux prec emax s q (- k) loc).

(** The double nearest to [(-1)^s * n * 10^e]. *)
Definition of_decimal (s : bool) (n e : Z) : float :=
  if n =? 0 then (if s then neg_zero else zero)
  else if 0 <=? e then SF2Prim (binary_normalize prec emax ((if s then -1 else 1) * (n * 10 ^ e)) 0 false)
  else of_ratio s n (10 ^ (- e)).

(** *** [float(s)] for a [str]

    The grammar of the builtin: optional surrounding whitespace, an
    optional sign, then [inf], [infinity], [nan] (any case) or a decimal
    number with an optional fraction and an optional exponent; single
    underscores may separate digits. *)

Definition is_digit (c : ascii) : bool :=
  let n := nat_of_ascii c in (48 <=? n)%nat && (n <=? 57)%nat.

Definition digit_val (c : ascii) : Z := Z.of_nat (nat_of_ascii c) - 48.

(** White space in ASCII: blank, tab, line feed, vertical tab, form feed
    and carriage return. *)
Definition is_space (c : ascii) : bool :=
  let n := nat_of_ascii c in
  ((9 <=? n)%nat && (n <=? 13)%nat) || (n =? 32)%nat.

Fixpoint lstrip (l : list ascii) : list ascii :=
  match l with
  | c :: l' => if is_space c then lstrip l' else l
  | [] => []
  end.

Definition strip (l : list ascii) : list ascii := rev (lstrip (rev (lstrip l))).

(** Reads a run of digits: the value accumulated on [acc], the number of
    digits read added to [cnt], and the unread rest. *)
Fixpoint scan_digits (l : list ascii) (acc cnt : Z) : Z * Z * list ascii :=
  match l with
  | c :: l' =>
      if is_digit c then scan_digits l' (10 * acc + digit_val c) (cnt + 1)
      else if Ascii.eqb c "_" && (0 <? cnt) then
        match l' with
        | d :: _ => if is_digit d then scan_digits l' acc cnt else (acc, cnt, l)
        | [] => (acc, cnt, l)
        end
      else (acc, cnt, l)
  | [] => (acc, cnt, l)
  end.

Definition scan_sign (l : list ascii) : bool * list ascii :=
  match l with
  | "-"%char :: l' => (true, l')
  | "+"%char :: l' => (false, l')
  | _ => (false, l)
  end.

(** The exponent part: [None] when malformed, [Some 0] when absent. *)
Definition scan_exponent (l : list ascii) : option Z :=
  match l with
  | [] => Some 0
  | c :: l' =>
      if Ascii.eqb c "e" || Ascii.eqb c "E" then
        let '(s, l1) := scan_sign l' in
        match scan_digits l1 0 0 with
        | (v, cnt, []) => if 0 <? cnt then Some (if s then - v else v) else None
        | _ => None
        end
      else None
  end.

(** The white space outside ASCII, in Unicode 14.0, as ranges. *)
Definition space_table : list (Z * Z) :=
  [
    (133, 133); (160, 160); (5760, 5760); (8192, 8202); (8232, 8233); (8239, 8239);
    (8287, 8287); (12288, 12288)
  ].

(** The decimal digits outside ASCII, as ranges: each starts at a zero,
    and the digits follow one another. *)
Definition decimal_table : list (Z * Z) :=
  [
    (1632, 1641); (1776, 1785); (1984, 1993); (2406, 2415); (2534, 2543); (2662, 2671);
    (2790, 2799); (2918, 2927); (3046, 3055); (3174, 3183); (3302, 3311); (3430, 3439);
    (3558, 3567); (3664, 3673); (3792, 3801); (3872, 3881); (4160, 4169); (4240, 4249);
    (6112, 6121); (6160, 6169); (6470, 6479); (6608, 6617); (6784, 6793); (6800, 6809);
    (6992, 7001); (7088, 7097); (7232, 7241); (7248, 7257); (42528, 42537); (43216, 43225);
    (43264, 43273); (43472, 43481); (43504, 43513); (43600, 43609); (44016, 44025); (65296, 65305);
    (66720, 66729); (68912, 68921); (69734, 69743); (69872, 69881); (69942, 69951); (70096, 70105);
    (70384, 70393); (70736, 70745); (70864, 70873); (71248, 71257); (71360, 71369); (71472, 71481);
    (71904, 71913); (72016, 72025); (72784, 72793); (73040, 73049); (73120, 73129); (92768, 92777);
    (92864, 92873); (93008, 93017); (120782, 120831); (123200, 123209); (123632, 123641); (125264, 125273);
    (130032, 130041)
  ].

Fixpoint decimal_of (c : Z) (ranges : list (Z * Z)) : option Z :=
  match ranges with
  | [] => None
  | (first, last) :: ranges' =>
      if c <? first then None
      else if c <=? last then Some ((c - first) mod 10)
      else decimal_of c ranges'
  end.

Definition is_ascii (c : ascii) : bool := PyStr.byte c <? 128.

Definition to_ascii_char (c : Z) : ascii :=
  if c <? 128 then PyStr.of_byte c
  else if PyStr.in_ranges c space_table then " "%char
  else
    match decimal_of c decimal_table with
    | Some d => PyStr.of_byte (48 + d)
    | None => "?"%char
    end.

(** A [str] that is not ASCII is read after its white space has been
    turned into blanks and its decimal digits into ASCII digits; any
    other character outside ASCII becomes one that no number holds. *)
Definition to_ascii (l : list ascii) : list ascii :=
  if forallb is_ascii l then l else map to_ascii_char (PyStr.decode l).

Definition of_string (str : string) : float_error + float :=
  let '(s, body) := scan_sign (strip (to_ascii (list_ascii_of_string str))) in
  let word := PyStr.ascii_lower (string_of_list_ascii body) in
  if String.eqb word "inf" || String.eqb word "infinity" then
    inr (if s then neg_infinity else infinity)
  else if String.eqb word "nan" then inr nan
  else
    let '(ip, ni, l1) := scan_digits body 0 0 in
    let '(n, nf, l2) :=
      match l1 with
      | "."%char :: l1' => scan_digits l1' ip 0
      | _ => (ip, 0, l1)
      end in
    if (ni =? 0) && (nf =? 0) then inl ValueError
    else
      match scan_exponent l2 with
      | Some e => inr (of_decimal s n (e - nf))
      | None => inl ValueError
      end.

(** [x < y] and [x == y] on floats *)
Definition lt (x y : float) : bool := PrimFloat.ltb x y.
Definition eq (x y : float) : bool := PrimFloat.eqb x y.

(** [x is NaN] *)
Definition is_nan (x : float) : bool := PrimFloat.is_nan x.

End PyFloat.

(** ** Data model *)

Inductive SortCriterion :=
  ID | PRICE | VOLUME | PLUS_DEPTH | MINUS_DEPTH | EXCHANGE | VOLUME_PERCENTAGE.

#[global] Instance SortCriterion_eq_dec : EqDecision SortCriterion.
Proof. solve_decision. Defined.

(** The name of a [SortCriterion] member. *)
Definition SortCriterion_name (c : SortCriterion) : string :=
  match c with
  | ID => "ID"
  | PRICE => "PRICE"
  | VOLUME => "VOLUME"
  | PLUS_DEPTH => "PLUS_DEPTH"
  | MINUS_DEPTH => "MINUS_DEPTH"
  | EXCHANGE => "EXCHANGE"
  | VOLUME_PERCENTAGE => "VOLUME_PERCENTAGE"
  end.

(** The value of a [SortCriterion] member: what the query parameter
    [sort_by] is matched against. *)
Definition SortCriterion_value (c : SortCriterion) : string :=
  match c with
  | ID => "id"
  | PRICE => "price"
  | VOLUME => "volume"
  | PLUS_DEPTH => "plus_depth"
  | MINUS_DEPTH => "minus_depth"
  | EXCHANGE => "exchange"
  | VOLUME_PERCENTAGE => "volume_percentage"
  end.

Module ExchangeData.
Record t := Build {
  id : Z;
  exchange : string;
  pair : string;
  price : string;
  price_percent : option float;
  plusTwoPercentDepth : string;
  minusTwoPercentDepth : string;
  volume24h : string;
  volumePercentage : string;
  lastUpdated : string;
  icon : option string;
  url : option string
}.

(** Attribute assignment [x.f = v]. *)
Definition set_id (v : Z) (x : t) : t :=
  Build v (exchange x) (pair x) (price x) (price_percent x) (plusTwoPercentDepth x)
    (minusTwoPercentDepth x) (volume24h x) (volumePercentage x) (lastUpdated x) (icon x) (url x).
Definition set_pair (v : string) (x : t) : t :=
  Build (id x) (exchange x) v (price x) (price_percent x) (plusTwoPercentDepth x)
    (minusTwoPercentDepth x) (volume24h x) (volumePercentage x) (lastUpdated x) (icon x) (url x).
Definition set_price (v : string) (x : t) : t :=
  Build (id x) (exchange x) (pair x) v (price_percent x) (plusTwoPercentDepth x)
    (minusTwoPercentDepth x) (volume24h x) (volumePercentage x) (lastUpdated x) (icon x) (url x).
Definition set_price_percent (v : option float) (x : t) : t :=
  Build (id x) (exchange x) (pair x) (price x) v (plusTwoPercentDepth x)
    (minusTwoPercentDepth x) (volume24h x) (volumePercentage x) (lastUpdated x) (icon x) (url x).
Definition set_plusTwoPercentDepth (v : string) (x : t) : t :=
  Build (id x) (exchange x) (pair x) (price x) (price_percent x) v
    (minusTwoPercentDepth x) (volume24h x) (volumePercentage x) (lastUpdated x) (icon x) (url x).
Definition set_minusTwoPercentDepth (v : string) (x : t) : t :=
  Build (id x) (exchange x) (pair x) (price x) (price_percent x) (plusTwoPercentDepth x)
    v (volume24h x) (volumePercentage x) (lastUpdated x) (icon x) (url x).
Definition set_volume24h (v : string) (x : t) : t :=
  Build (id x) (exchange x) (pair x) (price x) (price_percent x) (plusTwoPercentDepth x)
    (minusTwoPercentDepth x) v (volumePercentage x) (lastUpdated x) (icon x) (url x).
Definition set_volumePercentage (v : string) (x : t) : t :=
  Build (id x) (exchange x) (pair x) (price x) (price_percent x) (plusTwoPercentDepth x)
    (minusTwoPercentDepth x) (volume24h x) v (lastUpdated x) (icon x) (url x).
Definition set_lastUpdated (v : string) (x : t) : t :=
  Build (id x) (exchange x) (pair x) (price x) (price_percent x) (plusTwoPercentDepth x)
    (minusTwoPercentDepth x) (volume24h x) (volumePercentage x) v (icon x) (url x).
Definition set_icon (v : option string) (x : t) : t :=
  Build (id x) (exchange x) (pair x) (price x) (price_percent x) (plusTwoPercentDepth x)
    (minusTwoPercentDepth x) (volume24h x) (volumePercentage x) (lastUpdated x) v (url x).
Definition set_url (v : option string) (x : t) : t :=
  Build (id x) (exchange x) (pair x) (price x) (price_percent x) (plusTwoPercentDepth x)
    (minusTwoPercentDepth x) (volume24h x) (volumePercentage x) (lastUpdated x) (icon x) v.
End ExchangeData.

(** The body of [{'status': ..., 'data': [...]}] responses. *)
Record ExchangeResponse := {
  status : string;
  data : list ExchangeData.t
}.

Module CustomExchangeInput.
Record t := Build {
  exchange : string;
  pair : string;
  price_percent : option float;
  plusTwoPercentDepth : float;
  minusTwoPercentDepth : float;
  volume24h : float;
  volumePercentage : float;
  icon : option string;
  url : option string
}.
End CustomExchangeInput.

Module CustomExchangeUpdateInput.
Record t := Build {
  pair : option string;
  price : option float;
  price_percent : option float;
  plusTwoPercentDepth : option float;
  minusTwoPercentDepth : option float;
  volume24h : option float;
  volumePercentage : option float;
  icon : option string;
  url : option string
}.
End CustomExchangeUpdateInput.

(** ** The [custom_exchanges] dict

    A Python dict keeps its keys in insertion order: assigning to a key that
    is present keeps its place, a new key goes last. *)

Module Dict.
Section Dict.
Context {V : Type}.

Definition t := list (string * V).

Fixpoint get (k : string) (d : t) : option V :=
  match d with
  | [] => None
  | (k', v) :: d' => if String.eqb k k' then Some v else get k d'
  end.

(** [k in d] *)
Definition mem (k : string) (d : t) : bool :=
  match get k d with Some _ => true | None => false end.

(** [d[k] = v] *)
Fixpoint set (k : string) (v : V) (d : t) : t :=
  match d with
  | [] => [(k, v)]
  | (k', v') :: d' =>
      if String.eqb k k' then (k', v) :: d' else (k', v') :: set k v d'
  end.

(** [del d[k]] *)
Fixpoint del (k : string) (d : t) : t :=
  match d with
  | [] => []
  | (k', v') :: d' => if String.eqb k k' then d' else (k', v') :: del k d'
  end.

Definition keys (d : t) : list string := map fst d.
Definition values (d : t) : list V := map snd d.

(** Keys are unique: the invariant of a dict. *)
Definition wf (d : t) : Prop := NoDup (keys d).
End Dict.
Arguments t : clear implicits.
End Dict.

(** ** The outside world

    External services answer as the environment decides.  Every external
    call (an HTTP request, a Redis command) takes the next tick of a clock,
    and the environment's answer is a function of that tick, so that any
    sequence of answers and failures can be described. *)

(** What [requests.get] gives: an exception, or a response. *)
Inductive HttpReply (A : Type) :=
  | ConnectionError
  | Reply (status_code : Z) (body : A).
Arguments ConnectionError {A}.
Arguments Reply {A}.

(** A JSON number, as [json] parses it. *)
Inductive number := Int (n : Z) | Float (x : float).

(** One entry of [data['tickers']], with the keys the service reads. *)
Module Ticker.
Record t := Build {
  target : string;
  converted_volume_usd : option number;
  market_identifier : option string;
  market_name : option string;
  last : number;
  bid_ask_spread_percentage : option number
}.
End Ticker.

(** One entry of the [/exchanges] listing. *)
Module ExchangeInfo.
Record t := Build {
  id : string;
  image : option string;
  url : option string
}.
End ExchangeInfo.

Inductive Endpoint := BinanceTickerPrice | CoinGeckoExchanges | CoinGeckoTickers.

Inductive Event :=
  | RedisGet (key : string)
  | RedisSetex (key : string) (ttl : Z) (value : string)
  | HttpGet (e : Endpoint).

(** A body is [None] when decoding it, or reading a key the service needs,
    raises. *)
Record Env := {
  binance_ticker_price : nat -> HttpReply (option string);
  coingecko_exchanges : nat -> HttpReply (option (list ExchangeInfo.t));
  coingecko_tickers : nat -> HttpReply (option (list Ticker.t));
  redis_down : nat -> bool;
  json_dumps : ExchangeResponse -> option string;
  json_loads : string -> option ExchangeResponse
}.

(** The exceptions the service meets.  The detail text of an
    [HTTPException] is for display and is left out. *)
Inductive exn :=
  | HTTPException (status_code : Z)
  | RedisError
  | RequestException
  | MalformedBody
  | TypeError
  | FloatError (e : PyFloat.float_error).

Record World := {
  custom_exchanges : Dict.t ExchangeData.t;
  redis_client : gmap string (Z * string);
  clock : nat;
  log : list Event
}.

(** ** Computations: state and exceptions *)

Inductive outcome (A : Type) :=
  | Return (a : A)
  | Raise (e : exn).
Arguments Return {A}.
Arguments Raise {A}.

Definition M (A : Type) : Type := World -> outcome A * World.

Definition ret {A} (a : A) : M A := fun w => (Return a, w).

Definition raise {A} (e : exn) : M A := fun w => (Raise e, w).

Definition bind {A B} (m : M A) (k : A -> M B) : M B :=
  fun w =>
    match m w with
    | (Return a, w') => k a w'
    | (Raise e, w') => (Raise e, w')
    end.

(** [try: m  except Exception as e: h e] *)
Definition try_except {A} (m : M A) (h : exn -> M A) : M A :=
  fun w =>
    match m w with
    | (Return a, w') => (Return a, w')
    | (Raise e, w') => h e w'
    end.

Declare Scope py_scope.
Delimit Scope py_scope with py.
Notation "'let!' x ':=' m 'in' k" := (bind m (fun x => k))
  (at level 10, x name, m at level 100, k at level 200) : py_scope.
Notation "'let!' ' p ':=' m 'in' k" := (bind m (fun p => k))
  (at level 10, p strict pattern, m at level 100, k at level 200) : py_scope.
Notation "'run!' m 'in' k" := (bind m (fun _ => k))
  (at level 10, m at level 100, k at level 200) : py_scope.

(** Conversions that may raise, outside any state. *)
Definition and_then {E A B} (r : E + A) (k : A -> E + B) : E + B :=
  match r with
  | inl e => inl e
  | inr a => k a
  end.
Notation "'let?' x ':=' m 'in' k" := (and_then m (fun x => k))
  (at level 10, x name, m at level 100, k at level 200) : py_scope.
#[local] Open Scope py_scope.

Definition lift_float {A} (r : PyFloat.float_error + A) : M A :=
  match r with
  | inl e => raise (FloatError e)
  | inr a => ret a
  end.

Definition get_custom_exchanges_dict : M (Dict.t ExchangeData.t) :=
  fun w => (Return (custom_exchanges w), w).

(** The world with [d] for its store. *)
Definition with_store (d : Dict.t ExchangeData.t) (w : World) : World :=
  {| custom_exchanges := d; redis_client := redis_client w;
     clock := clock w; log := log w |}.

Definition put_custom_exchanges (d : Dict.t ExchangeData.t) : M unit :=
  fun w => (Return tt, with_store d w).

(** The world once an external call has been made: the call is on the
    log and the clock has moved on. *)
Definition after_call (ev : Event) (w : World) : World :=
  {| custom_exchanges := custom_exchanges w; redis_client := redis_client w;
     clock := S (clock w); log := (log w ++ [ev])%list |}.

(** An external call: the tick it takes, and its record in the log. *)
Definition external_call (ev : Event) : M nat :=
  fun w => (Return (clock w), after_call ev w).

(** The world with [value] cached under [key]. *)
Definition with_cached (key : string) (ttl : Z) (value : string) (w : World) : World :=
  {| custom_exchanges := custom_exchanges w;
     redis_client := <[key := (ttl, value)]> (redis_client w);
     clock := clock w; log := log w |}.

Section Service.
Variable env : Env.

(** [requests.get(url)] *)
Definition requests_get {A} (e : Endpoint) (answer : nat -> HttpReply A)
  : M (Z * A) :=
  let! n := external_call (HttpGet e) in
  match answer n with
  | ConnectionError => raise RequestException
  | Reply code body => ret (code, body)
  end.

(** [redis_client.get(key)] *)
Definition redis_get (key : string) : M (option string) :=
  let! n := external_call (RedisGet key) in
  if redis_down env n then raise RedisError
  else fun w => (Return (snd <$> redis_client w !! key), w).

(** [redis_client.setex(key, ttl, value)] *)
Definition redis_setex (key : string) (ttl : Z) (value : string) : M unit :=
  let! n := external_call (RedisSetex key ttl value) in
  if redis_down env n then raise RedisError
  else fun w => (Return tt, with_cached key ttl value w).

(** [json.dumps(result)] *)
Definition dumps (r : ExchangeResponse) : M string :=
  match json_dumps env r with
  | Some s => ret s
  | None => raise TypeError
  end.

(** [json.loads(payload)] *)
Definition loads (s : string) : M ExchangeResponse :=
  match json_loads env s with
  | Some r => ret r
  | None => raise MalformedBody
  end.

(** *** [get_binance_ltc_price]

    The price, or 0 when it cannot be had: any exception is swallowed. *)
Definition get_binance_ltc_price : M float :=
  try_except
    (let! '(code, body) := requests_get BinanceTickerPrice (binance_ticker_price env) in
     if code =? 200 then
       match body with
       | Some s => lift_float (PyFloat.of_string s)
       | None => raise MalformedBody
       end
     else ret 0%float)
    (fun _ => ret 0%float).

(** What the gateway hands back when its request takes tick [n]. *)
Definition binance_price_at (n : nat) : float :=
  match binance_ticker_price env n with
  | Reply code (Some s) =>
      if code =? 200 then
        match PyFloat.of_string s with
        | inr x => x
        | inl _ => 0%float
        end
      else 0%float
  | _ => 0%float
  end.

(** *** Formatting of listing fields *)

(** [f"{x:.4f}"] *)
Definition format_price (x : float) : string := PyFloat.format_fixed 4 x.

(** [f"${math.floor(x):,}"] *)
Definition format_money (x : float) : M string :=
  let! n := lift_float (PyFloat.floor x) in
  ret ("$" ++ PyStr.format_int_comma n).

(** [f"{x:.2f}%"] *)
Definition format_percentage (x : float) : string :=
  PyFloat.format_fixed 2 x ++ "%".

(** The truth value of a float: anything but zero. *)
Definition truthy (x : float) : bool := negb (PyFloat.eq x 0).

(** [binance_price * (1 + price_percent / 100)] *)
Definition adjusted_price (binance_price price_percent : float) : float :=
  (binance_price * (1 + price_percent / 100))%float.

(** *** POST /api/custom-exchanges *)
Definition add_custom_exchange (exchange_data : CustomExchangeInput.t) : M unit :=
  let exchange_id := PyStr.lower (CustomExchangeInput.exchange exchange_data) in
  let! price :=
    match CustomExchangeInput.price_percent exchange_data with
    | Some p =>
        let! binance_price := get_binance_ltc_price in
        if PyFloat.lt 0 binance_price
        then ret (Some (adjusted_price binance_price p))
        else ret None
    | None => ret None
    end in
  let price_str :=
    match price with
    | Some x => if truthy x then format_price x else "0.0000"
    | None => "0.0000"
    end in
  let! plus := format_money (CustomExchangeInput.plusTwoPercentDepth exchange_data) in
  let! minus := format_money (CustomExchangeInput.minusTwoPercentDepth exchange_data) in
  let! volume := format_money (CustomExchangeInput.volume24h exchange_data) in
  let entry :=
    ExchangeData.Build 0
      (CustomExchangeInput.exchange exchange_data)
      (CustomExchangeInput.pair exchange_data)
      price_str
      (CustomExchangeInput.price_percent exchange_data)
      plus minus volume
      (format_percentage (CustomExchangeInput.volumePercentage exchange_data))
      "Recently"
      (CustomExchangeInput.icon exchange_data)
      (CustomExchangeInput.url exchange_data) in
  let! d := get_custom_exchanges_dict in
  put_custom_exchanges (Dict.set exchange_id entry d).

(** *** GET /api/custom-exchanges *)
Definition get_custom_exchanges : M ExchangeResponse :=
  let! d := get_custom_exchanges_dict in
  ret {| status := "success"; data := Dict.values d |}.

(** *** DELETE /api/custom-exchanges/{exchange_name} *)
Definition delete_custom_exchange (exchange_name : string) : M unit :=
  let exchange_id := PyStr.lower exchange_name in
  let! d := get_custom_exchanges_dict in
  if Dict.mem exchange_id d
  then put_custom_exchanges (Dict.del exchange_id d)
  else raise (HTTPException 404).

(** An assignment to an attribute of the object stored under
    [exchange_id]: the dict holds the object itself, so the store
    changes with it. *)
Definition assign (exchange_id : string) (f : ExchangeData.t -> ExchangeData.t)
  : M unit :=
  let! d := get_custom_exchanges_dict in
  match Dict.get exchange_id d with
  | Some x => put_custom_exchanges (Dict.set exchange_id (f x) d)
  | None => ret tt
  end.

(** [if v is not None: body v] *)
Definition when_given {A} (v : option A) (body : A -> M unit) : M unit :=
  match v with
  | Some a => body a
  | None => ret tt
  end.

(** *** PATCH /api/custom-exchanges/{exchange_name} *)
Definition update_custom_exchange
  (exchange_name : string) (exchange_data : CustomExchangeUpdateInput.t)
  : M (option ExchangeData.t) :=
  let exchange_id := PyStr.lower exchange_name in
  let! d := get_custom_exchanges_dict in
  if negb (Dict.mem exchange_id d) then raise (HTTPException 404)
  else
    run! when_given (CustomExchangeUpdateInput.pair exchange_data)
           (fun v => assign exchange_id (ExchangeData.set_pair v)) in
    run! match CustomExchangeUpdateInput.price_percent exchange_data with
         | Some p =>
             run! assign exchange_id (ExchangeData.set_price_percent (Some p)) in
             let! binance_price := get_binance_ltc_price in
             if PyFloat.lt 0 binance_price
             then assign exchange_id
                    (ExchangeData.set_price (format_price (adjusted_price binance_price p)))
             else ret tt
         | None =>
             when_given (CustomExchangeUpdateInput.price exchange_data)
               (fun v =>
                  run! assign exchange_id (ExchangeData.set_price (format_price v)) in
                  assign exchange_id (ExchangeData.set_price_percent None))
         end in
    run! when_given (CustomExchangeUpdateInput.plusTwoPercentDepth exchange_data)
           (fun v => let! s := format_money v in
                     assign exchange_id (ExchangeData.set_plusTwoPercentDepth s)) in
    run! when_given (CustomExchangeUpdateInput.minusTwoPercentDepth exchange_data)
           (fun v => let! s := format_money v in
                     assign exchange_id (ExchangeData.set_minusTwoPercentDepth s)) in
    run! when_given (CustomExchangeUpdateInput.volume24h exchange_data)
           (fun v => let! s := format_money v in
                     assign exchange_id (ExchangeData.set_volume24h s)) in
    run! when_given (CustomExchangeUpdateInput.volumePercentage exchange_data)
           (fun v => assign exchange_id
                       (ExchangeData.set_volumePercentage (format_percentage v))) in
    run! when_given (CustomExchangeUpdateInput.icon exchange_data)
           (fun v => assign exchange_id (ExchangeData.set_icon (Some v))) in
    run! when_given (CustomExchangeUpdateInput.url exchange_data)
           (fun v => assign exchange_id (ExchangeData.set_url (Some v))) in
    run! assign exchange_id (ExchangeData.set_lastUpdated "Recently") in
    let! d' := get_custom_exchanges_dict in
    ret (Dict.get exchange_id d').

(** *** [fetch_exchange_data_from_api] *)

Definition hardcoded_icons : list (string * string) :=
  [ ("bitstorage", "https://coin-images.coingecko.com/markets/images/394/small/Group_3575807.png?1706864409");
    ("bcex", "https://coin-images.coingecko.com/markets/images/190/small/bcex.jpg?1706864323");
    ("trade_ogre", "https://coin-images.coingecko.com/markets/images/101/small/tradeogre.jpeg?1706864289");
    ("oceanex", "https://coin-images.coingecko.com/markets/images/341/small/Oceanex.png?1706864383");
    ("probit", "https://coin-images.coingecko.com/markets/images/370/small/probit.png?1706864390");
    ("grovex", "https://coin-images.coingecko.com/markets/images/11852/small/GroveX_200px.png?1738737388");
    ("poloniex", "https://coin-images.coingecko.com/markets/images/37/small/poloniex.png?1706864269");
    ("toko_crypto", "https://coin-images.coingecko.com/markets/images/501/small/toko.png?1706864476");
    ("cex", "https://coin-images.coingecko.com/markets/images/56/small/main-icon.png?1706864277");
    ("hitbtc", "https://coin-images.coingecko.com/markets/images/25/small/hitbtc.png");
    ("coincatch", "https://coin-images.coingecko.com/markets/images/1214/small/CoinCatch_New_Logo.jpeg?1729059088") ].

(** [mapping[k] = v] for each pair, in order *)
Definition dict_update (kvs : list (string * option string))
  (mapping : gmap string (option string)) : gmap string (option string) :=
  fold_left (fun m kv => <[fst kv := snd kv]> m) kvs mapping.

(** [mapping.get(k)], where [k] itself may be [None] *)
Definition mapping_get (mapping : gmap string (option string)) (k : option string)
  : option string :=
  match k with
  | Some k' => match mapping !! k' with Some v => v | None => None end
  | None => None
  end.

(** [float(v)] for a JSON number *)
Definition number_to_float (v : number) : PyFloat.float_error + float :=
  match v with
  | Int n => PyFloat.of_int n
  | Float x => inr x
  end.

(** [math.floor(v)] for a JSON number *)
Definition number_floor (v : number) : PyFloat.float_error + Z :=
  match v with
  | Int n => inr n
  | Float x => PyFloat.floor x
  end.

(** [math.floor(base_volume_usd * rate)] *)
Definition depth_estimate (base_volume_usd : number) (rate : float)
  : PyFloat.float_error + Z :=
  let? v := number_to_float base_volume_usd in
  PyFloat.floor (v * rate)%float.

(** [ticker['converted_volume'].get('usd', 0)] *)
Definition base_volume_usd (ticker : Ticker.t) : number :=
  match Ticker.converted_volume_usd ticker with Some v => v | None => Int 0 end.

(** The row built from one USDT ticker. *)
Definition ticker_row (exchange_icon_mapping exchange_url_mapping : gmap string (option string))
  (ticker : Ticker.t) : PyFloat.float_error + ExchangeData.t :=
  let? plus_two_percent_depth := depth_estimate (base_volume_usd ticker) 0.06%float in
  let? minus_two_percent_depth := depth_estimate (base_volume_usd ticker) 0.05%float in
  let exchange_identifier := Ticker.market_identifier ticker in
  let exchange_name :=
    match Ticker.market_name ticker with Some n => n | None => "Unknown" end in
  let icon_url := mapping_get exchange_icon_mapping exchange_identifier in
  let exchange_url := mapping_get exchange_url_mapping exchange_identifier in
  let? last := number_to_float (Ticker.last ticker) in
  let? volume := number_floor (base_volume_usd ticker) in
  let? spread :=
    number_to_float
      (match Ticker.bid_ask_spread_percentage ticker with
       | Some v => v
       | None => Float 1.0%float
       end) in
  inr (ExchangeData.Build 0 exchange_name "LTC/USDT"
         (format_price last)
         None
         ("$" ++ PyStr.format_int_comma plus_two_percent_depth)
         ("$" ++ PyStr.format_int_comma minus_two_percent_depth)
         ("$" ++ PyStr.format_int_comma volume)
         (format_percentage spread)
         "Recently" icon_url exchange_url).

(** The loop over [data['tickers']]: only the LTC/USDT pairs are kept. *)
Fixpoint ticker_rows (icons urls : gmap string (option string))
  (tickers : list Ticker.t) : PyFloat.float_error + list ExchangeData.t :=
  match tickers with
  | [] => inr []
  | ticker :: rest =>
      if String.eqb (Ticker.target ticker) "USDT" then
        let? row := ticker_row icons urls ticker in
        let? rows := ticker_rows icons urls rest in
        inr (row :: rows)
      else ticker_rows icons urls rest
  end.

(** The price of a custom exchange at merge time. *)
Definition merged_price (custom_exchange : ExchangeData.t) : M string :=
  match ExchangeData.price_percent custom_exchange with
  | Some p =>
      let! binance_price := get_binance_ltc_price in
      if PyFloat.lt 0 binance_price
      then ret (format_price (adjusted_price binance_price p))
      else ret (ExchangeData.price custom_exchange)
  | None => ret (ExchangeData.price custom_exchange)
  end.

(** The loop over [custom_exchanges.values()]: a copy of each, with its
    price brought up to date. *)
Fixpoint custom_rows (customs : list ExchangeData.t) : M (list ExchangeData.t) :=
  match customs with
  | [] => ret []
  | custom_exchange :: rest =>
      let! price_str := merged_price custom_exchange in
      let exchange_copy :=
        ExchangeData.Build 0
          (ExchangeData.exchange custom_exchange)
          (ExchangeData.pair custom_exchange)
          price_str
          (ExchangeData.price_percent custom_exchange)
          (ExchangeData.plusTwoPercentDepth custom_exchange)
          (ExchangeData.minusTwoPercentDepth custom_exchange)
          (ExchangeData.volume24h custom_exchange)
          (ExchangeData.volumePercentage custom_exchange)
          (ExchangeData.lastUpdated custom_exchange)
          (ExchangeData.icon custom_exchange)
          (ExchangeData.url custom_exchange) in
      let! rows := custom_rows rest in
      ret (exchange_copy :: rows)
  end.

(** [for i, exchange in enumerate(exchanges, start=i): exchange.id = i] *)
Fixpoint assign_ids (i : Z) (exchanges : list ExchangeData.t) : list ExchangeData.t :=
  match exchanges with
  | [] => []
  | exchange :: rest => ExchangeData.set_id i exchange :: assign_ids (i + 1) rest
  end.

(** The icon of each exchange identifier: the provider's, overridden by
    the hard-coded ones. *)
Definition icon_mapping (exchanges_data : list ExchangeInfo.t) : gmap string (option string) :=
  dict_update (map (fun kv => (fst kv, Some (snd kv))) hardcoded_icons)
    (dict_update
       (map (fun ex => (ExchangeInfo.id ex, ExchangeInfo.image ex)) exchanges_data) ∅).

(** The URL of each exchange identifier. *)
Definition url_mapping (exchanges_data : list ExchangeInfo.t) : gmap string (option string) :=
  dict_update (map (fun ex => (ExchangeInfo.id ex, ExchangeInfo.url ex)) exchanges_data) ∅.

Definition fetch_exchange_data_from_api : M (list ExchangeData.t) :=
  let! '(code, body) := requests_get CoinGeckoExchanges (coingecko_exchanges env) in
  let! exchanges_data :=
    if code =? 200 then
      match body with
      | Some exchanges_data => ret exchanges_data
      | None => raise MalformedBody
      end
    else ret [] in
  let exchange_icon_mapping := icon_mapping exchanges_data in
  let exchange_url_mapping := url_mapping exchanges_data in
  let! '(code, body) := requests_get CoinGeckoTickers (coingecko_tickers env) in
  if negb (code =? 200) then raise (HTTPException code)
  else
    let! tickers :=
      match body with
      | Some tickers => ret tickers
      | None => raise MalformedBody
      end in
    let! exchanges :=
      lift_float (ticker_rows exchange_icon_mapping exchange_url_mapping tickers) in
    let! d := get_custom_exchanges_dict in
    let! customs := custom_rows (Dict.values d) in
    ret (assign_ids 1 (exchanges ++ customs)).

(** *** [list.sort(key=..., reverse=...)]

    [list.sort] computes the key of every element first, then orders the
    elements with [<] on the keys alone.  The algorithm is CPython's
    (3.11, [Objects/listobject.c]): natural runs are found from the left,
    short ones are lengthened by a binary insertion sort, and
    neighbouring runs are merged, galloping through stretches where one
    run wins again and again; which runs are merged when is decided by
    their powers.  With [reverse=True] the list is reversed, sorted and
    reversed again.  On keys that [<] orders the result is the stable
    arrangement; a NaN key answers false to every comparison, and where
    the elements then end up is a matter of the comparisons made, which
    is why the algorithm is followed step by step. *)

Inductive sort_key :=
  | KInt (n : Z)
  | KFloat (x : float)
  | KStr (s : string).

(** [a < b] on keys of one kind *)
Definition key_lt (a b : sort_key) : bool :=
  match a, b with
  | KInt m, KInt n => m <? n
  | KFloat x, KFloat y => PyFloat.lt x y
  | KStr s, KStr t => String.ltb s t
  | _, _ => false
  end.

(** [a == b] on keys of one kind *)
Definition key_eq (a b : sort_key) : bool :=
  match a, b with
  | KInt m, KInt n => m =? n
  | KFloat x, KFloat y => PyFloat.eq x y
  | KStr s, KStr t => String.eqb s t
  | _, _ => false
  end.

Section Sort.
Context {A : Type}.
#[local] Open Scope nat_scope.
#[local] Open Scope list_scope.

(** [x < y] on the keys of two elements *)
Definition item_lt (x y : sort_key * A) : bool := key_lt (fst x) (fst y).

(** **** [count_run]

    The length of the run that starts the list, and whether it is a
    descending one: a run is either [a0 <= a1 <= ...] or
    [a0 > a1 > ...]. *)
Fixpoint run_length (descending : bool) (prev : sort_key * A) (l : list (sort_key * A)) : nat :=
  match l with
  | [] => 0
  | x :: l' =>
      if Bool.eqb (item_lt x prev) descending then S (run_length descending x l') else 0
  end.

Definition count_run (l : list (sort_key * A)) : nat * bool :=
  match l with
  | [] => (0, false)
  | [x] => (1, false)
  | x :: y :: l' =>
      let descending := item_lt y x in
      (2 + run_length descending y l', descending)
  end.

(** **** The binary search of [binarysort] and of the galloping searches

    [right m] says that what is looked for lies to the right of [a[m]];
    the search ends where [right] changes from true to false. *)
Fixpoint bisect (fuel : nat) (right : nat -> bool) (lastofs ofs : nat) : nat :=
  match fuel with
  | O => ofs
  | S fuel' =>
      if lastofs <? ofs then
        let m := lastofs + (ofs - lastofs) / 2 in
        if right m then bisect fuel' right (S m) ofs
        else bisect fuel' right lastofs m
      else ofs
  end.

(** **** [binarysort]

    [pivot] is put into the sorted [a], to the right of the elements
    that are not greater. *)
Definition binary_insert (a : list (sort_key * A)) (pivot : sort_key * A) : list (sort_key * A) :=
  let l := bisect (length a) (fun p => negb (item_lt pivot (nth p a pivot))) 0 (length a) in
  firstn l a ++ pivot :: skipn l a.

(** [a] is sorted; the elements of [rest] are inserted one after the
    other. *)
Definition binarysort (a rest : list (sort_key * A)) : list (sort_key * A) :=
  fold_left binary_insert rest a.

(** **** [gallop_left] and [gallop_right]

    [right i] says that the key belongs to the right of [a[i]].  From
    [hint] the search doubles its step, to the right while [right] holds
    or to the left while it does not, and then searches the last step. *)
Fixpoint gallop_ofs (fuel : nat) (continue : nat -> bool) (maxofs lastofs ofs : nat)
  : nat * nat :=
  match fuel with
  | O => (lastofs, ofs)
  | S fuel' =>
      if ofs <? maxofs then
        if continue ofs then gallop_ofs fuel' continue maxofs ofs (2 * ofs + 1)
        else (lastofs, ofs)
      else (lastofs, ofs)
  end.

Definition gallop (right : nat -> bool) (n hint : nat) : nat :=
  if right hint then
    let maxofs := n - hint in
    let '(lastofs, ofs) := gallop_ofs n (fun ofs => right (hint + ofs)) maxofs 0 1 in
    let ofs := Nat.min ofs maxofs in
    bisect n right (lastofs + hint + 1) (ofs + hint)
  else
    let maxofs := hint + 1 in
    let '(lastofs, ofs) := gallop_ofs n (fun ofs => negb (right (hint - ofs))) maxofs 0 1 in
    let ofs := Nat.min ofs maxofs in
    bisect n right (hint + 1 - ofs) (hint - lastofs).

(** The number of elements of [a] that are less than [key]. *)
Definition gallop_left (key : sort_key * A) (a : list (sort_key * A)) (hint : nat) : nat :=
  gallop (fun i => item_lt (nth i a key) key) (length a) hint.

(** The number of elements of [a] that are not greater than [key]. *)
Definition gallop_right (key : sort_key * A) (a : list (sort_key * A)) (hint : nat) : nat :=
  gallop (fun i => negb (item_lt key (nth i a key))) (length a) hint.

(** **** [merge_lo] and [merge_hi] *)

Definition MIN_GALLOP : nat := 7.

(** The merge of [a] and [b] from the left; [dest] is what has been
    merged.  One element at a time until one run has won [min_gallop]
    times in a row; then whole stretches, found by galloping, while
    they are [MIN_GALLOP] long.  The result comes with [min_gallop] as
    the merge leaves it. *)
Fixpoint merge_lo_loop (fuel : nat) (galloping : bool) (acount bcount min_gallop : nat)
  (dest a b : list (sort_key * A)) : list (sort_key * A) * nat :=
  match fuel, a, b with
  | S fuel', x :: a', y :: b' =>
      if galloping then
        let min_gallop := if 1 <? min_gallop then min_gallop - 1 else min_gallop in
        let k := gallop_right y a 0 in
        let dest := dest ++ firstn k a in
        match skipn k a with
        | [] => (dest ++ b, min_gallop)
        | [z] => (dest ++ b ++ [z], min_gallop)
        | x1 :: a1 =>
            let dest := dest ++ [y] in
            match b' with
            | [] => (dest ++ x1 :: a1, min_gallop)
            | _ =>
                let k' := gallop_left x1 b' 0 in
                let dest := dest ++ firstn k' b' in
                match skipn k' b' with
                | [] => (dest ++ x1 :: a1, min_gallop)
                | b1 =>
                    let dest := dest ++ [x1] in
                    match a1 with
                    | [z] => (dest ++ b1 ++ [z], min_gallop)
                    | _ =>
                        if (MIN_GALLOP <=? k) || (MIN_GALLOP <=? k') then
                          merge_lo_loop fuel' true 0 0 min_gallop dest a1 b1
                        else
                          merge_lo_loop fuel' false 0 0 (S min_gallop) dest a1 b1
                    end
                end
            end
        end
      else if item_lt y x then
        let dest := dest ++ [y] in
        match b' with
        | [] => (dest ++ a, min_gallop)
        | _ =>
            if min_gallop <=? S bcount then
              merge_lo_loop fuel' true 0 0 (S min_gallop) dest a b'
            else merge_lo_loop fuel' false 0 (S bcount) min_gallop dest a b'
        end
      else
        let dest := dest ++ [x] in
        match a' with
        | [z] => (dest ++ b ++ [z], min_gallop)
        | _ =>
            if min_gallop <=? S acount then
              merge_lo_loop fuel' true 0 0 (S min_gallop) dest a' b
            else merge_lo_loop fuel' false (S acount) 0 min_gallop dest a' b
        end
  | _, _, _ => (dest ++ a ++ b, min_gallop)
  end.

Definition merge_lo (min_gallop : nat) (a b : list (sort_key * A))
  : list (sort_key * A) * nat :=
  match a, b with
  | _, [] => (a, min_gallop)
  | _, [y] => (y :: a, min_gallop)
  | [x], y :: b' => (y :: b' ++ [x], min_gallop)
  | _, y :: b' => merge_lo_loop (length a + length b) false 0 0 min_gallop [y] a b'
  end.

(** The merge from the right: the last elements are compared, and
    [dest] grows to the left. *)
Fixpoint merge_hi_loop (fuel : nat) (galloping : bool) (acount bcount min_gallop : nat)
  (a b dest : list (sort_key * A)) : list (sort_key * A) * nat :=
  match fuel, rev a, rev b with
  | S fuel', x :: _, y :: _ =>
      if galloping then
        let min_gallop := if 1 <? min_gallop then min_gallop - 1 else min_gallop in
        let k := gallop_right y a (length a - 1) in
        let acount := length a - k in
        let dest := skipn k a ++ dest in
        match firstn k a with
        | [] => (b ++ dest, min_gallop)
        | a1 =>
            let dest := y :: dest in
            match removelast b with
            | [] => (a1 ++ dest, min_gallop)
            | [z] => (z :: a1 ++ dest, min_gallop)
            | b0 =>
                let x1 := List.last a1 x in
                let k' := gallop_left x1 b0 (length b0 - 1) in
                let bcount := length b0 - k' in
                let dest := skipn k' b0 ++ dest in
                match firstn k' b0 with
                | [] => (a1 ++ dest, min_gallop)
                | [z] => (z :: a1 ++ dest, min_gallop)
                | b1 =>
                    let dest := x1 :: dest in
                    match removelast a1 with
                    | [] => (b1 ++ dest, min_gallop)
                    | a2 =>
                        if (MIN_GALLOP <=? acount) || (MIN_GALLOP <=? bcount) then
                          merge_hi_loop fuel' true 0 0 min_gallop a2 b1 dest
                        else
                          merge_hi_loop fuel' false 0 0 (S min_gallop) a2 b1 dest
                    end
                end
            end
        end
      else if item_lt y x then
        let dest := x :: dest in
        match removelast a with
        | [] => (b ++ dest, min_gallop)
        | a' =>
            if min_gallop <=? S acount then
              merge_hi_loop fuel' true 0 0 (S min_gallop) a' b dest
            else merge_hi_loop fuel' false (S acount) 0 min_gallop a' b dest
        end
      else
        let dest := y :: dest in
        match removelast b with
        | [z] => (z :: a ++ dest, min_gallop)
        | b' =>
            if min_gallop <=? S bcount then
              merge_hi_loop fuel' true 0 0 (S min_gallop) a b' dest
            else merge_hi_loop fuel' false 0 (S bcount) min_gallop a b' dest
        end
  | _, _, _ => (a ++ b ++ dest, min_gallop)
  end.

Definition merge_hi (min_gallop : nat) (a b : list (sort_key * A))
  : list (sort_key * A) * nat :=
  match rev a, b with
  | [], _ => (b, min_gallop)
  | [x], _ => (b ++ [x], min_gallop)
  | x :: _, [y] => (y :: a, min_gallop)
  | x :: _, _ => merge_hi_loop (length a + length b) false 0 0 min_gallop (removelast a) b [x]
  end.

(** **** [merge_at]: two neighbouring runs become one

    The elements of [a] that are already in place at the left and those
    of [b] at the right are left alone; what remains is merged from the
    side of the shorter run. *)
Definition merge_at (min_gallop : nat) (a b : list (sort_key * A))
  : list (sort_key * A) * nat :=
  match b with
  | [] => (a, min_gallop)
  | y :: _ =>
      let k := gallop_right y a 0 in
      match skipn k a with
      | [] => (a ++ b, min_gallop)
      | x :: a' =>
          let a1 := x :: a' in
          let nb := gallop_left (List.last a1 x) b (length b - 1) in
          match firstn nb b with
          | [] => (a ++ b, min_gallop)
          | b1 =>
              let '(merged, min_gallop') :=
                if length a1 <=? length b1 then merge_lo min_gallop a1 b1
                else merge_hi min_gallop a1 b1 in
              (firstn k a ++ merged ++ skipn nb b, min_gallop')
          end
      end
  end.

(** **** The runs waiting to be merged

    Each comes with its [power], which is set when the next run is
    found; the last run found is the head of the list. *)
Fixpoint powerloop (fuel : nat) (a b n : nat) (result : nat) : nat :=
  match fuel with
  | O => S result
  | S fuel' =>
      if n <=? a then powerloop fuel' (2 * (a - n)) (2 * (b - n)) n (S result)
      else if n <=? b then S result
      else powerloop fuel' (2 * a) (2 * b) n (S result)
  end.

Definition power_of (s1 n1 n2 n : nat) : nat :=
  powerloop (S n) (2 * s1 + n1) (2 * s1 + n1 + n1 + n2) n 0.

Fixpoint merge_while (power min_gallop : nat) (top : list (sort_key * A))
  (below : list (list (sort_key * A) * nat))
  : list (sort_key * A) * list (list (sort_key * A) * nat) * nat :=
  match below with
  | (a, pa) :: rest =>
      if power <? pa then
        let '(merged, min_gallop') := merge_at min_gallop a top in
        merge_while power min_gallop' merged rest
      else (top, below, min_gallop)
  | [] => (top, [], min_gallop)
  end.

Definition found_new_run (listlen n2 min_gallop : nat)
  (pending : list (list (sort_key * A) * nat))
  : list (list (sort_key * A) * nat) * nat :=
  match pending with
  | [] => ([], min_gallop)
  | (top, _) :: below =>
      let s1 := length (concat (map fst below)) in
      let power := power_of s1 (length top) n2 listlen in
      let '(top', below', min_gallop') := merge_while power min_gallop top below in
      ((top', power) :: below', min_gallop')
  end.

Fixpoint merge_force_collapse (fuel : nat) (min_gallop : nat)
  (pending : list (list (sort_key * A) * nat)) : list (sort_key * A) :=
  match fuel, pending with
  | S fuel', (c, pc) :: (b, pb) :: rest =>
      match rest with
      | (a, pa) :: rest' =>
          if length a <? length c then
            let '(merged, min_gallop') := merge_at min_gallop a b in
            merge_force_collapse fuel' min_gallop' ((c, pc) :: (merged, pa) :: rest')
          else
            let '(merged, min_gallop') := merge_at min_gallop b c in
            merge_force_collapse fuel' min_gallop' ((merged, pb) :: rest)
      | [] =>
          let '(merged, min_gallop') := merge_at min_gallop b c in
          merge_force_collapse fuel' min_gallop' ((merged, pb) :: rest)
      end
  | _, _ => concat (rev (map fst pending))
  end.

Fixpoint merge_compute_minrun (fuel : nat) (n r : nat) : nat :=
  match fuel with
  | O => n + r
  | S fuel' =>
      if 64 <=? n then merge_compute_minrun fuel' (n / 2) (Nat.lor r (Nat.land n 1))
      else n + r
  end.

(** The march over the list: the next natural run is found, made
    ascending, lengthened to [minrun] elements by [binarysort] when it is
    short, and put with the pending runs. *)
Fixpoint find_runs (fuel : nat) (listlen minrun min_gallop : nat)
  (pending : list (list (sort_key * A) * nat)) (lo : list (sort_key * A))
  : list (list (sort_key * A) * nat) * nat :=
  match fuel, lo with
  | S fuel', _ :: _ =>
      let '(n, descending) := count_run lo in
      let run := if descending then rev (firstn n lo) else firstn n lo in
      let force := Nat.min (length lo) minrun in
      let '(run, n) :=
        if n <? minrun then (binarysort run (firstn (force - n) (skipn n lo)), force)
        else (run, n) in
      let '(pending, min_gallop) := found_new_run listlen n min_gallop pending in
      find_runs fuel' listlen minrun min_gallop ((run, 0) :: pending) (skipn n lo)
  | _, _ => (pending, min_gallop)
  end.

(** [list.sort] on the pairs of keys and elements, keys ascending. *)
Definition listsort (l : list (sort_key * A)) : list (sort_key * A) :=
  let n := length l in
  if n <? 2 then l
  else
    let minrun := merge_compute_minrun n n 0 in
    let '(pending, min_gallop) := find_runs n n minrun MIN_GALLOP [] l in
    merge_force_collapse (length pending) min_gallop pending.

(** **** The call

    The keys of all elements, or the first exception. *)
Fixpoint decorate (key : A -> PyFloat.float_error + sort_key) (l : list A)
  : PyFloat.float_error + list (sort_key * A) :=
  match l with
  | [] => inr []
  | x :: l' =>
      match key x with
      | inl e => inl e
      | inr k =>
          match decorate key l' with
          | inl e => inl e
          | inr kl => inr ((k, x) :: kl)
          end
      end
  end.

(** The pairs of keys and elements as the sort leaves them. *)
Definition sorted_pairs (reverse : bool) (l : list (sort_key * A)) : list (sort_key * A) :=
  if reverse then rev (listsort (rev l)) else listsort l.

Definition list_sort (key : A -> PyFloat.float_error + sort_key) (reverse : bool)
  (l : list A) : PyFloat.float_error + list A :=
  match decorate key l with
  | inl e => inl e
  | inr kl => inr (map snd (sorted_pairs reverse kl))
  end.
End Sort.

(** [float(s)] as a key *)
Definition float_key (s : string) : PyFloat.float_error + sort_key :=
  match PyFloat.of_string s with
  | inl e => inl e
  | inr x => inr (KFloat x)
  end.

(** The [key=] function of each criterion. *)
Definition sort_key_of (c : SortCriterion) (x : ExchangeData.t)
  : PyFloat.float_error + sort_key :=
  match c with
  | ID => inr (KInt (ExchangeData.id x))
  | PRICE => float_key (PyStr.remove_char "," (ExchangeData.price x))
  | VOLUME =>
      float_key (PyStr.remove_char "," (PyStr.remove_char "$" (ExchangeData.volume24h x)))
  | PLUS_DEPTH =>
      float_key (PyStr.remove_char "," (PyStr.remove_char "$" (ExchangeData.plusTwoPercentDepth x)))
  | MINUS_DEPTH =>
      float_key (PyStr.remove_char "," (PyStr.remove_char "$" (ExchangeData.minusTwoPercentDepth x)))
  | EXCHANGE => inr (KStr (PyStr.lower (ExchangeData.exchange x)))
  | VOLUME_PERCENTAGE => float_key (PyStr.remove_char "%" (ExchangeData.volumePercentage x))
  end.

(** The sorting step of [get_ltc_exchanges]: the requested criterion and
    direction, or volume, descending, when none is requested. *)
Definition sort_exchanges (sort_by : option SortCriterion) (descending : bool)
  (exchanges : list ExchangeData.t) : PyFloat.float_error + list ExchangeData.t :=
  match sort_by with
  | Some c => list_sort (sort_key_of c) descending exchanges
  | None => list_sort (sort_key_of VOLUME) true exchanges
  end.

(** Sorting, then the reassignment of the IDs in the new order. *)
Definition sort_and_rank (sort_by : option SortCriterion) (descending : bool)
  (exchanges : list ExchangeData.t) : PyFloat.float_error + list ExchangeData.t :=
  match sort_exchanges sort_by descending exchanges with
  | inl e => inl e
  | inr sorted => inr (assign_ids 1 sorted)
  end.

(** *** GET /api/ltc-exchanges *)

Definition CACHE_TTL : Z := 180.

Definition base_cache_key : string := "ltc_exchanges_base_data".

(** [f"ltc_exchanges_data:{sort_by}:{descending}"]: Python 3.11 formats a
    member of an enumeration that mixes in [str] as [str()] does, by the
    names of the class and of the member. *)
Definition sort_cache_key (sort_by : option SortCriterion) (descending : bool) : string :=
  "ltc_exchanges_data:" ++
  match sort_by with
  | Some c => "SortCriterion." ++ SortCriterion_name c
  | None => "None"
  end ++
  ":" ++ (if descending then "True" else "False").

(** The truth value of what [redis_client.get] returned. *)
Definition cache_hit (cached : option string) : option string :=
  match cached with
  | Some "" => None
  | Some payload => Some payload
  | None => None
  end.

(** [try: setex(key, CACHE_TTL, json.dumps(result))  except Exception: pass] *)
Definition cache_best_effort (key : string) (result : ExchangeResponse) : M unit :=
  try_except
    (let! payload := dumps result in
     redis_setex key CACHE_TTL payload)
    (fun _ => ret tt).

Definition get_ltc_exchanges (sort_by : option SortCriterion) (descending : bool)
  : M ExchangeResponse :=
  try_except
    (let! base_cached_data := redis_get base_cache_key in
     let! sorted_cached_data := redis_get (sort_cache_key sort_by descending) in
     match cache_hit sorted_cached_data with
     | Some payload => loads payload
     | None =>
         let! exchanges :=
           match cache_hit base_cached_data with
           | Some payload =>
               let! result_data := loads payload in
               ret (data result_data)
           | None =>
               let! exchanges := fetch_exchange_data_from_api in
               run! cache_best_effort base_cache_key
                      {| status := "success"; data := exchanges |} in
               ret exchanges
           end in
         let! exchanges := lift_float (sort_and_rank sort_by descending exchanges) in
         let result := {| status := "success"; data := exchanges |} in
         run! cache_best_effort (sort_cache_key sort_by descending) result in
         ret result
     end)
    (fun _ => raise (HTTPException 500)).

End Service.

(** ** The other endpoints of [main.py]

    The market-pairs listing of CoinMarketCap, the order book of Binance,
    the simple price and the market chart of CoinGecko are further
    services of the outside world.  A request to one of them takes a tick
    of the clock like any external call; the log keeps the calls of the
    listing pipeline only. *)

(** One entry of [data['data']['market_pairs']], with the keys the
    service reads. *)
Module MarketPair.
Record t := Build {
  quote_symbol : string;
  exchange_name : string;
  price : number;
  volume_24h : number
}.
End MarketPair.

(** A JSON value handed to [float()]: a string or a number. *)
Inductive scalar := Str (s : string) | Num (v : number).

(** The order book: each side is a list of [price, volume] levels, or
    [None] when reading it raises. *)
Module OrderBook.
Record t := Build {
  bids : option (list (scalar * scalar));
  asks : option (list (scalar * scalar))
}.
End OrderBook.

Module DepthData.
Record t := Build {
  exchange : string;
  currentPrice : number;
  plus2PercentDepth : string;
  minus2PercentDepth : string
}.
End DepthData.

Record DepthResponse := {
  depth_status : string;
  depth_data : DepthData.t
}.

(** The further services.  A body is [None] when decoding it, or reading
    a key the service needs, raises; the simple price is [Some None] when
    the value under ['litecoin']['usd'] is there but is not a number (a
    string, [null], a list or an object). *)
Record Providers := {
  coinmarketcap_market_pairs : nat -> HttpReply (option (list MarketPair.t));
  binance_depth : nat -> HttpReply (option OrderBook.t);
  coingecko_simple_price : nat -> HttpReply (option (option number))
}.

(** The world once a call that the log does not record has been made. *)
Definition after_tick (w : World) : World :=
  {| custom_exchanges := custom_exchanges w; redis_client := redis_client w;
     clock := S (clock w); log := log w |}.

(** Such a call: the tick it takes. *)
Definition tick_call : M nat := fun w => (Return (clock w), after_tick w).

Section Endpoints.
Variable providers : Providers.

(** [requests.get(url, ...)] to one of the further services *)
Definition requests_get_at {A} (answer : nat -> HttpReply A) : M (Z * A) :=
  let! n := tick_call in
  match answer n with
  | ConnectionError => raise RequestException
  | Reply code body => ret (code, body)
  end.

(** *** [get_current_ltc_price]

    The value under ['litecoin']['usd'], or 0 when it cannot be had. *)
Definition get_current_ltc_price : M (option number) :=
  try_except
    (let! '(code, body) := requests_get_at (coingecko_simple_price providers) in
     if negb (code =? 200) then ret (Some (Int 0))
     else
       match body with
       | Some v => ret v
       | None => raise MalformedBody
       end)
    (fun _ => ret (Some (Int 0))).

(** [float(v)] for a JSON string or number *)
Definition scalar_to_float (v : scalar) : PyFloat.float_error + float :=
  match v with
  | Str s => PyFloat.of_string s
  | Num n => number_to_float n
  end.

(** [v * rate] for a JSON number and a float *)
Definition number_times (v : number) (rate : float) : PyFloat.float_error + float :=
  let? x := number_to_float v in
  inr (x * rate)%float.

(** The loop over one side of the book: the levels within the bound are
    summed, and the first level beyond it ends the loop. *)
Fixpoint depth_sum (within : float -> bool) (levels : list (scalar * scalar)) (acc : float)
  : PyFloat.float_error + float :=
  match levels with
  | [] => inr acc
  | (price, volume) :: rest =>
      let? p := scalar_to_float price in
      if within p then
        let? p' := scalar_to_float price in
        let? v := scalar_to_float volume in
        depth_sum within rest (acc + p' * v)%float
      else inr acc
  end.

(** [try: m  except HTTPException: raise  except Exception: h] *)
Definition try_except_http {A} (m : M A) (h : exn -> M A) : M A :=
  try_except m
    (fun e =>
       match e with
       | HTTPException code => raise (HTTPException code)
       | _ => h e
       end).

(** *** GET /api/ltc-depth/{exchange} *)
Definition get_ltc_depth (exchange : string) : M DepthResponse :=
  try_except_http
    (let! depth_data :=
       if String.eqb (PyStr.lower exchange) "binance" then
         let! '(code, body) := requests_get_at (binance_depth providers) in
         if negb (code =? 200) then raise (HTTPException code)
         else
           match body with
           | Some depth_data => ret depth_data
           | None => raise MalformedBody
           end
       else raise (HTTPException 404) in
     let! current_price := get_current_ltc_price in
     match current_price with
     | None => raise TypeError
     | Some current_price =>
         let! plus_2_percent := lift_float (number_times current_price 1.02%float) in
         let! minus_2_percent := lift_float (number_times current_price 0.98%float) in
         let! bids :=
           match OrderBook.bids depth_data with
           | Some l => ret l
           | None => raise MalformedBody
           end in
         let! minus_2_percent_depth :=
           lift_float (depth_sum (fun p => PrimFloat.leb minus_2_percent p) bids 0%float) in
         let! asks :=
           match OrderBook.asks depth_data with
           | Some l => ret l
           | None => raise MalformedBody
           end in
         let! plus_2_percent_depth :=
           lift_float (depth_sum (fun p => PrimFloat.leb p plus_2_percent) asks 0%float) in
         let! plus := format_money plus_2_percent_depth in
         let! minus := format_money minus_2_percent_depth in
         ret {| depth_status := "success";
                depth_data := DepthData.Build exchange current_price plus minus |}
     end)
    (fun _ => raise (HTTPException 500)).

End Endpoints.

Section MarketPairs.
Variable providers : Providers.

(** The row of one USDT market pair; [index] is its id. *)
Definition market_pair_row (index : Z) (market_pair : MarketPair.t)
  : PyFloat.float_error + ExchangeData.t :=
  let quote_volume := MarketPair.volume_24h market_pair in
  let? price := number_to_float (MarketPair.price market_pair) in
  let? plus_two_percent_depth := depth_estimate quote_volume 0.05%float in
  let? minus_two_percent_depth := depth_estimate quote_volume 0.04%float in
  let? volume := number_floor quote_volume in
  inr (ExchangeData.Build index (MarketPair.exchange_name market_pair) "LTC/USDT"
         (format_price price)
         None
         ("$" ++ PyStr.format_int_comma plus_two_percent_depth)
         ("$" ++ PyStr.format_int_comma minus_two_percent_depth)
         ("$" ++ PyStr.format_int_comma volume)
         "1.23%" "Recently" None None).

(** The loop over [data['data']['market_pairs']]: the USDT pairs are
    kept, and numbered from [index] as they come. *)
Fixpoint market_pair_rows (index : Z) (pairs : list MarketPair.t)
  : PyFloat.float_error + list ExchangeData.t :=
  match pairs with
  | [] => inr []
  | market_pair :: rest =>
      if String.eqb (MarketPair.quote_symbol market_pair) "USDT" then
        let? row := market_pair_row index market_pair in
        let? rows := market_pair_rows (index + 1) rest in
        inr (row :: rows)
      else market_pair_rows index rest
  end.

(** *** GET /api/ltc-exchanges-cmc *)
Definition get_ltc_exchanges_cmc : M ExchangeResponse :=
  try_except
    (let! '(code, body) := requests_get_at (coinmarketcap_market_pairs providers) in
     if negb (code =? 200) then raise (HTTPException code)
     else
       let! pairs :=
         match body with
         | Some pairs => ret pairs
         | None => raise MalformedBody
         end in
       let! exchanges := lift_float (market_pair_rows 1 pairs) in
       let! exchanges := lift_float (list_sort (sort_key_of VOLUME) true exchanges) in
       let top_10_exchanges := firstn 10 exchanges in
       ret {| status := "success"; data := top_10_exchanges |})
    (fun _ => raise (HTTPException 500)).

End MarketPairs.

(** ** The price history *)

Module PriceHistoryItem.
Record t := Build {
  date : string;
  price : number
}.
End PriceHistoryItem.

Record PriceHistoryResponse := {
  history_status : string;
  history_data : list PriceHistoryItem.t;
  currency : string;
  period : string
}.

(** The fields of a [datetime] that the service reads. *)
Record date_obj := {
  year : Z;
  month : Z;
  day : Z
}.

(** The market chart of CoinGecko, the local calendar and the codec of
    the history responses.  The chart is asked for a number of days; its
    body is the list under ['prices'], empty when the key is missing, or
    [None] when decoding it or unpacking an item raises.
    [fromtimestamp t] stands for [datetime.fromtimestamp(t / 1000)] in
    the time zone of the server, or for the exception it raises. *)
Record Chart := {
  coingecko_market_chart : Z -> nat -> HttpReply (option (list (number * number)));
  fromtimestamp : number -> PyFloat.float_error + date_obj;
  history_dumps : PriceHistoryResponse -> option string;
  history_loads : string -> option PriceHistoryResponse
}.

(** [f"{n}"] for an [int] *)
Definition str_int (n : Z) : string :=
  (if n <? 0 then "-" else "") ++ PyStr.digits (Z.abs_N n).

(** [round(v, 2)]: an [int] is its own rounding; a float goes to the
    double nearest to its rendering with two decimals. *)
Definition round_2 (v : number) : PyFloat.float_error + number :=
  match v with
  | Int n => inr (Int n)
  | Float x =>
      let? y := PyFloat.of_string (PyFloat.format_fixed 2 x) in
      inr (Float y)
  end.

(** [sorted(keys)] for strings *)
Definition sorted (keys : list string) : list string :=
  map snd (sorted_pairs false (map (fun key => (KStr key, key)) keys)).

Section PriceHistory.
Variables (env : Env) (chart : Chart).

(** The loop of the daily closes: the item of each point is stored under
    the key of its day, so a later point of a day replaces an earlier
    one. *)
Fixpoint group_daily (prices : list (number * number))
  (daily_prices : Dict.t PriceHistoryItem.t)
  : PyFloat.float_error + Dict.t PriceHistoryItem.t :=
  match prices with
  | [] => inr daily_prices
  | (timestamp, price) :: rest =>
      let? date_obj := fromtimestamp chart timestamp in
      let date_key :=
        str_int (year date_obj) ++ "-" ++ str_int (month date_obj) ++ "-" ++
        str_int (day date_obj) in
      let? rounded := round_2 price in
      group_daily rest
        (Dict.set date_key
           (PriceHistoryItem.Build
              (str_int (month date_obj) ++ "/" ++ str_int (day date_obj)) rounded)
           daily_prices)
  end.

(** [[daily_prices[key] for key in sorted(daily_prices.keys())]]; every
    key looked up is a key of the dict. *)
Definition daily_history (prices : list (number * number))
  : PyFloat.float_error + list PriceHistoryItem.t :=
  let? daily_prices := group_daily prices [] in
  inr (omap (fun key => Dict.get key daily_prices) (sorted (Dict.keys daily_prices))).

(** The loop of the detailed history: one item for each point. *)
Fixpoint hourly_history (prices : list (number * number))
  : PyFloat.float_error + list PriceHistoryItem.t :=
  match prices with
  | [] => inr []
  | (timestamp, price) :: rest =>
      let? date_obj := fromtimestamp chart timestamp in
      let formatted_date := str_int (month date_obj) ++ "/" ++ str_int (day date_obj) in
      let? rounded := round_2 price in
      let? price_history := hourly_history rest in
      inr (PriceHistoryItem.Build formatted_date rounded :: price_history)
  end.

(** The requested number of days, kept between 1 and 90. *)
Definition clamp_days (days : Z) : Z :=
  if 90 <? days then 90 else if days <? 1 then 1 else days.

(** [f"ltc_price_history_new_format:{days}:{daily_close}"] *)
Definition history_cache_key (days : Z) (daily_close : bool) : string :=
  "ltc_price_history_new_format:" ++ str_int days ++ ":" ++
  (if daily_close then "True" else "False").

Definition period_of (days : Z) : string :=
  if days <=? 1 then "24 часа"
  else if days <=? 7 then "7 дней"
  else if days <=? 30 then "1 месяц"
  else str_int days ++ " дней".

Definition ttl_of (days : Z) : Z :=
  if 30 <=? days then 43200
  else if 7 <=? days then 21600
  else 3600.

(** *** GET /api/ltc-price-history *)
Definition get_ltc_price_history (days : Z) (daily_close : bool)
  : M PriceHistoryResponse :=
  try_except
    (let days := clamp_days days in
     let cache_key := history_cache_key days daily_close in
     let! cached_data := redis_get env cache_key in
     match cache_hit cached_data with
     | Some payload =>
         match history_loads chart payload with
         | Some r => ret r
         | None => raise MalformedBody
         end
     | None =>
         let! '(code, body) := requests_get_at (coingecko_market_chart chart days) in
         if negb (code =? 200) then raise (HTTPException code)
         else
           let! prices :=
             match body with
             | Some prices => ret prices
             | None => raise MalformedBody
             end in
           let! price_history :=
             lift_float (if daily_close then daily_history prices
                         else hourly_history prices) in
           let result :=
             {| history_status := "success"; history_data := price_history;
                currency := "USD"; period := period_of days |} in
           let ttl := ttl_of days in
           let! payload :=
             match history_dumps chart result with
             | Some s => ret s
             | None => raise TypeError
             end in
           run! redis_setex env cache_key ttl payload in
           ret result
     end)
    (fun _ => raise (HTTPException 500)).

End PriceHistory.

(** ** Vocabulary of the statements *)

(** The world once the calls [evs] have been made, in order. *)
Definition after_calls (evs : list Event) (w : World) : World :=
  fold_left (fun w ev => after_call ev w) evs w.

Definition percent_driven (c : ExchangeData.t) : bool :=
  match ExchangeData.price_percent c with Some _ => true | None => false end.

(** The number of percent-driven listings: the gateway calls their merge
    makes. *)
Definition gateway_calls (customs : list ExchangeData.t) : nat :=
  length (List.filter percent_driven customs).

(** A computation started in a world of [P] ends in a world of [Q] when
    it returns and in a world of [E] when it raises. *)
Definition triple {A} (P : World -> Prop) (m : M A)
  (Q : A -> World -> Prop) (E : World -> Prop) : Prop :=
  forall w, P w ->
    match m w with
    | (Return a, w') => Q a w'
    | (Raise _, w') => E w'
    end.

(** The entry stored under [k] satisfies [P]; the clock and the log are
    given. *)
Definition entry_at (k : string) (P : ExchangeData.t -> Prop)
  (n : nat) (l : list Event) (w : World) : Prop :=
  (exists x, Dict.get k (custom_exchanges w) = Some x /\ P x) /\
  clock w = n /\ log w = l.

(** [math.floor] accepts the amount, when one is given. *)
Definition floors (v : option float) : Prop :=
  match v with
  | Some x => exists n, PyFloat.floor x = inr n
  | None => True
  end.

(** The amounts of a PATCH body can all be rendered. *)
Definition amounts_ok (body : CustomExchangeUpdateInput.t) : Prop :=
  floors (CustomExchangeUpdateInput.plusTwoPercentDepth body) /\
  floors (CustomExchangeUpdateInput.minusTwoPercentDepth body) /\
  floors (CustomExchangeUpdateInput.volume24h body).

(** The price and the percentage a PATCH leaves on an entry [x0], when the
    gateway hands back [r]. *)
Definition patched_price (body : CustomExchangeUpdateInput.t) (r : float)
  (x0 : ExchangeData.t) : string :=
  match CustomExchangeUpdateInput.price_percent body with
  | Some p =>
      if PyFloat.lt 0 r then format_price (adjusted_price r p)
      else ExchangeData.price x0
  | None =>
      match CustomExchangeUpdateInput.price body with
      | Some v => format_price v
      | None => ExchangeData.price x0
      end
  end.

Definition patched_percent (body : CustomExchangeUpdateInput.t)
  (x0 : ExchangeData.t) : option float :=
  match CustomExchangeUpdateInput.price_percent body with
  | Some p => Some p
  | None =>
      match CustomExchangeUpdateInput.price body with
      | Some _ => None
      | None => ExchangeData.price_percent x0
      end
  end.

(** The PATCH body without its [price]. *)
Definition drop_price (body : CustomExchangeUpdateInput.t) : CustomExchangeUpdateInput.t :=
  CustomExchangeUpdateInput.Build
    (CustomExchangeUpdateInput.pair body)
    None
    (CustomExchangeUpdateInput.price_percent body)
    (CustomExchangeUpdateInput.plusTwoPercentDepth body)
    (CustomExchangeUpdateInput.minusTwoPercentDepth body)
    (CustomExchangeUpdateInput.volume24h body)
    (CustomExchangeUpdateInput.volumePercentage body)
    (CustomExchangeUpdateInput.icon body)
    (CustomExchangeUpdateInput.url body).

(** Lexicographic comparison of integer codes. *)
Fixpoint lex (a b : list Z) : comparison :=
  match a, b with
  | [], [] => Eq
  | [], _ :: _ => Lt
  | _ :: _, [] => Gt
  | x :: a', y :: b' =>
      match x ?= y with
      | Eq => lex a' b'
      | c => c
      end
  end.

(** The place of a float in the order of the doubles; NaN has none. *)
Definition float_code (x : spec_float) : option (list Z) :=
  match x with
  | S754_nan => None
  | S754_infinity true => Some [-2; 0; 0]
  | S754_finite true m e => Some [-1; - e; Zneg m]
  | S754_zero _ => Some [0; 0; 0]
  | S754_finite false m e => Some [1; e; Zpos m]
  | S754_infinity false => Some [2; 0; 0]
  end.

(** Strings compare as the lists of their character codes. *)
Fixpoint string_code (s : string) : list Z :=
  match s with
  | EmptyString => []
  | String c s' => Z.of_N (N_of_ascii c) :: string_code s'
  end.

(** The kind of a key and its code. *)
Definition key_code (k : sort_key) : option (nat * list Z) :=
  match k with
  | KInt n => Some (0%nat, [n])
  | KFloat x =>
      match float_code (Prim2SF x) with
      | Some c => Some (1%nat, c)
      | None => None
      end
  | KStr s => Some (2%nat, string_code s)
  end.

(** The comparison of two keys of one kind. *)
Definition key_cmp (a b : sort_key) : option comparison :=
  match key_code a, key_code b with
  | Some (i, c), Some (j, d) => if Nat.eqb i j then Some (lex c d) else None
  | _, _ => None
  end.

(** No key is less than the key before it. *)
Fixpoint ascending (ks : list sort_key) : Prop :=
  match ks with
  | [] => True
  | a :: ks' =>
      match ks' with
      | [] => True
      | b :: _ => key_lt b a = false /\ ascending ks'
      end
  end.

(** Any two keys of the list can be compared. *)
Definition comparable (ks : list sort_key) : Prop :=
  forall a b, a ∈ ks -> b ∈ ks -> key_cmp a b <> None.

Definition criterion_of (sort_by : option SortCriterion) : SortCriterion :=
  match sort_by with Some c => c | None => VOLUME end.

Definition reverse_of (sort_by : option SortCriterion) (descending : bool) : bool :=
  match sort_by with Some _ => descending | None => true end.

(** The criterion's key of every listing is a number or a string: it can
    be computed and equals itself (it is no NaN). *)
Definition sortable (c : SortCriterion) (l : list ExchangeData.t) : Prop :=
  Forall (fun x => exists k, sort_key_of c x = inr k /\ key_eq k k = true) l.

(** The listing's key equals [k]. *)
Definition has_key (c : SortCriterion) (k : sort_key) (x : ExchangeData.t) : bool :=
  match sort_key_of c x with
  | inr k' => key_eq k' k
  | inl _ => false
  end.

(** [x] may stand before [y]: ascending, [y]'s key is not less than
    [x]'s; descending, [x]'s key is not less than [y]'s. *)
Definition in_order (c : SortCriterion) (reverse : bool) (x y : ExchangeData.t) : Prop :=
  exists kx ky,
    sort_key_of c x = inr kx /\ sort_key_of c y = inr ky /\
    (if reverse then key_lt kx ky else key_lt ky kx) = false.

Definition kind (k : sort_key) : nat :=
  match k with KInt _ => 0 | KFloat _ => 1 | KStr _ => 2 end.

Definition kind_of (c : SortCriterion) : nat :=
  match c with ID => 0 | EXCHANGE => 2 | _ => 1 end.

(** Each pair holds an element with its key. *)
Definition keyed {A} (key : A -> PyFloat.float_error + sort_key)
  (l : list (sort_key * A)) : Prop :=
  Forall (fun p => key (snd p) = inr (fst p)) l.

(** *** The stable arrangement

    What a stable sort returns on keys that [<] orders: each element
    stands after the keys less than its own and before all others. *)
Fixpoint insort_left {A} (x : sort_key * A) (l : list (sort_key * A)) : list (sort_key * A) :=
  match l with
  | [] => [x]
  | y :: l' => if key_lt (fst y) (fst x) then y :: insort_left x l' else x :: y :: l'
  end.

Fixpoint stable_sort {A} (l : list (sort_key * A)) : list (sort_key * A) :=
  match l with
  | [] => []
  | x :: l' => insort_left x (stable_sort l')
  end.

(** The key is of kind [n] and equals itself: it is no NaN. *)
Definition orderly {A} (n : nat) (x : sort_key * A) : Prop :=
  kind (fst x) = n /\ key_eq (fst x) (fst x) = true.

(** The keys are in order: none is less than one before it. *)
Definition ordered {A} (l : list (sort_key * A)) : Prop :=
  StronglySorted (fun y z => item_lt z y = false) l.

(** The stable merge of two runs: an element of [b] goes first only
    when it is less than the element of [a] it meets. *)
Fixpoint smerge {A} (a b : list (sort_key * A)) : list (sort_key * A) :=
  let fix smerge_aux b :=
    match a, b with
    | [], _ => b
    | _, [] => a
    | x :: a', y :: b' =>
        if item_lt y x then y :: smerge_aux b' else x :: smerge a' b
    end in
  smerge_aux b.

(** The last element of [a] is greater than every element of [b]. *)
Definition last_above {A} (a b : list (sort_key * A)) : Prop :=
  exists a0 zl, a = (a0 ++ [zl])%list /\ List.Forall (fun y => item_lt y zl = true) b.

(** The first element of [b] is less than every element of [a]. *)
Definition first_below {A} (a b : list (sort_key * A)) : Prop :=
  exists z0 b0, b = z0 :: b0 /\ List.Forall (fun x => item_lt z0 x = true) a.

(** [m] has the elements of each key in the order they have in [l]. *)
Definition keeps_ties {A} (l m : list (sort_key * A)) : Prop :=
  forall k, List.filter (fun y => key_eq (fst y) k) m = List.filter (fun y => key_eq (fst y) k) l.

(** Each element is less than the one before it. *)
Definition descending_run {A} (l : list (sort_key * A)) : Prop :=
  StronglySorted (fun y z => item_lt z y = true) l.

(** The elements of the pending runs, in the order of the list. *)
Definition flat {A} (pending : list (list (sort_key * A) * nat)) : list (sort_key * A) :=
  concat (rev (map fst pending)).

(** Every pending run is in order, of keys of kind [n] that are no NaN. *)
Definition runs_ok {A} (n : nat) (pending : list (list (sort_key * A) * nat)) : Prop :=
  List.Forall (fun r => ordered (fst r) /\ List.Forall (orderly n) (fst r)) pending.

(** The world once the two cache lookups of a request have been made. *)
Definition after_reads (sort_by : option SortCriterion) (descending : bool)
  (w : World) : World :=
  after_call (RedisGet (sort_cache_key sort_by descending))
    (after_call (RedisGet base_cache_key) w).

(** The world once a best-effort cache write has been tried: nothing
    happens when serialisation fails; otherwise the command is sent, and
    the payload is stored when Redis takes it. *)
Definition after_cache_write (env : Env) (key : string) (result : ExchangeResponse)
  (w : World) : World :=
  match json_dumps env result with
  | None => w
  | Some payload =>
      let w1 := after_call (RedisSetex key CACHE_TTL payload) w in
      if redis_down env (clock w) then w1 else with_cached key CACHE_TTL payload w1
  end.

(** What a lookup finds under [key]. *)
Definition cached (key : string) (w : World) : option string :=
  cache_hit (snd <$> redis_client w !! key).

Definition success (exchanges : list ExchangeData.t) : ExchangeResponse :=
  {| status := "success"; data := exchanges |}.

(** [m] leaves every world of [P] in [P], however it ends. *)
Definition keeps {A} (P : World -> Prop) (m : M A) : Prop :=
  triple P m (fun _ => P) P.

(** A property of the store alone. *)
Definition on_store (S : Dict.t ExchangeData.t -> Prop) (w : World) : Prop :=
  S (custom_exchanges w).

(** The tickers the fetcher keeps. *)
Definition is_usdt (ticker : Ticker.t) : bool := String.eqb (Ticker.target ticker) "USDT".

(** The spread of a ticker, 1.0 when it has none. *)
Definition spread_of (ticker : Ticker.t) : number :=
  match Ticker.bid_ask_spread_percentage ticker with
  | Some v => v
  | None => Float 1.0%float
  end.

(** The gateway calls a PATCH makes. *)
Definition patch_calls (body : CustomExchangeUpdateInput.t) : list Event :=
  match CustomExchangeUpdateInput.price_percent body with
  | Some _ => [HttpGet BinanceTickerPrice]
  | None => []
  end.

(** ** Sample data, used to run the service on concrete requests *)

Module Sample.

Definition listing (name : string) (price : string) (percent : option float)
  (volume : string) : ExchangeData.t :=
  ExchangeData.Build 0 name "LTC/USDT" price percent "$1,234" "$99" volume "0.46%"
    "Recently" None None.

(** A fixed-price listing and a percent-driven one. *)
Definition fixed : ExchangeData.t := listing "MyEx" "100.0000" None "$1,234,567".
Definition driven : ExchangeData.t := listing "Pct" "90.0000" (Some 5%float) "$500".

(** Three rows: two of volume 100, one of volume 2000. *)
Definition rows : list ExchangeData.t :=
  [ ExchangeData.set_id 1 (listing "A" "95.0000" None "$100");
    ExchangeData.set_id 2 (listing "B" "96.0000" None "$100");
    ExchangeData.set_id 3 (listing "C" "94.5000" None "$2,000") ].

(** Eight rows by share of volume: four of 9, one whose share is NaN (a
    POST or PATCH with [volumePercentage] NaN stores this text), then 2, 3
    and 2 again. *)
Definition share (name : string) (percentage : string) : ExchangeData.t :=
  ExchangeData.set_volumePercentage percentage (listing name "95.0000" None "$100").

Definition shares : list ExchangeData.t :=
  [ share "A" "9.00%"; share "B" "9.00%"; share "C" "9.00%"; share "D" "9.00%";
    share "E" "nan%"; share "F" "2.00%"; share "G" "3.00%"; share "H" "2.00%" ].

Definition store : Dict.t ExchangeData.t := [("myex", fixed); ("pct", driven)].

(** A store whose one key is not ASCII. *)
Definition store_cyrillic : Dict.t ExchangeData.t :=
  [("биржа", listing "Биржа" "100.0000" None "$1,234,567")].

Definition world_cyrillic : World :=
  {| custom_exchanges := store_cyrillic; redis_client := ∅; clock := 0; log := [] |}.

Definition world : World :=
  {| custom_exchanges := store; redis_client := ∅; clock := 0; log := [] |}.

Definition ticker (name : string) (volume : number) (last : float) : Ticker.t :=
  Ticker.Build "USDT" (Some volume) (Some (PyStr.lower name)) (Some name)
    (Float last) (Some (Float 0.123%float)).

Definition tickers : list Ticker.t :=
  [ ticker "Aa" (Int 500000) 95.5%float;
    ticker "HitBTC" (Int 2000000) 96%float;
    Ticker.Build "BTC" None None None (Int 1) None;
    ticker "Cc" (Float 10000%float) 94.25%float ].

(** A toy codec standing for [json]: a payload lists the names in order. *)
Definition names_of (r : ExchangeResponse) : string :=
  String.concat ";" (map ExchangeData.exchange (data r)).

Definition cached_response : ExchangeResponse :=
  {| status := "success";
     data := [ExchangeData.set_id 1 fixed; ExchangeData.set_id 2 driven] |}.

(** Every service answers; Binance quotes 100. *)
Definition env_up : Env :=
  {| binance_ticker_price := fun _ => Reply 200 (Some "100.00000000");
     coingecko_exchanges := fun _ => Reply 200 (Some []);
     coingecko_tickers := fun _ => Reply 200 (Some tickers);
     redis_down := fun _ => false;
     json_dumps := fun r => Some (names_of r);
     json_loads := fun s => if String.eqb s "MyEx;Pct" then Some cached_response else None |}.

(** Binance cannot be reached: the gateway gives its sentinel 0. *)
Definition env_no_price : Env :=
  {| binance_ticker_price := fun _ => ConnectionError;
     coingecko_exchanges := coingecko_exchanges env_up;
     coingecko_tickers := coingecko_tickers env_up;
     redis_down := redis_down env_up;
     json_dumps := json_dumps env_up;
     json_loads := json_loads env_up |}.

(** Redis refuses every command. *)
Definition env_redis_down : Env :=
  {| binance_ticker_price := binance_ticker_price env_up;
     coingecko_exchanges := coingecko_exchanges env_up;
     coingecko_tickers := coingecko_tickers env_up;
     redis_down := fun _ => true;
     json_dumps := json_dumps env_up;
     json_loads := json_loads env_up |}.

(** Redis answers the two reads of a request, then refuses the writes;
    serialisation fails as well. *)
Definition env_no_write : Env :=
  {| binance_ticker_price := binance_ticker_price env_up;
     coingecko_exchanges := coingecko_exchanges env_up;
     coingecko_tickers := coingecko_tickers env_up;
     redis_down := fun n => (2 <=? n)%nat;
     json_dumps := fun _ => None;
     json_loads := json_loads env_up |}.

(** The store with a payload in the cache for requests by volume,
    ascending (its rows are not in that order), and with the base snapshot
    in the cache. *)
Definition world_sorted_cached : World :=
  {| custom_exchanges := store;
     redis_client := {[ sort_cache_key (Some VOLUME) false := (CACHE_TTL, "MyEx;Pct") ]};
     clock := 0; log := [] |}.

Definition world_base_cached : World :=
  {| custom_exchanges := store;
     redis_client := {[ base_cache_key := (CACHE_TTL, "MyEx;Pct") ]};
     clock := 0; log := [] |}.

End Sample.

(** ** Vocabulary of the further properties *)

(** The gateway calls a POST makes. *)
Definition add_calls (exchange_data : CustomExchangeInput.t) : list Event :=
  match CustomExchangeInput.price_percent exchange_data with
  | Some _ => [HttpGet BinanceTickerPrice]
  | None => []
  end.

(** The price a POST stores, when the gateway hands back [r]. *)
Definition added_price (exchange_data : CustomExchangeInput.t) (r : float) : string :=
  match CustomExchangeInput.price_percent exchange_data with
  | Some p =>
      if PyFloat.lt 0 r && truthy (adjusted_price r p)
      then format_price (adjusted_price r p)
      else "0.0000"
  | None => "0.0000"
  end.

(** Every key is the lower-cased name of its entry. *)
Definition named (d : Dict.t ExchangeData.t) : Prop :=
  Forall (fun kv => fst kv = PyStr.lower (ExchangeData.exchange (snd kv))) d.


(** ** More on the dict *)

(** [if v is not None: x.field = f v], on the entry itself. *)
Definition given {A} (v : option A) (f : A -> ExchangeData.t -> ExchangeData.t)
  (x : ExchangeData.t) : ExchangeData.t :=
  match v with
  | Some a => f a x
  | None => x
  end.

(** The entry after the price step of a PATCH, when the gateway hands
    back [r]. *)
Definition priced (body : CustomExchangeUpdateInput.t) (r : float)
  (x : ExchangeData.t) : ExchangeData.t :=
  match CustomExchangeUpdateInput.price_percent body with
  | Some p =>
      let x1 := ExchangeData.set_price_percent (Some p) x in
      if PyFloat.lt 0 r
      then ExchangeData.set_price (format_price (adjusted_price r p)) x1
      else x1
  | None =>
      given (CustomExchangeUpdateInput.price body)
        (fun v x => ExchangeData.set_price_percent None
                      (ExchangeData.set_price (format_price v) x)) x
  end.

(** The entry after an amount step: the amount is rendered before the
    field is assigned. *)
Definition amount (v : option float)
  (set : string -> ExchangeData.t -> ExchangeData.t) (x : ExchangeData.t)
  : PyFloat.float_error + ExchangeData.t :=
  match v with
  | Some a =>
      match PyFloat.floor a with
      | inl e => inl e
      | inr n => inr (set ("$" ++ PyStr.format_int_comma n) x)
      end
  | None => inr x
  end.

(** The entry a PATCH leaves in the store, with the error that stopped
    it, if any. *)
Definition patched (body : CustomExchangeUpdateInput.t) (r : float)
  (x0 : ExchangeData.t) : ExchangeData.t * option PyFloat.float_error :=
  let x2 := priced body r (given (CustomExchangeUpdateInput.pair body) ExchangeData.set_pair x0) in
  match amount (CustomExchangeUpdateInput.plusTwoPercentDepth body)
          ExchangeData.set_plusTwoPercentDepth x2 with
  | inl e => (x2, Some e)
  | inr x3 =>
  match amount (CustomExchangeUpdateInput.minusTwoPercentDepth body)
          ExchangeData.set_minusTwoPercentDepth x3 with
  | inl e => (x3, Some e)
  | inr x4 =>
  match amount (CustomExchangeUpdateInput.volume24h body)
          ExchangeData.set_volume24h x4 with
  | inl e => (x4, Some e)
  | inr x5 =>
      (ExchangeData.set_lastUpdated "Recently"
         (given (CustomExchangeUpdateInput.url body) (fun v => ExchangeData.set_url (Some v))
            (given (CustomExchangeUpdateInput.icon body) (fun v => ExchangeData.set_icon (Some v))
               (given (CustomExchangeUpdateInput.volumePercentage body)
                  (fun v => ExchangeData.set_volumePercentage (format_percentage v)) x5))),
       None)
  end end end.

(** The text a PATCH leaves in an amount field that held [old]. *)
Definition rendered (v : option float) (old : string) : string :=
  match v with
  | Some a =>
      match PyFloat.floor a with
      | inr n => "$" ++ PyStr.format_int_comma n
      | inl _ => old
      end
  | None => old
  end.

(** The entry a PATCH that succeeds leaves, field by field. *)
Definition patched_fields (body : CustomExchangeUpdateInput.t) (r : float)
  (x0 : ExchangeData.t) : ExchangeData.t :=
  ExchangeData.Build
    (ExchangeData.id x0)
    (ExchangeData.exchange x0)
    (default (ExchangeData.pair x0) (CustomExchangeUpdateInput.pair body))
    (patched_price body r x0)
    (patched_percent body x0)
    (rendered (CustomExchangeUpdateInput.plusTwoPercentDepth body)
       (ExchangeData.plusTwoPercentDepth x0))
    (rendered (CustomExchangeUpdateInput.minusTwoPercentDepth body)
       (ExchangeData.minusTwoPercentDepth x0))
    (rendered (CustomExchangeUpdateInput.volume24h body) (ExchangeData.volume24h x0))
    (default (ExchangeData.volumePercentage x0)
       (format_percentage <$> CustomExchangeUpdateInput.volumePercentage body))
    "Recently"
    (match CustomExchangeUpdateInput.icon body with
     | Some v => Some v
     | None => ExchangeData.icon x0
     end)
    (match CustomExchangeUpdateInput.url body with
     | Some v => Some v
     | None => ExchangeData.url x0
     end).

(** An amount of a PATCH body that [math.floor] refuses. *)
Definition refused (v : option float) : Prop :=
  exists a e, v = Some a /\ PyFloat.floor a = inl e.

(** ** The cache and the store *)

(** The exchanges listing answered: the request did not fail and, on a
    200, its body could be read. *)
Definition metadata_answered (reply : HttpReply (option (list ExchangeInfo.t))) : Prop :=
  match reply with
  | ConnectionError => False
  | Reply code body => code = 200 -> body <> None
  end.

(** ** Failures of the providers *)

(** The reply to the exchanges request as the fetch reads it: the
    listing on a 200, nothing on another status. *)
Definition metadata_of (reply : HttpReply (option (list ExchangeInfo.t)))
  : list ExchangeInfo.t :=
  match reply with
  | Reply code (Some exchanges_data) => if code =? 200 then exchanges_data else []
  | _ => []
  end.

(** ** The icons *)

(** ** Ranks *)

(** The store and the cache of a world are [d] and [c]. *)
Definition holds (d : Dict.t ExchangeData.t) (c : gmap string (Z * string)) (w : World) : Prop :=
  custom_exchanges w = d /\ redis_client w = c.

(** ** Requests served from the cache *)

(** ** Further sample environments *)

Module Cases.

(** The tickers request is refused with status 429. *)
Definition env_tickers_429 : Env :=
  {| binance_ticker_price := binance_ticker_price Sample.env_up;
     coingecko_exchanges := coingecko_exchanges Sample.env_up;
     coingecko_tickers := fun _ => Reply 429 None;
     redis_down := redis_down Sample.env_up;
     json_dumps := json_dumps Sample.env_up;
     json_loads := json_loads Sample.env_up |}.

(** The exchanges listing is refused with status 503. *)
Definition env_no_metadata : Env :=
  {| binance_ticker_price := binance_ticker_price Sample.env_up;
     coingecko_exchanges := fun _ => Reply 503 None;
     coingecko_tickers := coingecko_tickers Sample.env_up;
     redis_down := redis_down Sample.env_up;
     json_dumps := json_dumps Sample.env_up;
     json_loads := json_loads Sample.env_up |}.

(** No ticker is listed and Binance cannot be reached: a fetch gives the
    custom exchanges alone, with their stored prices. *)
Definition env_customs_only : Env :=
  {| binance_ticker_price := fun _ => ConnectionError;
     coingecko_exchanges := coingecko_exchanges Sample.env_up;
     coingecko_tickers := fun _ => Reply 200 (Some []);
     redis_down := redis_down Sample.env_up;
     json_dumps := json_dumps Sample.env_up;
     json_loads := json_loads Sample.env_up |}.

(** The rows of the sample tickers, built with the metadata [infos]. *)
Definition rows_of (infos : list ExchangeInfo.t) : list ExchangeData.t :=
  match ticker_rows (icon_mapping infos) (url_mapping infos) Sample.tickers with
  | inr rows => rows
  | inl _ => []
  end.

End Cases.

(** The simple price cannot be had at tick [n]. *)
Definition price_unavailable (providers : Providers) (n : nat) : Prop :=
  match coingecko_simple_price providers n with
  | ConnectionError => True
  | Reply code body => code <> 200 \/ body = None
  end.

Module Books.

(** An order book around 100: the third bid and the third ask are beyond
    2%, the fourth bid is within it again. *)
Definition book : OrderBook.t :=
  OrderBook.Build
    (Some [ (Str "100.00", Str "2.0"); (Str "99.00", Str "1.0");
            (Str "97.00", Str "5.0"); (Str "99.50", Str "7.0") ])
    (Some [ (Str "100.50", Str "1.0"); (Str "101.50", Str "2.0");
            (Str "103.00", Str "4.0") ]).

(** Binance answers with the book, CoinGecko quotes 100. *)
Definition providers_up : Providers :=
  {| coinmarketcap_market_pairs := fun _ => ConnectionError;
     binance_depth := fun _ => Reply 200 (Some book);
     coingecko_simple_price := fun _ => Reply 200 (Some (Some (Float 100%float))) |}.

(** Binance is overloaded. *)
Definition providers_busy : Providers :=
  {| coinmarketcap_market_pairs := fun _ => ConnectionError;
     binance_depth := fun _ => Reply 429 None;
     coingecko_simple_price := coingecko_simple_price providers_up |}.

(** The simple price is refused. *)
Definition providers_no_price : Providers :=
  {| coinmarketcap_market_pairs := fun _ => ConnectionError;
     binance_depth := binance_depth providers_up;
     coingecko_simple_price := fun _ => Reply 429 None |}.

(** Three market pairs: two against USDT, the second of them with the
    larger volume. *)
Definition market_pairs : list MarketPair.t :=
  [ MarketPair.Build "USDT" "Aa" (Float 95.5%float) (Int 100);
    MarketPair.Build "BTC" "Bb" (Float 0.001%float) (Int 900);
    MarketPair.Build "USDT" "Cc" (Float 94.25%float) (Float 300.5%float) ].

(** CoinMarketCap answers with [market_pairs]. *)
Definition providers_listed : Providers :=
  {| coinmarketcap_market_pairs := fun _ => Reply 200 (Some market_pairs);
     binance_depth := fun _ => ConnectionError;
     coingecko_simple_price := fun _ => ConnectionError |}.

(** The rows of [market_pairs], largest volume first. *)
Definition listed_rows : list ExchangeData.t :=
  [ ExchangeData.Build 2 "Cc" "LTC/USDT" "94.2500" None "$15" "$12" "$300"
      "1.23%" "Recently" None None;
    ExchangeData.Build 1 "Aa" "LTC/USDT" "95.5000" None "$5" "$4" "$100"
      "1.23%" "Recently" None None ].

End Books.

(** The USDT pairs of a listing, as they come. *)
Definition usdt_pairs (pairs : list MarketPair.t) : list MarketPair.t :=
  List.filter (fun market_pair => String.eqb (MarketPair.quote_symbol market_pair) "USDT") pairs.

(** The market-pairs request gave no listing: it failed, was refused, or
    its body could not be read. *)
Definition no_listing (reply : HttpReply (option (list MarketPair.t))) : Prop :=
  match reply with
  | ConnectionError => True
  | Reply code body => code <> 200 \/ body = None
  end.

(** A run of decimal digits. *)
Definition digit_chars (l : list ascii) : Prop :=
  List.Forall (fun a => PyFloat.is_digit a = true) l.

(** The value of a run of digits, read from the left onto [acc]. *)
Definition digits_value (l : list ascii) (acc : Z) : Z :=
  fold_left (fun a c => 10 * a + PyFloat.digit_val c) l acc.

(** An amount as the service renders it: [f"${n:,}"]. *)
Definition money (s : string) : Prop :=
  exists n, s = "$" ++ PyStr.format_int_comma n.

(** The three amounts of a listing are renderings. *)
Definition amounts_rendered (x : ExchangeData.t) : Prop :=
  money (ExchangeData.plusTwoPercentDepth x) /\
  money (ExchangeData.minusTwoPercentDepth x) /\
  money (ExchangeData.volume24h x).

(** The criteria whose key is an amount. *)
Definition by_amount (c : SortCriterion) : bool :=
  match c with
  | VOLUME | PLUS_DEPTH | MINUS_DEPTH => true
  | _ => false
  end.

(** The amount field a criterion reads. *)
Definition amount_of (c : SortCriterion) (x : ExchangeData.t) : string :=
  match c with
  | PLUS_DEPTH => ExchangeData.plusTwoPercentDepth x
  | MINUS_DEPTH => ExchangeData.minusTwoPercentDepth x
  | _ => ExchangeData.volume24h x
  end.

(** Every stored listing has rendered amounts. *)
Definition store_rendered (d : Dict.t ExchangeData.t) : Prop :=
  List.Forall amounts_rendered (Dict.values d).

(** ** The ten largest market pairs *)

(** A JSON number that is no NaN. *)
Definition numeric (v : number) : Prop :=
  match v with
  | Int _ => True
  | Float x => PyFloat.eq x x = true
  end.

(** The last price and the spread of a ticker are numbers. *)
Definition quoted (ticker : Ticker.t) : Prop :=
  numeric (Ticker.last ticker) /\ numeric (spread_of ticker).

(** The price and the volume share of a listing are printed numbers. *)
Definition printed (x : ExchangeData.t) : Prop :=
  (exists v, Prim2SF v <> S754_nan /\ ExchangeData.price x = format_price v) /\
  (exists v, Prim2SF v <> S754_nan /\ ExchangeData.volumePercentage x = format_percentage v).

(** The history that a request builds from the points of the chart. *)
Definition history_of (chart : Chart) (daily_close : bool) (prices : list (number * number))
  : PyFloat.float_error + list PriceHistoryItem.t :=
  if daily_close then daily_history chart prices else hourly_history chart prices.

(** The response of a request for [days] days with the history [h]. *)
Definition history_response (days : Z) (h : list PriceHistoryItem.t) : PriceHistoryResponse :=
  {| history_status := "success"; history_data := h;
     currency := "USD"; period := period_of (clamp_days days) |}.

Module Charts.

(** Four points: two on the first day, one on the ninth and one on the
    tenth. *)
Definition prices : list (number * number) :=
  [ (Int 0, Float 70.126%float); (Int 3600000, Float 71.5%float);
    (Int 691200000, Float 72%float); (Int 777600000, Int 73) ].

(** The daily closes of [prices], as the service lists them. *)
Definition closes : list PriceHistoryItem.t :=
  [ PriceHistoryItem.Build "3/1" (Float 71.5%float);
    PriceHistoryItem.Build "3/10" (Int 73);
    PriceHistoryItem.Build "3/9" (Float 72%float) ].

(** A toy codec: a payload lists the dates in order. *)
Definition dates_of (r : PriceHistoryResponse) : string :=
  String.concat ";" (map PriceHistoryItem.date (history_data r)).

(** The chart answers with [prices]; the calendar is that of March 2024,
    counted in days from the timestamp 0. *)
Definition chart_up : Chart :=
  {| coingecko_market_chart := fun _ _ => Reply 200 (Some prices);
     fromtimestamp := fun timestamp =>
       match timestamp with
       | Int n => inr {| year := 2024; month := 3; day := 1 + n / 86400000 |}
       | Float _ => inl PyFloat.ValueError
       end;
     history_dumps := fun r => Some (dates_of r);
     history_loads := fun s =>
       if String.eqb s "3/1;3/10;3/9"
       then Some {| history_status := "success"; history_data := closes;
                    currency := "USD"; period := period_of 30 |}
       else None |}.

End Charts.

(** The key of a day and the item of a point, as the loop of the daily
    closes forms them. *)
Definition date_key_of (d : date_obj) : string :=
  str_int (year d) ++ "-" ++ str_int (month d) ++ "-" ++ str_int (day d).

Definition item_of (d : date_obj) (rounded : number) : PriceHistoryItem.t :=
  PriceHistoryItem.Build (str_int (month d) ++ "/" ++ str_int (day d)) rounded.

(** No point of [points] falls on the day of key [k]. *)
Definition other_days (chart : Chart) (k : string) (points : list (number * number)) : Prop :=
  List.Forall
    (fun point => forall d, fromtimestamp chart (fst point) = inr d -> date_key_of d <> k)
    points.

(** * Properties *)

(** ** Strings, numbers and cache keys as Python writes them *)

(** [str.lower] folds the capitals of every script; a sigma that ends a
    word takes its final form, and U+0130 becomes two characters. *)
Example lower_samples :
  PyStr.lower "HitBTC" = "hitbtc" /\
  PyStr.lower "БИРЖА" = "биржа" /\
  PyStr.lower "ÉX" = "éx" /\
  PyStr.lower "ΟΔΟΣ" = "οδος" /\
  PyStr.lower "İ" = "i̇".
Proof. vm_compute. repeat split. Qed.

(** [float] takes the white space and the decimal digits of every
    script; the separators 0x1c to 0x1f are no white space to it. *)
Example float_samples :
  PyFloat.of_string " ١٢.٥ " = inr 12.5%float /\
  PyFloat.of_string (String "011" "1") = inr 1%float /\
  PyFloat.of_string (String "028" "1") = inl PyFloat.ValueError.
Proof. vm_compute. repeat split. Qed.

Example sort_cache_key_samples :
  sort_cache_key (Some VOLUME) false = "ltc_exchanges_data:SortCriterion.VOLUME:False" /\
  sort_cache_key None true = "ltc_exchanges_data:None:True".
Proof. split; reflexivity. Qed.

(** ** The dict *)

Module DictFacts.
Section DictFacts.
Context {V : Type}.
Implicit Types (d : Dict.t V) (k : string) (v : V).

Lemma get_set_eq k v d : Dict.get k (Dict.set k v d) = Some v.
Proof.
  induction d as [|[k' v'] d IH]; simpl.
  - now rewrite String.eqb_refl.
  - destruct (String.eqb k k') eqn:E; simpl; rewrite E; auto.
Qed.

Lemma get_set_ne k k' v d : k <> k' -> Dict.get k' (Dict.set k v d) = Dict.get k' d.
Proof.
  intros Hne. induction d as [|[k0 v0] d IH]; simpl.
  - destruct (String.eqb k' k) eqn:E; auto.
    apply String.eqb_eq in E. congruence.
  - destruct (String.eqb k k0) eqn:E; simpl.
    + apply String.eqb_eq in E. subst k0.
      destruct (String.eqb k' k) eqn:E'; auto.
      apply String.eqb_eq in E'. congruence.
    + now rewrite IH.
Qed.

Lemma set_set k v1 v2 d : Dict.set k v2 (Dict.set k v1 d) = Dict.set k v2 d.
Proof.
  induction d as [|[k' v'] d IH]; simpl.
  - now rewrite String.eqb_refl.
  - destruct (String.eqb k k') eqn:E; simpl; rewrite E; congruence.
Qed.

Lemma get_None_keys k d : Dict.get k d = None <-> k ∉ Dict.keys d.
Proof.
  induction d as [|[k' v'] d IH]; simpl.
  - split; [intros _; apply not_elem_of_nil | done].
  - rewrite not_elem_of_cons. destruct (String.eqb k k') eqn:E.
    + apply String.eqb_eq in E. subst. split; [discriminate | tauto].
    + apply String.eqb_neq in E. rewrite IH. tauto.
Qed.

Lemma keys_set_present k v d :
  Dict.get k d <> None -> Dict.keys (Dict.set k v d) = Dict.keys d.
Proof.
  induction d as [|[k' v'] d IH]; simpl; intros H.
  - congruence.
  - destruct (String.eqb k k') eqn:E; simpl; auto.
    f_equal. now apply IH.
Qed.

Lemma keys_set_absent k v d :
  Dict.get k d = None -> Dict.keys (Dict.set k v d) = (Dict.keys d ++ [k])%list.
Proof.
  induction d as [|[k' v'] d IH]; simpl; intros H; auto.
  destruct (String.eqb k k') eqn:E; [discriminate|].
  simpl. f_equal. now apply IH.
Qed.

Lemma wf_set k v d : Dict.wf d -> Dict.wf (Dict.set k v d).
Proof.
  unfold Dict.wf. intros Hwf.
  destruct (Dict.get k d) eqn:G.
  - rewrite keys_set_present; congruence.
  - rewrite keys_set_absent by assumption.
    apply NoDup_app. split; [assumption|]. split.
    + intros x Hx Hk. apply list_elem_of_singleton in Hk. subst x.
      now apply get_None_keys in G.
    + apply NoDup_singleton.
Qed.

Lemma del_absent k d : Dict.get k d = None -> Dict.del k d = d.
Proof.
  induction d as [|[k' v'] d IH]; simpl; intros H; auto.
  destruct (String.eqb k k') eqn:E; [discriminate|].
  f_equal. now apply IH.
Qed.

Lemma get_del_ne k k' d : k <> k' -> Dict.get k' (Dict.del k d) = Dict.get k' d.
Proof.
  intros Hne. induction d as [|[k0 v0] d IH]; simpl; auto.
  destruct (String.eqb k k0) eqn:E; simpl.
  - apply String.eqb_eq in E. subst k0.
    destruct (String.eqb k' k) eqn:E'; auto.
    apply String.eqb_eq in E'. congruence.
  - now rewrite IH.
Qed.

Lemma get_del_eq k d : Dict.wf d -> Dict.get k (Dict.del k d) = None.
Proof.
  unfold Dict.wf.
  induction d as [|[k' v'] d IH]; simpl; intros Hwf; auto.
  apply NoDup_cons in Hwf as [Hnotin Hwf].
  destruct (String.eqb k k') eqn:E; simpl.
  - apply String.eqb_eq in E. subst k'. now apply get_None_keys.
  - rewrite E. now apply IH.
Qed.

Lemma length_del k d :
  Dict.get k d <> None -> S (length (Dict.del k d)) = length d.
Proof.
  induction d as [|[k' v'] d IH]; simpl; intros H.
  - congruence.
  - destruct (String.eqb k k') eqn:E; simpl; auto.
Qed.

Lemma keys_del_incl k d x : x ∈ Dict.keys (Dict.del k d) -> x ∈ Dict.keys d.
Proof.
  induction d as [|[k' v'] d IH]; simpl; auto.
  destruct (String.eqb k k'); simpl; rewrite ?elem_of_cons; intuition.
Qed.

Lemma wf_del k d : Dict.wf d -> Dict.wf (Dict.del k d).
Proof.
  unfold Dict.wf.
  induction d as [|[k' v'] d IH]; simpl; intros Hwf; auto.
  apply NoDup_cons in Hwf as [Hnotin Hwf].
  destruct (String.eqb k k'); simpl; auto.
  apply NoDup_cons. split; auto.
  intros Hin. apply Hnotin. eapply keys_del_incl; eauto.
Qed.

Lemma mem_get k d : Dict.mem k d = true <-> Dict.get k d <> None.
Proof. unfold Dict.mem. destruct (Dict.get k d); split; congruence. Qed.
End DictFacts.
End DictFacts.

(** ** The store of custom exchanges *)

Lemma sample_store_wf : Dict.wf Sample.store.
Proof.
  unfold Dict.wf, Sample.store. simpl.
  apply NoDup_cons. split.
  - rewrite list_elem_of_singleton. discriminate.
  - apply NoDup_singleton.
Defined.

(** C9: DELETE on a name whose lower-cased form is not a key of the store
    raises the 404 [HTTPException] and leaves the whole state as it was;
    DELETE on a name whose lower-cased form is a key succeeds, that key is
    gone afterwards, every other key keeps its entry, and the store holds
    exactly one entry less. *)
Theorem delete_custom_exchange_spec (exchange_name : string) (w : World) :
  (Dict.get (PyStr.lower exchange_name) (custom_exchanges w) = None ->
   delete_custom_exchange exchange_name w = (Raise (HTTPException 404), w))
  /\
  (forall x,
      Dict.wf (custom_exchanges w) ->
      Dict.get (PyStr.lower exchange_name) (custom_exchanges w) = Some x ->
      exists w',
        delete_custom_exchange exchange_name w = (Return tt, w') /\
        Dict.get (PyStr.lower exchange_name) (custom_exchanges w') = None /\
        (forall k, k <> PyStr.lower exchange_name ->
                   Dict.get k (custom_exchanges w') = Dict.get k (custom_exchanges w)) /\
        S (length (custom_exchanges w')) = length (custom_exchanges w) /\
        Dict.wf (custom_exchanges w') /\
        redis_client w' = redis_client w /\ clock w' = clock w /\ log w' = log w).
Proof.
  split.
  - intros Hget. unfold delete_custom_exchange, bind, get_custom_exchanges_dict, Dict.mem.
    now rewrite Hget.
  - intros x Hwf Hget. eexists. split.
    + unfold delete_custom_exchange, bind, get_custom_exchanges_dict, Dict.mem,
        put_custom_exchanges.
      rewrite Hget. reflexivity.
    + simpl. repeat split.
      * now apply DictFacts.get_del_eq.
      * intros k Hk. apply DictFacts.get_del_ne. congruence.
      * apply DictFacts.length_del. congruence.
      * now apply DictFacts.wf_del.
Qed.

Lemma sample_store_cyrillic_wf : Dict.wf Sample.store_cyrillic.
Proof. unfold Dict.wf, Sample.store_cyrillic. simpl. apply NoDup_singleton. Defined.

Lemma delete_custom_exchange_spec_witness :
  delete_custom_exchange "Kraken" Sample.world = (Raise (HTTPException 404), Sample.world)
  /\ (exists w',
       delete_custom_exchange "MYEX" Sample.world = (Return tt, w') /\
       Dict.get "myex" (custom_exchanges w') = None /\
       Dict.get "pct" (custom_exchanges w') = Some Sample.driven /\
       S (length (custom_exchanges w')) = 2%nat)
  /\ exists w',
       delete_custom_exchange "БИРЖА" Sample.world_cyrillic = (Return tt, w') /\
       Dict.get "биржа" (custom_exchanges w') = None /\
       S (length (custom_exchanges w')) = 1%nat.
Proof.
  split; [|split].
  - apply (proj1 (delete_custom_exchange_spec "Kraken" Sample.world)). reflexivity.
  - destruct (proj2 (delete_custom_exchange_spec "MYEX" Sample.world)
                Sample.fixed sample_store_wf eq_refl)
      as (w' & Hrun & Hgone & Hothers & Hsize & _).
    exists w'. repeat split; try assumption.
    rewrite Hothers; [reflexivity | discriminate].
  - destruct (proj2 (delete_custom_exchange_spec "БИРЖА" Sample.world_cyrillic)
                (Sample.listing "Биржа" "100.0000" None "$1,234,567")
                sample_store_cyrillic_wf ltac:(vm_compute; reflexivity))
      as (w' & Hrun & Hgone & _ & Hsize & _).
    exists w'. repeat split; assumption.
Defined.

(** ** The reference-price gateway *)

(** The gateway never raises: it makes one request and returns a float. *)
Lemma get_binance_ltc_price_run (env : Env) (w : World) :
  get_binance_ltc_price env w =
  (Return (binance_price_at env (clock w)), after_call (HttpGet BinanceTickerPrice) w).
Proof.
  unfold binance_price_at.
  cbv beta iota zeta delta
    [get_binance_ltc_price try_except bind requests_get external_call ret raise].
  destruct (binance_ticker_price env (clock w)) as [|code body]; simpl; [reflexivity|].
  destruct (code =? 200); [|now destruct body].
  destruct body as [s|]; [|reflexivity].
  unfold lift_float. destruct (PyFloat.of_string s); reflexivity.
Qed.

Lemma format_money_run (x : float) (n : Z) (w : World) :
  PyFloat.floor x = inr n ->
  format_money x w = (Return ("$" ++ PyStr.format_int_comma n), w).
Proof. intros H. unfold format_money, bind, lift_float. now rewrite H. Qed.

(** C8: when a custom exchange is added with a percentage and the gateway
    gives its sentinel 0 (or any value that is not positive), the exchange
    is stored with the literal default price "0.0000" and keeps its
    percentage: the gateway's value is tested before any product is
    formed. *)
Theorem add_custom_exchange_sentinel
  (env : Env) (exchange_data : CustomExchangeInput.t) (w : World)
  (p : float) (plus minus volume : Z) :
  CustomExchangeInput.price_percent exchange_data = Some p ->
  PyFloat.lt 0 (binance_price_at env (clock w)) = false ->
  PyFloat.floor (CustomExchangeInput.plusTwoPercentDepth exchange_data) = inr plus ->
  PyFloat.floor (CustomExchangeInput.minusTwoPercentDepth exchange_data) = inr minus ->
  PyFloat.floor (CustomExchangeInput.volume24h exchange_data) = inr volume ->
  exists entry w',
    add_custom_exchange env exchange_data w = (Return tt, w') /\
    Dict.get (PyStr.lower (CustomExchangeInput.exchange exchange_data))
      (custom_exchanges w') = Some entry /\
    ExchangeData.price entry = "0.0000" /\
    ExchangeData.price_percent entry = Some p /\
    log w' = (log w ++ [HttpGet BinanceTickerPrice])%list.
Proof.
  intros Hp Hr Hplus Hminus Hvol.
  unfold add_custom_exchange, bind. rewrite Hp.
  rewrite get_binance_ltc_price_run. rewrite Hr. unfold ret at 1.
  rewrite (format_money_run _ _ _ Hplus), (format_money_run _ _ _ Hminus),
    (format_money_run _ _ _ Hvol).
  unfold get_custom_exchanges_dict, put_custom_exchanges.
  eexists. eexists. split; [reflexivity|].
  simpl. rewrite DictFacts.get_set_eq. repeat split.
Qed.

Lemma add_custom_exchange_sentinel_witness :
  exists entry w',
    add_custom_exchange Sample.env_no_price
      (CustomExchangeInput.Build "NewEx" "LTC/USDT" (Some 5%float)
         1234.9%float 99.5%float 1234567.2%float 0.456%float None None)
      Sample.world = (Return tt, w') /\
    Dict.get "newex" (custom_exchanges w') = Some entry /\
    ExchangeData.price entry = "0.0000" /\
    ExchangeData.price_percent entry = Some 5%float /\
    log w' = [HttpGet BinanceTickerPrice].
Proof.
  apply (add_custom_exchange_sentinel Sample.env_no_price
           (CustomExchangeInput.Build "NewEx" "LTC/USDT" (Some 5%float)
              1234.9%float 99.5%float 1234567.2%float 0.456%float None None)
           Sample.world 5%float 1234 99 1234567);
    reflexivity.
Defined.


(** ** The merge of the custom exchanges *)

Lemma merged_price_run (env : Env) (c : ExchangeData.t) (w : World) :
  merged_price env c w =
  match ExchangeData.price_percent c with
  | Some p =>
      let r := binance_price_at env (clock w) in
      (Return (if PyFloat.lt 0 r then format_price (adjusted_price r p)
               else ExchangeData.price c),
       after_call (HttpGet BinanceTickerPrice) w)
  | None => (Return (ExchangeData.price c), w)
  end.
Proof.
  unfold merged_price. destruct (ExchangeData.price_percent c) as [p|]; [|reflexivity].
  unfold bind. rewrite get_binance_ltc_price_run.
  now destruct (PyFloat.lt 0 (binance_price_at env (clock w))).
Qed.

Lemma gateway_calls_cons (c : ExchangeData.t) (l : list ExchangeData.t) :
  gateway_calls (c :: l) =
  ((if percent_driven c then 1 else 0) + gateway_calls l)%nat.
Proof. unfold gateway_calls. simpl. now destruct (percent_driven c). Qed.

(** The merge loop always returns. *)
Lemma custom_rows_total (env : Env) (customs : list ExchangeData.t) (w : World) :
  exists rows, fst (custom_rows env customs w) = Return rows.
Proof.
  revert w. induction customs as [|c customs IH]; intros w; simpl.
  - now exists [].
  - unfold bind at 1. rewrite merged_price_run.
    destruct (ExchangeData.price_percent c) as [p|]; cbv zeta.
    + unfold bind.
      destruct (IH (after_call (HttpGet BinanceTickerPrice) w)) as [rows Hrows].
      destruct (custom_rows env customs _) as [[rows'|e] w']; [|discriminate].
      now eexists.
    + unfold bind. destruct (IH w) as [rows Hrows].
      destruct (custom_rows env customs _) as [[rows'|e] w']; [|discriminate].
      now eexists.
Qed.

(** C2: the merge loop over the custom exchanges never fails.  It calls the
    gateway once for every listing that has a percentage, in order.  For
    such a listing the merged row's price is the gateway's price times
    (1 + percentage/100), printed with four decimals, when the gateway's
    price is positive; when it is not (the gateway gave its sentinel 0) the
    row keeps the listing's own stored price.  A listing without a
    percentage keeps its stored price. *)
Theorem custom_rows_prices (env : Env) (customs : list ExchangeData.t) (w : World) :
  exists rows,
    custom_rows env customs w =
      (Return rows,
       after_calls (repeat (HttpGet BinanceTickerPrice) (gateway_calls customs)) w) /\
    length rows = length customs /\
    forall (i : nat) (c : ExchangeData.t),
      customs !! i = Some c ->
      exists row,
        rows !! i = Some row /\
        ExchangeData.exchange row = ExchangeData.exchange c /\
        ExchangeData.price_percent row = ExchangeData.price_percent c /\
        match ExchangeData.price_percent c with
        | Some p =>
            let r := binance_price_at env (clock w + gateway_calls (take i customs)) in
            ExchangeData.price row =
              if PyFloat.lt 0 r then format_price (adjusted_price r p)
              else ExchangeData.price c
        | None => ExchangeData.price row = ExchangeData.price c
        end.
Proof.
  revert w. induction customs as [|c0 customs IH]; intros w.
  - exists []. repeat split. intros i c Hi. destruct i; discriminate.
  - simpl custom_rows. unfold bind at 1. rewrite merged_price_run.
    rewrite gateway_calls_cons. unfold percent_driven.
    destruct (ExchangeData.price_percent c0) as [p|] eqn:Hp.
    + cbv zeta.
      destruct (IH (after_call (HttpGet BinanceTickerPrice) w)) as (rows & Hrun & Hlen & Hrows).
      unfold bind. rewrite Hrun. eexists. split; [reflexivity|]. split; [simpl; congruence|].
      intros [|i] c Hi; simpl in Hi.
      * injection Hi as <-. eexists. split; [reflexivity|]. simpl. rewrite Hp.
        repeat split. now rewrite Nat.add_0_r.
      * destruct (Hrows i c Hi) as (row & Hrow & Hname & Hpct & Hprice).
        exists row. repeat split; try assumption.
        simpl take. rewrite gateway_calls_cons. unfold percent_driven. rewrite Hp.
        simpl clock in Hprice.
        replace (clock w + (1 + gateway_calls (take i customs)))%nat
          with (S (clock w) + gateway_calls (take i customs))%nat by lia.
        exact Hprice.
    + destruct (IH w) as (rows & Hrun & Hlen & Hrows).
      unfold bind. rewrite Hrun. eexists. split; [reflexivity|]. split; [simpl; congruence|].
      intros [|i] c Hi; simpl in Hi.
      * injection Hi as <-. eexists. split; [reflexivity|]. simpl. rewrite Hp.
        repeat split.
      * destruct (Hrows i c Hi) as (row & Hrow & Hname & Hpct & Hprice).
        exists row. repeat split; try assumption.
        simpl take. rewrite gateway_calls_cons. unfold percent_driven. rewrite Hp.
        exact Hprice.
Qed.

Lemma custom_rows_prices_witness :
  (exists rows row,
      fst (custom_rows Sample.env_up (Dict.values Sample.store) Sample.world) = Return rows /\
      rows !! 1%nat = Some row /\
      ExchangeData.price row = "105.0000") /\
  (exists rows row,
      fst (custom_rows Sample.env_no_price (Dict.values Sample.store) Sample.world) = Return rows /\
      rows !! 1%nat = Some row /\
      ExchangeData.price row = "90.0000").
Proof.
  split.
  - destruct (custom_rows_prices Sample.env_up (Dict.values Sample.store) Sample.world)
      as (rows & Hrun & _ & Hrows).
    destruct (Hrows 1%nat Sample.driven eq_refl) as (row & Hrow & _ & _ & Hprice).
    exists rows, row. rewrite Hrun. repeat split; [assumption|].
    rewrite Hprice. reflexivity.
  - destruct (custom_rows_prices Sample.env_no_price (Dict.values Sample.store) Sample.world)
      as (rows & Hrun & _ & Hrows).
    destruct (Hrows 1%nat Sample.driven eq_refl) as (row & Hrow & _ & _ & Hprice).
    exists rows, row. rewrite Hrun. repeat split; [assumption|].
    rewrite Hprice. reflexivity.
Defined.


(** ** Rules for computations *)

Lemma triple_bind {A B} (P : World -> Prop) (m : M A) (k : A -> M B)
  (R : A -> World -> Prop) (Q : B -> World -> Prop) (E : World -> Prop) :
  triple P m R E -> (forall a, triple (R a) (k a) Q E) -> triple P (bind m k) Q E.
Proof.
  intros Hm Hk w HP. unfold bind. specialize (Hm w HP).
  destruct (m w) as [[a|e] w']; [|assumption]. now apply Hk.
Qed.

Lemma triple_ret {A} (P : World -> Prop) (a : A) (Q : A -> World -> Prop)
  (E : World -> Prop) :
  (forall w, P w -> Q a w) -> triple P (ret a) Q E.
Proof. intros H w HP. now apply H. Qed.

Lemma triple_assign (k : string) (f : ExchangeData.t -> ExchangeData.t)
  (P Q : ExchangeData.t -> Prop) (n : nat) (l : list Event) (E : World -> Prop) :
  (forall x, P x -> Q (f x)) ->
  triple (entry_at k P n l) (assign k f) (fun _ => entry_at k Q n l) E.
Proof.
  intros HPQ w ((x & Hget & HP) & Hclock & Hlog).
  unfold assign, bind, get_custom_exchanges_dict. rewrite Hget.
  unfold put_custom_exchanges, entry_at. simpl. repeat split; try assumption.
  exists (f x). split; [apply DictFacts.get_set_eq | now apply HPQ].
Qed.

Lemma triple_when_given {A} (v : option A) (body : A -> M unit)
  (P : World -> Prop) (E : World -> Prop) :
  (forall a, v = Some a -> triple P (body a) (fun _ => P) E) ->
  triple P (when_given v body) (fun _ => P) E.
Proof.
  intros H. destruct v as [a|]; simpl.
  - now apply H.
  - now apply triple_ret.
Qed.

(** ** PATCH of a custom exchange *)

Lemma triple_gateway (env : Env) (k : string) (P : ExchangeData.t -> Prop)
  (n : nat) (l : list Event) (E : World -> Prop) :
  triple (entry_at k P n l) (get_binance_ltc_price env)
    (fun r w' => r = binance_price_at env n /\
                 entry_at k P (S n) (l ++ [HttpGet BinanceTickerPrice])%list w') E.
Proof.
  intros w (Hx & Hclock & Hlog). rewrite get_binance_ltc_price_run.
  unfold entry_at. simpl. rewrite Hclock, Hlog. auto.
Qed.

(** What a PATCH leaves behind on an entry that exists, however it ends:
    the entry is still there, with the price and the percentage that
    [patched_price] and [patched_percent] describe; the PATCH raises only
    when one of its amounts cannot be rendered. *)
Lemma update_custom_exchange_run
  (env : Env) (exchange_name : string) (body : CustomExchangeUpdateInput.t)
  (x0 : ExchangeData.t) (w : World) :
  Dict.get (PyStr.lower exchange_name) (custom_exchanges w) = Some x0 ->
  let final (w' : World) (x' : ExchangeData.t) :=
    Dict.get (PyStr.lower exchange_name) (custom_exchanges w') = Some x' /\
    ExchangeData.price x' = patched_price body (binance_price_at env (clock w)) x0 /\
    ExchangeData.price_percent x' = patched_percent body x0 /\
    log w' = (log w ++ patch_calls body)%list in
  match update_custom_exchange env exchange_name body w with
  | (Return res, w') => exists x', res = Some x' /\ final w' x'
  | (Raise _, w') => ~ amounts_ok body /\ exists x', final w' x'
  end.
Proof.
  intros Hget final.
  set (k := PyStr.lower exchange_name) in *.
  set (r := binance_price_at env (clock w)) in *.
  set (P0 := fun x => ExchangeData.price x = ExchangeData.price x0 /\
                      ExchangeData.price_percent x = ExchangeData.price_percent x0).
  set (P1 := fun x => ExchangeData.price x = patched_price body r x0 /\
                      ExchangeData.price_percent x = patched_percent body x0).
  set (I0 := entry_at k P0 (clock w) (log w)).
  set (I1 := entry_at k P1 (length (patch_calls body) + clock w) (log w ++ patch_calls body)).
  set (E := fun w' => I1 w' /\ ~ amounts_ok body).
  set (Q := fun (res : option ExchangeData.t) w' =>
              I1 w' /\ res = Dict.get k (custom_exchanges w')).
  assert (Hkeep : forall (f : ExchangeData.t -> ExchangeData.t),
             (forall x, ExchangeData.price (f x) = ExchangeData.price x /\
                        ExchangeData.price_percent (f x) = ExchangeData.price_percent x) ->
             forall (P : ExchangeData.t -> Prop) n l E',
               (P = P0 \/ P = P1) ->
               triple (entry_at k P n l) (assign k f) (fun _ => entry_at k P n l) E').
  { intros f Hf P n l E' HP. apply triple_assign. intros x Hx.
    destruct (Hf x) as [H1 H2].
    destruct HP as [-> | ->]; unfold P0, P1 in *; rewrite H1, H2; exact Hx. }
  assert (Hmoney : forall (v : option float) (set : string -> ExchangeData.t -> ExchangeData.t),
             (~ floors v -> ~ amounts_ok body) ->
             (forall s x, ExchangeData.price (set s x) = ExchangeData.price x /\
                          ExchangeData.price_percent (set s x) = ExchangeData.price_percent x) ->
             triple I1
               (when_given v (fun a => let! s := format_money a in assign k (set s)))
               (fun _ => I1) E).
  { intros v set Hbad Hset. apply triple_when_given. intros a ->.
    apply (triple_bind I1 _ _ (fun _ => I1)).
    - intros w1 H1. unfold format_money, bind, lift_float.
      destruct (PyFloat.floor a) as [e|n] eqn:Hfl; simpl; [|assumption].
      split; [assumption|]. apply Hbad. intros [n Hn]. congruence.
    - intros s. apply Hkeep; [apply Hset | now right]. }
  assert (Hbody : triple I0 (update_custom_exchange env exchange_name body) Q E).
  { unfold update_custom_exchange. fold k.
    intros w0 H0. unfold bind at 1. unfold get_custom_exchanges_dict at 1.
    assert (Hmem : Dict.mem k (custom_exchanges w0) = true).
    { apply DictFacts.mem_get. destruct H0 as ((x & Hx & _) & _). congruence. }
    rewrite Hmem. simpl negb. cbv iota.
    clear Hmem. revert w0 H0.
    apply (triple_bind I0 _ _ (fun _ => I0) Q E).
    { apply triple_when_given. intros v _. apply Hkeep; [split; reflexivity | now left]. }
    intros _.
    apply (triple_bind I0 _ _ (fun _ => I1) Q E).
    { unfold I0, I1, P1, patched_price, patched_percent, patch_calls.
      destruct (CustomExchangeUpdateInput.price_percent body) as [p|].
      - set (Pa := fun x => ExchangeData.price x = ExchangeData.price x0 /\
                            ExchangeData.price_percent x = Some p).
        apply (triple_bind _ _ _ (fun _ => entry_at k Pa (clock w) (log w))).
        { apply triple_assign. intros x [Hx _]. split; [exact Hx | reflexivity]. }
        intros _.
        apply (triple_bind _ _ _
                 (fun r' w' => r' = r /\
                    entry_at k Pa (S (clock w)) (log w ++ [HttpGet BinanceTickerPrice])%list w')).
        { apply triple_gateway. }
        intros r' w1 [-> H1]. revert w1 H1. simpl length. simpl Nat.add.
        destruct (PyFloat.lt 0 r).
        + apply triple_assign. intros x [_ Hx]. split; [reflexivity | exact Hx].
        + apply triple_ret. intros w1 H1. exact H1.
      - simpl length. simpl Nat.add. rewrite app_nil_r.
        destruct (CustomExchangeUpdateInput.price body) as [v|]; simpl.
        + apply (triple_bind _ _ _
                   (fun _ => entry_at k
                      (fun x => ExchangeData.price x = format_price v) (clock w) (log w))).
          { apply triple_assign. intros x _. reflexivity. }
          intros _. apply triple_assign. intros x Hx. split; [exact Hx | reflexivity].
        + apply triple_ret. intros w1 H1. exact H1. }
    intros _.
    do 3 (apply (triple_bind I1 _ _ (fun _ => I1) Q E);
          [apply Hmoney; [unfold amounts_ok; tauto | split; reflexivity] | intros _]).
    do 3 (apply (triple_bind I1 _ _ (fun _ => I1) Q E);
          [apply triple_when_given; intros v _;
           apply Hkeep; [split; reflexivity | now right]
          |intros _]).
    apply (triple_bind I1 _ _ (fun _ => I1) Q E);
      [apply Hkeep; [split; reflexivity | now right] | intros _].
    intros w1 H1. simpl. split; [exact H1 | reflexivity]. }
  assert (H0 : I0 w).
  { unfold I0, entry_at. repeat split. exists x0. split; [exact Hget | split; reflexivity]. }
  specialize (Hbody w H0).
  destruct (update_custom_exchange env exchange_name body w) as [[res|e] w'].
  - destruct Hbody as [((x' & Hx' & Hprice & Hpct) & _ & Hlog) ->].
    exists x'. unfold final. auto.
  - destruct Hbody as [((x' & Hx' & Hprice & Hpct) & _ & Hlog) Hbad].
    split; [exact Hbad|]. exists x'. unfold final. auto.
Qed.

(** C4, as amended: on an existing custom exchange, a PATCH with a price and
    no percentage stores that price with four decimals and clears the
    percentage; a PATCH with a percentage stores the percentage and
    recomputes the price from the gateway's price when that price is
    positive, leaving the stored price as it was when the gateway gave its
    sentinel 0.  After the first the exchange has no percentage, after the
    second it has one.  The PATCH returns the entry when its amounts can be
    rendered. *)
Theorem update_price_exclusive
  (env : Env) (exchange_name : string) (body : CustomExchangeUpdateInput.t)
  (x0 : ExchangeData.t) (w : World) :
  Dict.get (PyStr.lower exchange_name) (custom_exchanges w) = Some x0 ->
  exists x',
    Dict.get (PyStr.lower exchange_name)
      (custom_exchanges (snd (update_custom_exchange env exchange_name body w))) = Some x' /\
    (forall v,
        CustomExchangeUpdateInput.price body = Some v ->
        CustomExchangeUpdateInput.price_percent body = None ->
        ExchangeData.price x' = format_price v /\
        ExchangeData.price_percent x' = None) /\
    (forall p,
        CustomExchangeUpdateInput.price_percent body = Some p ->
        ExchangeData.price_percent x' = Some p /\
        ExchangeData.price x' =
          if PyFloat.lt 0 (binance_price_at env (clock w))
          then format_price (adjusted_price (binance_price_at env (clock w)) p)
          else ExchangeData.price x0) /\
    (amounts_ok body ->
     fst (update_custom_exchange env exchange_name body w) = Return (Some x')).
Proof.
  intros Hget.
  pose proof (update_custom_exchange_run env exchange_name body x0 w Hget) as Hrun.
  cbv zeta in Hrun.
  destruct (update_custom_exchange env exchange_name body w) as [[res|e] w'];
    [destruct Hrun as (x' & Hres & Hx' & Hprice & Hpct & _)
    |destruct Hrun as (Hbad & x' & Hx' & Hprice & Hpct & _)];
    exists x'; simpl; (split; [exact Hx'|]);
    unfold patched_price in Hprice; unfold patched_percent in Hpct.
  - split; [|split].
    + intros v Hv Hp. rewrite Hprice, Hpct, Hp, Hv. now split.
    + intros p Hp. rewrite Hprice, Hpct, Hp. now split.
    + intros _. now subst res.
  - split; [|split].
    + intros v Hv Hp. rewrite Hprice, Hpct, Hp, Hv. now split.
    + intros p Hp. rewrite Hprice, Hpct, Hp. now split.
    + intros Hok. contradiction.
Qed.

(** A PATCH with a price only, one with a percentage only, and one with
    both. *)
Lemma update_price_exclusive_witness :
  (exists x',
      update_custom_exchange Sample.env_up "MYEX"
        (CustomExchangeUpdateInput.Build None (Some 50%float) None None None None None None None)
        Sample.world
      = (Return (Some x'), with_store (Dict.set "myex" x' Sample.store) Sample.world) /\
      ExchangeData.price x' = "50.0000" /\
      ExchangeData.price_percent x' = None) /\
  (exists x',
      fst (update_custom_exchange Sample.env_up "myex"
             (CustomExchangeUpdateInput.Build None None (Some 10%float) None None None None None None)
             Sample.world)
      = Return (Some x') /\
      ExchangeData.price x' = "110.0000" /\
      ExchangeData.price_percent x' = Some 10%float).
Proof.
  split.
  - destruct (update_price_exclusive Sample.env_up "MYEX"
                (CustomExchangeUpdateInput.Build None (Some 50%float) None None None None None None None)
                Sample.fixed Sample.world eq_refl)
      as (x' & Hx' & Hprice & _ & Hret).
    destruct (Hprice 50%float eq_refl eq_refl) as [Hp Hpct].
    exists x'. split; [|split; [rewrite Hp; reflexivity | exact Hpct]].
    vm_compute in Hx'. injection Hx' as <-. reflexivity.
  - destruct (update_price_exclusive Sample.env_up "myex"
                (CustomExchangeUpdateInput.Build None None (Some 10%float) None None None None None None)
                Sample.fixed Sample.world eq_refl)
      as (x' & _ & _ & Hpct & Hret).
    destruct (Hpct 10%float eq_refl) as [Hp Hprice].
    exists x'. split; [|split; [rewrite Hprice; reflexivity | exact Hp]].
    apply Hret. repeat split.
Defined.

(** C4 fails as stated.  A PATCH that carries a price of 50 together with a
    percentage of 10 does not store "50.0000" and does not clear the
    percentage (the gateway quotes 100: the price becomes "110.0000"); and
    a PATCH that carries a percentage while the gateway gives its sentinel
    0 stores the percentage but leaves the old price "100.0000" in place,
    not a price computed from the reference price. *)
Lemma update_price_exclusive_counterexample :
  (exists x',
      update_custom_exchange Sample.env_up "MyEx"
        (CustomExchangeUpdateInput.Build None (Some 50%float) (Some 10%float)
           None None None None None None)
        Sample.world
      = (Return (Some x'),
         after_call (HttpGet BinanceTickerPrice)
           (with_store (Dict.set "myex" x' Sample.store) Sample.world)) /\
      ExchangeData.price x' = "110.0000" /\
      ExchangeData.price x' <> format_price 50%float /\
      ExchangeData.price_percent x' <> None) /\
  (exists x',
      update_custom_exchange Sample.env_no_price "MyEx"
        (CustomExchangeUpdateInput.Build None None (Some 10%float)
           None None None None None None)
        Sample.world
      = (Return (Some x'),
         after_call (HttpGet BinanceTickerPrice)
           (with_store (Dict.set "myex" x' Sample.store) Sample.world)) /\
      ExchangeData.price_percent x' = Some 10%float /\
      ExchangeData.price x' = "100.0000" /\
      ExchangeData.price x' <>
        format_price (adjusted_price (binance_price_at Sample.env_no_price 0) 10%float)).
Proof.
  split.
  - eexists. split; [vm_compute; reflexivity|].
    repeat split; vm_compute; discriminate.
  - eexists. split; [vm_compute; reflexivity|].
    repeat split; vm_compute; discriminate.
Qed.

(** C10, as amended: on an existing custom exchange, a PATCH that carries
    both a price and a percentage does exactly what the same PATCH without
    the price does.  The percentage is stored, not cleared; the price is
    recomputed from the gateway's price when that price is positive, and
    left as it was when the gateway gave its sentinel 0. *)
Theorem update_percent_over_price
  (env : Env) (exchange_name : string) (body : CustomExchangeUpdateInput.t)
  (x0 : ExchangeData.t) (w : World) (p v : float) :
  Dict.get (PyStr.lower exchange_name) (custom_exchanges w) = Some x0 ->
  CustomExchangeUpdateInput.price_percent body = Some p ->
  CustomExchangeUpdateInput.price body = Some v ->
  update_custom_exchange env exchange_name body w =
    update_custom_exchange env exchange_name (drop_price body) w /\
  exists x',
    Dict.get (PyStr.lower exchange_name)
      (custom_exchanges (snd (update_custom_exchange env exchange_name body w))) = Some x' /\
    ExchangeData.price_percent x' = Some p /\
    ExchangeData.price x' =
      if PyFloat.lt 0 (binance_price_at env (clock w))
      then format_price (adjusted_price (binance_price_at env (clock w)) p)
      else ExchangeData.price x0.
Proof.
  intros Hget Hp Hv. split.
  - unfold update_custom_exchange, drop_price.
    cbn [CustomExchangeUpdateInput.pair CustomExchangeUpdateInput.price
         CustomExchangeUpdateInput.price_percent
         CustomExchangeUpdateInput.plusTwoPercentDepth
         CustomExchangeUpdateInput.minusTwoPercentDepth
         CustomExchangeUpdateInput.volume24h
         CustomExchangeUpdateInput.volumePercentage
         CustomExchangeUpdateInput.icon CustomExchangeUpdateInput.url].
    rewrite Hp. reflexivity.
  - pose proof (update_custom_exchange_run env exchange_name body x0 w Hget) as Hrun.
    cbv zeta in Hrun. unfold patched_price, patched_percent in Hrun. rewrite Hp in Hrun.
    destruct (update_custom_exchange env exchange_name body w) as [[res|e] w'];
      [destruct Hrun as (x' & _ & Hx' & Hprice & Hpct & _)
      |destruct Hrun as (_ & x' & Hx' & Hprice & Hpct & _)];
      exists x'; simpl; auto.
Qed.

Lemma update_percent_over_price_witness :
  exists x',
    Dict.get "myex"
      (custom_exchanges
         (snd (update_custom_exchange Sample.env_up "MyEx"
                 (CustomExchangeUpdateInput.Build None (Some 50%float) (Some 10%float)
                    None None None None None None)
                 Sample.world))) = Some x' /\
    ExchangeData.price_percent x' = Some 10%float /\
    ExchangeData.price x' = "110.0000".
Proof.
  destruct (update_percent_over_price Sample.env_up "MyEx"
              (CustomExchangeUpdateInput.Build None (Some 50%float) (Some 10%float)
                 None None None None None None)
              Sample.fixed Sample.world 10%float 50%float eq_refl eq_refl eq_refl)
    as (_ & x' & Hx' & Hpct & Hprice).
  exists x'. split; [exact Hx'|]. split; [exact Hpct|].
  rewrite Hprice. reflexivity.
Defined.

(** C10 fails as stated: with a price of 50 and a percentage of 10 in the
    body and the gateway giving its sentinel 0, the percentage is stored but
    the price is not recomputed from the reference price; the old price
    "100.0000" stays. *)
Lemma update_percent_over_price_counterexample :
  exists x',
    update_custom_exchange Sample.env_no_price "MyEx"
      (CustomExchangeUpdateInput.Build None (Some 50%float) (Some 10%float)
         None None None None None None)
      Sample.world
    = (Return (Some x'),
       after_call (HttpGet BinanceTickerPrice)
         (with_store (Dict.set "myex" x' Sample.store) Sample.world)) /\
    ExchangeData.price_percent x' = Some 10%float /\
    ExchangeData.price x' = ExchangeData.price Sample.fixed /\
    ExchangeData.price x' <>
      format_price (adjusted_price (binance_price_at Sample.env_no_price 0) 10%float).
Proof.
  eexists. split; [vm_compute; reflexivity|].
  repeat split; vm_compute; discriminate.
Qed.


(** ** Floors and roundings *)

(** The digits printed for [m * 2^e] are those of an integer nearest to
    it. *)
Lemma round_half_even_spec (m e : Z) :
  e < 0 ->
  2 * Z.abs (PyFloat.round_half_even m e * 2 ^ (- e) - m) <= 2 ^ (- e).
Proof.
  intros He. unfold PyFloat.round_half_even.
  destruct (0 <=? e) eqn:E; [apply Z.leb_le in E; lia|].
  assert (Hpos : 0 < 2 ^ (- e)) by (apply Z.pow_pos_nonneg; lia).
  set (d := 2 ^ (- e)) in *.
  pose proof (Z.div_mod m d ltac:(lia)) as Hdm.
  pose proof (Z.mod_pos_bound m d Hpos) as Hmod.
  cbv zeta.
  destruct (Z.compare_spec (2 * (m mod d)) d) as [Heq|Hlt|Hgt].
  - destruct (Z.even (m / d)); nia.
  - nia.
  - nia.
Qed.



(** [math.floor] is the floor of the exact value of a finite float. *)
Lemma floor_spec (x : float) (n : Z) (s : bool) (m : positive) (e : Z) :
  Prim2SF x = S754_finite s m e ->
  PyFloat.floor x = inr n ->
  let v := if s then Zneg m else Zpos m in
  if 0 <=? e then n = v * 2 ^ e
  else n * 2 ^ (- e) <= v < (n + 1) * 2 ^ (- e).
Proof.
  intros Hx Hfloor. unfold PyFloat.floor in Hfloor. rewrite Hx in Hfloor.
  injection Hfloor as <-. cbv zeta.
  destruct (0 <=? e) eqn:He; [reflexivity|].
  apply Z.leb_gt in He.
  assert (Hpos : 0 < 2 ^ (- e)) by (apply Z.pow_pos_nonneg; lia).
  set (v := if s then Z.neg m else Z.pos m). set (d := 2 ^ (- e)) in *.
  pose proof (Z.div_mod v d ltac:(lia)) as Hdm.
  pose proof (Z.mod_pos_bound v d Hpos) as Hmod.
  nia.
Qed.

(** ** The depth estimates of the snapshot *)

Lemma ticker_row_depths (icons urls : gmap string (option string))
  (ticker : Ticker.t) (row : ExchangeData.t) :
  ticker_row icons urls ticker = inr row ->
  exists v plus minus,
    number_to_float (base_volume_usd ticker) = inr v /\
    PyFloat.floor (v * 0.06)%float = inr plus /\
    PyFloat.floor (v * 0.05)%float = inr minus /\
    ExchangeData.plusTwoPercentDepth row = "$" ++ PyStr.format_int_comma plus /\
    ExchangeData.minusTwoPercentDepth row = "$" ++ PyStr.format_int_comma minus.
Proof.
  unfold ticker_row, depth_estimate, and_then. intros H.
  destruct (number_to_float (base_volume_usd ticker)) as [|v]; [discriminate|].
  destruct (PyFloat.floor (v * 0.06)%float) as [|plus] eqn:Hplus; [discriminate|].
  destruct (PyFloat.floor (v * 0.05)%float) as [|minus] eqn:Hminus; [discriminate|].
  destruct (number_to_float (Ticker.last ticker)); [discriminate|].
  destruct (number_floor (base_volume_usd ticker)); [discriminate|].
  destruct (number_to_float _); [discriminate|].
  injection H as <-. exists v, plus, minus. repeat split; assumption.
Qed.

(** C7: every row the fetcher builds comes from a USDT ticker, in order,
    and carries as its +2% depth the floor of the ticker's converted USD
    volume times 0.06 and as its -2% depth the floor of that volume times
    0.05 (products of doubles); a ticker whose numbers are finite does get
    its row; and a volume of 1,000,000, integer or float, gives exactly
    60000 and 50000. *)
Theorem ticker_depth_estimates (icons urls : gmap string (option string)) :
  (forall tickers rows,
      ticker_rows icons urls tickers = inr rows ->
      Forall2
        (fun ticker row =>
           exists v plus minus,
             number_to_float (base_volume_usd ticker) = inr v /\
             PyFloat.floor (v * 0.06)%float = inr plus /\
             PyFloat.floor (v * 0.05)%float = inr minus /\
             ExchangeData.plusTwoPercentDepth row = "$" ++ PyStr.format_int_comma plus /\
             ExchangeData.minusTwoPercentDepth row = "$" ++ PyStr.format_int_comma minus)
        (List.filter is_usdt tickers) rows) /\
  (forall ticker v plus minus last volume spread,
      number_to_float (base_volume_usd ticker) = inr v ->
      PyFloat.floor (v * 0.06)%float = inr plus ->
      PyFloat.floor (v * 0.05)%float = inr minus ->
      number_to_float (Ticker.last ticker) = inr last ->
      number_floor (base_volume_usd ticker) = inr volume ->
      number_to_float (spread_of ticker) = inr spread ->
      exists row,
        ticker_row icons urls ticker = inr row /\
        ExchangeData.plusTwoPercentDepth row = "$" ++ PyStr.format_int_comma plus /\
        ExchangeData.minusTwoPercentDepth row = "$" ++ PyStr.format_int_comma minus) /\
  depth_estimate (Int 1000000) 0.06%float = inr 60000 /\
  depth_estimate (Int 1000000) 0.05%float = inr 50000 /\
  depth_estimate (Float 1000000%float) 0.06%float = inr 60000 /\
  depth_estimate (Float 1000000%float) 0.05%float = inr 50000.
Proof.
  split; [|split].
  - induction tickers as [|ticker tickers IH]; intros rows Hrows; simpl in Hrows.
    + injection Hrows as <-. constructor.
    + simpl. fold (is_usdt ticker) in Hrows. destruct (is_usdt ticker).
      * unfold and_then in Hrows.
        destruct (ticker_row icons urls ticker) as [|row] eqn:Hrow; [discriminate|].
        destruct (ticker_rows icons urls tickers) as [|rows']; [discriminate|].
        injection Hrows as <-. constructor.
        -- now apply (ticker_row_depths icons urls).
        -- now apply IH.
      * now apply IH.
  - intros ticker v plus minus last volume spread Hv Hplus Hminus Hlast Hvol Hspread.
    unfold ticker_row, depth_estimate, and_then. fold (spread_of ticker).
    rewrite Hv, Hplus, Hminus, Hlast, Hvol, Hspread.
    eexists. repeat split.
  - repeat split; vm_compute; reflexivity.
Qed.

Lemma ticker_depth_estimates_witness :
  exists rows row,
    ticker_rows ∅ ∅ Sample.tickers = inr rows /\
    length rows = 3%nat /\
    rows !! 1%nat = Some row /\
    ExchangeData.plusTwoPercentDepth row = "$120,000" /\
    ExchangeData.minusTwoPercentDepth row = "$100,000".
Proof.
  destruct (ticker_depth_estimates ∅ ∅) as (Hrows & Hrow & _).
  destruct (Hrow (Sample.ticker "HitBTC" (Int 2000000) 96%float)
              2000000%float 120000 100000 96%float 2000000 0.123%float
              eq_refl eq_refl eq_refl eq_refl eq_refl eq_refl)
    as (row & Hrun & Hplus & Hminus).
  pose proof (Hrows Sample.tickers _ eq_refl) as Hall.
  eexists. exists row. split; [reflexivity|]. split; [reflexivity|].
  split; [|split; assumption].
  vm_compute in Hrun. injection Hrun as <-. reflexivity.
Defined.

(** ** The order of sort keys *)

Lemma lex_refl (a : list Z) : lex a a = Eq.
Proof. induction a as [|x a IH]; simpl; [reflexivity|]. now rewrite Z.compare_refl. Qed.

Lemma lex_antisym (a b : list Z) : lex b a = CompOpp (lex a b).
Proof.
  revert b. induction a as [|x a IH]; intros [|y b]; simpl; try reflexivity.
  rewrite (Z.compare_antisym x y). destruct (x ?= y); simpl; auto.
Qed.

Lemma lex_eq (a b : list Z) : lex a b = Eq -> a = b.
Proof.
  revert b. induction a as [|x a IH]; intros [|y b]; simpl; try discriminate; auto.
  destruct (x ?= y) eqn:E; try discriminate.
  intros H. apply Z.compare_eq in E. f_equal; auto.
Qed.

Lemma lex_trans (a b c : list Z) : lex a b = Lt -> lex b c = Lt -> lex a c = Lt.
Proof.
  revert b c. induction a as [|x a IH]; intros [|y b] [|z c]; simpl; try discriminate; auto.
  destruct (Z.compare_spec x y), (Z.compare_spec y z), (Z.compare_spec x z);
    try discriminate; try lia; auto.
  apply IH.
Qed.

Lemma lex_le_trans (a b c : list Z) : lex a b <> Gt -> lex b c <> Gt -> lex a c <> Gt.
Proof.
  intros Hab Hbc.
  destruct (lex a b) eqn:E1; [|clear Hab|congruence].
  - apply lex_eq in E1. now subst.
  - destruct (lex b c) eqn:E2; [|clear Hbc|congruence].
    + apply lex_eq in E2. subst. congruence.
    + rewrite (lex_trans a b c E1 E2). discriminate.
Qed.

Lemma SFcompare_lex (x y : spec_float) :
  SFcompare x y =
  match float_code x, float_code y with
  | Some a, Some b => Some (lex a b)
  | _, _ => None
  end.
Proof.
  destruct x as [sx|sx| |sx mx ex], y as [sy|sy| |sy my ey]; simpl;
    try destruct sx; try destruct sy; simpl; try reflexivity.
  - rewrite Z.compare_opp, (Z.compare_antisym ex ey).
    destruct (ex ?= ey); simpl; try reflexivity.
    unfold Pos.compare. now destruct (Pos.compare_cont Eq mx my).
  - destruct (ex ?= ey); simpl; try reflexivity.
    unfold Pos.compare. now destruct (Pos.compare_cont Eq mx my).
Qed.

Lemma string_compare_lex (s t : string) :
  String.compare s t = lex (string_code s) (string_code t).
Proof.
  revert t. induction s as [|c s IH]; intros [|d t]; simpl; try reflexivity.
  unfold Ascii.compare. rewrite N2Z.inj_compare.
  destruct (N_of_ascii c ?= N_of_ascii d)%N; auto.
Qed.

Lemma key_lt_cmp (a b : sort_key) :
  key_lt a b = match key_cmp a b with Some Lt => true | _ => false end.
Proof.
  destruct a as [m|x|s], b as [n|y|t]; unfold key_cmp; simpl;
    try reflexivity; try (now destruct (float_code (Prim2SF _))).
  - unfold Z.ltb. now destruct (m ?= n).
  - unfold PyFloat.lt. rewrite FloatAxioms.ltb_spec. unfold SFltb. rewrite SFcompare_lex.
    destruct (float_code (Prim2SF x)), (float_code (Prim2SF y)); reflexivity.
  - unfold String.ltb. rewrite string_compare_lex. reflexivity.
Qed.

Lemma key_eq_cmp (a b : sort_key) :
  key_eq a b = match key_cmp a b with Some Eq => true | _ => false end.
Proof.
  destruct a as [m|x|s], b as [n|y|t]; unfold key_cmp; simpl;
    try reflexivity; try (now destruct (float_code (Prim2SF _))).
  - destruct (Z.eqb_spec m n) as [->|Hne].
    + now rewrite Z.compare_refl.
    + destruct (m ?= n) eqn:C; try reflexivity.
      apply Z.compare_eq in C. contradiction.
  - unfold PyFloat.eq. rewrite FloatAxioms.eqb_spec. unfold SFeqb. rewrite SFcompare_lex.
    destruct (float_code (Prim2SF x)), (float_code (Prim2SF y)); reflexivity.
  - rewrite <- string_compare_lex.
    destruct (String.eqb s t) eqn:E.
    + apply String.eqb_eq in E. subst. rewrite string_compare_lex, lex_refl. reflexivity.
    + destruct (String.compare s t) eqn:C; try reflexivity.
      apply String.compare_eq_iff in C. apply String.eqb_neq in E. contradiction.
Qed.

Lemma key_cmp_antisym (a b : sort_key) (c : comparison) :
  key_cmp a b = Some c -> key_cmp b a = Some (CompOpp c).
Proof.
  unfold key_cmp.
  destruct (key_code a) as [[i ca]|], (key_code b) as [[j cb]|]; try discriminate.
  rewrite (Nat.eqb_sym j i). destruct (Nat.eqb i j); [|discriminate].
  intros [= <-]. now rewrite lex_antisym.
Qed.

Lemma key_lt_asym (a b : sort_key) : key_lt a b = true -> key_lt b a = false.
Proof.
  rewrite !key_lt_cmp. destruct (key_cmp a b) as [[]|] eqn:E; try discriminate.
  now rewrite (key_cmp_antisym _ _ _ E).
Qed.

(** Two keys equal to a third are not ordered. *)
Lemma key_eq_not_lt (a b k : sort_key) :
  key_eq a k = true -> key_eq b k = true -> key_lt a b = false.
Proof.
  rewrite !key_eq_cmp, key_lt_cmp. unfold key_cmp.
  destruct (key_code a) as [[i ca]|], (key_code b) as [[j cb]|],
    (key_code k) as [[l ck]|]; try discriminate; try reflexivity.
  destruct (Nat.eqb i l) eqn:Eil; [|discriminate].
  destruct (Nat.eqb j l) eqn:Ejl; [|discriminate].
  apply Nat.eqb_eq in Eil, Ejl. subst.
  destruct (lex ca ck) eqn:E1; try discriminate.
  destruct (lex cb ck) eqn:E2; try discriminate.
  apply lex_eq in E1, E2. subst. rewrite Nat.eqb_refl, lex_refl. reflexivity.
Qed.

(** On keys that can be compared, "not less" is transitive. *)
Lemma key_not_lt_trans (a b c : sort_key) :
  key_cmp a b <> None -> key_cmp b c <> None ->
  key_lt b a = false -> key_lt c b = false -> key_lt c a = false.
Proof.
  rewrite !key_lt_cmp. unfold key_cmp.
  destruct (key_code a) as [[i ca]|], (key_code b) as [[j cb]|],
    (key_code c) as [[l cc]|]; try congruence.
  rewrite (Nat.eqb_sym j i), (Nat.eqb_sym l j), (Nat.eqb_sym l i).
  destruct (Nat.eqb i j) eqn:Eij; [|congruence].
  destruct (Nat.eqb j l) eqn:Ejl; [|congruence].
  apply Nat.eqb_eq in Eij, Ejl. subst. rewrite Nat.eqb_refl.
  intros _ _ Hba Hcb.
  assert (Hab : lex ca cb <> Gt).
  { rewrite (lex_antisym cb ca). destruct (lex cb ca); simpl; congruence. }
  assert (Hbc : lex cb cc <> Gt).
  { rewrite (lex_antisym cc cb). destruct (lex cc cb); simpl; congruence. }
  pose proof (lex_le_trans _ _ _ Hab Hbc) as Hac.
  rewrite (lex_antisym ca cc). destruct (lex ca cc); simpl; congruence.
Qed.

(** ** The stable arrangement *)

Section StableSortFacts.
Context {A : Type}.
Implicit Types (x y : sort_key * A) (l : list (sort_key * A)) (k : sort_key).

Lemma insort_left_perm x l : insort_left x l ≡ₚ x :: l.
Proof.
  induction l as [|y l IH]; simpl; [reflexivity|].
  destruct (key_lt (fst y) (fst x)); [|reflexivity].
  rewrite IH. apply Permutation_swap.
Qed.

Lemma stable_sort_perm l : stable_sort l ≡ₚ l.
Proof.
  induction l as [|x l IH]; simpl; [reflexivity|].
  rewrite insort_left_perm. now rewrite IH.
Qed.

Lemma ascending_cons (a : sort_key) (ks : list sort_key) :
  ascending (a :: ks) <->
  match ks with [] => True | b :: _ => key_lt b a = false end /\ ascending ks.
Proof. destruct ks; simpl; tauto. Qed.

Lemma insort_left_ascending x l :
  ascending (map fst l) -> ascending (map fst (insort_left x l)).
Proof.
  induction l as [|y l IH]; simpl map; intros Hasc; [exact I|].
  simpl insort_left. destruct (key_lt (fst y) (fst x)) eqn:E.
  - simpl map. apply ascending_cons in Hasc as [Hhd Hasc].
    apply ascending_cons. split; [|now apply IH].
    destruct l as [|z l]; simpl.
    + now apply key_lt_asym.
    + simpl in Hhd. destruct (key_lt (fst z) (fst x)); simpl; [exact Hhd|].
      now apply key_lt_asym.
  - simpl map. apply ascending_cons. split; [exact E | exact Hasc].
Qed.

Lemma stable_sort_ascending l : ascending (map fst (stable_sort l)).
Proof.
  induction l as [|x l IH]; simpl; [exact I|]. now apply insort_left_ascending.
Qed.

(** Sorting a list that is in order changes nothing. *)
Lemma stable_sort_id l : ascending (map fst l) -> stable_sort l = l.
Proof.
  induction l as [|x l IH]; simpl map; intros Hasc; [reflexivity|].
  apply ascending_cons in Hasc as [Hhd Hasc].
  simpl. rewrite IH by assumption.
  destruct l as [|y l]; simpl; [reflexivity|].
  simpl in Hhd. now rewrite Hhd.
Qed.

(** Stability: the elements of one key keep their order. *)
Lemma insort_left_filter k x l :
  List.filter (fun y => key_eq (fst y) k) (insort_left x l) =
  List.filter (fun y => key_eq (fst y) k) (x :: l).
Proof.
  induction l as [|y l IH]; [reflexivity|].
  simpl insort_left. destruct (key_lt (fst y) (fst x)) eqn:E; [|reflexivity].
  simpl List.filter in *. rewrite IH.
  destruct (key_eq (fst x) k) eqn:Ex, (key_eq (fst y) k) eqn:Ey; try reflexivity.
  rewrite (key_eq_not_lt _ _ _ Ey Ex) in E. discriminate.
Qed.

Lemma stable_sort_filter k l :
  List.filter (fun y => key_eq (fst y) k) (stable_sort l) =
  List.filter (fun y => key_eq (fst y) k) l.
Proof.
  induction l as [|x l IH]; [reflexivity|].
  simpl stable_sort. rewrite insort_left_filter.
  simpl. now rewrite IH.
Qed.

(** On comparable keys the result is sorted throughout. *)
Lemma insort_left_sorted x l :
  comparable (map fst (x :: l)) ->
  StronglySorted (fun y z => key_lt (fst z) (fst y) = false) l ->
  StronglySorted (fun y z => key_lt (fst z) (fst y) = false) (insort_left x l).
Proof.
  intros Hcmp Hsorted. induction Hsorted as [|y l Hsorted IH Hall]; simpl.
  - repeat constructor.
  - destruct (key_lt (fst y) (fst x)) eqn:E.
    + constructor.
      * apply IH. intros a b Ha Hb. apply Hcmp.
        -- simpl in *. rewrite !elem_of_cons in *. tauto.
        -- simpl in *. rewrite !elem_of_cons in *. tauto.
      * rewrite (insort_left_perm x l). constructor; [now apply key_lt_asym | exact Hall].
    + constructor; [now constructor|].
      constructor; [exact E|].
      rewrite Forall_forall in Hall |- *. intros z Hz.
      apply (key_not_lt_trans (fst x) (fst y) (fst z)).
      * apply Hcmp; simpl; rewrite !elem_of_cons; auto.
      * apply Hcmp; simpl; rewrite !elem_of_cons; auto.
        right. right. apply list_elem_of_fmap. exists z. split; [reflexivity|].
        exact Hz.
      * exact E.
      * now apply Hall.
Qed.

Lemma stable_sort_sorted l :
  comparable (map fst l) ->
  StronglySorted (fun y z => key_lt (fst z) (fst y) = false) (stable_sort l).
Proof.
  induction l as [|x l IH]; intros Hcmp; simpl; [constructor|].
  apply insort_left_sorted.
  - intros a b Ha Hb. apply Hcmp.
    + simpl in *. rewrite elem_of_cons in *. destruct Ha as [->|Ha]; auto.
      right. apply list_elem_of_fmap in Ha as (p & -> & Hp).
      apply list_elem_of_fmap. exists p. split; [reflexivity|].
      now rewrite <- (stable_sort_perm l).
    + simpl in *. rewrite elem_of_cons in *. destruct Hb as [->|Hb]; auto.
      right. apply list_elem_of_fmap in Hb as (p & -> & Hp).
      apply list_elem_of_fmap. exists p. split; [reflexivity|].
      now rewrite <- (stable_sort_perm l).
  - apply IH. intros a b Ha Hb. apply Hcmp; simpl; rewrite elem_of_cons; auto.
Qed.


End StableSortFacts.

Lemma key_cmp_numeric (a b : sort_key) :
  key_eq a a = true -> key_eq b b = true -> kind a = kind b -> key_cmp a b <> None.
Proof.
  rewrite !key_eq_cmp. unfold key_cmp.
  destruct a as [m|x|s], b as [n|y|t]; simpl; try discriminate;
    try (intros _ _ _; discriminate).
  destruct (float_code (Prim2SF x)), (float_code (Prim2SF y)); simpl; congruence.
Qed.

(** ** The searches of [list.sort] *)

Section Searches.
#[local] Open Scope nat_scope.

Lemma gallop_ofs_spec (continue : nat -> bool) (maxofs : nat) :
  forall fuel lastofs ofs,
    lastofs < ofs -> maxofs <= ofs + fuel ->
    continue lastofs = true -> lastofs < maxofs ->
    forall l' o', gallop_ofs fuel continue maxofs lastofs ofs = (l', o') ->
    continue l' = true /\ l' < maxofs /\ l' < o' /\
    (maxofs <= o' \/ continue o' = false).
Proof.
  induction fuel as [|fuel IH]; intros lastofs ofs Hlt Hfuel Hc Hmax l' o'; cbn [gallop_ofs].
  - intros [= <- <-]. repeat split; auto. left. lia.
  - destruct (Nat.ltb_spec ofs maxofs) as [Hofs|Hofs].
    + destruct (continue ofs) eqn:Hco.
      * apply IH; auto; lia.
      * intros [= <- <-]. repeat split; auto.
    + intros [= <- <-]. repeat split; auto.
Qed.

Lemma bisect_spec (right : nat -> bool) (n : nat) :
  forall fuel lo hi,
    lo <= hi -> hi - lo <= fuel -> hi <= n ->
    (lo = 0 \/ right (lo - 1) = true) ->
    (hi = n \/ right hi = false) ->
    bisect fuel right lo hi <= n /\
    (bisect fuel right lo hi = 0 \/
     right (bisect fuel right lo hi - 1) = true) /\
    (bisect fuel right lo hi = n \/
     right (bisect fuel right lo hi) = false).
Proof.
  induction fuel as [|fuel IH]; intros lo hi Hle Hfuel Hn Hlo Hhi; cbn [bisect].
  - assert (lo = hi) by lia. subst. auto.
  - destruct (Nat.ltb_spec lo hi) as [Hlt|Hge].
    + set (m := lo + (hi - lo) / 2).
      assert (Hm : lo <= m < hi).
      { unfold m.
        assert ((hi - lo) / 2 < hi - lo) by (apply Nat.div_lt; lia). lia. }
      fold m. destruct (right m) eqn:Hr.
      * apply IH; try lia; auto. right. now replace (S m - 1) with m by lia.
      * apply IH; try lia; auto.
    + assert (lo = hi) by lia. subst. auto.
Qed.

(** What a galloping search returns is a place where [right] changes
    from true to false. *)
Lemma gallop_spec (right : nat -> bool) (n hint : nat) :
  hint < n ->
  gallop right n hint <= n /\
  (gallop right n hint = 0 \/ right (gallop right n hint - 1) = true) /\
  (gallop right n hint = n \/ right (gallop right n hint) = false).
Proof.
  intros Hhint. unfold gallop. destruct (right hint) eqn:Hh.
  - pose proof (gallop_ofs_spec (fun ofs => right (hint + ofs)) (n - hint) n 0 1) as H.
    destruct (gallop_ofs n (fun ofs => right (hint + ofs)) (n - hint) 0 1) as [l' o'].
    destruct (H ltac:(lia) ltac:(lia) ltac:(now rewrite Nat.add_0_r) ltac:(lia) l' o' eq_refl)
      as (Hc & Hl & Hlo & Hexit). clear H.
    apply bisect_spec; try lia.
    + right. replace (l' + hint + 1 - 1) with (hint + l') by lia. exact Hc.
    + destruct (Nat.le_gt_cases (n - hint) o') as [Hge|Hlt].
      * left. lia.
      * right. destruct Hexit as [Hexit|Hexit]; [lia|].
        replace (Nat.min o' (n - hint) + hint) with (hint + o') by lia. exact Hexit.
  - pose proof (gallop_ofs_spec (fun ofs => negb (right (hint - ofs))) (hint + 1) n 0 1) as H.
    destruct (gallop_ofs n (fun ofs => negb (right (hint - ofs))) (hint + 1) 0 1) as [l' o'].
    destruct (H ltac:(lia) ltac:(lia) ltac:(now rewrite Nat.sub_0_r, Hh) ltac:(lia) l' o' eq_refl)
      as (Hc & Hl & Hlo & Hexit). clear H.
    apply negb_true_iff in Hc.
    apply bisect_spec; try lia.
    + destruct (Nat.le_gt_cases (hint + 1) o') as [Hge|Hlt].
      * left. lia.
      * right. destruct Hexit as [Hexit|Hexit]; [lia|].
        apply negb_false_iff in Hexit.
        replace (hint + 1 - Nat.min o' (hint + 1) - 1) with (hint - o') by lia. exact Hexit.
    + right. exact Hc.
Qed.

End Searches.

(** ** Keys in order *)

Section Orderly.
Context {A : Type}.
Variable n : nat.
Implicit Types (x y z key : sort_key * A) (a b l : list (sort_key * A)).
#[local] Open Scope nat_scope.
#[local] Open Scope list_scope.

Lemma orderly_cmp x y :
  orderly n x -> orderly n y -> key_cmp (fst x) (fst y) <> None.
Proof. intros [Hx Hx'] [Hy Hy']. apply key_cmp_numeric; congruence. Qed.

Lemma item_lt_asym x y : item_lt x y = true -> item_lt y x = false.
Proof. apply key_lt_asym. Qed.

Lemma item_lt_irrefl x : item_lt x x = false.
Proof.
  destruct (item_lt x x) eqn:E; [|reflexivity].
  pose proof (item_lt_asym _ _ E). congruence.
Qed.

Lemma item_le_trans x y z :
  orderly n x -> orderly n y -> orderly n z ->
  item_lt y x = false -> item_lt z y = false -> item_lt z x = false.
Proof.
  intros Hx Hy Hz. apply key_not_lt_trans; now apply orderly_cmp.
Qed.

Lemma item_lt_le_trans x y z :
  orderly n x -> orderly n y -> orderly n z ->
  item_lt x y = true -> item_lt z y = false -> item_lt x z = true.
Proof.
  intros Hx Hy Hz Hxy Hyz. destruct (item_lt x z) eqn:E; [reflexivity|].
  pose proof (item_le_trans y z x Hy Hz Hx Hyz E). congruence.
Qed.

Lemma item_le_lt_trans x y z :
  orderly n x -> orderly n y -> orderly n z ->
  item_lt y x = false -> item_lt y z = true -> item_lt x z = true.
Proof.
  intros Hx Hy Hz Hxy Hyz. destruct (item_lt x z) eqn:E; [reflexivity|].
  pose proof (item_le_trans z x y Hz Hx Hy E Hxy). congruence.
Qed.

(** Keys that are not ordered either way are equal. *)
Lemma item_eq x y :
  orderly n x -> orderly n y ->
  item_lt x y = false -> item_lt y x = false -> key_eq (fst x) (fst y) = true.
Proof.
  intros Hx Hy. unfold item_lt. rewrite !key_lt_cmp, key_eq_cmp.
  pose proof (orderly_cmp x y Hx Hy) as Hc.
  destruct (key_cmp (fst x) (fst y)) as [c|] eqn:E; [|congruence].
  rewrite (key_cmp_antisym _ _ _ E). now destruct c.
Qed.

(** Equal keys compare alike. *)
Lemma key_eq_code (k k' : sort_key) : key_eq k k' = true -> key_code k = key_code k'.
Proof.
  rewrite key_eq_cmp. unfold key_cmp.
  destruct (key_code k) as [[i c]|], (key_code k') as [[j d]|]; try discriminate.
  destruct (Nat.eqb_spec i j) as [->|]; [|discriminate].
  destruct (lex c d) eqn:E; try discriminate. apply lex_eq in E. now subst.
Qed.

Lemma key_eq_lt_l (k k' k2 : sort_key) : key_eq k k' = true -> key_lt k k2 = key_lt k' k2.
Proof. intros H. rewrite !key_lt_cmp. unfold key_cmp. now rewrite (key_eq_code _ _ H). Qed.

Lemma key_eq_lt_r (k k' k2 : sort_key) : key_eq k k' = true -> key_lt k2 k = key_lt k2 k'.
Proof. intros H. rewrite !key_lt_cmp. unfold key_cmp. now rewrite (key_eq_code _ _ H). Qed.

Lemma key_eq_sym (k k' : sort_key) : key_eq k k' = key_eq k' k.
Proof.
  rewrite !key_eq_cmp. destruct (key_cmp k k') as [c|] eqn:E.
  - rewrite (key_cmp_antisym _ _ _ E). now destruct c.
  - destruct (key_cmp k' k) as [c|] eqn:E'; [|reflexivity].
    rewrite (key_cmp_antisym _ _ _ E') in E. discriminate.
Qed.

Lemma key_eq_eq_l (k k' k2 : sort_key) : key_eq k k' = true -> key_eq k k2 = key_eq k' k2.
Proof. intros H. rewrite !key_eq_cmp. unfold key_cmp. now rewrite (key_eq_code _ _ H). Qed.


Lemma ordered_nth a (d : sort_key * A) i j :
  ordered a -> i < j -> j < length a -> item_lt (nth j a d) (nth i a d) = false.
Proof.
  unfold ordered. intros Hs. revert i j. induction Hs as [|x a Hs IH Hall]; intros i j Hij Hj; simpl in *; [lia|].
  destruct j as [|j]; [lia|]. destruct i as [|i].
  - rewrite List.Forall_forall in Hall. apply Hall. apply nth_In. lia.
  - apply IH; lia.
Qed.

Lemma ordered_nth_le a (d : sort_key * A) i j :
  ordered a -> i <= j -> j < length a -> item_lt (nth j a d) (nth i a d) = false.
Proof.
  intros Hs Hij Hj. destruct (Nat.eq_dec i j) as [->|Hne].
  - apply item_lt_irrefl.
  - apply ordered_nth; auto. lia.
Qed.

Lemma Forall_firstn_nth (P : sort_key * A -> Prop) a (d : sort_key * A) r :
  r <= length a -> (forall i, i < r -> P (nth i a d)) -> List.Forall P (firstn r a).
Proof.
  intros Hr H. apply (List.Forall_nth P (firstn r a)). intros i d' Hi.
  rewrite length_firstn in Hi.
  rewrite (nth_indep _ d' d) by (rewrite length_firstn; lia).
  rewrite nth_firstn. destruct (Nat.ltb_spec i r); [|lia]. apply H. lia.
Qed.

Lemma Forall_skipn_nth (P : sort_key * A -> Prop) a (d : sort_key * A) r :
  (forall i, r <= i -> i < length a -> P (nth i a d)) -> List.Forall P (skipn r a).
Proof.
  intros H. apply (List.Forall_nth P (skipn r a)). intros i d' Hi.
  rewrite length_skipn in Hi.
  rewrite (nth_indep _ d' d) by (rewrite length_skipn; lia).
  rewrite nth_skipn. apply H; lia.
Qed.

(** Where a sorted list changes from "not greater than [key]" to
    "greater than [key]". *)
Lemma boundary_right key a r :
  List.Forall (orderly n) a -> orderly n key -> ordered a ->
  r <= length a ->
  (r = 0 \/ negb (item_lt key (nth (r - 1) a key)) = true) ->
  (r = length a \/ negb (item_lt key (nth r a key)) = false) ->
  List.Forall (fun z => item_lt key z = false) (firstn r a) /\
  List.Forall (fun z => item_lt key z = true) (skipn r a).
Proof.
  intros Hok Hkey Hs Hr Hlo Hhi.
  assert (Hnth : forall i, i < length a -> orderly n (nth i a key)).
  { intros i Hi. now apply List.Forall_nth. }
  split.
  - apply (Forall_firstn_nth _ a key r Hr). intros i Hi.
    destruct Hlo as [->|Hlo]; [lia|]. apply negb_true_iff in Hlo.
    apply (item_le_trans _ (nth (r - 1) a key)); auto; try (apply Hnth; lia).
    apply ordered_nth_le; auto; lia.
  - apply (Forall_skipn_nth _ a key r). intros i Hri Hi.
    destruct Hhi as [->|Hhi]; [lia|]. apply negb_false_iff in Hhi.
    apply (item_lt_le_trans _ (nth r a key)); auto; try (apply Hnth; lia).
    apply ordered_nth_le; auto; lia.
Qed.

(** Where a sorted list changes from "less than [key]" to "not less
    than [key]". *)
Lemma boundary_left key a r :
  List.Forall (orderly n) a -> orderly n key -> ordered a ->
  r <= length a ->
  (r = 0 \/ item_lt (nth (r - 1) a key) key = true) ->
  (r = length a \/ item_lt (nth r a key) key = false) ->
  List.Forall (fun z => item_lt z key = true) (firstn r a) /\
  List.Forall (fun z => item_lt z key = false) (skipn r a).
Proof.
  intros Hok Hkey Hs Hr Hlo Hhi.
  assert (Hnth : forall i, i < length a -> orderly n (nth i a key)).
  { intros i Hi. now apply List.Forall_nth. }
  split.
  - apply (Forall_firstn_nth _ a key r Hr). intros i Hi.
    destruct Hlo as [->|Hlo]; [lia|].
    apply (item_le_lt_trans _ (nth (r - 1) a key)); auto; try (apply Hnth; lia).
    apply ordered_nth_le; auto; lia.
  - apply (Forall_skipn_nth _ a key r). intros i Hri Hi.
    destruct Hhi as [->|Hhi]; [lia|].
    apply (item_le_trans _ (nth r a key)); auto; try (apply Hnth; lia).
    apply ordered_nth_le; auto; lia.
Qed.

Lemma gallop_right_spec key a hint :
  List.Forall (orderly n) a -> orderly n key -> ordered a -> hint < length a ->
  List.Forall (fun z => item_lt key z = false) (firstn (gallop_right key a hint) a) /\
  List.Forall (fun z => item_lt key z = true) (skipn (gallop_right key a hint) a).
Proof.
  intros Hok Hkey Hs Hh. unfold gallop_right.
  destruct (gallop_spec (fun i => negb (item_lt key (nth i a key))) (length a) hint Hh)
    as (Hr & Hlo & Hhi).
  now apply boundary_right.
Qed.

Lemma gallop_left_spec key a hint :
  List.Forall (orderly n) a -> orderly n key -> ordered a -> hint < length a ->
  List.Forall (fun z => item_lt z key = true) (firstn (gallop_left key a hint) a) /\
  List.Forall (fun z => item_lt z key = false) (skipn (gallop_left key a hint) a).
Proof.
  intros Hok Hkey Hs Hh. unfold gallop_left.
  destruct (gallop_spec (fun i => item_lt (nth i a key) key) (length a) hint Hh)
    as (Hr & Hlo & Hhi).
  now apply boundary_left.
Qed.

End Orderly.

(** ** The stable merge *)

Section Merge.
Context {A : Type}.
Implicit Types (x y z key : sort_key * A) (a b l p q : list (sort_key * A)).
#[local] Open Scope nat_scope.
#[local] Open Scope list_scope.

Lemma smerge_nil_l b : smerge [] b = b.
Proof. now destruct b. Qed.

Lemma smerge_nil_r a : smerge a [] = a.
Proof. now destruct a. Qed.

Lemma smerge_cons x a y b :
  smerge (x :: a) (y :: b) =
  if item_lt y x then y :: smerge (x :: a) b else x :: smerge a (y :: b).
Proof. reflexivity. Qed.

Lemma smerge_perm a b : smerge a b ≡ₚ a ++ b.
Proof.
  revert b. induction a as [|x a IHa]; intros b.
  - now rewrite smerge_nil_l.
  - induction b as [|y b IHb].
    + now rewrite smerge_nil_r, app_nil_r.
    + rewrite smerge_cons. destruct (item_lt y x).
      * rewrite IHb. apply Permutation_middle.
      * rewrite IHa. reflexivity.
Qed.

(** The elements of [a] that are not greater than the head of [b] go
    first. *)
Lemma smerge_skip_a p q y b :
  List.Forall (fun z => item_lt y z = false) p ->
  smerge (p ++ q) (y :: b) = p ++ smerge q (y :: b).
Proof.
  induction 1 as [|x p Hx _ IH]; [reflexivity|].
  simpl app. rewrite smerge_cons, Hx. now rewrite IH.
Qed.

(** The elements of [b] that are less than the head of [a] go first. *)
Lemma smerge_skip_b x a p q :
  List.Forall (fun z => item_lt z x = true) p ->
  smerge (x :: a) (p ++ q) = p ++ smerge (x :: a) q.
Proof.
  induction 1 as [|y p Hy _ IH]; [reflexivity|].
  simpl app. rewrite smerge_cons, Hy. now rewrite IH.
Qed.

Lemma smerge_single_l z b :
  List.Forall (fun y => item_lt y z = true) b -> smerge [z] b = b ++ [z].
Proof.
  intros H. rewrite <- (app_nil_r b) at 1. rewrite (smerge_skip_b z [] b [] H).
  now rewrite smerge_nil_r.
Qed.

Lemma smerge_single_r a z :
  List.Forall (fun x => item_lt z x = true) a -> smerge a [z] = z :: a.
Proof.
  destruct a as [|x a]; [reflexivity|]. intros H. apply Forall_cons in H as [Hx _].
  rewrite smerge_cons, Hx. now rewrite smerge_nil_r.
Qed.

(** An element of [a] greater than all of [b] goes last. *)
Lemma smerge_snoc_a a x b :
  List.Forall (fun y => item_lt y x = true) b ->
  smerge (a ++ [x]) b = smerge a b ++ [x].
Proof.
  intros Hb. revert b Hb. induction a as [|u a IHa]; intros b Hb.
  - simpl app. rewrite smerge_nil_l. now apply smerge_single_l.
  - induction Hb as [|v b Hv Hb IHb].
    + now rewrite !smerge_nil_r.
    + simpl app. rewrite !smerge_cons. destruct (item_lt v u).
      * simpl app in IHb. now rewrite IHb.
      * rewrite IHa by now constructor. reflexivity.
Qed.

(** An element of [b] not less than any of [a] goes last. *)
Lemma smerge_snoc_b a b y :
  List.Forall (fun x => item_lt y x = false) a ->
  smerge a (b ++ [y]) = smerge a b ++ [y].
Proof.
  intros Ha. revert b. induction Ha as [|u a Hu Ha IHa]; intros b.
  - now rewrite !smerge_nil_l.
  - induction b as [|v b IHb].
    + simpl app. rewrite smerge_cons, Hu.
      specialize (IHa []). simpl app in IHa. rewrite IHa. now rewrite smerge_nil_r.
    + simpl app. rewrite !smerge_cons. destruct (item_lt v u).
      * simpl app in IHb. now rewrite IHb.
      * specialize (IHa (v :: b)). simpl app in IHa. now rewrite IHa.
Qed.

Lemma smerge_app_a p q b :
  List.Forall (fun z => List.Forall (fun w => item_lt w z = true) b) q ->
  smerge (p ++ q) b = smerge p b ++ q.
Proof.
  induction q as [|z q IH] using rev_ind; intros Hq.
  - now rewrite !app_nil_r.
  - apply Forall_app in Hq as [Hq Hz]. apply Forall_cons in Hz as [Hz _].
    rewrite app_assoc, smerge_snoc_a by assumption.
    rewrite IH by assumption. now rewrite <- app_assoc.
Qed.

Lemma smerge_app_b a p q :
  List.Forall (fun z => List.Forall (fun w => item_lt z w = false) a) q ->
  smerge a (p ++ q) = smerge a p ++ q.
Proof.
  induction q as [|z q IH] using rev_ind; intros Hq.
  - now rewrite !app_nil_r.
  - apply Forall_app in Hq as [Hq Hz]. apply Forall_cons in Hz as [Hz _].
    rewrite app_assoc, smerge_snoc_b by assumption.
    rewrite IH by assumption. now rewrite <- app_assoc.
Qed.

End Merge.

(** ** The merges of [list.sort] *)

Ltac list_eq := repeat (first [rewrite <- app_assoc | progress cbn [app]]); reflexivity.

Section MergeLoops.
Context {A : Type}.
Variable n : nat.
Implicit Types (x y z key : sort_key * A) (a b l p q dest : list (sort_key * A)).
#[local] Open Scope nat_scope.
#[local] Open Scope list_scope.

Lemma ordered_app p q : ordered (p ++ q) -> ordered p /\ ordered q.
Proof.
  unfold ordered. intros H. split.
  - now apply StronglySorted_app_1_l in H.
  - now apply StronglySorted_app_1_r in H.
Qed.

Lemma ordered_skipn k a : ordered a -> ordered (skipn k a).
Proof. intros H. rewrite <- (firstn_skipn k a) in H. now apply ordered_app in H. Qed.

Lemma ordered_firstn k a : ordered a -> ordered (firstn k a).
Proof. intros H. rewrite <- (firstn_skipn k a) in H. now apply ordered_app in H. Qed.

Lemma ordered_tail x a : ordered (x :: a) -> ordered a.
Proof. intros H. now apply StronglySorted_inv in H. Qed.

Lemma ordered_head x a :
  ordered (x :: a) -> List.Forall (fun z => item_lt z x = false) a.
Proof. intros H. now apply StronglySorted_inv in H. Qed.

Lemma Forall_skipn' (P : sort_key * A -> Prop) k a : List.Forall P a -> List.Forall P (skipn k a).
Proof. intros H. rewrite <- (firstn_skipn k a) in H. now apply Forall_app in H. Qed.

Lemma Forall_firstn' (P : sort_key * A -> Prop) k a : List.Forall P a -> List.Forall P (firstn k a).
Proof. intros H. rewrite <- (firstn_skipn k a) in H. now apply Forall_app in H. Qed.

Lemma last_above_nonempty a b : last_above a b -> a <> [].
Proof. intros (a0 & zl & -> & _). now destruct a0. Qed.

Lemma last_above_suffix p x a b : last_above (p ++ x :: a) b -> last_above (x :: a) b.
Proof.
  intros (a0 & zl & Heq & Hb).
  destruct (exists_last (l := x :: a)) as (a1 & z' & Hz); [discriminate|].
  rewrite Hz, app_assoc in Heq. apply app_inj_tail in Heq as [_ ->].
  exists a1, zl. now rewrite Hz.
Qed.

Lemma last_above_tail x y a b : last_above (x :: y :: a) b -> last_above (y :: a) b.
Proof. apply (last_above_suffix [x]). Qed.

Lemma last_above_skipn k a x a1 b :
  last_above a b -> skipn k a = x :: a1 -> last_above (x :: a1) b.
Proof.
  intros H Hs. rewrite <- (firstn_skipn k a), Hs in H. now apply last_above_suffix in H.
Qed.

Lemma last_above_sub a b b' :
  last_above a b -> (forall y, In y b' -> In y b) -> last_above a b'.
Proof.
  intros (a0 & zl & -> & Hb) Hsub. exists a0, zl. split; [reflexivity|].
  rewrite List.Forall_forall in Hb |- *. auto.
Qed.

Lemma last_above_single z b : last_above [z] b -> smerge [z] b = b ++ [z].
Proof.
  intros (a0 & zl & Heq & Hb). apply smerge_single_l.
  change [z] with ([] ++ [z]) in Heq. apply app_inj_tail in Heq as [_ ->]. exact Hb.
Qed.

Lemma last_above_single_lt x y b : last_above [x] (y :: b) -> item_lt y x = true.
Proof.
  intros (a0 & zl & Heq & Hb).
  change [x] with ([] ++ [x]) in Heq. apply app_inj_tail in Heq as [_ ->].
  now apply Forall_cons in Hb as [Hy _].
Qed.

Lemma In_skipn' k b y : In y (skipn k b) -> In y b.
Proof. intros H. rewrite <- (firstn_skipn k b). apply in_or_app. now right. Qed.

Lemma In_firstn' k b y : In y (firstn k b) -> In y b.
Proof. intros H. rewrite <- (firstn_skipn k b). apply in_or_app. now left. Qed.

Lemma length_skipn_eq k a x a1 : skipn k a = x :: a1 -> length a1 < length a.
Proof.
  intros H. pose proof (length_skipn k a) as Hl. rewrite H in Hl. simpl in Hl. lia.
Qed.

Lemma merge_lo_loop_spec :
  forall fuel galloping acount bcount min_gallop dest a b,
    List.Forall (orderly n) a -> List.Forall (orderly n) b ->
    ordered a -> ordered b -> last_above a b ->
    length a + length b <= fuel ->
    fst (merge_lo_loop fuel galloping acount bcount min_gallop dest a b)
    = dest ++ smerge a b.
Proof.
  induction fuel as [|fuel IH];
    intros galloping acount bcount min_gallop dest a b Hoka Hokb Hsa Hsb Hlast Hfuel.
  { pose proof (last_above_nonempty _ _ Hlast). destruct a; [congruence|simpl in Hfuel; lia]. }
  destruct a as [|x a']; [now apply last_above_nonempty in Hlast|].
  destruct b as [|y b'].
  { cbn. now rewrite app_nil_r. }
  cbn [merge_lo_loop]. destruct galloping.
  - (* galloping *)
    cbv zeta.
    set (mg := if 1 <? min_gallop then min_gallop - 1 else min_gallop).
    set (k := gallop_right y (x :: a') 0).
    apply Forall_cons in Hokb as Hokb'. destruct Hokb' as [Hoky Hokb'].
    destruct (gallop_right_spec n y (x :: a') 0 Hoka Hoky Hsa ltac:(simpl; lia)) as [Hk1 Hk2].
    fold k in Hk1, Hk2.
    assert (Hsplit : smerge (x :: a') (y :: b')
                     = firstn k (x :: a') ++ smerge (skipn k (x :: a')) (y :: b')).
    { rewrite <- (firstn_skipn k (x :: a')) at 1. now apply smerge_skip_a. }
    rewrite Hsplit.
    destruct (skipn k (x :: a')) as [|x1 a1] eqn:Hskip.
    { cbn. list_eq. }
    pose proof (last_above_skipn k _ _ _ _ Hlast Hskip) as Hlast1.
    pose proof (ordered_skipn k _ Hsa) as Hsa1. rewrite Hskip in Hsa1.
    pose proof (Forall_skipn' _ k _ Hoka) as Hoka1. rewrite Hskip in Hoka1.
    pose proof (length_skipn_eq _ _ _ _ Hskip) as Hlen1.
    destruct a1 as [|x2 a2].
    { cbn [fst]. rewrite (last_above_single _ _ Hlast1). list_eq. }
    apply Forall_cons in Hk2 as [Hyx1 _].
    rewrite smerge_cons, Hyx1.
    destruct b' as [|y1 b''].
    { cbn [fst]. rewrite smerge_nil_r. list_eq. }
    set (b' := y1 :: b'') in *.
    set (k' := gallop_left x1 b' 0).
    apply Forall_cons in Hoka1 as Hoka1'. destruct Hoka1' as [Hokx1 Hoka2].
    pose proof (ordered_tail _ _ Hsb) as Hsb'.
    destruct (gallop_left_spec n x1 b' 0 Hokb' Hokx1 Hsb' ltac:(simpl; lia)) as [Hk'1 Hk'2].
    fold k' in Hk'1, Hk'2.
    assert (Hsplit' : smerge (x1 :: x2 :: a2) b'
                      = firstn k' b' ++ smerge (x1 :: x2 :: a2) (skipn k' b')).
    { rewrite <- (firstn_skipn k' b') at 1. now apply smerge_skip_b. }
    rewrite Hsplit'.
    assert (Hsub : forall y0, In y0 (skipn k' b') -> In y0 (y :: b')).
    { intros y0 Hy0. right. now apply In_skipn' in Hy0. }
    pose proof (last_above_sub _ _ _ Hlast1 Hsub) as Hlast2.
    pose proof (ordered_skipn k' _ Hsb') as Hsb1.
    pose proof (Forall_skipn' _ k' _ Hokb') as Hokb1.
    pose proof (length_skipn k' b') as Hlenb.
    destruct (skipn k' b') as [|y2 b2] eqn:Hskip'.
    { cbn [fst]. rewrite smerge_nil_r. list_eq. }
    apply Forall_cons in Hk'2 as [Hy2x1 _].
    rewrite smerge_cons, Hy2x1.
    pose proof (last_above_tail _ _ _ _ Hlast2) as Hlast3.
    destruct a2 as [|x3 a3].
    { cbn [fst]. rewrite (last_above_single _ _ Hlast3). list_eq. }
    assert (Hgoal : forall g m,
      fst (merge_lo_loop fuel g 0 0 m (((dest ++ firstn k (x :: a')) ++ [y]) ++ firstn k' b' ++ [x1])
             (x2 :: x3 :: a3) (y2 :: b2))
      = dest ++ firstn k (x :: a') ++ y :: firstn k' b' ++ x1 :: smerge (x2 :: x3 :: a3) (y2 :: b2)).
    { intros g m. rewrite IH; auto.
      - list_eq.
      - now apply ordered_tail in Hsa1.
      - simpl in *. lia. }
    destruct ((MIN_GALLOP <=? k) || (MIN_GALLOP <=? k')).
    + rewrite <- Hgoal with (g := true) (m := mg). f_equal. f_equal.
      list_eq.
    + rewrite <- Hgoal with (g := false) (m := S mg). f_equal. f_equal.
      list_eq.
  - (* one element at a time *)
    rewrite smerge_cons. destruct (item_lt y x) eqn:Hyx.
    + cbv zeta. destruct b' as [|y1 b''].
      { cbn [fst]. rewrite smerge_nil_r. list_eq. }
      assert (Hgoal : forall g ac bc m,
        fst (merge_lo_loop fuel g ac bc m (dest ++ [y]) (x :: a') (y1 :: b''))
        = dest ++ y :: smerge (x :: a') (y1 :: b'')).
      { intros g ac bc m. rewrite IH; auto.
        - list_eq.
        - now apply Forall_cons in Hokb as [_ Hokb].
        - now apply ordered_tail in Hsb.
        - apply (last_above_sub _ _ _ Hlast). intros y0 Hy0. now right.
        - simpl in *. lia. }
      destruct (min_gallop <=? S bcount); apply Hgoal.
    + cbv zeta. destruct a' as [|x1 a1].
      { pose proof (last_above_single_lt _ _ _ Hlast). congruence. }
      destruct a1 as [|x2 a2].
      { cbn [fst]. rewrite (last_above_single x1 (y :: b')).
        - list_eq.
        - now apply last_above_tail in Hlast. }
      assert (Hgoal : forall g ac bc m,
        fst (merge_lo_loop fuel g ac bc m (dest ++ [x]) (x1 :: x2 :: a2) (y :: b'))
        = dest ++ x :: smerge (x1 :: x2 :: a2) (y :: b')).
      { intros g ac bc m. rewrite IH; auto.
        - list_eq.
        - now apply Forall_cons in Hoka as [_ Hoka].
        - now apply ordered_tail in Hsa.
        - now apply last_above_tail in Hlast.
        - simpl in *. lia. }
      destruct (min_gallop <=? S acount); apply Hgoal.
Qed.

Lemma first_below_sub a a' b :
  first_below a b -> (forall w, In w a' -> In w a) -> first_below a' b.
Proof.
  intros (z0 & b0 & -> & Ha) Hsub. exists z0, b0. split; [reflexivity|].
  rewrite List.Forall_forall in Ha |- *. auto.
Qed.

Lemma first_below_prefix a z p q : first_below a ((z :: p) ++ q) -> first_below a (z :: p).
Proof. intros (z0 & b0 & [= <- <-] & Ha). now exists z, p. Qed.

Lemma first_below_single a z : first_below a [z] -> smerge a [z] = z :: a.
Proof. intros (z0 & b0 & [= <- <-] & Ha). now apply smerge_single_r. Qed.

Lemma first_below_lt a y b x : first_below a (y :: b) -> In x a -> item_lt y x = true.
Proof.
  intros (z0 & b0 & [= <- <-] & Ha) Hx. rewrite List.Forall_forall in Ha. auto.
Qed.

Lemma rev_cons_eq l x (rl : list (sort_key * A)) : rev l = x :: rl -> l = rev rl ++ [x].
Proof. intros H. rewrite <- (rev_involutive l), H. reflexivity. Qed.

Lemma ordered_snoc a x :
  List.Forall (orderly n) (a ++ [x]) -> ordered (a ++ [x]) ->
  List.Forall (fun w => item_lt x w = false) (a ++ [x]).
Proof.
  intros Hok Hs. apply Forall_app. split.
  - rewrite List.Forall_forall. intros w Hw.
    apply (StronglySorted_app_1_elem_of _ _ _ w x Hs).
    + now apply list_elem_of_In.
    + apply list_elem_of_singleton. reflexivity.
  - constructor; [apply item_lt_irrefl | constructor].
Qed.

Lemma merge_hi_loop_spec :
  forall fuel galloping acount bcount min_gallop a b dest,
    List.Forall (orderly n) a -> List.Forall (orderly n) b ->
    ordered a -> ordered b -> first_below a b ->
    length a + length b <= fuel ->
    fst (merge_hi_loop fuel galloping acount bcount min_gallop a b dest)
    = smerge a b ++ dest.
Proof.
  induction fuel as [|fuel IH];
    intros galloping acount bcount min_gallop a b dest Hoka Hokb Hsa Hsb Hfirst Hfuel.
  { destruct Hfirst as (z0 & b0 & -> & _). simpl in Hfuel. lia. }
  cbn [merge_hi_loop].
  destruct (rev a) as [|x ra] eqn:Hra.
  { assert (a = []) as -> by (now apply (f_equal (@rev _)) in Hra; rewrite rev_involutive in Hra).
    cbn [fst app]. now rewrite smerge_nil_l. }
  apply rev_cons_eq in Hra. set (a' := rev ra) in *. clearbody a'. clear ra.
  destruct (rev b) as [|y rb] eqn:Hrb.
  { assert (b = []) as -> by (now apply (f_equal (@rev _)) in Hrb; rewrite rev_involutive in Hrb).
    destruct Hfirst as (z0 & b0 & [=] & _). }
  apply rev_cons_eq in Hrb. set (b' := rev rb) in *. clearbody b'. clear rb.
  pose proof (ordered_snoc _ _ ltac:(rewrite <- Hra; exact Hoka) ltac:(rewrite <- Hra; exact Hsa))
    as Hax. rewrite <- Hra in Hax.
  pose proof (ordered_snoc _ _ ltac:(rewrite <- Hrb; exact Hokb) ltac:(rewrite <- Hrb; exact Hsb))
    as Hby. rewrite <- Hrb in Hby.
  assert (Hokx : orderly n x).
  { rewrite Hra in Hoka. apply Forall_app in Hoka as [_ H]. now apply Forall_cons in H as [H _]. }
  assert (Hoky : orderly n y).
  { rewrite Hrb in Hokb. apply Forall_app in Hokb as [_ H]. now apply Forall_cons in H as [H _]. }
  assert (Hra' : removelast a = a') by (rewrite Hra; apply removelast_last).
  assert (Hrb' : removelast b = b') by (rewrite Hrb; apply removelast_last).
  assert (Hlena : length a = S (length a')) by (rewrite Hra, length_app; simpl; lia).
  assert (Hlenb : length b = S (length b')) by (rewrite Hrb, length_app; simpl; lia).
  assert (Hoka' : List.Forall (orderly n) a').
  { rewrite Hra in Hoka. now apply Forall_app in Hoka as [H _]. }
  assert (Hokb' : List.Forall (orderly n) b').
  { rewrite Hrb in Hokb. now apply Forall_app in Hokb as [H _]. }
  assert (Hsa' : ordered a') by (rewrite Hra in Hsa; now apply ordered_app in Hsa).
  assert (Hsb' : ordered b') by (rewrite Hrb in Hsb; now apply ordered_app in Hsb).
  assert (Hsuba : forall w, In w a' -> In w a).
  { intros w Hw. rewrite Hra. apply in_or_app. now left. }
  assert (Hfirst_b' : forall z p, b' = z :: p -> first_below a (z :: p)).
  { intros z p Hp. rewrite Hrb, Hp in Hfirst. now apply first_below_prefix in Hfirst. }
  destruct galloping.
  - (* galloping *)
    cbv zeta.
    set (mg := if 1 <? min_gallop then min_gallop - 1 else min_gallop).
    set (k := gallop_right y a (length a - 1)).
    destruct (gallop_right_spec n y a (length a - 1) Hoka Hoky Hsa ltac:(lia)) as [Hk1 Hk2].
    fold k in Hk1, Hk2.
    assert (Hsplit : smerge a b = smerge (firstn k a) b ++ skipn k a).
    { rewrite <- (firstn_skipn k a) at 1. apply smerge_app_a.
      pose proof (Forall_skipn' _ k _ Hoka) as Hokz.
      rewrite List.Forall_forall in Hk2, Hokz |- *. intros z Hz.
      rewrite List.Forall_forall in Hby, Hokb |- *. intros w Hw.
      apply (item_le_lt_trans n w y z); auto. }
    rewrite Hsplit.
    pose proof (Forall_firstn' _ k _ Hoka) as Hoka1.
    pose proof (ordered_firstn k _ Hsa) as Hsa1.
    assert (Hsub1 : forall w, In w (firstn k a) -> In w a) by (intros w; apply In_firstn').
    pose proof (length_firstn k a) as Hlen1.
    destruct (firstn k a) as [|u a1'] eqn:Hf.
    { cbn [fst]. rewrite smerge_nil_l. list_eq. }
    set (a1 := u :: a1') in *.
    rewrite Hrb'.
    assert (Hsnoc : smerge a1 b = smerge a1 b' ++ [y]).
    { rewrite Hrb. now apply smerge_snoc_b. }
    rewrite Hsnoc.
    destruct b' as [|z [|z2 b0']].
    { cbn [fst]. rewrite smerge_nil_r. list_eq. }
    { cbn [fst]. rewrite (first_below_single a1 z).
      - list_eq.
      - apply (first_below_sub a); auto. }
    set (b0 := z :: z2 :: b0') in *.
    destruct (exists_last (l := a1)) as (a2 & x1 & Ha1); [discriminate|].
    assert (Hlast : List.last a1 x = x1) by (rewrite Ha1; apply last_last).
    rewrite Hlast.
    assert (Hokx1 : orderly n x1).
    { rewrite Ha1 in Hoka1. apply Forall_app in Hoka1 as [_ H]. now apply Forall_cons in H as [H _]. }
    set (k' := gallop_left x1 b0 (length b0 - 1)).
    destruct (gallop_left_spec n x1 b0 (length b0 - 1) Hokb' Hokx1 Hsb' ltac:(simpl; lia))
      as [Hk'1 Hk'2].
    fold k' in Hk'1, Hk'2.
    pose proof (ordered_snoc a2 x1 ltac:(rewrite <- Ha1; exact Hoka1)
                  ltac:(rewrite <- Ha1; exact Hsa1)) as Ha1x. rewrite <- Ha1 in Ha1x.
    assert (Hsplit' : smerge a1 b0 = smerge a1 (firstn k' b0) ++ skipn k' b0).
    { rewrite <- (firstn_skipn k' b0) at 1. apply smerge_app_b.
      pose proof (Forall_skipn' _ k' _ Hokb') as Hokz.
      rewrite List.Forall_forall in Hk'2, Hokz |- *. intros z' Hz.
      rewrite List.Forall_forall in Ha1x, Hoka1 |- *. intros w Hw.
      apply (item_le_trans n w x1 z'); auto. }
    rewrite Hsplit'.
    pose proof (Forall_firstn' _ k' _ Hokb') as Hokb1.
    pose proof (ordered_firstn k' _ Hsb') as Hsb1.
    pose proof (length_firstn k' b0) as Hlenb1.
    assert (Hfirst1 : forall v p, firstn k' b0 = v :: p -> first_below a1 (v :: p)).
    { intros v p Hp. apply (first_below_sub a); auto.
      pose proof (Hfirst_b' _ _ eq_refl) as H. fold b0 in H.
      rewrite <- (firstn_skipn k' b0), Hp in H. now apply first_below_prefix in H. }
    destruct (firstn k' b0) as [|v [|v2 b1']] eqn:Hf'.
    { cbn [fst]. rewrite smerge_nil_r. list_eq. }
    { cbn [fst]. rewrite (first_below_single a1 v (Hfirst1 _ _ eq_refl)). list_eq. }
    set (b1 := v :: v2 :: b1') in *.
    assert (Hsnoc' : smerge a1 b1 = smerge a2 b1 ++ [x1]).
    { rewrite Ha1. now apply smerge_snoc_a. }
    rewrite Hsnoc'.
    assert (Hra2 : removelast a1 = a2) by (rewrite Ha1; apply removelast_last).
    rewrite Hra2.
    assert (Hlena1 : length a1 = S (length a2)) by (rewrite Ha1, length_app; simpl; lia).
    assert (Hgoal : forall g m dest',
      a2 <> [] ->
      fst (merge_hi_loop fuel g 0 0 m a2 b1 dest') = smerge a2 b1 ++ dest').
    { intros g m dest' Hne. apply IH; auto.
      - rewrite Ha1 in Hoka1. now apply Forall_app in Hoka1 as [H _].
      - rewrite Ha1 in Hsa1. now apply ordered_app in Hsa1.
      - apply (first_below_sub a1); [now apply Hfirst1|].
        intros w Hw. rewrite Ha1. apply in_or_app. now left.
      - subst a1 b0 b1. cbn [length] in *. lia. }
    destruct a2 as [|u2 a2'].
    { cbn [fst]. rewrite smerge_nil_l. list_eq. }
    destruct ((MIN_GALLOP <=? length a - k) || (MIN_GALLOP <=? length b0 - k'));
      rewrite Hgoal by discriminate; list_eq.
  - (* one element at a time *)
    cbv zeta. rewrite Hra', Hrb'.
    destruct (item_lt y x) eqn:Hyx.
    + assert (Hb_lt : List.Forall (fun w => item_lt w x = true) b).
      { rewrite List.Forall_forall in Hby, Hokb |- *. intros w Hw.
        apply (item_le_lt_trans n w y x); auto. }
      assert (Hsnoc : smerge a b = smerge a' b ++ [x]).
      { rewrite Hra. now apply smerge_snoc_a. }
      rewrite Hsnoc.
      destruct a' as [|x0 a0'].
      { cbn [fst]. rewrite smerge_nil_l. list_eq. }
      assert (Hgoal : forall g ac bc m,
        fst (merge_hi_loop fuel g ac bc m (x0 :: a0') b (x :: dest))
        = smerge (x0 :: a0') b ++ x :: dest).
      { intros g ac bc m. apply IH; auto.
        - apply (first_below_sub a); auto.
        - lia. }
      destruct (min_gallop <=? S acount); rewrite Hgoal; list_eq.
    + assert (Ha_le : List.Forall (fun w => item_lt y w = false) a).
      { rewrite List.Forall_forall in Hax, Hoka |- *. intros w Hw.
        apply (item_le_trans n w x y); auto. }
      assert (Hsnoc : smerge a b = smerge a b' ++ [y]).
      { rewrite Hrb. now apply smerge_snoc_b. }
      rewrite Hsnoc.
      destruct b' as [|z [|z2 b0']].
      { simpl in Hrb. subst b.
        assert (Hx : In x a) by (rewrite Hra; apply in_or_app; right; now left).
        pose proof (first_below_lt _ _ _ _ Hfirst Hx). congruence. }
      { cbn [fst]. rewrite (first_below_single a z (Hfirst_b' _ _ eq_refl)). list_eq. }
      assert (Hgoal : forall g ac bc m,
        fst (merge_hi_loop fuel g ac bc m a (z :: z2 :: b0') (y :: dest))
        = smerge a (z :: z2 :: b0') ++ y :: dest).
      { intros g ac bc m. apply IH; auto. lia. }
      destruct (min_gallop <=? S bcount); rewrite Hgoal; list_eq.
Qed.

End MergeLoops.

Section MergeAt.
Context {A : Type}.
Variable n : nat.
Implicit Types (x y z key : sort_key * A) (a b l p q dest : list (sort_key * A)).
#[local] Open Scope nat_scope.
#[local] Open Scope list_scope.

Lemma merge_lo_spec min_gallop a b :
  List.Forall (orderly n) a -> List.Forall (orderly n) b ->
  ordered a -> ordered b -> last_above a b -> first_below a b ->
  fst (merge_lo min_gallop a b) = smerge a b.
Proof.
  intros Hoka Hokb Hsa Hsb Hlast Hfirst. unfold merge_lo.
  destruct b as [|y [|y2 b2]].
  - destruct Hfirst as (z0 & b0 & [=] & _).
  - rewrite (first_below_single _ _ Hfirst). now destruct a as [|x [|x2 a2]].
  - destruct a as [|x [|x2 a2]].
    + now apply last_above_nonempty in Hlast.
    + cbn [fst]. now rewrite (last_above_single _ _ Hlast).
    + rewrite (merge_lo_loop_spec n); auto.
      * rewrite (smerge_cons x _ y).
        rewrite (first_below_lt _ _ _ x Hfirst) by now left. reflexivity.
      * now apply Forall_cons in Hokb as [_ H].
      * now apply ordered_tail in Hsb.
      * apply (last_above_sub _ _ _ Hlast). intros w Hw. now right.
      * simpl. lia.
Qed.

Lemma merge_hi_spec min_gallop a b :
  List.Forall (orderly n) a -> List.Forall (orderly n) b ->
  ordered a -> ordered b -> last_above a b -> first_below a b ->
  fst (merge_hi min_gallop a b) = smerge a b.
Proof.
  intros Hoka Hokb Hsa Hsb Hlast Hfirst. unfold merge_hi.
  destruct (rev a) as [|x [|x2 ra]] eqn:Hra.
  - assert (a = []) as -> by (now apply (f_equal (@rev _)) in Hra; rewrite rev_involutive in Hra).
    now apply last_above_nonempty in Hlast.
  - apply rev_cons_eq in Hra. simpl in Hra. subst a.
    cbn [fst]. now rewrite (last_above_single _ _ Hlast).
  - apply rev_cons_eq in Hra. set (a' := rev (x2 :: ra)) in *.
    assert (Hne : a' <> []).
    { unfold a'. simpl. now destruct (rev ra). }
    clearbody a'.
    assert (Hb : List.Forall (fun w => item_lt w x = true) b).
    { destruct Hlast as (a0 & zl & Heq & Hb). rewrite Hra in Heq.
      apply app_inj_tail in Heq as [_ ->]. exact Hb. }
    assert (Hsnoc : smerge a b = smerge a' b ++ [x]).
    { rewrite Hra. now apply smerge_snoc_a. }
    destruct b as [|y [|y2 b2]].
    + destruct Hfirst as (z0 & b0 & [=] & _).
    + cbn [fst]. now rewrite (first_below_single _ _ Hfirst).
    + rewrite (merge_hi_loop_spec n); auto.
      * rewrite Hra, removelast_last. now rewrite <- Hra.
      * rewrite Hra, removelast_last. rewrite Hra in Hoka. now apply Forall_app in Hoka as [H _].
      * rewrite Hra, removelast_last. rewrite Hra in Hsa. now apply ordered_app in Hsa.
      * rewrite Hra, removelast_last. apply (first_below_sub a); auto.
        intros w Hw. rewrite Hra. apply in_or_app. now left.
      * rewrite Hra, removelast_last, length_app. simpl. lia.
Qed.

Lemma gallop_right_nil key : gallop_right key ([] : list (sort_key * A)) 0 = 0.
Proof.
  unfold gallop_right, gallop. simpl length.
  destruct (negb (item_lt key (nth 0 [] key))); reflexivity.
Qed.

(** Two neighbouring runs that are in order are merged stably. *)
Lemma merge_at_spec min_gallop a b :
  List.Forall (orderly n) a -> List.Forall (orderly n) b ->
  ordered a -> ordered b ->
  fst (merge_at min_gallop a b) = smerge a b.
Proof.
  intros Hoka Hokb Hsa Hsb. unfold merge_at.
  destruct b as [|y b']; [now rewrite smerge_nil_r|].
  set (b := y :: b') in *.
  apply Forall_cons in Hokb as Hokb'. destruct Hokb' as [Hoky Hokb'].
  destruct a as [|x0 a0].
  { rewrite gallop_right_nil. cbn. reflexivity. }
  set (a := x0 :: a0) in *.
  set (k := gallop_right y a 0).
  destruct (gallop_right_spec n y a 0 Hoka Hoky Hsa ltac:(simpl; lia)) as [Hk1 Hk2].
  fold k in Hk1, Hk2.
  assert (Hsplit : smerge a b = firstn k a ++ smerge (skipn k a) b).
  { rewrite <- (firstn_skipn k a) at 1. now apply smerge_skip_a. }
  rewrite Hsplit.
  pose proof (firstn_skipn k a) as Hfs.
  pose proof (ordered_skipn k _ Hsa) as Hsa1.
  pose proof (Forall_skipn' _ k _ Hoka) as Hoka1.
  destruct (skipn k a) as [|x a'] eqn:Hskip.
  { cbn [fst]. rewrite smerge_nil_l. rewrite app_nil_r in Hfs. now rewrite Hfs. }
  cbv zeta. set (a1 := x :: a') in *.
  destruct (exists_last (l := a1)) as (a2 & zl & Ha1); [discriminate|].
  assert (Hlast : List.last a1 x = zl) by (rewrite Ha1; apply last_last).
  rewrite Hlast.
  assert (Hokzl : orderly n zl).
  { rewrite Ha1 in Hoka1. apply Forall_app in Hoka1 as [_ H]. now apply Forall_cons in H as [H _]. }
  set (nb := gallop_left zl b (length b - 1)).
  destruct (gallop_left_spec n zl b (length b - 1) Hokb Hokzl Hsb ltac:(simpl; lia))
    as [Hn1 Hn2].
  fold nb in Hn1, Hn2.
  pose proof (ordered_snoc n a2 zl ltac:(rewrite <- Ha1; exact Hoka1)
                ltac:(rewrite <- Ha1; exact Hsa1)) as Ha1z. rewrite <- Ha1 in Ha1z.
  assert (Hsplit' : smerge a1 b = smerge a1 (firstn nb b) ++ skipn nb b).
  { rewrite <- (firstn_skipn nb b) at 1. apply smerge_app_b.
    pose proof (Forall_skipn' _ nb _ Hokb) as Hokz.
    rewrite List.Forall_forall in Hn2, Hokz |- *. intros z' Hz.
    rewrite List.Forall_forall in Ha1z, Hoka1 |- *. intros w Hw.
    apply (item_le_trans n w zl z'); auto. }
  rewrite Hsplit'.
  pose proof (firstn_skipn nb b) as Hfsb.
  pose proof (ordered_firstn nb _ Hsb) as Hsb1.
  pose proof (Forall_firstn' _ nb _ Hokb) as Hokb1.
  destruct (firstn nb b) as [|v b1'] eqn:Hfb.
  { cbn [fst]. rewrite smerge_nil_r. simpl in Hfsb. rewrite Hfsb.
    transitivity ((firstn k a ++ a1) ++ b); [now rewrite Hfs | list_eq]. }
  set (b1 := v :: b1') in *.
  assert (Hla : last_above a1 b1) by now exists a2, zl.
  assert (Hfb1 : first_below a1 b1).
  { exists v, b1'. split; [reflexivity|].
    assert (v = y) as ->.
    { unfold b in Hfb. destruct nb; simpl in Hfb; [discriminate|]. now injection Hfb. }
    exact Hk2. }
  destruct (length a1 <=? length b1).
  - pose proof (merge_lo_spec min_gallop a1 b1 Hoka1 Hokb1 Hsa1 Hsb1 Hla Hfb1) as Hm.
    destruct (merge_lo min_gallop a1 b1) as [m g]. simpl in Hm. subst m. reflexivity.
  - pose proof (merge_hi_spec min_gallop a1 b1 Hoka1 Hokb1 Hsa1 Hsb1 Hla Hfb1) as Hm.
    destruct (merge_hi min_gallop a1 b1) as [m g]. simpl in Hm. subst m. reflexivity.
Qed.

End MergeAt.

(** ** Runs in order *)

Section Runs.
Context {A : Type}.
Variable n : nat.
Implicit Types (x y z key : sort_key * A) (a b l m p q dest : list (sort_key * A)).
#[local] Open Scope nat_scope.
#[local] Open Scope list_scope.

Notation "'ties' k" := (List.filter (fun y : sort_key * A => key_eq (fst y) k)) (at level 10).

Lemma ties_none_above y k l :
  List.Forall (fun w => item_lt y w = true) l -> key_eq (fst y) k = true -> ties k l = [].
Proof.
  intros Hl Hy. induction Hl as [|w l Hw _ IH]; [reflexivity|]. simpl.
  destruct (key_eq (fst w) k) eqn:Ew; [|exact IH].
  unfold item_lt in Hw. rewrite (key_eq_not_lt _ _ _ Hy Ew) in Hw. discriminate.
Qed.

Lemma ties_none_below y k l :
  List.Forall (fun w => item_lt w y = true) l -> key_eq (fst y) k = true -> ties k l = [].
Proof.
  intros Hl Hy. induction Hl as [|w l Hw _ IH]; [reflexivity|]. simpl.
  destruct (key_eq (fst w) k) eqn:Ew; [|exact IH].
  unfold item_lt in Hw. rewrite (key_eq_not_lt _ _ _ Ew Hy) in Hw. discriminate.
Qed.

Lemma keeps_ties_refl l : keeps_ties l l.
Proof. now intros k. Qed.

Lemma keeps_ties_trans l m p : keeps_ties l m -> keeps_ties m p -> keeps_ties l p.
Proof. intros H1 H2 k. now rewrite H2, H1. Qed.

Lemma keeps_ties_app l1 m1 l2 m2 :
  keeps_ties l1 m1 -> keeps_ties l2 m2 -> keeps_ties (l1 ++ l2) (m1 ++ m2).
Proof. intros H1 H2 k. now rewrite !List.filter_app, H1, H2. Qed.

(** *** The stable merge of runs in order *)

Lemma smerge_ordered a b :
  List.Forall (orderly n) a -> List.Forall (orderly n) b ->
  ordered a -> ordered b -> ordered (smerge a b).
Proof.
  intros Hoka. revert b. induction Hoka as [|x a Hx Hoka IHa]; intros b Hokb Hsa Hsb.
  - now rewrite smerge_nil_l.
  - induction Hokb as [|y b Hy Hokb IHb].
    + now rewrite smerge_nil_r.
    + rewrite smerge_cons. pose proof (ordered_head _ _ Hsa) as Hxa.
      pose proof (ordered_head _ _ Hsb) as Hyb.
      destruct (item_lt y x) eqn:Hyx.
      * constructor; [apply IHb; now apply ordered_tail in Hsb|].
        rewrite smerge_perm. apply Forall_app. split; [|exact Hyb].
        constructor; [now apply item_lt_asym|].
        rewrite List.Forall_forall in Hxa, Hoka |- *. intros w Hw.
        apply (item_le_trans n y x w); auto. now apply item_lt_asym.
      * constructor.
        { apply IHa; [now constructor | now apply ordered_tail in Hsa | exact Hsb]. }
        rewrite smerge_perm. apply Forall_app. split; [exact Hxa|].
        constructor; [exact Hyx|].
        rewrite List.Forall_forall in Hyb, Hokb |- *. intros w Hw.
        apply (item_le_trans n x y w); auto.
Qed.

Lemma smerge_ties a b :
  List.Forall (orderly n) a -> List.Forall (orderly n) b ->
  ordered a -> ordered b -> keeps_ties (a ++ b) (smerge a b).
Proof.
  intros Hoka. revert b. induction Hoka as [|x a Hx Hoka IHa]; intros b Hokb Hsa Hsb k.
  - now rewrite smerge_nil_l.
  - induction Hokb as [|y b Hy Hokb IHb].
    + now rewrite smerge_nil_r, app_nil_r.
    + rewrite smerge_cons. pose proof (ordered_head _ _ Hsa) as Hxa.
      destruct (item_lt y x) eqn:Hyx.
      * cbn [List.filter]. rewrite IHb by now apply ordered_tail in Hsb.
        rewrite !List.filter_app. cbn [List.filter].
        destruct (key_eq (fst y) k) eqn:Ey; [|reflexivity].
        assert (Hnone : ties k (x :: a) = []).
        { apply (ties_none_above y); [|exact Ey]. constructor; [exact Hyx|].
          rewrite List.Forall_forall in Hxa, Hoka |- *. intros w Hw.
          apply (item_lt_le_trans n y x w); auto. }
        cbn [List.filter] in Hnone. rewrite Hnone. reflexivity.
      * cbn [List.filter app].
        rewrite (IHa (y :: b) ltac:(now constructor) ltac:(now apply ordered_tail in Hsa) Hsb).
        reflexivity.
Qed.

(** *** Runs in order that keep ties are the same *)

Lemma ordered_unique l m :
  List.Forall (orderly n) l -> List.Forall (orderly n) m ->
  ordered l -> ordered m -> keeps_ties l m -> l = m.
Proof.
  intros Hokl. revert m. induction Hokl as [|x l Hx Hokl IH]; intros m Hokm Hsl Hsm Ht.
  - destruct Hokm as [|y m [_ Hy] _]; [reflexivity|].
    specialize (Ht (fst y)). simpl in Ht. rewrite Hy in Ht. discriminate.
  - destruct Hokm as [|y m Hy Hokm].
    { specialize (Ht (fst x)). simpl in Ht. destruct Hx as [_ Hx]. rewrite Hx in Ht. discriminate. }
    assert (Hle : forall (u : sort_key * A) p v q,
               orderly n u -> List.Forall (orderly n) p ->
               orderly n v -> List.Forall (orderly n) q -> ordered (u :: p) -> ordered (v :: q) ->
               ties (fst u) (v :: q) <> [] -> item_lt u v = false).
    { intros u p v q Hu Hp Hv Hq Hsp Hsq Hne.
      destruct (ties (fst u) (v :: q)) as [|w ws] eqn:Ew; [congruence|].
      assert (Hw : In w (ties (fst u) (v :: q))) by (rewrite Ew; now left).
      apply List.filter_In in Hw as [Hw Hwu].
      assert (Hvw : item_lt w v = false).
      { destruct Hw as [<-|Hw]; [apply item_lt_irrefl|].
        pose proof (ordered_head _ _ Hsq) as Hq'. rewrite List.Forall_forall in Hq'. auto. }
      unfold item_lt in *. now rewrite <- (key_eq_lt_l _ _ (fst v) Hwu). }
    assert (Hxy : item_lt x y = false).
    { apply (Hle x l y m); auto. rewrite Ht. simpl. destruct Hx as [_ Hx]. now rewrite Hx. }
    assert (Hyx : item_lt y x = false).
    { apply (Hle y m x l); auto. rewrite <- Ht. simpl. destruct Hy as [_ Hy]. now rewrite Hy. }
    pose proof (item_eq n x y Hx Hy Hxy Hyx) as Heq.
    pose proof (Ht (fst x)) as Ht0. simpl in Ht0.
    destruct Hx as [Hkx Hx]. rewrite Hx in Ht0.
    rewrite key_eq_sym in Heq. rewrite Heq in Ht0. injection Ht0 as Hyx' _. subst y.
    f_equal. apply IH; auto.
    + now apply ordered_tail in Hsl.
    + now apply ordered_tail in Hsm.
    + intros k. specialize (Ht k). simpl in Ht.
      destruct (key_eq (fst x) k); [now injection Ht | exact Ht].
Qed.

(** *** [count_run] *)

Lemma run_length_le (d : bool) prev l : run_length d prev l <= length l.
Proof.
  revert prev. induction l as [|x l IH]; intros prev; simpl; [lia|].
  destruct (Bool.eqb (item_lt x prev) d); [specialize (IH x)|]; lia.
Qed.

Lemma count_run_le l : fst (count_run l) <= length l.
Proof.
  destruct l as [|x [|y l]]; simpl; try lia.
  pose proof (run_length_le (item_lt y x) y l). lia.
Qed.

Lemma count_run_pos l : l <> [] -> 1 <= fst (count_run l).
Proof. destruct l as [|x [|y l]]; simpl; intros; try congruence; lia. Qed.

Lemma run_length_ascending prev l :
  orderly n prev -> List.Forall (orderly n) l ->
  ordered (prev :: firstn (run_length false prev l) l).
Proof.
  intros Hp Hl. revert prev Hp. induction Hl as [|x l Hx Hl IH]; intros prev Hp.
  - simpl. repeat constructor.
  - simpl. destruct (item_lt x prev) eqn:E; simpl; [repeat constructor|].
    specialize (IH x Hx). constructor; [exact IH|].
    constructor; [exact E|].
    pose proof (ordered_head _ _ IH) as Hh.
    pose proof (Forall_firstn' _ (run_length false x l) _ Hl) as Hok.
    rewrite List.Forall_forall in Hh, Hok |- *. intros w Hw.
    apply (item_le_trans n prev x w); auto.
Qed.

Lemma run_length_descending prev l :
  orderly n prev -> List.Forall (orderly n) l ->
  descending_run (prev :: firstn (run_length true prev l) l).
Proof.
  intros Hp Hl. revert prev Hp. induction Hl as [|x l Hx Hl IH]; intros prev Hp.
  - simpl. repeat constructor.
  - simpl. destruct (item_lt x prev) eqn:E; simpl; [|repeat constructor].
    specialize (IH x Hx). constructor; [exact IH|].
    constructor; [exact E|].
    apply StronglySorted_inv in IH as [_ Hh].
    pose proof (Forall_firstn' _ (run_length true x l) _ Hl) as Hok.
    rewrite List.Forall_forall in Hh, Hok |- *. intros w Hw.
    apply (item_lt_le_trans n w x prev); auto. now apply item_lt_asym.
Qed.

Lemma descending_run_ties k l :
  descending_run l -> ties k l = [] \/ exists x, ties k l = [x].
Proof.
  induction 1 as [|x l Hs IH Hall]; [now left|]. simpl.
  destruct (key_eq (fst x) k) eqn:Ex; [|exact IH].
  right. exists x. f_equal. now apply (ties_none_below x).
Qed.

Lemma descending_run_rev l :
  descending_run l -> ordered (rev l) /\ keeps_ties l (rev l).
Proof.
  intros Hd. split.
  - induction Hd as [|x l Hs IH Hall]; simpl; [constructor|].
    apply StronglySorted_app_2; [|exact IH|repeat constructor].
    intros y z Hy Hz. apply list_elem_of_singleton in Hz. subst z.
    apply list_elem_of_In in Hy. apply in_rev in Hy.
    rewrite List.Forall_forall in Hall. apply item_lt_asym. now apply Hall.
  - intros k. rewrite filter_rev.
    destruct (descending_run_ties k l Hd) as [->|[x ->]]; reflexivity.
Qed.

(** The run [count_run] finds, turned round when it descends, is in
    order and keeps ties. *)
Lemma count_run_spec l :
  List.Forall (orderly n) l ->
  let run := firstn (fst (count_run l)) l in
  let run' := if snd (count_run l) then rev run else run in
  ordered run' /\ keeps_ties run run'.
Proof.
  intros Hl. destruct l as [|x [|y l]].
  - simpl. split; [constructor | apply keeps_ties_refl].
  - simpl. split; [repeat constructor | apply keeps_ties_refl].
  - apply Forall_cons in Hl as [Hx Hl]. apply Forall_cons in Hl as [Hy Hl].
    cbn [count_run fst snd]. cbv zeta.
    change (firstn (2 + ?r) (x :: y :: l)) with (x :: y :: firstn r l).
    destruct (item_lt y x) eqn:E.
    + apply descending_run_rev.
      pose proof (run_length_descending y l Hy Hl) as Hd.
      constructor; [exact Hd|]. constructor; [exact E|].
      apply StronglySorted_inv in Hd as [_ Hh].
      pose proof (Forall_firstn' _ (run_length true y l) _ Hl) as Hok.
      rewrite List.Forall_forall in Hh, Hok |- *. intros w Hw.
      apply (item_lt_le_trans n w y x); auto. now apply item_lt_asym.
    + split; [|apply keeps_ties_refl].
      pose proof (run_length_ascending y l Hy Hl) as Hd.
      constructor; [exact Hd|]. constructor; [exact E|].
      pose proof (ordered_head _ _ Hd) as Hh.
      pose proof (Forall_firstn' _ (run_length false y l) _ Hl) as Hok.
      rewrite List.Forall_forall in Hh, Hok |- *. intros w Hw.
      apply (item_le_trans n x y w); auto.
Qed.

(** *** [binarysort] *)

Lemma binary_insert_spec a pivot :
  List.Forall (orderly n) a -> orderly n pivot -> ordered a ->
  ordered (binary_insert a pivot) /\ keeps_ties (a ++ [pivot]) (binary_insert a pivot).
Proof.
  intros Hoka Hokp Hsa. unfold binary_insert.
  set (right := fun i : nat => negb (item_lt pivot (nth i a pivot))).
  set (r := bisect (length a) right 0 (length a)).
  destruct (bisect_spec right (length a) (length a) 0 (length a)
              ltac:(lia) ltac:(lia) ltac:(lia) ltac:(now left) ltac:(now left))
    as (Hr & Hlo & Hhi).
  fold r in Hr, Hlo, Hhi.
  destruct (boundary_right n pivot a r Hoka Hokp Hsa Hr Hlo Hhi) as [H1 H2].
  pose proof (firstn_skipn r a) as Hfs.
  split.
  - apply StronglySorted_app_2.
    + intros u v Hu Hv. apply list_elem_of_In in Hu.
      apply elem_of_cons in Hv as [->|Hv].
      * rewrite List.Forall_forall in H1. now apply H1.
      * rewrite <- Hfs in Hsa. apply (StronglySorted_app_1_elem_of _ _ _ u v Hsa); auto.
        now apply list_elem_of_In.
    + now apply ordered_firstn.
    + constructor; [now apply ordered_skipn|].
      eapply Forall_impl; [exact H2|]. intros w Hw. now apply item_lt_asym.
  - intros k. transitivity (ties k ((firstn r a ++ skipn r a) ++ [pivot])); [|now rewrite Hfs].
    rewrite !List.filter_app. cbn [List.filter].
    destruct (key_eq (fst pivot) k) eqn:Ep.
    + rewrite (ties_none_above pivot k _ H2 Ep). now rewrite app_nil_r.
    + now rewrite app_nil_r.
Qed.

Lemma binary_insert_perm a pivot : binary_insert a pivot ≡ₚ a ++ [pivot].
Proof.
  unfold binary_insert.
  set (r := bisect _ _ _ _).
  rewrite <- (firstn_skipn r a) at 3. rewrite <- app_assoc.
  apply Permutation_app_head. apply Permutation_cons_append.
Qed.

Lemma binarysort_perm a rest : binarysort a rest ≡ₚ a ++ rest.
Proof.
  unfold binarysort. revert a. induction rest as [|p rest IH]; intros a; simpl.
  - now rewrite app_nil_r.
  - rewrite IH, binary_insert_perm. now rewrite <- app_assoc.
Qed.

Lemma binarysort_spec a rest :
  List.Forall (orderly n) a -> List.Forall (orderly n) rest -> ordered a ->
  ordered (binarysort a rest) /\ keeps_ties (a ++ rest) (binarysort a rest).
Proof.
  unfold binarysort. intros Hoka Hokr. revert a Hoka.
  induction Hokr as [|p rest Hp Hokr IH]; intros a Hoka Hsa; simpl.
  - split; [exact Hsa|]. rewrite app_nil_r. apply keeps_ties_refl.
  - destruct (binary_insert_spec a p Hoka Hp Hsa) as [Hs Ht].
    destruct (IH (binary_insert a p)) as [Hs' Ht']; auto.
    { rewrite binary_insert_perm. apply Forall_app. split; [exact Hoka | now constructor]. }
    split; [exact Hs'|].
    apply (keeps_ties_trans _ (binary_insert a p ++ rest)); [|exact Ht'].
    change (a ++ p :: rest) with (a ++ [p] ++ rest). rewrite app_assoc.
    apply keeps_ties_app; [exact Ht | apply keeps_ties_refl].
Qed.

End Runs.

(** ** [list.sort] rearranges *)

Lemma perm_to_front {A} (p q r : list A) : (q ++ p ++ r ≡ₚ p ++ q ++ r)%list.
Proof. apply Permutation_app_swap_app. Qed.

Lemma perm_to_front_last {A} (p q : list A) : (q ++ p ≡ₚ p ++ q)%list.
Proof. apply Permutation_app_comm. Qed.

(** Both sides are made of the same pieces. *)
Ltac perm_norm :=
  repeat first
    [ rewrite <- app_assoc
    | rewrite app_nil_r
    | rewrite app_nil_l
    | match goal with
      | |- context [?x :: ?l] =>
          lazymatch l with
          | [] => fail
          | _ => change (x :: l) with ([x] ++ l)%list
          end
      end ].

Ltac perm_front p :=
  repeat match goal with
    | |- _ ≡ₚ (p ++ _)%list => fail 1
    | |- _ ≡ₚ p => fail 1
    | |- _ ≡ₚ ?R =>
        match R with
        | context [(?q ++ p ++ ?r)%list] => rewrite (perm_to_front p q r)
        | context [(?q ++ p)%list] => rewrite (perm_to_front_last p q)
        end
    end.

Ltac perm_pieces :=
  perm_norm;
  repeat match goal with
    | |- ?p ≡ₚ ?p => reflexivity
    | |- (?p ++ _)%list ≡ₚ (?p ++ _)%list => apply Permutation_app_head
    | |- (?p ++ _)%list ≡ₚ _ => perm_front p; perm_norm
    | |- ?p ≡ₚ _ => perm_front p; perm_norm
    end.

Section Rearranges.
Context {A : Type}.
Implicit Types (x y z key : sort_key * A) (a b l m p q dest top : list (sort_key * A)).
Implicit Types (pending below : list (list (sort_key * A) * nat)).
#[local] Open Scope nat_scope.
#[local] Open Scope list_scope.

Lemma merge_lo_loop_perm :
  forall fuel galloping acount bcount min_gallop dest a b,
    fst (merge_lo_loop fuel galloping acount bcount min_gallop dest a b) ≡ₚ dest ++ a ++ b.
Proof.
  induction fuel as [|fuel IH]; intros galloping acount bcount min_gallop dest a b;
    [reflexivity|].
  destruct a as [|x a']; [reflexivity|]. destruct b as [|y b']; [reflexivity|].
  cbn [merge_lo_loop]. destruct galloping.
  - cbv zeta. set (a := x :: a').
    set (k := gallop_right y a 0).
    transitivity (dest ++ (firstn k a ++ skipn k a) ++ y :: b'); [|rewrite firstn_skipn; reflexivity].
    destruct (skipn k a) as [|x1 [|x2 a2]]; cbn [fst]; try solve [perm_pieces].
    destruct b' as [|y1 b'']; cbn [fst]; try solve [perm_pieces].
    set (b' := y1 :: b'').
    set (k' := gallop_left x1 b' 0).
    transitivity (dest ++ (firstn k a ++ x1 :: x2 :: a2) ++ y :: firstn k' b' ++ skipn k' b');
      [|rewrite firstn_skipn; reflexivity].
    destruct (skipn k' b') as [|y2 b2]; cbn [fst]; try solve [perm_pieces].
    destruct a2 as [|x3 a3]; cbn [fst]; try solve [perm_pieces].
    destruct ((MIN_GALLOP <=? k) || (MIN_GALLOP <=? k')); rewrite IH; perm_pieces.
  - destruct (item_lt y x).
    + cbv zeta. destruct b' as [|y1 b'']; cbn [fst]; try solve [perm_pieces].
      destruct (min_gallop <=? S bcount); rewrite IH; perm_pieces.
    + cbv zeta. destruct a' as [|x1 [|x2 a2]]; cbn [fst]; try solve [perm_pieces].
      * destruct (min_gallop <=? S acount); rewrite IH; perm_pieces.
      * destruct (min_gallop <=? S acount); rewrite IH; perm_pieces.
Qed.

Lemma merge_hi_loop_perm :
  forall fuel galloping acount bcount min_gallop a b dest,
    fst (merge_hi_loop fuel galloping acount bcount min_gallop a b dest) ≡ₚ a ++ b ++ dest.
Proof.
  induction fuel as [|fuel IH]; intros galloping acount bcount min_gallop a b dest;
    [reflexivity|].
  cbn [merge_hi_loop].
  destruct (rev a) as [|x ra] eqn:Hra; [reflexivity|].
  destruct (rev b) as [|y rb] eqn:Hrb; [reflexivity|].
  apply rev_cons_eq in Hra, Hrb. set (a' := rev ra) in *. set (b' := rev rb) in *.
  clearbody a' b'. clear ra rb.
  assert (Hra' : removelast a = a') by (rewrite Hra; apply removelast_last).
  assert (Hrb' : removelast b = b') by (rewrite Hrb; apply removelast_last).
  destruct galloping.
  - cbv zeta. set (k := gallop_right y a (length a - 1)).
    rewrite Hrb'.
    transitivity ((firstn k a ++ skipn k a) ++ (b' ++ [y]) ++ dest);
      [|rewrite firstn_skipn, <- Hrb; reflexivity].
    destruct (firstn k a) as [|u a1'] eqn:Hf; cbn [fst].
    { rewrite Hrb. perm_pieces. }
    set (a1 := u :: a1') in *.
    destruct b' as [|z [|z2 b0']]; cbn [fst]; try solve [perm_pieces].
    set (b0 := z :: z2 :: b0') in *.
    set (x1 := List.last a1 x).
    set (k' := gallop_left x1 b0 (length b0 - 1)).
    assert (Ha1 : a1 = removelast a1 ++ [x1]) by (apply app_removelast_last; discriminate).
    transitivity (((removelast a1 ++ [x1]) ++ skipn k a)
                  ++ ((firstn k' b0 ++ skipn k' b0) ++ [y]) ++ dest);
      [|rewrite firstn_skipn, <- Ha1; reflexivity].
    destruct (firstn k' b0) as [|v [|v2 b1']] eqn:Hf'; cbn [fst].
    { rewrite Ha1 at 1. perm_pieces. }
    { rewrite Ha1 at 1. perm_pieces. }
    destruct (removelast a1) as [|u2 a2']; cbn [fst]; try solve [perm_pieces].
    destruct ((MIN_GALLOP <=? length a - k) || (MIN_GALLOP <=? length b0 - k'));
      rewrite IH; perm_pieces.
  - cbv zeta. rewrite Hra', Hrb'. destruct (item_lt y x).
    + rewrite Hra. destruct a' as [|x0 a0']; cbn [fst]; try solve [perm_pieces].
      destruct (min_gallop <=? S acount); rewrite IH; perm_pieces.
    + rewrite Hrb. destruct b' as [|z [|z2 b0']]; cbn [fst].
      * destruct (min_gallop <=? S bcount); rewrite IH; perm_pieces.
      * perm_pieces.
      * destruct (min_gallop <=? S bcount); rewrite IH; perm_pieces.
Qed.

Lemma merge_lo_perm min_gallop a b : fst (merge_lo min_gallop a b) ≡ₚ a ++ b.
Proof.
  unfold merge_lo. destruct b as [|y [|y2 b2]].
  - destruct a as [|x [|x2 a2]]; cbn [fst]; perm_pieces.
  - destruct a as [|x [|x2 a2]]; cbn [fst]; perm_pieces.
  - destruct a as [|x [|x2 a2]]; cbn [fst]; try solve [perm_pieces];
      rewrite merge_lo_loop_perm; perm_pieces.
Qed.

Lemma merge_hi_perm min_gallop a b : fst (merge_hi min_gallop a b) ≡ₚ a ++ b.
Proof.
  unfold merge_hi. destruct (rev a) as [|x [|x2 ra]] eqn:Hra.
  - assert (a = []) as -> by (now apply (f_equal (@rev _)) in Hra; rewrite rev_involutive in Hra).
    reflexivity.
  - apply rev_cons_eq in Hra. simpl in Hra. subst a. cbn [fst]. perm_pieces.
  - apply rev_cons_eq in Hra. set (a' := rev (x2 :: ra)) in *. clearbody a'.
    assert (Hra' : removelast a = a') by (rewrite Hra; apply removelast_last).
    destruct b as [|y [|y2 b2]]; cbn [fst]; try solve [perm_pieces];
      rewrite merge_hi_loop_perm, Hra'; rewrite Hra; perm_pieces.
Qed.

Lemma merge_at_perm min_gallop a b : fst (merge_at min_gallop a b) ≡ₚ a ++ b.
Proof.
  unfold merge_at. destruct b as [|y b']; [now rewrite app_nil_r|].
  set (b := y :: b'). set (k := gallop_right y a 0).
  transitivity ((firstn k a ++ skipn k a) ++ b); [|now rewrite firstn_skipn].
  destruct (skipn k a) as [|x a'] eqn:Hskip.
  { cbn [fst]. rewrite <- (firstn_skipn k a) at 1. rewrite Hskip. reflexivity. }
  cbv zeta. set (a1 := x :: a') in *.
  set (nb := gallop_left (List.last a1 x) b (length b - 1)).
  transitivity ((firstn k a ++ a1) ++ firstn nb b ++ skipn nb b);
    [|now rewrite firstn_skipn].
  destruct (firstn nb b) as [|v b1'] eqn:Hfb.
  { cbn [fst]. rewrite <- (firstn_skipn k a) at 1. rewrite Hskip.
    rewrite <- (firstn_skipn nb b) at 1. rewrite Hfb. reflexivity. }
  set (b1 := v :: b1') in *.
  destruct (length a1 <=? length b1).
  - pose proof (merge_lo_perm min_gallop a1 b1) as Hm.
    destruct (merge_lo min_gallop a1 b1) as [m g]. cbn [fst] in *. rewrite Hm. perm_pieces.
  - pose proof (merge_hi_perm min_gallop a1 b1) as Hm.
    destruct (merge_hi min_gallop a1 b1) as [m g]. cbn [fst] in *. rewrite Hm. perm_pieces.
Qed.

Lemma flat_cons (r : list (sort_key * A)) (pw : nat) pending :
  flat ((r, pw) :: pending) = flat pending ++ r.
Proof. unfold flat. simpl. rewrite concat_app. simpl. now rewrite app_nil_r. Qed.

Lemma merge_while_perm power :
  forall below min_gallop top,
    flat (snd (fst (merge_while power min_gallop top below)))
      ++ fst (fst (merge_while power min_gallop top below))
    ≡ₚ flat below ++ top.
Proof.
  induction below as [|[a pa] rest IH]; intros min_gallop top; [reflexivity|].
  cbn [merge_while]. destruct (power <? pa); [|reflexivity].
  pose proof (merge_at_perm min_gallop a top) as Hm.
  destruct (merge_at min_gallop a top) as [m g]. cbn [fst] in Hm.
  rewrite IH, Hm, flat_cons. perm_pieces.
Qed.

Lemma found_new_run_perm listlen n2 min_gallop pending :
  flat (fst (found_new_run listlen n2 min_gallop pending)) ≡ₚ flat pending.
Proof.
  unfold found_new_run. destruct pending as [|[top p] below]; [reflexivity|].
  cbv zeta. set (power := power_of _ _ _ _).
  pose proof (merge_while_perm power below min_gallop top) as Hm.
  destruct (merge_while power min_gallop top below) as [[top' below'] g].
  cbn [fst snd] in *. now rewrite !flat_cons.
Qed.

Lemma merge_force_collapse_perm :
  forall fuel min_gallop pending, merge_force_collapse fuel min_gallop pending ≡ₚ flat pending.
Proof.
  induction fuel as [|fuel IH]; intros min_gallop pending; [reflexivity|].
  destruct pending as [|[c pc] [|[b pb] rest]]; [reflexivity..|].
  cbn [merge_force_collapse].
  assert (Hbc : forall g,
    (let '(merged, min_gallop') := merge_at g b c in
     merge_force_collapse fuel min_gallop' ((merged, pb) :: rest))
    ≡ₚ flat ((c, pc) :: (b, pb) :: rest)).
  { intros g. pose proof (merge_at_perm g b c) as Hm.
    destruct (merge_at g b c) as [m g']. cbn [fst] in Hm.
    rewrite IH, !flat_cons, Hm. perm_pieces. }
  destruct rest as [|[a pa] rest']; [apply Hbc|].
  destruct (length a <? length c); [|apply Hbc].
  pose proof (merge_at_perm min_gallop a b) as Hm.
  destruct (merge_at min_gallop a b) as [m g']. cbn [fst] in Hm.
  rewrite IH, !flat_cons, Hm. perm_pieces.
Qed.

Lemma skipn_force (lo : list (sort_key * A)) k force :
  k <= force ->
  firstn k lo ++ firstn (force - k) (skipn k lo) ++ skipn force lo = lo.
Proof.
  intros Hle. replace force with ((force - k) + k) at 2 by lia.
  rewrite <- skipn_skipn, firstn_skipn. apply firstn_skipn.
Qed.

Lemma find_runs_perm :
  forall fuel listlen minrun min_gallop pending lo,
    length lo <= fuel ->
    flat (fst (find_runs fuel listlen minrun min_gallop pending lo)) ≡ₚ flat pending ++ lo.
Proof.
  induction fuel as [|fuel IH]; intros listlen minrun min_gallop pending lo Hfuel.
  { destruct lo; [|simpl in Hfuel; lia]. simpl. now rewrite app_nil_r. }
  destruct lo as [|x lo']; [simpl; now rewrite app_nil_r|].
  cbn [find_runs]. set (lo := x :: lo') in *.
  pose proof (count_run_le lo) as Hle. pose proof (count_run_pos lo ltac:(discriminate)) as Hpos.
  destruct (count_run lo) as [k descending]. cbn [fst] in Hle, Hpos.
  set (run0 := if descending then rev (firstn k lo) else firstn k lo).
  assert (Hrun0 : run0 ≡ₚ firstn k lo).
  { unfold run0. destruct descending; [symmetry; apply Permutation_rev | reflexivity]. }
  cbv zeta. set (force := Nat.min (length lo) minrun).
  destruct (Nat.ltb_spec k minrun) as [Hlt|Hge].
  - cbv beta iota. pose proof (found_new_run_perm listlen force min_gallop pending) as Hp.
    destruct (found_new_run listlen force min_gallop pending) as [pending' g].
    cbn [fst] in Hp. rewrite IH.
    + rewrite flat_cons, Hp, binarysort_perm, Hrun0.
      rewrite <- (skipn_force lo k force) at 4 by (unfold force; lia). perm_pieces.
    + rewrite length_skipn. unfold force. lia.
  - cbv beta iota. pose proof (found_new_run_perm listlen k min_gallop pending) as Hp.
    destruct (found_new_run listlen k min_gallop pending) as [pending' g].
    cbn [fst] in Hp. rewrite IH.
    + rewrite flat_cons, Hp, Hrun0. rewrite <- (firstn_skipn k lo) at 3. perm_pieces.
    + rewrite length_skipn. lia.
Qed.

(** [list.sort] returns a rearrangement of the list, whatever the keys. *)
Lemma listsort_perm l : listsort l ≡ₚ l.
Proof.
  unfold listsort. destruct (length l <? 2); [reflexivity|].
  cbv zeta.
  pose proof (find_runs_perm (length l) (length l)
                (merge_compute_minrun (length l) (length l) 0) MIN_GALLOP [] l (le_n _)) as Hp.
  destruct (find_runs _ _ _ _ _ _) as [pending g]. cbn [fst] in Hp.
  now rewrite merge_force_collapse_perm, Hp.
Qed.

End Rearranges.

(** ** [list.sort] on keys that can be compared *)

Section Stable.
Context {A : Type}.
Variable n : nat.
Implicit Types (x y z key : sort_key * A) (a b l m p q dest top lo : list (sort_key * A)).
Implicit Types (pending below : list (list (sort_key * A) * nat)).
#[local] Open Scope nat_scope.
#[local] Open Scope list_scope.

Lemma merge_at_ok min_gallop a b :
  List.Forall (orderly n) a -> List.Forall (orderly n) b -> ordered a -> ordered b ->
  ordered (fst (merge_at min_gallop a b)) /\
  List.Forall (orderly n) (fst (merge_at min_gallop a b)) /\
  keeps_ties (a ++ b) (fst (merge_at min_gallop a b)).
Proof.
  intros Hoka Hokb Hsa Hsb. rewrite (merge_at_spec n) by assumption.
  split; [now apply (smerge_ordered n)|]. split; [|now apply (smerge_ties n)].
  rewrite smerge_perm. now apply Forall_app.
Qed.

Lemma merge_while_spec power :
  forall below min_gallop top,
    runs_ok n below -> ordered top -> List.Forall (orderly n) top ->
    runs_ok n (snd (fst (merge_while power min_gallop top below))) /\
    ordered (fst (fst (merge_while power min_gallop top below))) /\
    List.Forall (orderly n) (fst (fst (merge_while power min_gallop top below))) /\
    keeps_ties (flat below ++ top)
      (flat (snd (fst (merge_while power min_gallop top below)))
       ++ fst (fst (merge_while power min_gallop top below))).
Proof.
  induction below as [|[a pa] rest IH]; intros min_gallop top Hruns Hs Hok.
  { cbn. repeat split; auto; apply keeps_ties_refl. }
  cbn [merge_while]. destruct (power <? pa).
  2:{ cbn [fst snd]. repeat split; auto; apply keeps_ties_refl. }
  apply Forall_cons in Hruns as [[Hsa Hoka] Hruns]. cbn [fst] in Hsa, Hoka.
  destruct (merge_at_ok min_gallop a top Hoka Hok Hsa Hs) as (Hsm & Hokm & Htm).
  destruct (merge_at min_gallop a top) as [m g]. cbn [fst] in *.
  destruct (IH g m Hruns Hsm Hokm) as (H1 & H2 & H3 & H4).
  repeat split; auto.
  eapply keeps_ties_trans; [|exact H4].
  rewrite flat_cons, <- app_assoc.
  apply keeps_ties_app; [apply keeps_ties_refl | exact Htm].
Qed.

Lemma found_new_run_spec listlen n2 min_gallop pending :
  runs_ok n pending ->
  runs_ok n (fst (found_new_run listlen n2 min_gallop pending)) /\
  keeps_ties (flat pending) (flat (fst (found_new_run listlen n2 min_gallop pending))).
Proof.
  intros Hruns. unfold found_new_run. destruct pending as [|[top p0] below].
  { split; [constructor | apply keeps_ties_refl]. }
  cbv zeta. set (power := power_of _ _ _ _).
  apply Forall_cons in Hruns as [[Hs Hok] Hruns]. cbn [fst] in Hs, Hok.
  destruct (merge_while_spec power below min_gallop top Hruns Hs Hok) as (H1 & H2 & H3 & H4).
  destruct (merge_while power min_gallop top below) as [[top' below'] g].
  cbn [fst snd] in *. split.
  - constructor; [split; assumption | assumption].
  - now rewrite !flat_cons.
Qed.

Lemma find_runs_spec :
  forall fuel listlen minrun min_gallop pending lo,
    runs_ok n pending -> List.Forall (orderly n) lo -> length lo <= fuel ->
    runs_ok n (fst (find_runs fuel listlen minrun min_gallop pending lo)) /\
    keeps_ties (flat pending ++ lo)
      (flat (fst (find_runs fuel listlen minrun min_gallop pending lo))).
Proof.
  induction fuel as [|fuel IH]; intros listlen minrun min_gallop pending lo Hruns Hok Hfuel.
  { destruct lo; [|simpl in Hfuel; lia]. simpl. rewrite app_nil_r.
    split; [assumption | apply keeps_ties_refl]. }
  destruct lo as [|x lo'].
  { simpl. rewrite app_nil_r. split; [assumption | apply keeps_ties_refl]. }
  cbn [find_runs]. set (lo := x :: lo') in *.
  pose proof (count_run_le lo) as Hle. pose proof (count_run_pos lo ltac:(discriminate)) as Hpos.
  pose proof (count_run_spec n lo Hok) as Hrun. cbv zeta in Hrun.
  destruct (count_run lo) as [k descending]. cbn [fst snd] in Hle, Hpos, Hrun.
  set (run0 := if descending then rev (firstn k lo) else firstn k lo) in *.
  destruct Hrun as [Hs0 Ht0].
  assert (Hok0 : List.Forall (orderly n) run0).
  { unfold run0. destruct descending; [rewrite <- Permutation_rev|]; now apply Forall_firstn'. }
  cbv zeta. set (force := Nat.min (length lo) minrun).
  destruct (Nat.ltb_spec k minrun) as [Hlt|Hge]; cbv beta iota.
  - destruct (found_new_run_spec listlen force min_gallop pending Hruns) as [Hr Ht].
    destruct (found_new_run listlen force min_gallop pending) as [pending' g].
    cbn [fst] in Hr, Ht.
    set (more := firstn (force - k) (skipn k lo)).
    assert (Hokm : List.Forall (orderly n) more).
    { unfold more. apply Forall_firstn'. now apply Forall_skipn'. }
    destruct (binarysort_spec n run0 more Hok0 Hokm Hs0) as [Hs1 Ht1].
    destruct (IH listlen minrun g ((binarysort run0 more, 0) :: pending') (skipn force lo))
      as [H1 H2].
    + constructor; [|assumption]. split; [exact Hs1|].
      cbn [fst]. rewrite binarysort_perm. now apply Forall_app.
    + now apply Forall_skipn'.
    + rewrite length_skipn. unfold force. lia.
    + split; [exact H1|]. eapply keeps_ties_trans; [|exact H2].
      rewrite flat_cons, <- app_assoc.
      rewrite <- (skipn_force lo k force) at 1 by (unfold force; lia).
      fold more. rewrite (app_assoc (firstn k lo)).
      apply keeps_ties_app; [exact Ht|].
      apply keeps_ties_app; [|apply keeps_ties_refl].
      eapply keeps_ties_trans; [|exact Ht1].
      apply keeps_ties_app; [exact Ht0 | apply keeps_ties_refl].
  - destruct (found_new_run_spec listlen k min_gallop pending Hruns) as [Hr Ht].
    destruct (found_new_run listlen k min_gallop pending) as [pending' g].
    cbn [fst] in Hr, Ht.
    destruct (IH listlen minrun g ((run0, 0) :: pending') (skipn k lo)) as [H1 H2].
    + constructor; [|assumption]. split; assumption.
    + now apply Forall_skipn'.
    + rewrite length_skipn. lia.
    + split; [exact H1|]. eapply keeps_ties_trans; [|exact H2].
      rewrite flat_cons, <- app_assoc.
      rewrite <- (firstn_skipn k lo) at 1.
      apply keeps_ties_app; [exact Ht|].
      apply keeps_ties_app; [exact Ht0 | apply keeps_ties_refl].
Qed.

Lemma merge_force_collapse_spec :
  forall fuel min_gallop pending,
    runs_ok n pending -> length pending <= S fuel ->
    ordered (merge_force_collapse fuel min_gallop pending) /\
    keeps_ties (flat pending) (merge_force_collapse fuel min_gallop pending).
Proof.
  assert (Hbase : forall pending, runs_ok n pending -> length pending <= 1 ->
                    ordered (flat pending) /\ keeps_ties (flat pending) (flat pending)).
  { intros pending Hruns Hlen. split; [|apply keeps_ties_refl].
    destruct pending as [|[r p0] [|? ?]]; [constructor| |simpl in Hlen; lia].
    apply Forall_cons in Hruns as [[Hs _] _]. unfold flat. simpl. now rewrite app_nil_r. }
  induction fuel as [|fuel IH]; intros min_gallop pending Hruns Hlen.
  { now apply Hbase. }
  destruct pending as [|[c pc] [|[b pb] rest]]; [apply Hbase; auto; simpl; lia..|].
  cbn [merge_force_collapse].
  apply Forall_cons in Hruns as [[Hsc Hokc] Hruns].
  apply Forall_cons in Hruns as [[Hsb Hokb] Hruns]. cbn [fst] in *.
  assert (Hbc : forall g,
    ordered (let '(merged, min_gallop') := merge_at g b c in
             merge_force_collapse fuel min_gallop' ((merged, pb) :: rest)) /\
    keeps_ties (flat ((c, pc) :: (b, pb) :: rest))
      (let '(merged, min_gallop') := merge_at g b c in
       merge_force_collapse fuel min_gallop' ((merged, pb) :: rest))).
  { intros g. destruct (merge_at_ok g b c Hokb Hokc Hsb Hsc) as (Hsm & Hokm & Htm).
    destruct (merge_at g b c) as [m g']. cbn [fst] in *.
    destruct (IH g' ((m, pb) :: rest)) as [H1 H2].
    - constructor; [split; assumption | assumption].
    - simpl in *. lia.
    - split; [exact H1|]. eapply keeps_ties_trans; [|exact H2].
      rewrite !flat_cons, <- app_assoc.
      apply keeps_ties_app; [apply keeps_ties_refl | exact Htm]. }
  destruct rest as [|[a pa] rest']; [apply Hbc|].
  destruct (length a <? length c); [|apply Hbc].
  apply Forall_cons in Hruns as [[Hsa Hoka] Hruns]. cbn [fst] in *.
  destruct (merge_at_ok min_gallop a b Hoka Hokb Hsa Hsb) as (Hsm & Hokm & Htm).
  destruct (merge_at min_gallop a b) as [m g']. cbn [fst] in *.
  destruct (IH g' ((c, pc) :: (m, pa) :: rest')) as [H1 H2].
  - constructor; [split; assumption|]. constructor; [split; assumption | assumption].
  - simpl in *. lia.
  - split; [exact H1|]. eapply keeps_ties_trans; [|exact H2].
    rewrite !flat_cons, <- !app_assoc.
    apply keeps_ties_app; [apply keeps_ties_refl|].
    rewrite app_assoc. apply keeps_ties_app; [exact Htm | apply keeps_ties_refl].
Qed.

(** On keys of one kind without a NaN, what [list.sort] returns is in
    order and keeps the elements of each key in their order. *)
Lemma listsort_spec l :
  List.Forall (orderly n) l -> ordered (listsort l) /\ keeps_ties l (listsort l).
Proof.
  intros Hok. unfold listsort. destruct (Nat.ltb_spec (length l) 2) as [Hlt|Hge].
  { split; [|apply keeps_ties_refl]. destruct l as [|x [|y l]]; try (simpl in Hlt; lia).
    - constructor.
    - repeat constructor. }
  cbv zeta.
  destruct (find_runs_spec (length l) (length l)
              (merge_compute_minrun (length l) (length l) 0) MIN_GALLOP [] l
              ltac:(constructor) Hok (le_n _)) as [Hr Ht].
  destruct (find_runs _ _ _ _ _ _) as [pending g]. cbn [fst] in Hr, Ht.
  destruct (merge_force_collapse_spec (length pending) g pending Hr ltac:(lia)) as [H1 H2].
  split; [exact H1|]. eapply keeps_ties_trans; [exact Ht | exact H2].
Qed.

End Stable.

Section StableSort.
Context {A : Type}.
Implicit Types (x y z : sort_key * A) (l : list (sort_key * A)).
#[local] Open Scope nat_scope.
#[local] Open Scope list_scope.

Lemma key_code_kind (k : sort_key) i c : key_code k = Some (i, c) -> kind k = i.
Proof.
  destruct k as [m|f|s]; simpl.
  - now intros [= <- _].
  - destruct (float_code (Prim2SF f)); [now intros [= <- _] | discriminate].
  - now intros [= <- _].
Qed.

Lemma key_cmp_orderly (a b : sort_key) :
  key_cmp a b <> None -> kind a = kind b /\ key_eq a a = true.
Proof.
  rewrite key_eq_cmp. unfold key_cmp.
  destruct (key_code a) as [[i c]|] eqn:Ea; [|congruence].
  destruct (key_code b) as [[j d]|] eqn:Eb; [|congruence].
  destruct (Nat.eqb_spec i j) as [->|]; [|congruence].
  intros _. rewrite Nat.eqb_refl, lex_refl.
  apply key_code_kind in Ea, Eb. split; congruence.
Qed.

Lemma comparable_orderly l :
  comparable (map fst l) -> exists n, List.Forall (orderly n) l.
Proof.
  intros Hcmp. destruct l as [|x l]; [exists 0; constructor|].
  exists (kind (fst x)). rewrite List.Forall_forall. intros y Hy.
  assert (Hin : forall z, In z (x :: l) -> fst z ∈ map fst (x :: l)).
  { intros z Hz. apply list_elem_of_In. now apply in_map. }
  destruct (key_cmp_orderly (fst y) (fst x)) as [Hk He].
  { apply Hcmp; apply Hin; [exact Hy | now left]. }
  now split.
Qed.

(** On keys that can be compared, [list.sort] returns the stable
    arrangement. *)
Lemma listsort_stable_sort l :
  comparable (map fst l) -> listsort l = stable_sort l.
Proof.
  intros Hcmp. destruct (comparable_orderly l Hcmp) as [n Hok].
  destruct (listsort_spec n l Hok) as [Hs Ht].
  apply (ordered_unique n).
  - now rewrite listsort_perm.
  - now rewrite stable_sort_perm.
  - exact Hs.
  - apply stable_sort_sorted. exact Hcmp.
  - intros k. rewrite stable_sort_filter. symmetry. apply Ht.
Qed.

Lemma run_length_all prev l :
  ascending (map fst (prev :: l)) -> run_length false prev l = length l.
Proof.
  revert prev. induction l as [|x l IH]; intros prev Hasc; [reflexivity|].
  simpl map in Hasc. apply ascending_cons in Hasc as [Hhd Hasc].
  simpl. unfold item_lt. rewrite Hhd. simpl. f_equal. now apply IH.
Qed.

Lemma find_runs_nil fuel listlen minrun min_gallop
  (pending : list (list (sort_key * A) * nat)) :
  find_runs fuel listlen minrun min_gallop pending [] = (pending, min_gallop).
Proof. now destruct fuel. Qed.

(** A list whose keys are in order is left as it is, whatever the keys. *)
Lemma listsort_id l : ascending (map fst l) -> listsort l = l.
Proof.
  intros Hasc. unfold listsort. destruct (Nat.ltb_spec (length l) 2) as [Hlt|Hge]; [reflexivity|].
  cbv zeta. destruct l as [|x [|y l']]; try (simpl in Hge; lia).
  set (l := x :: y :: l') in *.
  assert (Hrun : count_run l = (length l, false)).
  { unfold l. simpl map in Hasc. apply ascending_cons in Hasc as [Hhd Hasc].
    cbn [count_run]. unfold item_lt at 2. rewrite Hhd. cbv zeta.
    unfold item_lt. rewrite Hhd. now rewrite run_length_all. }
  set (minrun := merge_compute_minrun _ _ _).
  change (length l) with (S (S (length l'))) at 1.
  generalize (S (length l')) as fuel. intros fuel.
  unfold l at 2. cbn [find_runs]. fold l. rewrite Hrun. cbv zeta.
  rewrite firstn_all, skipn_all.
  assert (Hforce : Nat.min (length l) minrun - length l = 0) by lia.
  rewrite Hforce. cbn [firstn]. change (binarysort l []) with l.
  destruct (Nat.ltb_spec (length l) minrun) as [Hlt|Hle]; cbn [found_new_run].
  - replace (skipn (Nat.min (length l) minrun) l) with (@nil (sort_key * A)).
    + rewrite find_runs_nil. simpl. now rewrite app_nil_r.
    + symmetry. apply skipn_all2. lia.
  - rewrite skipn_all, find_runs_nil. simpl. now rewrite app_nil_r.
Qed.

End StableSort.

(** ** The sort on pairs of keys and elements *)

Section SortFacts.
Context {A : Type}.
Implicit Types (x y : sort_key * A) (l : list (sort_key * A)) (k : sort_key).

Lemma comparable_rev l : comparable (map fst l) -> comparable (map fst (rev l)).
Proof.
  intros Hcmp a b Ha Hb. rewrite map_rev, <- Permutation_rev in Ha, Hb. now apply Hcmp.
Qed.

Lemma sorted_pairs_perm (reverse : bool) l : sorted_pairs reverse l ≡ₚ l.
Proof.
  unfold sorted_pairs. destruct reverse.
  - now rewrite <- Permutation_rev, listsort_perm, <- Permutation_rev.
  - apply listsort_perm.
Qed.

(** On comparable keys the result is the stable arrangement, in the
    direction of the sort. *)
Lemma sorted_pairs_stable_sort (reverse : bool) l :
  comparable (map fst l) ->
  sorted_pairs reverse l = if reverse then rev (stable_sort (rev l)) else stable_sort l.
Proof.
  intros Hcmp. unfold sorted_pairs. destruct reverse.
  - now rewrite listsort_stable_sort by now apply comparable_rev.
  - now apply listsort_stable_sort.
Qed.

Lemma sorted_pairs_filter (reverse : bool) k l :
  comparable (map fst l) ->
  List.filter (fun y => key_eq (fst y) k) (sorted_pairs reverse l) =
  List.filter (fun y => key_eq (fst y) k) l.
Proof.
  intros Hcmp. rewrite sorted_pairs_stable_sort by assumption. destruct reverse.
  - now rewrite filter_rev, stable_sort_filter, filter_rev, rev_involutive.
  - apply stable_sort_filter.
Qed.

(** The keys of the result, read in the direction of the sort, are in
    order. *)
Lemma sorted_pairs_ascending (reverse : bool) l :
  comparable (map fst l) ->
  ascending (map fst (if reverse then rev (sorted_pairs reverse l)
                      else sorted_pairs reverse l)).
Proof.
  intros Hcmp. rewrite sorted_pairs_stable_sort by assumption. destruct reverse.
  - rewrite rev_involutive. apply stable_sort_ascending.
  - apply stable_sort_ascending.
Qed.

Lemma sorted_pairs_id (reverse : bool) l :
  ascending (map fst (if reverse then rev l else l)) -> sorted_pairs reverse l = l.
Proof.
  unfold sorted_pairs. destruct reverse; intros Hasc.
  - rewrite listsort_id by assumption. apply rev_involutive.
  - now apply listsort_id.
Qed.

Lemma StronglySorted_rev (R : relation (sort_key * A)) l :
  StronglySorted R l -> StronglySorted (fun y z => R z y) (rev l).
Proof.
  induction 1 as [|x l Hsorted IH Hall]; simpl; [constructor|].
  apply StronglySorted_app_2; [|assumption|repeat constructor].
  intros y z Hy Hz. apply list_elem_of_singleton in Hz. subst z.
  rewrite Forall_forall in Hall. apply Hall. now rewrite <- Permutation_rev in Hy.
Qed.

Lemma sorted_pairs_sorted (reverse : bool) l :
  comparable (map fst l) ->
  StronglySorted
    (fun y z => (if reverse then key_lt (fst y) (fst z) else key_lt (fst z) (fst y)) = false)
    (sorted_pairs reverse l).
Proof.
  intros Hcmp. rewrite sorted_pairs_stable_sort by assumption. destruct reverse.
  - apply (StronglySorted_rev (fun y z => key_lt (fst z) (fst y) = false)).
    apply stable_sort_sorted. now apply comparable_rev.
  - now apply stable_sort_sorted.
Qed.

(** *** Keys and elements *)

Variable key : A -> PyFloat.float_error + sort_key.

Lemma decorate_inr (xs : list A) l :
  decorate key xs = inr l -> map snd l = xs /\ keyed key l.
Proof.
  revert l. induction xs as [|a xs IH]; simpl; intros l H.
  - injection H as <-. split; [reflexivity | constructor].
  - destruct (key a) as [|k'] eqn:Hk; [discriminate|].
    destruct (decorate key xs) as [|l']; [discriminate|].
    injection H as <-. destruct (IH l' eq_refl) as [Hsnd Hkeyed].
    split; [simpl; now f_equal | now constructor].
Qed.

Lemma decorate_keyed l : keyed key l -> decorate key (map snd l) = inr l.
Proof.
  induction 1 as [|[k' a] l Hk _ IH]; simpl in *; [reflexivity|].
  now rewrite Hk, IH.
Qed.

Lemma decorate_total (xs : list A) :
  Forall (fun a => exists k', key a = inr k') xs -> exists l, decorate key xs = inr l.
Proof.
  induction 1 as [|a xs [k' Hk] _ [l IH]]; simpl.
  - now exists [].
  - rewrite Hk, IH. now eexists.
Qed.

Lemma list_sort_inr (reverse : bool) (xs : list A) l :
  decorate key xs = inr l ->
  list_sort key reverse xs = inr (map snd (sorted_pairs reverse l)).
Proof. intros H. unfold list_sort, sorted_pairs. now rewrite H. Qed.

(** A list whose keys are in order, in the direction of the sort, is
    left as it is. *)
Lemma list_sort_id (reverse : bool) (xs : list A) l :
  decorate key xs = inr l ->
  ascending (map fst (if reverse then rev l else l)) ->
  list_sort key reverse xs = inr xs.
Proof.
  intros Hdec Hasc. rewrite (list_sort_inr _ _ _ Hdec).
  rewrite sorted_pairs_id by assumption.
  now destruct (decorate_inr _ _ Hdec) as [-> _].
Qed.

End SortFacts.

(** ** Sorting the listings *)

Lemma sort_exchanges_list_sort (sort_by : option SortCriterion) (descending : bool)
  (l : list ExchangeData.t) :
  sort_exchanges sort_by descending l =
  list_sort (sort_key_of (criterion_of sort_by)) (reverse_of sort_by descending) l.
Proof. now destruct sort_by. Qed.

Lemma sort_key_of_kind (c : SortCriterion) (x : ExchangeData.t) (k : sort_key) :
  sort_key_of c x = inr k -> kind k = kind_of c.
Proof.
  destruct c; simpl; unfold float_key; intros H;
    try (injection H as <-; reflexivity);
    match type of H with
    | context [PyFloat.of_string ?s] =>
        destruct (PyFloat.of_string s); [discriminate | injection H as <-; reflexivity]
    end.
Qed.

Lemma sortable_comparable (c : SortCriterion) (l : list ExchangeData.t)
  (kl : list (sort_key * ExchangeData.t)) :
  sortable c l -> decorate (sort_key_of c) l = inr kl -> comparable (map fst kl).
Proof.
  intros Hs Hdec. destruct (decorate_inr _ _ _ Hdec) as [Hsnd Hkeyed].
  assert (Hnum : forall a, a ∈ map fst kl -> key_eq a a = true /\ kind a = kind_of c).
  { intros a Ha. apply list_elem_of_fmap in Ha as ([k x] & -> & Hp).
    unfold keyed in Hkeyed. rewrite Forall_forall in Hkeyed.
    pose proof (Hkeyed _ Hp) as Hk. simpl in Hk.
    unfold sortable in Hs. rewrite Forall_forall in Hs.
    destruct (Hs x) as (k' & Hk' & Hnum).
    { rewrite <- Hsnd. apply list_elem_of_fmap. now exists (k, x). }
    simpl. split; [congruence | now apply (sort_key_of_kind c x)]. }
  intros a b Ha Hb. destruct (Hnum a Ha), (Hnum b Hb).
  apply key_cmp_numeric; congruence.
Qed.

Lemma StronglySorted_map_snd (c : SortCriterion) (reverse : bool)
  (kl : list (sort_key * ExchangeData.t)) :
  keyed (sort_key_of c) kl ->
  StronglySorted
    (fun y z => (if reverse then key_lt (fst y) (fst z) else key_lt (fst z) (fst y)) = false) kl ->
  StronglySorted (in_order c reverse) (map snd kl).
Proof.
  intros Hkeyed Hsorted. induction Hsorted as [|p kl Hsorted IH Hall]; simpl; [constructor|].
  apply Forall_cons in Hkeyed as [Hp Hkeyed].
  constructor; [now apply IH|].
  apply Forall_map. rewrite Forall_forall in Hall, Hkeyed |- *.
  intros q Hq. exists (fst p), (fst q). auto.
Qed.

Lemma filter_has_key (c : SortCriterion) (k : sort_key)
  (kl : list (sort_key * ExchangeData.t)) :
  keyed (sort_key_of c) kl ->
  List.filter (has_key c k) (map snd kl) =
  map snd (List.filter (fun p => key_eq (fst p) k) kl).
Proof.
  induction 1 as [|[k' x] kl Hk _ IH]; simpl in *; [reflexivity|].
  unfold has_key at 1. rewrite Hk.
  destruct (key_eq k' k); simpl; now rewrite IH.
Qed.

(** What the sorting step gives on listings whose keys are numbers. *)
Lemma sort_exchanges_sortable (sort_by : option SortCriterion) (descending : bool)
  (l : list ExchangeData.t) :
  sortable (criterion_of sort_by) l ->
  exists kl,
    decorate (sort_key_of (criterion_of sort_by)) l = inr kl /\
    sort_exchanges sort_by descending l =
      inr (map snd (sorted_pairs (reverse_of sort_by descending) kl)).
Proof.
  intros Hs.
  destruct (decorate_total (sort_key_of (criterion_of sort_by)) l) as [kl Hdec].
  { eapply Forall_impl; [exact Hs|]. intros x (k & Hk & _). now exists k. }
  exists kl. split; [exact Hdec|].
  rewrite sort_exchanges_list_sort. now apply list_sort_inr.
Qed.

(** C5, as amended: with no criterion requested the listings are sorted
    by volume, descending, whatever the [descending] flag says.  For every
    criterion and direction, on listings none of whose keys is NaN (they
    are numbers, or names), the sorting step returns a rearrangement of the listings that is in order
    for that criterion and direction and in which the listings of any one
    key stand in the order they had before.  Two rows of volume 100 named
    A and B stay in the order A, B when sorted by volume, descending. *)
Theorem sort_exchanges_stable (sort_by : option SortCriterion) (descending : bool)
  (l : list ExchangeData.t) :
  sort_exchanges None descending l = sort_exchanges (Some VOLUME) true l /\
  (sortable (criterion_of sort_by) l ->
   exists l',
     sort_exchanges sort_by descending l = inr l' /\
     l' ≡ₚ l /\
     StronglySorted (in_order (criterion_of sort_by) (reverse_of sort_by descending)) l' /\
     forall k,
       List.filter (has_key (criterion_of sort_by) k) l' =
       List.filter (has_key (criterion_of sort_by) k) l) /\
  sort_exchanges None true
    [Sample.listing "A" "95.0000" None "$100"; Sample.listing "B" "96.0000" None "$100"]
  = inr [Sample.listing "A" "95.0000" None "$100"; Sample.listing "B" "96.0000" None "$100"].
Proof.
  split; [reflexivity|]. split; [|reflexivity].
  intros Hs. set (c := criterion_of sort_by) in *. set (r := reverse_of sort_by descending).
  destruct (sort_exchanges_sortable sort_by descending l Hs) as (kl & Hdec & Hrun).
  fold c r in Hdec, Hrun.
  destruct (decorate_inr _ _ _ Hdec) as [Hsnd Hkeyed].
  assert (Hkeyed' : keyed (sort_key_of c) (sorted_pairs r kl)).
  { unfold keyed. now rewrite sorted_pairs_perm. }
  eexists. split; [exact Hrun|]. split; [|split].
  - rewrite <- Hsnd. apply Permutation_map, sorted_pairs_perm.
  - apply StronglySorted_map_snd; [exact Hkeyed'|].
    apply sorted_pairs_sorted. now apply (sortable_comparable c l).
  - intros k. rewrite (filter_has_key c k _ Hkeyed').
    rewrite sorted_pairs_filter by now apply (sortable_comparable c l).
    rewrite <- (filter_has_key c k _ Hkeyed). now rewrite Hsnd.
Qed.

(** ** Sorting twice *)

Lemma sort_key_of_set_id (c : SortCriterion) (i : Z) (x : ExchangeData.t) :
  c <> ID -> sort_key_of c (ExchangeData.set_id i x) = sort_key_of c x.
Proof. destruct c; intros H; [contradiction| reflexivity ..]. Qed.

Lemma assign_ids_idem (i : Z) (l : list ExchangeData.t) :
  assign_ids i (assign_ids i l) = assign_ids i l.
Proof. revert i. induction l as [|x l IH]; intros i; simpl; [reflexivity|]. now rewrite IH. Qed.

Lemma decorate_assign_ids (c : SortCriterion) (i : Z) (l : list ExchangeData.t)
  (kl : list (sort_key * ExchangeData.t)) :
  c <> ID ->
  decorate (sort_key_of c) l = inr kl ->
  exists kl1,
    decorate (sort_key_of c) (assign_ids i l) = inr kl1 /\ map fst kl1 = map fst kl.
Proof.
  intros Hc. revert i kl. induction l as [|x l IH]; intros i kl H; simpl in *.
  - injection H as <-. now exists [].
  - rewrite (sort_key_of_set_id c i x Hc).
    destruct (sort_key_of c x) as [|k]; [discriminate|].
    destruct (decorate (sort_key_of c) l) as [|kl0]; [discriminate|].
    injection H as <-. destruct (IH (i + 1) kl0 eq_refl) as (kl1 & -> & Hfst).
    eexists. split; [reflexivity|]. simpl. now f_equal.
Qed.

Lemma decorate_ID_assign_ids (i : Z) (l : list ExchangeData.t) :
  exists kl1,
    decorate (sort_key_of ID) (assign_ids i l) = inr kl1 /\
    ascending (map fst kl1) /\
    match kl1 with [] => True | p :: _ => fst p = KInt i end.
Proof.
  revert i. induction l as [|x l IH]; intros i; simpl.
  - exists []. simpl. auto.
  - destruct (IH (i + 1)) as (kl1 & -> & Hasc & Hhd).
    eexists. split; [reflexivity|]. split; [|reflexivity].
    simpl map. apply ascending_cons. split; [|exact Hasc].
    destruct kl1 as [|p kl1]; simpl; [exact I|].
    rewrite Hhd. simpl. apply Z.ltb_ge. lia.
Qed.

(** C6, as amended: for every criterion and direction other than [id]
    descending, and for listings whose keys are numbers (or names), the
    sort-and-rank step succeeds, and applied to its own result it returns
    that result again: the same order and the same IDs. *)
Theorem sort_and_rank_idempotent (sort_by : option SortCriterion) (descending : bool)
  (l : list ExchangeData.t) :
  (sort_by, descending) <> (Some ID, true) ->
  sortable (criterion_of sort_by) l ->
  exists l1,
    sort_and_rank sort_by descending l = inr l1 /\
    sort_and_rank sort_by descending l1 = inr l1.
Proof.
  intros Hne Hs. set (c := criterion_of sort_by) in *. set (r := reverse_of sort_by descending).
  destruct (sort_exchanges_sortable sort_by descending l Hs) as (kl & Hdec & Hrun).
  fold c r in Hdec, Hrun.
  destruct (decorate_inr _ _ _ Hdec) as [Hsnd Hkeyed].
  set (kl' := sorted_pairs r kl) in *.
  assert (Hkeyed' : keyed (sort_key_of c) kl').
  { unfold keyed, kl'. now rewrite sorted_pairs_perm. }
  exists (assign_ids 1 (map snd kl')).
  split; [unfold sort_and_rank; now rewrite Hrun|].
  unfold sort_and_rank. rewrite sort_exchanges_list_sort. fold c r.
  enough (Hid : list_sort (sort_key_of c) r (assign_ids 1 (map snd kl'))
                = inr (assign_ids 1 (map snd kl'))).
  { rewrite Hid. now rewrite assign_ids_idem. }
  destruct (decide (c = ID)) as [Hc|Hc].
  - assert (Hr : r = false).
    { unfold r, c in *. destruct sort_by as [c0|]; simpl in *; [|discriminate].
      subst c0. destruct descending; [congruence | reflexivity]. }
    rewrite Hr, Hc.
    destruct (decorate_ID_assign_ids 1 (map snd kl')) as (kl1 & Hdec1 & Hasc & _).
    now apply (list_sort_id _ false _ kl1).
  - destruct (decorate_assign_ids c 1 (map snd kl') kl' Hc (decorate_keyed _ _ Hkeyed'))
      as (kl1 & Hdec1 & Hfst).
    apply (list_sort_id _ r _ kl1 Hdec1).
    pose proof (sorted_pairs_ascending r kl (sortable_comparable c l kl Hs Hdec)) as Hasc.
    fold kl' in Hasc.
    destruct r; [rewrite map_rev in *|]; now rewrite Hfst.
Qed.

Lemma sample_rows_sortable (c : SortCriterion) : sortable c Sample.rows.
Proof.
  unfold sortable, Sample.rows.
  repeat (apply Forall_cons; split); try apply Forall_nil;
    destruct c; eexists; (split; [vm_compute; reflexivity | vm_compute; reflexivity]).
Defined.

Lemma sort_exchanges_stable_witness :
  exists l',
    sort_exchanges (Some VOLUME) true Sample.rows = inr l' /\
    map ExchangeData.exchange l' = ["C"; "A"; "B"] /\
    map ExchangeData.exchange
      (List.filter (has_key VOLUME (KFloat 100%float)) l') = ["A"; "B"].
Proof.
  destruct (proj1 (proj2 (sort_exchanges_stable (Some VOLUME) true Sample.rows))
              (sample_rows_sortable VOLUME))
    as (l' & Hrun & _ & _ & Hstable).
  exists l'. split; [exact Hrun|]. split.
  - vm_compute in Hrun. injection Hrun as <-. reflexivity.
  - cbn [criterion_of] in Hstable. rewrite (Hstable (KFloat 100%float)). reflexivity.
Defined.

(** C5 fails as stated: a share of volume that is NaN answers false to
    every comparison, and [list.sort] then lets listings of one key change
    places.  Sorted by share of volume, ascending, the rows A to H of
    shares 9, 9, 9, 9, NaN, 2, 3, 2 come out as H, A, B, C, D, E, F, G: the
    first seven are taken for one run, and H is inserted by bisection,
    which meets only the rows of share 9.  Of the two rows of share 2, F
    stood before H and stands after it. *)
Lemma sort_exchanges_stable_counterexample :
  exists l',
    sort_exchanges (Some VOLUME_PERCENTAGE) false Sample.shares = inr l' /\
    map ExchangeData.exchange l' = ["H"; "A"; "B"; "C"; "D"; "E"; "F"; "G"] /\
    map ExchangeData.exchange
      (List.filter (has_key VOLUME_PERCENTAGE (KFloat 2%float)) Sample.shares) = ["F"; "H"] /\
    map ExchangeData.exchange
      (List.filter (has_key VOLUME_PERCENTAGE (KFloat 2%float)) l') = ["H"; "F"] /\
    ~ (forall k,
         List.filter (has_key VOLUME_PERCENTAGE k) l' =
         List.filter (has_key VOLUME_PERCENTAGE k) Sample.shares).
Proof.
  eexists. split; [vm_compute; reflexivity|].
  split; [reflexivity|]. split; [vm_compute; reflexivity|].
  split; [vm_compute; reflexivity|].
  intros Hall. specialize (Hall (KFloat 2%float)).
  vm_compute in Hall. discriminate Hall.
Qed.

Lemma sort_and_rank_idempotent_witness :
  exists l1,
    sort_and_rank (Some PRICE) true Sample.rows = inr l1 /\
    sort_and_rank (Some PRICE) true l1 = inr l1 /\
    map (fun x => (ExchangeData.id x, ExchangeData.exchange x)) l1
    = [(1, "B"); (2, "A"); (3, "C")].
Proof.
  destruct (sort_and_rank_idempotent (Some PRICE) true Sample.rows
              ltac:(discriminate) (sample_rows_sortable PRICE))
    as (l1 & Hrun & Hagain).
  exists l1. split; [exact Hrun|]. split; [exact Hagain|].
  vm_compute in Hrun. injection Hrun as <-. reflexivity.
Defined.

(** C6 fails as stated: by [id], descending, the step reverses the rows
    and renumbers them, so that a second application reverses them again
    and the order after two applications is not the order after one. *)
Lemma sort_and_rank_idempotent_counterexample :
  exists l1 l2,
    sort_and_rank (Some ID) true Sample.rows = inr l1 /\
    sort_and_rank (Some ID) true l1 = inr l2 /\
    map (fun x => (ExchangeData.id x, ExchangeData.exchange x)) l1
    = [(1, "C"); (2, "B"); (3, "A")] /\
    map (fun x => (ExchangeData.id x, ExchangeData.exchange x)) l2
    = [(1, "A"); (2, "B"); (3, "C")] /\
    l2 <> l1.
Proof.
  eexists. eexists. split; [vm_compute; reflexivity|].
  split; [vm_compute; reflexivity|].
  split; [reflexivity|]. split; [reflexivity|]. discriminate.
Qed.

(** ** The request handler and its caches *)

Lemma redis_get_run (env : Env) (key : string) (w : World) :
  redis_get env key w =
  (if redis_down env (clock w) then Raise RedisError
   else Return (snd <$> redis_client w !! key),
   after_call (RedisGet key) w).
Proof.
  cbv beta iota zeta delta [redis_get bind external_call raise].
  now destruct (redis_down env (clock w)).
Qed.

Lemma cache_best_effort_run (env : Env) (key : string) (result : ExchangeResponse)
  (w : World) :
  cache_best_effort env key result w = (Return tt, after_cache_write env key result w).
Proof.
  unfold after_cache_write.
  cbv beta iota zeta delta
    [cache_best_effort try_except bind dumps redis_setex external_call ret raise].
  destruct (json_dumps env result) as [payload|]; [|reflexivity].
  now destruct (redis_down env (clock w)).
Qed.

Lemma get_ltc_exchanges_run (env : Env) (sort_by : option SortCriterion)
  (descending : bool) (w : World) :
  redis_down env (clock w) = false ->
  redis_down env (S (clock w)) = false ->
  let key := sort_cache_key sort_by descending in
  let w2 := after_reads sort_by descending w in
  let finish exchanges w' :=
    match sort_and_rank sort_by descending exchanges with
    | inr ranked => (Return (success ranked), after_cache_write env key (success ranked) w')
    | inl _ => (Raise (HTTPException 500), w')
    end in
  get_ltc_exchanges env sort_by descending w =
  match cached key w with
  | Some payload =>
      (match json_loads env payload with
       | Some r => Return r
       | None => Raise (HTTPException 500)
       end, w2)
  | None =>
      match cached base_cache_key w with
      | Some payload =>
          match json_loads env payload with
          | Some r => finish (data r) w2
          | None => (Raise (HTTPException 500), w2)
          end
      | None =>
          match fetch_exchange_data_from_api env w2 with
          | (Return exchanges, w3) =>
              finish exchanges (after_cache_write env base_cache_key (success exchanges) w3)
          | (Raise _, w3) => (Raise (HTTPException 500), w3)
          end
      end
  end.
Proof.
  intros Hup1 Hup2. cbv zeta. unfold get_ltc_exchanges, cached, after_reads, success.
  cbv beta iota zeta delta [try_except bind].
  rewrite redis_get_run, Hup1, redis_get_run.
  change (clock (after_call (RedisGet base_cache_key) w)) with (S (clock w)).
  rewrite Hup2.
  change (redis_client (after_call (RedisGet base_cache_key) w)) with (redis_client w).
  destruct (cache_hit (snd <$> redis_client w !! sort_cache_key sort_by descending))
    as [payload|].
  - unfold loads. now destruct (json_loads env payload).
  - destruct (cache_hit (snd <$> redis_client w !! base_cache_key)) as [payload|].
    + unfold loads. destruct (json_loads env payload) as [r|]; [|reflexivity].
      cbv beta iota zeta delta [ret lift_float].
      destruct (sort_and_rank sort_by descending (data r)) as [e|ranked]; [reflexivity|].
      now rewrite cache_best_effort_run.
    + destruct (fetch_exchange_data_from_api env _) as [[exchanges|e] w3]; [|reflexivity].
      rewrite cache_best_effort_run. cbv beta iota zeta delta [ret lift_float].
      destruct (sort_and_rank sort_by descending exchanges) as [e|ranked]; [reflexivity|].
      now rewrite cache_best_effort_run.
Qed.

Lemma after_cache_write_log (env : Env) (key : string) (result : ExchangeResponse)
  (w : World) :
  log (after_cache_write env key result w) =
  (log w ++ match json_dumps env result with
            | Some payload => [RedisSetex key CACHE_TTL payload]
            | None => []
            end)%list.
Proof.
  unfold after_cache_write. destruct (json_dumps env result) as [payload|].
  - now destruct (redis_down env (clock w)).
  - now rewrite app_nil_r.
Qed.

Lemma after_cache_write_stored (env : Env) (key : string) (result : ExchangeResponse)
  (w : World) (payload : string) :
  json_dumps env result = Some payload ->
  redis_down env (clock w) = false ->
  redis_client (after_cache_write env key result w) !! key = Some (CACHE_TTL, payload).
Proof.
  intros Hdumps Hup. unfold after_cache_write. rewrite Hdumps, Hup. simpl.
  apply lookup_insert_eq.
Qed.

(** C1: when both cache lookups are answered, the request is decided by
    the sorted cache first, the base cache second and the live fetch last.
    A payload under the sorted key is decoded and returned as it is: the
    only external calls are the two lookups, nothing is sorted, ranked or
    written.  Without one, a payload under the base key is decoded in
    place of a fetch; without that either, the listings are fetched and
    merged (and written to the base cache, best effort).  In both of these
    cases the listings in hand are sorted, their IDs reassigned, and the
    result is written under the sorted key, best effort, and returned. *)
Theorem cache_priority (env : Env) (sort_by : option SortCriterion)
  (descending : bool) (w : World) :
  redis_down env (clock w) = false ->
  redis_down env (S (clock w)) = false ->
  (forall payload,
      cached (sort_cache_key sort_by descending) w = Some payload ->
      get_ltc_exchanges env sort_by descending w =
      (match json_loads env payload with
       | Some r => Return r
       | None => Raise (HTTPException 500)
       end,
       after_reads sort_by descending w)) /\
  (forall payload r ranked,
      cached (sort_cache_key sort_by descending) w = None ->
      cached base_cache_key w = Some payload ->
      json_loads env payload = Some r ->
      sort_and_rank sort_by descending (data r) = inr ranked ->
      get_ltc_exchanges env sort_by descending w =
      (Return (success ranked),
       after_cache_write env (sort_cache_key sort_by descending) (success ranked)
         (after_reads sort_by descending w))) /\
  (forall exchanges w3 ranked,
      cached (sort_cache_key sort_by descending) w = None ->
      cached base_cache_key w = None ->
      fetch_exchange_data_from_api env (after_reads sort_by descending w)
        = (Return exchanges, w3) ->
      sort_and_rank sort_by descending exchanges = inr ranked ->
      get_ltc_exchanges env sort_by descending w =
      (Return (success ranked),
       after_cache_write env (sort_cache_key sort_by descending) (success ranked)
         (after_cache_write env base_cache_key (success exchanges) w3))) /\
  log (after_reads sort_by descending w) =
    (log w ++ [RedisGet base_cache_key; RedisGet (sort_cache_key sort_by descending)])%list /\
  (forall key result w',
      log (after_cache_write env key result w') =
      (log w' ++ match json_dumps env result with
                 | Some payload => [RedisSetex key CACHE_TTL payload]
                 | None => []
                 end)%list) /\
  (forall key result w' payload,
      json_dumps env result = Some payload ->
      redis_down env (clock w') = false ->
      redis_client (after_cache_write env key result w') !! key
      = Some (CACHE_TTL, payload)).
Proof.
  intros Hup1 Hup2.
  pose proof (get_ltc_exchanges_run env sort_by descending w Hup1 Hup2) as Hrun.
  cbv zeta in Hrun.
  split; [|split; [|split; [|split; [|split]]]].
  - intros payload Hsorted. now rewrite Hrun, Hsorted.
  - intros payload r ranked Hsorted Hbase Hloads Hrank.
    now rewrite Hrun, Hsorted, Hbase, Hloads, Hrank.
  - intros exchanges w3 ranked Hsorted Hbase Hfetch Hrank.
    now rewrite Hrun, Hsorted, Hbase, Hfetch, Hrank.
  - unfold after_reads, after_call. simpl. now rewrite <- app_assoc.
  - apply after_cache_write_log.
  - apply after_cache_write_stored.
Qed.

(** C3, as amended: a cache write never fails the request: whether
    serialisation raises or Redis refuses the command, [cache_best_effort]
    returns, and the response is the freshly sorted and ranked data.  A
    cache read that fails is not a miss: when Redis refuses the first
    lookup, or the second, the handler raises the 500 [HTTPException]
    there and then, without going to the next tier. *)
Theorem cache_failures (env : Env) (sort_by : option SortCriterion)
  (descending : bool) (w : World) :
  (forall key result w',
      exists w'',
        cache_best_effort env key result w' = (Return tt, w'') /\
        custom_exchanges w'' = custom_exchanges w') /\
  (redis_down env (clock w) = false ->
   redis_down env (S (clock w)) = false ->
   cached (sort_cache_key sort_by descending) w = None ->
   (forall payload r ranked,
       cached base_cache_key w = Some payload ->
       json_loads env payload = Some r ->
       sort_and_rank sort_by descending (data r) = inr ranked ->
       fst (get_ltc_exchanges env sort_by descending w) = Return (success ranked)) /\
   (forall exchanges w3 ranked,
       cached base_cache_key w = None ->
       fetch_exchange_data_from_api env (after_reads sort_by descending w)
         = (Return exchanges, w3) ->
       sort_and_rank sort_by descending exchanges = inr ranked ->
       fst (get_ltc_exchanges env sort_by descending w) = Return (success ranked))) /\
  (redis_down env (clock w) = true ->
   get_ltc_exchanges env sort_by descending w =
   (Raise (HTTPException 500), after_call (RedisGet base_cache_key) w)) /\
  (redis_down env (clock w) = false ->
   redis_down env (S (clock w)) = true ->
   get_ltc_exchanges env sort_by descending w =
   (Raise (HTTPException 500), after_reads sort_by descending w)).
Proof.
  split; [|split; [|split]].
  - intros key result w'. rewrite cache_best_effort_run. eexists. split; [reflexivity|].
    unfold after_cache_write. destruct (json_dumps env result); [|reflexivity].
    now destruct (redis_down env (clock w')).
  - intros Hup1 Hup2 Hsorted.
    pose proof (get_ltc_exchanges_run env sort_by descending w Hup1 Hup2) as Hrun.
    cbv zeta in Hrun. rewrite Hsorted in Hrun. split.
    + intros payload r ranked Hbase Hloads Hrank.
      now rewrite Hrun, Hbase, Hloads, Hrank.
    + intros exchanges w3 ranked Hbase Hfetch Hrank.
      now rewrite Hrun, Hbase, Hfetch, Hrank.
  - intros Hdown. unfold get_ltc_exchanges.
    cbv beta iota zeta delta [try_except bind].
    now rewrite redis_get_run, Hdown.
  - intros Hup Hdown. unfold get_ltc_exchanges, after_reads.
    cbv beta iota zeta delta [try_except bind].
    rewrite redis_get_run, Hup, redis_get_run.
    change (clock (after_call (RedisGet base_cache_key) w)) with (S (clock w)).
    now rewrite Hdown.
Qed.

Lemma cache_priority_witness :
  get_ltc_exchanges Sample.env_up (Some VOLUME) false Sample.world_sorted_cached
  = (Return Sample.cached_response,
     after_reads (Some VOLUME) false Sample.world_sorted_cached) /\
  (exists w',
      get_ltc_exchanges Sample.env_up None true Sample.world_base_cached
      = (Return Sample.cached_response, w') /\
      log w' = [RedisGet base_cache_key; RedisGet (sort_cache_key None true);
                RedisSetex (sort_cache_key None true) CACHE_TTL "MyEx;Pct"]) /\
  (exists r w',
      get_ltc_exchanges Sample.env_up None true Sample.world = (Return r, w') /\
      map (fun x => (ExchangeData.id x, ExchangeData.exchange x)) (data r)
      = [(1, "HitBTC"); (2, "MyEx"); (3, "Aa"); (4, "Cc"); (5, "Pct")] /\
      log w' = [RedisGet base_cache_key; RedisGet (sort_cache_key None true);
                HttpGet CoinGeckoExchanges; HttpGet CoinGeckoTickers;
                HttpGet BinanceTickerPrice;
                RedisSetex base_cache_key CACHE_TTL "Aa;HitBTC;Cc;MyEx;Pct";
                RedisSetex (sort_cache_key None true) CACHE_TTL "HitBTC;MyEx;Aa;Cc;Pct"]).
Proof.
  split; [|split].
  - destruct (cache_priority Sample.env_up (Some VOLUME) false Sample.world_sorted_cached
                eq_refl eq_refl) as (Hsorted & _).
    now rewrite (Hsorted "MyEx;Pct" ltac:(vm_compute; reflexivity)).
  - destruct (cache_priority Sample.env_up None true Sample.world_base_cached
                eq_refl eq_refl) as (_ & Hbase & _).
    eexists. split.
    + rewrite (Hbase "MyEx;Pct" Sample.cached_response (data Sample.cached_response)
                 ltac:(vm_compute; reflexivity) ltac:(vm_compute; reflexivity)
                 eq_refl ltac:(vm_compute; reflexivity)).
      reflexivity.
    + vm_compute. reflexivity.
  - destruct (cache_priority Sample.env_up None true Sample.world eq_refl eq_refl)
      as (_ & _ & Hfetch & _).
    eexists. eexists. split.
    + eapply Hfetch; [vm_compute; reflexivity | vm_compute; reflexivity
                     | vm_compute; reflexivity | vm_compute; reflexivity].
    + split; vm_compute; reflexivity.
Defined.

Lemma cache_failures_witness :
  (exists r,
      fst (get_ltc_exchanges Sample.env_no_write None true Sample.world) = Return r /\
      map ExchangeData.exchange (data r) = ["HitBTC"; "MyEx"; "Aa"; "Cc"; "Pct"]) /\
  redis_client (snd (get_ltc_exchanges Sample.env_no_write None true Sample.world)) = ∅ /\
  get_ltc_exchanges Sample.env_redis_down None true Sample.world
  = (Raise (HTTPException 500), after_call (RedisGet base_cache_key) Sample.world).
Proof.
  destruct (cache_failures Sample.env_no_write None true Sample.world)
    as (_ & Hwrite & _).
  destruct (Hwrite eq_refl eq_refl ltac:(vm_compute; reflexivity)) as (_ & Hmiss).
  destruct (cache_failures Sample.env_redis_down None true Sample.world)
    as (_ & _ & Hread & _).
  split; [|split].
  - eexists. split.
    + eapply Hmiss; [vm_compute; reflexivity | vm_compute; reflexivity
                    | vm_compute; reflexivity].
    + reflexivity.
  - vm_compute. reflexivity.
  - apply Hread. reflexivity.
Defined.

(** C3 fails as stated: with Redis refusing its commands the request ends
    in the 500 [HTTPException] after the first lookup, and no fetch is
    made; the same request with Redis answering and nothing cached, a
    miss, is served from a fetch. *)
Lemma cache_failures_counterexample :
  get_ltc_exchanges Sample.env_redis_down None true Sample.world
  = (Raise (HTTPException 500), after_call (RedisGet base_cache_key) Sample.world) /\
  log (after_call (RedisGet base_cache_key) Sample.world) = [RedisGet base_cache_key] /\
  exists r w',
    get_ltc_exchanges Sample.env_up None true Sample.world = (Return r, w') /\
    In (HttpGet CoinGeckoTickers) (log w').
Proof.
  split; [vm_compute; reflexivity|]. split; [reflexivity|].
  eexists. eexists. split; [vm_compute; reflexivity|].
  simpl. tauto.
Qed.

(** ** The invariant of the store *)

Lemma keeps_bind {A B} (P : World -> Prop) (m : M A) (k : A -> M B) :
  keeps P m -> (forall a, keeps P (k a)) -> keeps P (bind m k).
Proof. intros Hm Hk. now apply (triple_bind P m k (fun _ => P)). Qed.

Lemma keeps_try_except {A} (P : World -> Prop) (m : M A) (h : exn -> M A) :
  keeps P m -> (forall e, keeps P (h e)) -> keeps P (try_except m h).
Proof.
  intros Hm Hh w HP. unfold try_except. specialize (Hm w HP).
  destruct (m w) as [[a|e] w']; [assumption|]. now apply Hh.
Qed.

Lemma keeps_pure {A} (P : World -> Prop) (m : M A) :
  (forall w, snd (m w) = w) -> keeps P m.
Proof.
  intros H w HP. specialize (H w). destruct (m w) as [[a|e] w']; simpl in H; now subst.
Qed.

Lemma keeps_external_call (S : Dict.t ExchangeData.t -> Prop) (ev : Event) :
  keeps (on_store S) (external_call ev).
Proof. intros w HP. exact HP. Qed.

Lemma keeps_requests_get {A} (S : Dict.t ExchangeData.t -> Prop) (e : Endpoint)
  (answer : nat -> HttpReply A) :
  keeps (on_store S) (requests_get e answer).
Proof.
  apply keeps_bind; [apply keeps_external_call|].
  intros n. destruct (answer n); now apply keeps_pure.
Qed.

Lemma keeps_redis_get (env : Env) (S : Dict.t ExchangeData.t -> Prop) (key : string) :
  keeps (on_store S) (redis_get env key).
Proof.
  apply keeps_bind; [apply keeps_external_call|].
  intros n. destruct (redis_down env n); now apply keeps_pure.
Qed.

Lemma keeps_cache_best_effort (env : Env) (S : Dict.t ExchangeData.t -> Prop)
  (key : string) (result : ExchangeResponse) :
  keeps (on_store S) (cache_best_effort env key result).
Proof.
  intros w HP. rewrite cache_best_effort_run. unfold on_store, after_cache_write in *.
  destruct (json_dumps env result); [|assumption].
  now destruct (redis_down env (clock w)).
Qed.

Lemma keeps_gateway (env : Env) (S : Dict.t ExchangeData.t -> Prop) :
  keeps (on_store S) (get_binance_ltc_price env).
Proof. intros w HP. rewrite get_binance_ltc_price_run. exact HP. Qed.

Lemma keeps_lift_float {A} (P : World -> Prop) (r : PyFloat.float_error + A) :
  keeps P (lift_float r).
Proof. apply keeps_pure. now destruct r. Qed.

Lemma keeps_format_money (P : World -> Prop) (x : float) : keeps P (format_money x).
Proof.
  apply keeps_bind; [apply keeps_lift_float|]. intros n. now apply keeps_pure.
Qed.

Lemma keeps_assign (k : string) (f : ExchangeData.t -> ExchangeData.t) :
  keeps (on_store Dict.wf) (assign k f).
Proof.
  intros w HP. unfold assign, bind, get_custom_exchanges_dict.
  destruct (Dict.get k (custom_exchanges w)); simpl; [|assumption].
  now apply DictFacts.wf_set.
Qed.

Lemma keeps_when_given {A} (P : World -> Prop) (v : option A) (body : A -> M unit) :
  (forall a, keeps P (body a)) -> keeps P (when_given v body).
Proof. intros H. destruct v; simpl; [apply H | now apply keeps_pure]. Qed.

Lemma keeps_custom_rows (env : Env) (S : Dict.t ExchangeData.t -> Prop)
  (customs : list ExchangeData.t) :
  keeps (on_store S) (custom_rows env customs).
Proof.
  induction customs as [|c customs IH]; simpl; [now apply keeps_pure|].
  apply keeps_bind.
  - unfold merged_price. destruct (ExchangeData.price_percent c); [|now apply keeps_pure].
    apply keeps_bind; [apply keeps_gateway|].
    intros r. destruct (PyFloat.lt 0 r); now apply keeps_pure.
  - intros s. apply keeps_bind; [exact IH|]. intros rows. now apply keeps_pure.
Qed.

Lemma keeps_fetch (env : Env) (S : Dict.t ExchangeData.t -> Prop) :
  keeps (on_store S) (fetch_exchange_data_from_api env).
Proof.
  unfold fetch_exchange_data_from_api.
  apply keeps_bind; [apply keeps_requests_get|]. intros [code body].
  apply keeps_bind.
  { destruct (code =? 200); [destruct body|]; now apply keeps_pure. }
  intros exchanges_data.
  apply keeps_bind; [apply keeps_requests_get|]. intros [code' body'].
  destruct (negb (code' =? 200)); [now apply keeps_pure|].
  apply keeps_bind; [destruct body'; now apply keeps_pure|]. intros tickers.
  apply keeps_bind; [apply keeps_lift_float|]. intros exchanges.
  apply keeps_bind; [now apply keeps_pure|]. intros d.
  apply keeps_bind; [apply keeps_custom_rows|]. intros customs.
  now apply keeps_pure.
Qed.

(** Every handler keeps the keys of the store unique, and the listing
    request does not change the store at all. *)
Lemma store_wf_preserved (env : Env) :
  (forall exchange_data, keeps (on_store Dict.wf) (add_custom_exchange env exchange_data)) /\
  (forall exchange_name, keeps (on_store Dict.wf) (delete_custom_exchange exchange_name)) /\
  (forall exchange_name exchange_data,
      keeps (on_store Dict.wf) (update_custom_exchange env exchange_name exchange_data)) /\
  (forall sort_by descending d,
      keeps (on_store (eq d)) (get_ltc_exchanges env sort_by descending)).
Proof.
  split; [|split; [|split]].
  - intros exchange_data. unfold add_custom_exchange.
    apply keeps_bind.
    { destruct (CustomExchangeInput.price_percent exchange_data); [|now apply keeps_pure].
      apply keeps_bind; [apply keeps_gateway|].
      intros r. destruct (PyFloat.lt 0 r); now apply keeps_pure. }
    intros price. repeat (apply keeps_bind; [apply keeps_format_money|]; intros ?).
    intros w HP. simpl. now apply DictFacts.wf_set.
  - intros exchange_name w HP. unfold delete_custom_exchange, bind, get_custom_exchanges_dict.
    destruct (Dict.mem _ _); simpl; [now apply DictFacts.wf_del | assumption].
  - intros exchange_name exchange_data. unfold update_custom_exchange.
    apply keeps_bind; [now apply keeps_pure|]. intros d.
    destruct (negb (Dict.mem _ d)); [now apply keeps_pure|].
    repeat (apply keeps_bind;
            [first [ apply keeps_assign
                   | apply keeps_when_given; intros ?;
                     first [ apply keeps_assign
                           | apply keeps_bind;
                             [first [apply keeps_format_money | apply keeps_assign]
                             |intros ?; apply keeps_assign] ]
                   | idtac ]
            |intros ?]).
    all: try (now apply keeps_pure).
    destruct (CustomExchangeUpdateInput.price_percent exchange_data).
    + apply keeps_bind; [apply keeps_assign|]. intros _.
      apply keeps_bind; [apply keeps_gateway|]. intros r.
      destruct (PyFloat.lt 0 r); [apply keeps_assign | now apply keeps_pure].
    + apply keeps_when_given. intros v.
      apply keeps_bind; [apply keeps_assign|]. intros _. apply keeps_assign.
  - intros sort_by descending d. unfold get_ltc_exchanges.
    apply keeps_try_except; [|intros e; now apply keeps_pure].
    apply keeps_bind; [apply keeps_redis_get|]. intros base.
    apply keeps_bind; [apply keeps_redis_get|]. intros sorted.
    destruct (cache_hit sorted).
    { unfold loads. destruct (json_loads env s); now apply keeps_pure. }
    apply keeps_bind.
    { destruct (cache_hit base).
      - apply keeps_bind; [|intros r; now apply keeps_pure].
        unfold loads. destruct (json_loads env s); now apply keeps_pure.
      - apply keeps_bind; [apply keeps_fetch|]. intros exchanges.
        apply keeps_bind; [apply keeps_cache_best_effort|]. intros _.
        now apply keeps_pure. }
    intros exchanges. apply keeps_bind; [apply keeps_lift_float|]. intros ranked.
    apply keeps_bind; [apply keeps_cache_best_effort|]. intros _. now apply keeps_pure.
Qed.

(** ** The snapshot and the merge *)

(** When both provider requests succeed, the fetch returns the rows of the
    USDT tickers followed by the rows of the custom exchanges, numbered
    from 1 in that order. *)
Lemma fetch_exchange_data_from_api_merges (env : Env) (w : World)
  (exchanges_data : list ExchangeInfo.t) (tickers : list Ticker.t)
  (rows : list ExchangeData.t) :
  coingecko_exchanges env (clock w) = Reply 200 (Some exchanges_data) ->
  coingecko_tickers env (S (clock w)) = Reply 200 (Some tickers) ->
  ticker_rows (icon_mapping exchanges_data) (url_mapping exchanges_data) tickers = inr rows ->
  exists customs w',
    custom_rows env (Dict.values (custom_exchanges w))
      (after_calls [HttpGet CoinGeckoExchanges; HttpGet CoinGeckoTickers] w)
    = (Return customs, w') /\
    fetch_exchange_data_from_api env w = (Return (assign_ids 1 (rows ++ customs)), w').
Proof.
  intros Hex Htick Hrows.
  destruct (custom_rows env (Dict.values (custom_exchanges w))
              (after_calls [HttpGet CoinGeckoExchanges; HttpGet CoinGeckoTickers] w))
    as [[customs|e] w'] eqn:Hcustom.
  - exists customs, w'. split; [reflexivity|].
    unfold fetch_exchange_data_from_api.
    cbv beta iota zeta delta
      [bind requests_get external_call ret raise lift_float get_custom_exchanges_dict].
    rewrite Hex, Z.eqb_refl. cbv beta iota.
    change (clock (after_call (HttpGet CoinGeckoExchanges) w)) with (S (clock w)).
    rewrite Htick, Z.eqb_refl. cbv beta iota delta [negb]. rewrite Hrows.
    cbv beta iota.
    change (custom_exchanges
              (after_call (HttpGet CoinGeckoTickers)
                 (after_call (HttpGet CoinGeckoExchanges) w)))
      with (custom_exchanges w).
    unfold after_calls in Hcustom. simpl in Hcustom. now rewrite Hcustom.
  - exfalso.
    destruct (custom_rows_total env (Dict.values (custom_exchanges w))
                (after_calls [HttpGet CoinGeckoExchanges; HttpGet CoinGeckoTickers] w))
      as [rows' Hrun].
    rewrite Hcustom in Hrun. discriminate.
Qed.

(** * Further properties *)

Module DictMore.
Section DictMore.
Context {V : Type}.
Implicit Types (d : Dict.t V) (k : string) (v : V).

Lemma set_same k v d : Dict.get k d = Some v -> Dict.set k v d = d.
Proof.
  induction d as [|[k' v'] d IH]; simpl; [discriminate|].
  destruct (String.eqb k k') eqn:E.
  - now intros [= ->].
  - intros H. now rewrite IH.
Qed.

Lemma del_set_absent k v d : Dict.get k d = None -> Dict.del k (Dict.set k v d) = d.
Proof.
  induction d as [|[k' v'] d IH]; simpl.
  - now rewrite String.eqb_refl.
  - destruct (String.eqb k k') eqn:E; [discriminate|].
    intros H. simpl. rewrite E. now rewrite IH.
Qed.

Lemma Forall_set (P : string * V -> Prop) k v d :
  P (k, v) -> Forall P d -> Forall P (Dict.set k v d).
Proof.
  intros Hkv. induction 1 as [|[k' v'] d Hx Hd IH]; simpl.
  - now repeat constructor.
  - destruct (String.eqb k k') eqn:E.
    + apply String.eqb_eq in E. subst k'. now constructor.
    + now constructor.
Qed.

Lemma Forall_del (P : string * V -> Prop) k d :
  Forall P d -> Forall P (Dict.del k d).
Proof.
  induction 1 as [|[k' v'] d Hx Hd IH]; simpl; [constructor|].
  destruct (String.eqb k k'); [assumption | now constructor].
Qed.

Lemma get_Forall (P : string * V -> Prop) k v d :
  Forall P d -> Dict.get k d = Some v -> P (k, v).
Proof.
  induction 1 as [|[k' v'] d Hx Hd IH]; simpl; [discriminate|].
  destruct (String.eqb k k') eqn:E.
  - apply String.eqb_eq in E. subst k'. now intros [= <-].
  - exact IH.
Qed.

Lemma get_values k v d : Dict.get k d = Some v -> In v (Dict.values d).
Proof.
  induction d as [|[k' v'] d IH]; simpl; [discriminate|].
  destruct (String.eqb k k'); [intros [= ->]; now left | right; auto].
Qed.

Lemma values_get v d : In v (Dict.values d) -> exists k, In (k, v) d.
Proof.
  unfold Dict.values. rewrite in_map_iff. intros ([k v'] & <- & Hin). now exists k.
Qed.

Lemma In_get k v d : In (k, v) d -> Dict.get k d <> None.
Proof.
  induction d as [|[k' v'] d IH]; simpl; [tauto|].
  intros [[= -> ->]|Hin].
  - now rewrite String.eqb_refl.
  - destruct (String.eqb k k'); [discriminate | auto].
Qed.
End DictMore.
End DictMore.

(** ** POST, PATCH and DELETE: what they store *)

Lemma store_after_calls (evs : list Event) (w : World) :
  custom_exchanges (after_calls evs w) = custom_exchanges w /\
  redis_client (after_calls evs w) = redis_client w.
Proof.
  revert w. induction evs as [|ev evs IH]; intros w; simpl; [easy|].
  destruct (IH (after_call ev w)) as [-> ->]. easy.
Qed.

(** What a POST does, case by case. *)
Lemma add_custom_exchange_run (env : Env) (exchange_data : CustomExchangeInput.t)
  (w : World) :
  let w1 := after_calls (add_calls exchange_data) w in
  add_custom_exchange env exchange_data w =
  match PyFloat.floor (CustomExchangeInput.plusTwoPercentDepth exchange_data) with
  | inl e => (Raise (FloatError e), w1)
  | inr plus =>
  match PyFloat.floor (CustomExchangeInput.minusTwoPercentDepth exchange_data) with
  | inl e => (Raise (FloatError e), w1)
  | inr minus =>
  match PyFloat.floor (CustomExchangeInput.volume24h exchange_data) with
  | inl e => (Raise (FloatError e), w1)
  | inr volume =>
      (Return tt,
       with_store
         (Dict.set (PyStr.lower (CustomExchangeInput.exchange exchange_data))
            (ExchangeData.Build 0
               (CustomExchangeInput.exchange exchange_data)
               (CustomExchangeInput.pair exchange_data)
               (added_price exchange_data (binance_price_at env (clock w)))
               (CustomExchangeInput.price_percent exchange_data)
               ("$" ++ PyStr.format_int_comma plus)
               ("$" ++ PyStr.format_int_comma minus)
               ("$" ++ PyStr.format_int_comma volume)
               (format_percentage (CustomExchangeInput.volumePercentage exchange_data))
               "Recently"
               (CustomExchangeInput.icon exchange_data)
               (CustomExchangeInput.url exchange_data))
            (custom_exchanges w))
         w1)
  end end end.
Proof.
  intros w1. subst w1.
  unfold add_custom_exchange, added_price, add_calls, bind.
  destruct (CustomExchangeInput.price_percent exchange_data) as [p|].
  - rewrite get_binance_ltc_price_run.
    set (r := binance_price_at env (clock w)).
    unfold format_money, bind, lift_float.
    destruct (PyFloat.lt 0 r); simpl;
      destruct (PyFloat.floor (CustomExchangeInput.plusTwoPercentDepth exchange_data));
      simpl; try reflexivity;
      destruct (PyFloat.floor (CustomExchangeInput.minusTwoPercentDepth exchange_data));
      simpl; try reflexivity;
      destruct (PyFloat.floor (CustomExchangeInput.volume24h exchange_data));
      simpl; reflexivity.
  - unfold format_money, bind, lift_float. simpl.
    destruct (PyFloat.floor (CustomExchangeInput.plusTwoPercentDepth exchange_data));
      simpl; try reflexivity;
      destruct (PyFloat.floor (CustomExchangeInput.minusTwoPercentDepth exchange_data));
      simpl; try reflexivity;
      destruct (PyFloat.floor (CustomExchangeInput.volume24h exchange_data));
      simpl; reflexivity.
Qed.

(** X1: a POST whose three amounts are finite stores the exchange under
    its lower-cased name: a lookup of that key gives the new entry with
    the name, pair, percentage, icon and url of the request; every other
    key keeps its entry; an existing key keeps its place and a new one
    goes last; the cache is not touched. *)
Theorem add_custom_exchange_upsert
  (env : Env) (exchange_data : CustomExchangeInput.t) (w : World)
  (plus minus volume : Z) :
  PyFloat.floor (CustomExchangeInput.plusTwoPercentDepth exchange_data) = inr plus ->
  PyFloat.floor (CustomExchangeInput.minusTwoPercentDepth exchange_data) = inr minus ->
  PyFloat.floor (CustomExchangeInput.volume24h exchange_data) = inr volume ->
  let k := PyStr.lower (CustomExchangeInput.exchange exchange_data) in
  exists entry w',
    add_custom_exchange env exchange_data w = (Return tt, w') /\
    Dict.get k (custom_exchanges w') = Some entry /\
    ExchangeData.exchange entry = CustomExchangeInput.exchange exchange_data /\
    ExchangeData.pair entry = CustomExchangeInput.pair exchange_data /\
    ExchangeData.price_percent entry = CustomExchangeInput.price_percent exchange_data /\
    ExchangeData.price entry = added_price exchange_data (binance_price_at env (clock w)) /\
    ExchangeData.plusTwoPercentDepth entry = "$" ++ PyStr.format_int_comma plus /\
    ExchangeData.minusTwoPercentDepth entry = "$" ++ PyStr.format_int_comma minus /\
    ExchangeData.volume24h entry = "$" ++ PyStr.format_int_comma volume /\
    ExchangeData.icon entry = CustomExchangeInput.icon exchange_data /\
    ExchangeData.url entry = CustomExchangeInput.url exchange_data /\
    (forall k', k' <> k ->
       Dict.get k' (custom_exchanges w') = Dict.get k' (custom_exchanges w)) /\
    Dict.keys (custom_exchanges w') =
      (if Dict.mem k (custom_exchanges w) then Dict.keys (custom_exchanges w)
       else (Dict.keys (custom_exchanges w) ++ [k])%list) /\
    redis_client w' = redis_client w.
Proof.
  intros Hplus Hminus Hvol k.
  pose proof (add_custom_exchange_run env exchange_data w) as Hrun.
  cbv zeta in Hrun. rewrite Hplus, Hminus, Hvol in Hrun.
  eexists. eexists. split; [exact Hrun|].
  cbn [custom_exchanges with_store redis_client].
  rewrite DictFacts.get_set_eq.
  split; [reflexivity|]. cbn.
  repeat (split; [reflexivity|]).
  split; [|split].
  - intros k' Hk'. apply DictFacts.get_set_ne. intros E. apply Hk'. now rewrite <- E.
  - unfold Dict.mem. fold k.
    destruct (Dict.get k (custom_exchanges w)) eqn:Hget.
    + apply DictFacts.keys_set_present. congruence.
    + now apply DictFacts.keys_set_absent.
  - apply store_after_calls.
Qed.

Lemma add_custom_exchange_upsert_witness :
  exists entry w',
    add_custom_exchange Sample.env_up
      (CustomExchangeInput.Build "MyEx" "LTC/EUR" None
         10.5%float 20.5%float 3000.7%float 0.5%float None None)
      Sample.world = (Return tt, w') /\
    Dict.get "myex" (custom_exchanges w') = Some entry /\
    ExchangeData.pair entry = "LTC/EUR" /\
    ExchangeData.price entry = "0.0000" /\
    ExchangeData.volume24h entry = "$3,000" /\
    Dict.get "pct" (custom_exchanges w') = Some Sample.driven /\
    Dict.keys (custom_exchanges w') = ["myex"; "pct"].
Proof.
  destruct (add_custom_exchange_upsert Sample.env_up
              (CustomExchangeInput.Build "MyEx" "LTC/EUR" None
                 10.5%float 20.5%float 3000.7%float 0.5%float None None)
              Sample.world 10 20 3000 eq_refl eq_refl eq_refl)
    as (entry & w' & Hrun & Hget & _ & Hpair & _ & Hprice & _ & _ & Hvol & _ & _
        & Hothers & Hkeys & _).
  exists entry, w'. repeat split; try assumption.
  now rewrite Hothers.
Defined.

(** X2: adding an exchange under a name that is not in the store and then
    deleting it, under any spelling of the name that lower-cases to the
    same key, gives back the store as it was. *)
Theorem add_then_delete
  (env : Env) (exchange_data : CustomExchangeInput.t) (exchange_name : string)
  (w : World) (plus minus volume : Z) :
  PyFloat.floor (CustomExchangeInput.plusTwoPercentDepth exchange_data) = inr plus ->
  PyFloat.floor (CustomExchangeInput.minusTwoPercentDepth exchange_data) = inr minus ->
  PyFloat.floor (CustomExchangeInput.volume24h exchange_data) = inr volume ->
  Dict.get (PyStr.lower (CustomExchangeInput.exchange exchange_data))
    (custom_exchanges w) = None ->
  PyStr.lower exchange_name = PyStr.lower (CustomExchangeInput.exchange exchange_data) ->
  exists w1 w2,
    add_custom_exchange env exchange_data w = (Return tt, w1) /\
    delete_custom_exchange exchange_name w1 = (Return tt, w2) /\
    custom_exchanges w2 = custom_exchanges w.
Proof.
  intros Hplus Hminus Hvol Hnew Hname.
  pose proof (add_custom_exchange_run env exchange_data w) as Hrun.
  cbv zeta in Hrun. rewrite Hplus, Hminus, Hvol in Hrun.
  eexists. eexists. split; [exact Hrun|].
  unfold delete_custom_exchange, bind, get_custom_exchanges_dict, Dict.mem,
    put_custom_exchanges.
  rewrite Hname. cbn [custom_exchanges with_store].
  rewrite DictFacts.get_set_eq. split; [reflexivity|].
  cbn [custom_exchanges with_store].
  now apply DictMore.del_set_absent.
Qed.

Lemma add_then_delete_witness :
  exists w1 w2,
    add_custom_exchange Sample.env_up
      (CustomExchangeInput.Build "Éx" "LTC/USDT" (Some 5%float)
         1234.9%float 99.5%float 1234567.2%float 0.456%float None None)
      Sample.world = (Return tt, w1) /\
    delete_custom_exchange "ÉX" w1 = (Return tt, w2) /\
    custom_exchanges w2 = Sample.store.
Proof.
  apply (add_then_delete Sample.env_up
           (CustomExchangeInput.Build "Éx" "LTC/USDT" (Some 5%float)
              1234.9%float 99.5%float 1234567.2%float 0.456%float None None)
           "ÉX" Sample.world 1234 99 1234567);
    vm_compute; reflexivity.
Defined.

(** X3: a POST one of whose three amounts is not finite raises, and the
    store and the cache are as they were: nothing is stored of a request
    that fails. *)
Theorem add_custom_exchange_atomic
  (env : Env) (exchange_data : CustomExchangeInput.t) (w : World) :
  (exists e, PyFloat.floor (CustomExchangeInput.plusTwoPercentDepth exchange_data) = inl e) \/
  (exists e, PyFloat.floor (CustomExchangeInput.minusTwoPercentDepth exchange_data) = inl e) \/
  (exists e, PyFloat.floor (CustomExchangeInput.volume24h exchange_data) = inl e) ->
  exists e w',
    add_custom_exchange env exchange_data w = (Raise (FloatError e), w') /\
    custom_exchanges w' = custom_exchanges w /\
    redis_client w' = redis_client w.
Proof.
  intros Hbad.
  pose proof (add_custom_exchange_run env exchange_data w) as Hrun.
  cbv zeta in Hrun.
  pose proof (store_after_calls (add_calls exchange_data) w) as [Hs Hr].
  destruct (PyFloat.floor (CustomExchangeInput.plusTwoPercentDepth exchange_data))
    as [e1|n1]; [now eauto|].
  destruct (PyFloat.floor (CustomExchangeInput.minusTwoPercentDepth exchange_data))
    as [e2|n2]; [now eauto|].
  destruct (PyFloat.floor (CustomExchangeInput.volume24h exchange_data))
    as [e3|n3]; [now eauto|].
  destruct Hbad as [[e H]|[[e H]|[e H]]]; discriminate.
Qed.

Lemma add_custom_exchange_atomic_witness :
  exists e w',
    add_custom_exchange Sample.env_up
      (CustomExchangeInput.Build "NewEx" "LTC/USDT" (Some 5%float)
         1234.9%float 99.5%float infinity 0.456%float None None)
      Sample.world = (Raise (FloatError e), w') /\
    custom_exchanges w' = Sample.store /\
    redis_client w' = redis_client Sample.world.
Proof.
  apply (add_custom_exchange_atomic Sample.env_up
           (CustomExchangeInput.Build "NewEx" "LTC/USDT" (Some 5%float)
              1234.9%float 99.5%float infinity 0.456%float None None)
           Sample.world).
  right. right. exists PyFloat.OverflowError. reflexivity.
Defined.

Section PatchSteps.
Variables (env : Env) (k : string) (d : Dict.t ExchangeData.t).

(** The world whose store is [d] with [x] under [k]. *)
Let W (x : ExchangeData.t) (wb : World) : World := with_store (Dict.set k x d) wb.

Lemma assign_at f x wb : assign k f (W x wb) = (Return tt, W (f x) wb).
Proof.
  unfold assign, bind, get_custom_exchanges_dict, W. cbn [custom_exchanges with_store].
  rewrite DictFacts.get_set_eq. unfold put_custom_exchanges, with_store. cbn.
  now rewrite DictFacts.set_set.
Qed.

Lemma given_at {A} (v : option A) f x wb :
  when_given v (fun a => assign k (f a)) (W x wb) = (Return tt, W (given v f x) wb).
Proof. destruct v as [a|]; simpl; [apply assign_at | reflexivity]. Qed.

Lemma amount_at v set x wb :
  when_given v (fun a => let! s := format_money a in assign k (set s)) (W x wb) =
  match amount v set x with
  | inl e => (Raise (FloatError e), W x wb)
  | inr x' => (Return tt, W x' wb)
  end.
Proof.
  destruct v as [a|]; simpl; [|reflexivity].
  unfold format_money, bind, lift_float.
  destruct (PyFloat.floor a) as [e|n]; simpl; [reflexivity|].
  apply assign_at.
Qed.

Lemma priced_at body x wb :
  match CustomExchangeUpdateInput.price_percent body with
  | Some p =>
      run! assign k (ExchangeData.set_price_percent (Some p)) in
      let! binance_price := get_binance_ltc_price env in
      if PyFloat.lt 0 binance_price
      then assign k (ExchangeData.set_price (format_price (adjusted_price binance_price p)))
      else ret tt
  | None =>
      when_given (CustomExchangeUpdateInput.price body)
        (fun v =>
           run! assign k (ExchangeData.set_price (format_price v)) in
           assign k (ExchangeData.set_price_percent None))
  end (W x wb) =
  (Return tt, W (priced body (binance_price_at env (clock wb)) x)
                (after_calls (patch_calls body) wb)).
Proof.
  unfold priced, patch_calls.
  destruct (CustomExchangeUpdateInput.price_percent body) as [p|].
  - unfold bind. rewrite assign_at, get_binance_ltc_price_run.
    change (after_call ?ev (W ?y wb)) with (W y (after_call ev wb)).
    change (clock (W _ wb)) with (clock wb).
    destruct (PyFloat.lt 0 (binance_price_at env (clock wb))).
    + apply assign_at.
    + reflexivity.
  - destruct (CustomExchangeUpdateInput.price body) as [v|]; simpl; [|reflexivity].
    unfold bind. rewrite assign_at. apply assign_at.
Qed.

End PatchSteps.

Lemma with_store_same (w : World) : with_store (custom_exchanges w) w = w.
Proof. now destruct w. Qed.

(** A PATCH of an entry that exists, as a function of the entry: the
    store ends with [patched] under the key, whether the PATCH returns
    or raises. *)
Lemma update_custom_exchange_patched
  (env : Env) (exchange_name : string) (body : CustomExchangeUpdateInput.t)
  (x0 : ExchangeData.t) (w : World) :
  Dict.get (PyStr.lower exchange_name) (custom_exchanges w) = Some x0 ->
  let r := patched body (binance_price_at env (clock w)) x0 in
  update_custom_exchange env exchange_name body w =
  (match snd r with
   | None => Return (Some (fst r))
   | Some e => Raise (FloatError e)
   end,
   with_store (Dict.set (PyStr.lower exchange_name) (fst r) (custom_exchanges w))
     (after_calls (patch_calls body) w)).
Proof.
  intros Hget r. subst r.
  set (k := PyStr.lower exchange_name) in *.
  set (d := custom_exchanges w) in *.
  unfold update_custom_exchange. fold k.
  unfold bind at 1. unfold get_custom_exchanges_dict at 1. fold d.
  unfold Dict.mem. rewrite Hget. cbn [negb].
  rewrite <- (with_store_same w) at 1. fold d.
  rewrite <- (DictMore.set_same k x0 d Hget) at 1.
  unfold patched.
  unfold bind at 1. rewrite given_at.
  unfold bind at 1. rewrite (priced_at env).
  set (x2 := priced body _ _).
  set (w1 := after_calls _ w).
  unfold bind at 1. rewrite amount_at.
  destruct (amount (CustomExchangeUpdateInput.plusTwoPercentDepth body) _ x2) as [e|x3];
    [reflexivity|].
  unfold bind at 1. rewrite amount_at.
  destruct (amount (CustomExchangeUpdateInput.minusTwoPercentDepth body) _ x3) as [e|x4];
    [reflexivity|].
  unfold bind at 1. rewrite amount_at.
  destruct (amount (CustomExchangeUpdateInput.volume24h body) _ x4) as [e|x5];
    [reflexivity|].
  unfold bind at 1. rewrite given_at.
  unfold bind at 1. rewrite given_at.
  unfold bind at 1. rewrite given_at.
  unfold bind at 1. rewrite assign_at.
  unfold bind, get_custom_exchanges_dict, ret. cbn [custom_exchanges with_store snd fst].
  now rewrite DictFacts.get_set_eq.
Qed.

Ltac patch_cases body x0 :=
  destruct body as [pair price pp plus minus vol vp icon url];
  destruct x0 as [id0 ex0 pair0 price0 pp0 plus0 minus0 vol0 vp0 lu0 icon0 url0];
  unfold patched, patched_fields, priced, amount, given, rendered, patched_price,
    patched_percent, amounts_ok, floors, refused in *;
  cbn [CustomExchangeUpdateInput.pair CustomExchangeUpdateInput.price
       CustomExchangeUpdateInput.price_percent
       CustomExchangeUpdateInput.plusTwoPercentDepth
       CustomExchangeUpdateInput.minusTwoPercentDepth
       CustomExchangeUpdateInput.volume24h
       CustomExchangeUpdateInput.volumePercentage
       CustomExchangeUpdateInput.icon CustomExchangeUpdateInput.url] in *.

Lemma patched_ok (body : CustomExchangeUpdateInput.t) (r : float) (x0 : ExchangeData.t) :
  amounts_ok body -> patched body r x0 = (patched_fields body r x0, None).
Proof.
  intros (Hplus & Hminus & Hvol). patch_cases body x0.
  destruct plus as [a|]; [destruct Hplus as [n1 ->]|];
  destruct minus as [b|]; [destruct Hminus as [n2 ->]| |destruct Hminus as [n2 ->]|];
  (destruct vol as [c|]; [destruct Hvol as [n3 ->]|]);
  destruct pair, pp, price, (PyFloat.lt 0 r), vp, icon, url; reflexivity.
Qed.

Lemma patched_refused (body : CustomExchangeUpdateInput.t) (r : float) (x0 : ExchangeData.t) :
  refused (CustomExchangeUpdateInput.plusTwoPercentDepth body) \/
  refused (CustomExchangeUpdateInput.minusTwoPercentDepth body) \/
  refused (CustomExchangeUpdateInput.volume24h body) ->
  exists x' e,
    patched body r x0 = (x', Some e) /\
    ExchangeData.id x' = ExchangeData.id x0 /\
    ExchangeData.exchange x' = ExchangeData.exchange x0 /\
    ExchangeData.pair x' =
      default (ExchangeData.pair x0) (CustomExchangeUpdateInput.pair body) /\
    ExchangeData.price x' = patched_price body r x0 /\
    ExchangeData.price_percent x' = patched_percent body x0 /\
    ExchangeData.volumePercentage x' = ExchangeData.volumePercentage x0 /\
    ExchangeData.lastUpdated x' = ExchangeData.lastUpdated x0 /\
    ExchangeData.icon x' = ExchangeData.icon x0 /\
    ExchangeData.url x' = ExchangeData.url x0.
Proof.
  intros Hbad. patch_cases body x0.
  assert (Hbad' :
    match plus with Some a => match PyFloat.floor a with inl _ => true | _ => false end | None => false end
    || match minus with Some a => match PyFloat.floor a with inl _ => true | _ => false end | None => false end
    || match vol with Some a => match PyFloat.floor a with inl _ => true | _ => false end | None => false end
    = true).
  { destruct Hbad as [(a & e & -> & ->)|[(a & e & -> & ->)|(a & e & -> & ->)]].
    - reflexivity.
    - rewrite orb_true_r. reflexivity.
    - apply orb_true_r. }
  clear Hbad.
  destruct plus as [a|]; [destruct (PyFloat.floor a)|];
  (destruct minus as [b|]; [destruct (PyFloat.floor b)|]);
  (destruct vol as [c|]; [destruct (PyFloat.floor c)|]);
  try discriminate Hbad';
  destruct pair, pp, price, (PyFloat.lt 0 r); do 2 eexists; repeat split.
Qed.

Lemma patched_same_entry (body : CustomExchangeUpdateInput.t) (r : float)
  (x0 : ExchangeData.t) :
  ExchangeData.id (fst (patched body r x0)) = ExchangeData.id x0 /\
  ExchangeData.exchange (fst (patched body r x0)) = ExchangeData.exchange x0.
Proof.
  patch_cases body x0.
  destruct plus as [a|]; [destruct (PyFloat.floor a)|];
  (destruct minus as [b|]; [destruct (PyFloat.floor b)|]);
  (destruct vol as [c|]; [destruct (PyFloat.floor c)|]);
  destruct pair, pp, price, (PyFloat.lt 0 r), vp, icon, url; split; reflexivity.
Qed.

Lemma patched_twice (body : CustomExchangeUpdateInput.t) (r : float)
  (x0 : ExchangeData.t) :
  amounts_ok body ->
  patched_fields body r (patched_fields body r x0) = patched_fields body r x0.
Proof.
  intros (Hplus & Hminus & Hvol). patch_cases body x0.
  destruct plus as [a|]; [destruct Hplus as [n1 ->]|];
  destruct minus as [b|]; [destruct Hminus as [n2 ->]| |destruct Hminus as [n2 ->]|];
  (destruct vol as [c|]; [destruct Hvol as [n3 ->]|]);
  destruct pair, pp, price, (PyFloat.lt 0 r), vp, icon, url; reflexivity.
Qed.

Lemma map_set_same {V B : Type} (g : V -> B) (k : string) (x x' : V) (d : Dict.t V) :
  Dict.get k d = Some x -> g x' = g x ->
  map (fun kv => g (snd kv)) (Dict.set k x' d) = map (fun kv => g (snd kv)) d.
Proof.
  intros Hget Hg. induction d as [|[k0 v0] d IH]; simpl in *; [discriminate|].
  destruct (String.eqb k k0).
  - injection Hget as ->. simpl. now rewrite Hg.
  - simpl. now rewrite IH.
Qed.

Lemma update_custom_exchange_missing
  (env : Env) (exchange_name : string) (body : CustomExchangeUpdateInput.t) (w : World) :
  Dict.get (PyStr.lower exchange_name) (custom_exchanges w) = None ->
  update_custom_exchange env exchange_name body w = (Raise (HTTPException 404), w).
Proof.
  intros Hget. unfold update_custom_exchange, bind, get_custom_exchanges_dict, Dict.mem.
  now rewrite Hget.
Qed.

(** X4: a PATCH of an entry that exists, with amounts that are all
    finite, returns the entry it leaves in the store, and that entry is
    the old one with exactly the fields of the body replaced: the pair,
    the price and percentage, the three amounts rendered as money, the
    volume share, the icon and the url; [lastUpdated] is "Recently"; the
    name and the id stay. *)
Theorem update_custom_exchange_fields
  (env : Env) (exchange_name : string) (body : CustomExchangeUpdateInput.t)
  (x0 : ExchangeData.t) (w : World) :
  Dict.get (PyStr.lower exchange_name) (custom_exchanges w) = Some x0 ->
  amounts_ok body ->
  let x' := patched_fields body (binance_price_at env (clock w)) x0 in
  exists w',
    update_custom_exchange env exchange_name body w = (Return (Some x'), w') /\
    Dict.get (PyStr.lower exchange_name) (custom_exchanges w') = Some x' /\
    (forall k, k <> PyStr.lower exchange_name ->
       Dict.get k (custom_exchanges w') = Dict.get k (custom_exchanges w)) /\
    redis_client w' = redis_client w.
Proof.
  intros Hget Hok x'.
  rewrite (update_custom_exchange_patched env exchange_name body x0 w Hget).
  rewrite (patched_ok body _ x0 Hok). cbn [fst snd]. fold x'.
  eexists. split; [reflexivity|]. cbn [custom_exchanges with_store redis_client].
  split; [apply DictFacts.get_set_eq|]. split.
  - intros k Hk. apply DictFacts.get_set_ne. intros E. apply Hk. now rewrite <- E.
  - apply store_after_calls.
Qed.

Lemma update_custom_exchange_fields_witness :
  exists w',
    update_custom_exchange Sample.env_up "MYEX"
      (CustomExchangeUpdateInput.Build (Some "LTC/EUR") None None None None
         (Some 2500.9%float) None None (Some "https://myex.example"))
      Sample.world
    = (Return (Some (ExchangeData.Build 0 "MyEx" "LTC/EUR" "100.0000" None
                       (ExchangeData.plusTwoPercentDepth Sample.fixed)
                       (ExchangeData.minusTwoPercentDepth Sample.fixed)
                       "$2,500"
                       (ExchangeData.volumePercentage Sample.fixed)
                       "Recently"
                       (ExchangeData.icon Sample.fixed)
                       (Some "https://myex.example"))), w') /\
    Dict.get "pct" (custom_exchanges w') = Some Sample.driven.
Proof.
  destruct (update_custom_exchange_fields Sample.env_up "MYEX"
              (CustomExchangeUpdateInput.Build (Some "LTC/EUR") None None None None
                 (Some 2500.9%float) None None (Some "https://myex.example"))
              Sample.fixed Sample.world eq_refl)
    as (w' & Hrun & _ & Hothers & _).
  - repeat split. exists 2500. reflexivity.
  - exists w'. split; [exact Hrun|]. now rewrite Hothers.
Defined.

(** X5: a PATCH one of whose amounts is not finite raises, yet it is not
    undone: the entry in the store already has the pair, the price and
    the percentage of the body, while its volume share, icon, url and
    [lastUpdated] are the old ones. *)
Theorem update_custom_exchange_partial
  (env : Env) (exchange_name : string) (body : CustomExchangeUpdateInput.t)
  (x0 : ExchangeData.t) (w : World) :
  Dict.get (PyStr.lower exchange_name) (custom_exchanges w) = Some x0 ->
  refused (CustomExchangeUpdateInput.plusTwoPercentDepth body) \/
  refused (CustomExchangeUpdateInput.minusTwoPercentDepth body) \/
  refused (CustomExchangeUpdateInput.volume24h body) ->
  exists e x' w',
    update_custom_exchange env exchange_name body w = (Raise (FloatError e), w') /\
    Dict.get (PyStr.lower exchange_name) (custom_exchanges w') = Some x' /\
    ExchangeData.pair x' =
      default (ExchangeData.pair x0) (CustomExchangeUpdateInput.pair body) /\
    ExchangeData.price x' = patched_price body (binance_price_at env (clock w)) x0 /\
    ExchangeData.price_percent x' = patched_percent body x0 /\
    ExchangeData.volumePercentage x' = ExchangeData.volumePercentage x0 /\
    ExchangeData.lastUpdated x' = ExchangeData.lastUpdated x0 /\
    ExchangeData.icon x' = ExchangeData.icon x0 /\
    ExchangeData.url x' = ExchangeData.url x0.
Proof.
  intros Hget Hbad.
  rewrite (update_custom_exchange_patched env exchange_name body x0 w Hget).
  destruct (patched_refused body (binance_price_at env (clock w)) x0 Hbad)
    as (x' & e & -> & _ & _ & Hrest).
  cbn [fst snd]. exists e, x'. eexists. split; [reflexivity|].
  cbn [custom_exchanges with_store]. split; [apply DictFacts.get_set_eq | exact Hrest].
Qed.

Lemma update_custom_exchange_partial_witness :
  exists e x' w',
    update_custom_exchange Sample.env_up "myex"
      (CustomExchangeUpdateInput.Build (Some "LTC/EUR") (Some 42%float) None None None
         (Some nan) (Some 7%float) None None)
      Sample.world = (Raise (FloatError e), w') /\
    Dict.get "myex" (custom_exchanges w') = Some x' /\
    ExchangeData.pair x' = "LTC/EUR" /\
    ExchangeData.price x' = "42.0000" /\
    ExchangeData.volumePercentage x' = ExchangeData.volumePercentage Sample.fixed /\
    ExchangeData.lastUpdated x' = ExchangeData.lastUpdated Sample.fixed.
Proof.
  destruct (update_custom_exchange_partial Sample.env_up "myex"
              (CustomExchangeUpdateInput.Build (Some "LTC/EUR") (Some 42%float) None None None
                 (Some nan) (Some 7%float) None None)
              Sample.fixed Sample.world eq_refl)
    as (e & x' & w' & Hrun & Hget & Hpair & Hprice & _ & Hvp & Hlu & _).
  - right. right. exists nan, PyFloat.ValueError. split; reflexivity.
  - exists e, x', w'. repeat split; assumption.
Defined.

(** X6: a PATCH never creates, removes, renames or renumbers an entry:
    however it ends, the keys of the store, in their order, and the name
    and the id of every entry are as before.  On a name whose lower-cased
    form is not a key it raises the 404 [HTTPException] and leaves the
    whole state as it was, without calling the gateway, whatever the body
    holds. *)
Theorem update_custom_exchange_same_entries
  (env : Env) (exchange_name : string) (body : CustomExchangeUpdateInput.t) (w : World) :
  let w' := snd (update_custom_exchange env exchange_name body w) in
  Dict.keys (custom_exchanges w') = Dict.keys (custom_exchanges w) /\
  map ExchangeData.exchange (Dict.values (custom_exchanges w')) =
    map ExchangeData.exchange (Dict.values (custom_exchanges w)) /\
  map ExchangeData.id (Dict.values (custom_exchanges w')) =
    map ExchangeData.id (Dict.values (custom_exchanges w)) /\
  (Dict.get (PyStr.lower exchange_name) (custom_exchanges w) = None ->
   update_custom_exchange env exchange_name body w = (Raise (HTTPException 404), w)).
Proof.
  cbv zeta.
  destruct (Dict.get (PyStr.lower exchange_name) (custom_exchanges w)) as [x0|] eqn:Hget.
  - rewrite (update_custom_exchange_patched env exchange_name body x0 w Hget).
    cbn [snd custom_exchanges with_store].
    destruct (patched_same_entry body (binance_price_at env (clock w)) x0) as [Hid Hname].
    unfold Dict.values. rewrite !map_map. repeat split.
    + apply DictFacts.keys_set_present. congruence.
    + now apply (map_set_same ExchangeData.exchange) with (x := x0).
    + now apply (map_set_same ExchangeData.id) with (x := x0).
    + discriminate.
  - rewrite (update_custom_exchange_missing env exchange_name body w Hget). easy.
Qed.

Lemma update_custom_exchange_same_entries_witness :
  update_custom_exchange Sample.env_up "Kraken"
    (CustomExchangeUpdateInput.Build None None (Some 5%float) None None None None None None)
    Sample.world = (Raise (HTTPException 404), Sample.world).
Proof.
  apply (update_custom_exchange_same_entries Sample.env_up "Kraken"
           (CustomExchangeUpdateInput.Build None None (Some 5%float)
              None None None None None None) Sample.world).
  reflexivity.
Defined.

(** X7: a PATCH is idempotent: sent a second time, with the gateway
    handing back the same reference price, it returns the same entry and
    leaves the store as the first left it. *)
Theorem update_custom_exchange_idempotent
  (env : Env) (exchange_name : string) (body : CustomExchangeUpdateInput.t)
  (x0 : ExchangeData.t) (w : World) :
  Dict.get (PyStr.lower exchange_name) (custom_exchanges w) = Some x0 ->
  amounts_ok body ->
  binance_price_at env (clock (after_calls (patch_calls body) w)) =
    binance_price_at env (clock w) ->
  exists x' w1 w2,
    update_custom_exchange env exchange_name body w = (Return (Some x'), w1) /\
    update_custom_exchange env exchange_name body w1 = (Return (Some x'), w2) /\
    custom_exchanges w2 = custom_exchanges w1.
Proof.
  intros Hget Hok Hsame.
  pose proof (update_custom_exchange_patched env exchange_name body x0 w Hget) as Hrun.
  cbv zeta in Hrun. rewrite (patched_ok body _ x0 Hok) in Hrun. cbn [fst snd] in Hrun.
  set (r := binance_price_at env (clock w)) in *.
  set (w1 := with_store _ _) in Hrun.
  assert (Hget1 : Dict.get (PyStr.lower exchange_name) (custom_exchanges w1)
                  = Some (patched_fields body r x0)).
  { apply DictFacts.get_set_eq. }
  pose proof (update_custom_exchange_patched env exchange_name body _ w1 Hget1) as Hrun1.
  cbv zeta in Hrun1.
  change (clock w1) with (clock (after_calls (patch_calls body) w)) in Hrun1.
  rewrite Hsame in Hrun1. fold r in Hrun1.
  rewrite (patched_ok body _ _ Hok) in Hrun1. cbn [fst snd] in Hrun1.
  rewrite (patched_twice body r x0 Hok) in Hrun1.
  do 3 eexists. split; [exact Hrun|]. split; [exact Hrun1|].
  cbn [custom_exchanges with_store]. now apply DictMore.set_same.
Qed.

Lemma update_custom_exchange_idempotent_witness :
  exists x' w1 w2,
    update_custom_exchange Sample.env_up "pct"
      (CustomExchangeUpdateInput.Build None None (Some 10%float) None None
         (Some 2500.9%float) None None None)
      Sample.world = (Return (Some x'), w1) /\
    update_custom_exchange Sample.env_up "pct"
      (CustomExchangeUpdateInput.Build None None (Some 10%float) None None
         (Some 2500.9%float) None None None)
      w1 = (Return (Some x'), w2) /\
    custom_exchanges w2 = custom_exchanges w1.
Proof.
  apply (update_custom_exchange_idempotent Sample.env_up "pct"
           (CustomExchangeUpdateInput.Build None None (Some 10%float) None None
              (Some 2500.9%float) None None None)
           Sample.driven Sample.world).
  - reflexivity.
  - repeat split. exists 2500. reflexivity.
  - reflexivity.
Defined.

Lemma In_get_wf {V : Type} (k : string) (v : V) (d : Dict.t V) :
  Dict.wf d -> In (k, v) d -> Dict.get k d = Some v.
Proof.
  unfold Dict.wf, Dict.keys. induction d as [|[k0 v0] d IH]; simpl; [tauto|].
  intros Hwf [[= -> ->]|Hin].
  - now rewrite String.eqb_refl.
  - apply NoDup_cons in Hwf as [Hk0 Hwf].
    destruct (String.eqb k k0) eqn:E; [|auto].
    apply String.eqb_eq in E. subst k0. exfalso. apply Hk0.
    apply list_elem_of_In. apply in_map_iff. now exists (k, v).
Qed.

(** X8: every handler of the custom exchanges keeps each key of the store
    equal to the lower-cased name of its entry, however the handler
    ends. *)
Theorem store_keys_are_names (env : Env) (w : World) :
  named (custom_exchanges w) ->
  (forall exchange_data,
      named (custom_exchanges (snd (add_custom_exchange env exchange_data w)))) /\
  (forall exchange_name,
      named (custom_exchanges (snd (delete_custom_exchange exchange_name w)))) /\
  (forall exchange_name body,
      named (custom_exchanges (snd (update_custom_exchange env exchange_name body w)))).
Proof.
  intros Hnamed. split; [|split].
  - intros exchange_data. rewrite add_custom_exchange_run. cbv zeta.
    pose proof (store_after_calls (add_calls exchange_data) w) as [Hs _].
    destruct (PyFloat.floor (CustomExchangeInput.plusTwoPercentDepth exchange_data));
      [cbn [snd]; now rewrite Hs|].
    destruct (PyFloat.floor (CustomExchangeInput.minusTwoPercentDepth exchange_data));
      [cbn [snd]; now rewrite Hs|].
    destruct (PyFloat.floor (CustomExchangeInput.volume24h exchange_data));
      [cbn [snd]; now rewrite Hs|].
    cbn [snd custom_exchanges with_store].
    now apply DictMore.Forall_set.
  - intros exchange_name.
    unfold delete_custom_exchange, bind, get_custom_exchanges_dict, put_custom_exchanges.
    destruct (Dict.mem _ _); cbn [snd custom_exchanges with_store raise]; [|assumption].
    now apply DictMore.Forall_del.
  - intros exchange_name body.
    destruct (Dict.get (PyStr.lower exchange_name) (custom_exchanges w)) as [x0|] eqn:Hget.
    + rewrite (update_custom_exchange_patched env exchange_name body x0 w Hget).
      cbn [snd custom_exchanges with_store].
      apply DictMore.Forall_set; [|assumption]. cbn [fst snd].
      destruct (patched_same_entry body (binance_price_at env (clock w)) x0) as [_ ->].
      exact (DictMore.get_Forall _ _ _ _ Hnamed Hget).
    + now rewrite (update_custom_exchange_missing env exchange_name body w Hget).
Qed.

Lemma sample_store_named : named Sample.store.
Proof. repeat constructor. Defined.

Lemma store_keys_are_names_witness :
  named (custom_exchanges
           (snd (add_custom_exchange Sample.env_up
                   (CustomExchangeInput.Build "NewEx" "LTC/USDT" (Some 5%float)
                      1234.9%float 99.5%float 1234567.2%float 0.456%float None None)
                   Sample.world))).
Proof.
  apply (proj1 (store_keys_are_names Sample.env_up Sample.world sample_store_named)).
Defined.

(** X9: in a store whose keys are unique and are the lower-cased names
    of their entries, every exchange that the listing of the custom
    exchanges shows can be deleted by the name shown: the DELETE returns,
    and the exchange is listed no more. *)
Theorem listed_exchange_can_be_deleted (x : ExchangeData.t) (w : World) (r : ExchangeResponse) :
  Dict.wf (custom_exchanges w) ->
  named (custom_exchanges w) ->
  get_custom_exchanges w = (Return r, w) ->
  In x (data r) ->
  exists w' r',
    delete_custom_exchange (ExchangeData.exchange x) w = (Return tt, w') /\
    get_custom_exchanges w' = (Return r', w') /\
    ~ In x (data r') /\
    S (length (data r')) = length (data r).
Proof.
  intros Hwf Hnamed Hlist Hin.
  unfold get_custom_exchanges, bind, get_custom_exchanges_dict, ret in Hlist.
  injection Hlist as <-. cbn [data] in Hin.
  apply DictMore.values_get in Hin as [k Hin].
  assert (Hk : k = PyStr.lower (ExchangeData.exchange x)).
  { unfold named in Hnamed. rewrite List.Forall_forall in Hnamed. exact (Hnamed _ Hin). }
  subst k. pose proof (In_get_wf _ _ _ Hwf Hin) as Hget.
  unfold delete_custom_exchange, bind, get_custom_exchanges_dict, Dict.mem,
    put_custom_exchanges.
  rewrite Hget. do 2 eexists. split; [reflexivity|].
  unfold get_custom_exchanges, bind, get_custom_exchanges_dict, ret.
  cbn [custom_exchanges with_store]. split; [reflexivity|]. cbn [data]. split.
  - intros Hin'. apply DictMore.values_get in Hin' as [k' Hin'].
    assert (Hk' : k' = PyStr.lower (ExchangeData.exchange x)).
    { pose proof (DictMore.Forall_del _ (PyStr.lower (ExchangeData.exchange x)) _ Hnamed)
        as Hnamed'.
      unfold named in Hnamed'. rewrite List.Forall_forall in Hnamed'. exact (Hnamed' _ Hin'). }
    subst k'. apply DictMore.In_get in Hin'. apply Hin'.
    now apply DictFacts.get_del_eq.
  - unfold Dict.values. rewrite !length_map. apply DictFacts.length_del. congruence.
Qed.

Lemma listed_exchange_can_be_deleted_witness :
  exists w' r',
    delete_custom_exchange "Pct" Sample.world = (Return tt, w') /\
    get_custom_exchanges w' = (Return r', w') /\
    ~ In Sample.driven (data r') /\
    S (length (data r')) = 2%nat.
Proof.
  apply (listed_exchange_can_be_deleted Sample.driven Sample.world
           (success [Sample.fixed; Sample.driven])
           sample_store_wf sample_store_named eq_refl).
  right. left. reflexivity.
Defined.

(** X10: the handlers of the custom exchanges never touch the cache, and
    the two listings never touch the store: a POST, a DELETE or a PATCH
    leaves Redis as it was, however it ends, and so invalidates no cached
    listing; the listing of the custom exchanges returns the stored
    entries in their order and changes nothing. *)
Theorem cache_and_store_apart (env : Env) (w : World) :
  (forall exchange_data,
      redis_client (snd (add_custom_exchange env exchange_data w)) = redis_client w) /\
  (forall exchange_name,
      redis_client (snd (delete_custom_exchange exchange_name w)) = redis_client w) /\
  (forall exchange_name body,
      redis_client (snd (update_custom_exchange env exchange_name body w)) = redis_client w) /\
  (forall sort_by descending,
      custom_exchanges (snd (get_ltc_exchanges env sort_by descending w)) =
      custom_exchanges w) /\
  get_custom_exchanges w = (Return (success (Dict.values (custom_exchanges w))), w).
Proof.
  split; [|split; [|split; [|split]]].
  - intros exchange_data. rewrite add_custom_exchange_run. cbv zeta.
    pose proof (store_after_calls (add_calls exchange_data) w) as [_ Hr].
    destruct (PyFloat.floor (CustomExchangeInput.plusTwoPercentDepth exchange_data));
      [exact Hr|].
    destruct (PyFloat.floor (CustomExchangeInput.minusTwoPercentDepth exchange_data));
      [exact Hr|].
    destruct (PyFloat.floor (CustomExchangeInput.volume24h exchange_data)); exact Hr.
  - intros exchange_name.
    unfold delete_custom_exchange, bind, get_custom_exchanges_dict, put_custom_exchanges.
    now destruct (Dict.mem _ _).
  - intros exchange_name body.
    destruct (Dict.get (PyStr.lower exchange_name) (custom_exchanges w)) as [x0|] eqn:Hget.
    + rewrite (update_custom_exchange_patched env exchange_name body x0 w Hget).
      apply store_after_calls.
    + now rewrite (update_custom_exchange_missing env exchange_name body w Hget).
  - intros sort_by descending.
    destruct (store_wf_preserved env) as (_ & _ & _ & Hkeeps).
    specialize (Hkeeps sort_by descending (custom_exchanges w) w eq_refl).
    destruct (get_ltc_exchanges env sort_by descending w) as [[r|e] w'];
      unfold on_store in Hkeeps; cbn [snd]; now rewrite <- Hkeeps.
  - reflexivity.
Qed.

(** X11: while a cached listing is served, changes of the custom
    exchanges do not show: when Redis answers and the sorted key or the
    base key holds a payload, the response is the same whatever the store
    holds. *)
Theorem cached_listing_ignores_store
  (env : Env) (sort_by : option SortCriterion) (descending : bool)
  (w : World) (d : Dict.t ExchangeData.t) :
  redis_down env (clock w) = false ->
  redis_down env (S (clock w)) = false ->
  cached (sort_cache_key sort_by descending) w <> None \/
  cached base_cache_key w <> None ->
  fst (get_ltc_exchanges env sort_by descending (with_store d w)) =
  fst (get_ltc_exchanges env sort_by descending w).
Proof.
  intros Hup1 Hup2 Hhit.
  rewrite (get_ltc_exchanges_run env sort_by descending (with_store d w) Hup1 Hup2).
  rewrite (get_ltc_exchanges_run env sort_by descending w Hup1 Hup2).
  cbv zeta.
  change (cached ?k (with_store d w)) with (cached k w).
  destruct (cached (sort_cache_key sort_by descending) w) as [payload|].
  - now destruct (json_loads env payload).
  - destruct (cached base_cache_key w) as [payload|].
    + destruct (json_loads env payload) as [r|]; [|reflexivity].
      now destruct (sort_and_rank sort_by descending (data r)).
    + now destruct Hhit.
Qed.

Lemma cached_listing_ignores_store_witness :
  fst (get_ltc_exchanges Sample.env_up (Some VOLUME) false
         (with_store [] Sample.world_sorted_cached)) =
  fst (get_ltc_exchanges Sample.env_up (Some VOLUME) false Sample.world_sorted_cached).
Proof.
  apply (cached_listing_ignores_store Sample.env_up (Some VOLUME) false
           Sample.world_sorted_cached []).
  - reflexivity.
  - reflexivity.
  - left. discriminate.
Defined.

(** X12: when both caches miss and the tickers request is answered with a
    status other than 200, the listing request fails with the 500
    [HTTPException], not with the provider's status; the two provider
    requests have been made and nothing has been cached. *)
Theorem tickers_status_becomes_500
  (env : Env) (sort_by : option SortCriterion) (descending : bool) (w : World)
  (code : Z) (body : option (list Ticker.t)) :
  redis_down env (clock w) = false ->
  redis_down env (S (clock w)) = false ->
  cached (sort_cache_key sort_by descending) w = None ->
  cached base_cache_key w = None ->
  metadata_answered (coingecko_exchanges env (S (S (clock w)))) ->
  coingecko_tickers env (S (S (S (clock w)))) = Reply code body ->
  code <> 200 ->
  get_ltc_exchanges env sort_by descending w =
  (Raise (HTTPException 500),
   after_calls [HttpGet CoinGeckoExchanges; HttpGet CoinGeckoTickers]
     (after_reads sort_by descending w)).
Proof.
  intros Hup1 Hup2 Hsorted Hbase Hmeta Htick Hcode.
  rewrite (get_ltc_exchanges_run env sort_by descending w Hup1 Hup2). cbv zeta.
  rewrite Hsorted, Hbase.
  unfold fetch_exchange_data_from_api.
  cbv beta iota zeta delta [bind requests_get external_call ret raise].
  change (clock (after_reads sort_by descending w)) with (S (S (clock w))).
  destruct (coingecko_exchanges env (S (S (clock w)))) as [|c b]; [contradiction|].
  simpl in Hmeta.
  assert (Hcode' : (code =? 200) = false) by now apply Z.eqb_neq.
  destruct (Z.eqb_spec c 200) as [->|Hc].
  - destruct b as [exchanges_data|]; [|now exfalso; apply Hmeta].
    cbv beta iota.
    change (clock (after_call (HttpGet CoinGeckoExchanges) (after_reads sort_by descending w)))
      with (S (S (S (clock w)))).
    now rewrite Htick, Hcode'.
  - cbv beta iota.
    change (clock (after_call (HttpGet CoinGeckoExchanges) (after_reads sort_by descending w)))
      with (S (S (S (clock w)))).
    now rewrite Htick, Hcode'.
Qed.

Lemma ticker_rows_no_url (icons : gmap string (option string)) (tickers : list Ticker.t)
  (rows : list ExchangeData.t) :
  ticker_rows icons (url_mapping []) tickers = inr rows ->
  Forall (fun row => ExchangeData.url row = None) rows.
Proof.
  revert rows. induction tickers as [|ticker tickers IH]; simpl; intros rows H.
  - injection H as <-. constructor.
  - destruct (String.eqb (Ticker.target ticker) "USDT"); [|now apply IH].
    destruct (ticker_row icons (url_mapping []) ticker) as [e|row] eqn:Hrow;
      [discriminate|].
    destruct (ticker_rows icons (url_mapping []) tickers) as [e|rows'];
      [discriminate|].
    simpl in H. injection H as <-. constructor; [|now apply IH].
    unfold ticker_row, and_then in Hrow.
    destruct (depth_estimate _ _); [discriminate|].
    destruct (depth_estimate _ _); [discriminate|].
    destruct (number_to_float _); [discriminate|].
    destruct (number_floor _); [discriminate|].
    destruct (number_to_float _); [discriminate|].
    injection Hrow as <-. cbn [ExchangeData.url].
    unfold mapping_get, url_mapping, dict_update. simpl.
    destruct (Ticker.market_identifier ticker); [|reflexivity].
    now rewrite lookup_empty.
Qed.

(** The fetch, when the exchanges request is answered and the tickers
    request succeeds: the rows of the USDT tickers, built with the
    metadata that was read, then the custom exchanges, numbered from 1. *)
Lemma fetch_exchange_data_from_api_run (env : Env) (w : World)
  (tickers : list Ticker.t) (rows : list ExchangeData.t) :
  metadata_answered (coingecko_exchanges env (clock w)) ->
  coingecko_tickers env (S (clock w)) = Reply 200 (Some tickers) ->
  ticker_rows (icon_mapping (metadata_of (coingecko_exchanges env (clock w))))
    (url_mapping (metadata_of (coingecko_exchanges env (clock w)))) tickers = inr rows ->
  exists customs w',
    custom_rows env (Dict.values (custom_exchanges w))
      (after_calls [HttpGet CoinGeckoExchanges; HttpGet CoinGeckoTickers] w)
    = (Return customs, w') /\
    fetch_exchange_data_from_api env w = (Return (assign_ids 1 (rows ++ customs)), w').
Proof.
  intros Hmeta Htick Hrows.
  destruct (custom_rows_total env (Dict.values (custom_exchanges w))
              (after_calls [HttpGet CoinGeckoExchanges; HttpGet CoinGeckoTickers] w))
    as [customs Hcustom].
  destruct (custom_rows env (Dict.values (custom_exchanges w))
              (after_calls [HttpGet CoinGeckoExchanges; HttpGet CoinGeckoTickers] w))
    as [out w'] eqn:Hrun.
  cbn [fst] in Hcustom. subst out.
  exists customs, w'. split; [reflexivity|].
  unfold fetch_exchange_data_from_api.
  cbv beta iota zeta delta
    [bind requests_get external_call ret raise lift_float get_custom_exchanges_dict].
  unfold metadata_answered, metadata_of in *.
  destruct (coingecko_exchanges env (clock w)) as [|code body]; [contradiction|].
  cbv beta iota.
  destruct (Z.eqb_spec code 200) as [->|Hcode].
  - destruct body as [exchanges_data|]; [|now exfalso; apply Hmeta].
    cbv beta iota in Hrows |- *.
    change (clock (after_call (HttpGet CoinGeckoExchanges) w)) with (S (clock w)).
    rewrite Htick, Z.eqb_refl. cbv beta iota delta [negb]. rewrite Hrows. cbv beta iota.
    change (custom_exchanges
              (after_call (HttpGet CoinGeckoTickers)
                 (after_call (HttpGet CoinGeckoExchanges) w)))
      with (custom_exchanges w).
    unfold after_calls in Hrun. simpl in Hrun. now rewrite Hrun.
  - assert (Hrows' : ticker_rows (icon_mapping []) (url_mapping []) tickers = inr rows)
      by now destruct body.
    cbv beta iota.
    change (clock (after_call (HttpGet CoinGeckoExchanges) w)) with (S (clock w)).
    rewrite Htick, Z.eqb_refl. cbv beta iota delta [negb]. rewrite Hrows'. cbv beta iota.
    change (custom_exchanges
              (after_call (HttpGet CoinGeckoTickers)
                 (after_call (HttpGet CoinGeckoExchanges) w)))
      with (custom_exchanges w).
    unfold after_calls in Hrun. simpl in Hrun. now rewrite Hrun.
Qed.

(** X13: the exchanges listing is optional: when it is answered, with
    whatever status, and the tickers request succeeds, the fetch returns
    the rows of the USDT tickers followed by the custom exchanges,
    numbered from 1; on a status other than 200 the rows are those built
    without any provider metadata, and none of them has a url. *)
Theorem metadata_is_optional (env : Env) (w : World)
  (tickers : list Ticker.t) (rows : list ExchangeData.t) :
  metadata_answered (coingecko_exchanges env (clock w)) ->
  coingecko_tickers env (S (clock w)) = Reply 200 (Some tickers) ->
  ticker_rows (icon_mapping (metadata_of (coingecko_exchanges env (clock w))))
    (url_mapping (metadata_of (coingecko_exchanges env (clock w)))) tickers = inr rows ->
  (exists customs w',
     custom_rows env (Dict.values (custom_exchanges w))
       (after_calls [HttpGet CoinGeckoExchanges; HttpGet CoinGeckoTickers] w)
     = (Return customs, w') /\
     fetch_exchange_data_from_api env w = (Return (assign_ids 1 (rows ++ customs)), w')) /\
  (forall code body,
     coingecko_exchanges env (clock w) = Reply code body -> code <> 200 ->
     ticker_rows (icon_mapping []) (url_mapping []) tickers = inr rows /\
     Forall (fun row => ExchangeData.url row = None) rows).
Proof.
  intros Hmeta Htick Hrows. split.
  - exact (fetch_exchange_data_from_api_run env w tickers rows Hmeta Htick Hrows).
  - intros code body Hreply Hcode. rewrite Hreply in Hrows. unfold metadata_of in Hrows.
    apply Z.eqb_neq in Hcode. rewrite Hcode in Hrows.
    assert (Hrows' : ticker_rows (icon_mapping []) (url_mapping []) tickers = inr rows)
      by now destruct body.
    split; [exact Hrows' | exact (ticker_rows_no_url _ _ _ Hrows')].
Qed.

Lemma dict_update_notin (kvs : list (string * option string))
  (m : gmap string (option string)) (k : string) :
  ~ In k (map fst kvs) -> dict_update kvs m !! k = m !! k.
Proof.
  unfold dict_update. revert m. induction kvs as [|[k0 v0] kvs IH]; intros m Hk; simpl.
  - reflexivity.
  - simpl in Hk. rewrite IH by tauto. cbn [fst snd].
    apply lookup_insert_ne. tauto.
Qed.

Lemma dict_update_in (kvs : list (string * option string))
  (m : gmap string (option string)) (k : string) (v : option string) :
  List.NoDup (map fst kvs) -> In (k, v) kvs -> dict_update kvs m !! k = Some v.
Proof.
  unfold dict_update. revert m. induction kvs as [|[k0 v0] kvs IH]; intros m Hnd Hin; simpl.
  - destruct Hin.
  - simpl in Hnd. apply List.NoDup_cons_iff in Hnd as [Hk0 Hnd].
    destruct Hin as [[= -> ->]|Hin].
    + fold (dict_update kvs (<[k:=v]> m)). rewrite dict_update_notin by assumption.
      apply lookup_insert_eq.
    + now apply IH.
Qed.

Lemma hardcoded_icons_keys :
  List.NoDup (map fst (map (fun kv : string * string => (fst kv, Some (snd kv))) hardcoded_icons)).
Proof.
  simpl. repeat (apply List.NoDup_cons; [simpl; intuition discriminate|]).
  apply List.NoDup_nil.
Qed.

(** X14: the hard-coded icons win over the provider's: an exchange
    identifier of the hard-coded table gets the icon of the table whatever
    the exchanges listing says, and any other identifier gets what the
    listing alone gives. *)
Theorem hardcoded_icons_override (exchanges_data : list ExchangeInfo.t) (k : string) :
  (forall v, In (k, v) hardcoded_icons ->
     mapping_get (icon_mapping exchanges_data) (Some k) = Some v) /\
  (~ In k (map fst hardcoded_icons) ->
     mapping_get (icon_mapping exchanges_data) (Some k) =
     mapping_get
       (dict_update (map (fun ex => (ExchangeInfo.id ex, ExchangeInfo.image ex)) exchanges_data) ∅)
       (Some k)).
Proof.
  split.
  - intros v Hin. unfold mapping_get, icon_mapping.
    rewrite (dict_update_in _ _ k (Some v) hardcoded_icons_keys); [reflexivity|].
    apply in_map_iff. now exists (k, v).
  - intros Hk. unfold mapping_get, icon_mapping.
    rewrite dict_update_notin; [reflexivity|].
    now rewrite map_map.
Qed.

Lemma assign_ids_lookup (l : list ExchangeData.t) (i : Z) (n : nat) (x : ExchangeData.t) :
  assign_ids i l !! n = Some x -> ExchangeData.id x = i + Z.of_nat n.
Proof.
  revert i n. induction l as [|y l IH]; intros i n; simpl; [discriminate|].
  destruct n as [|n]; simpl.
  - intros [= <-]. simpl. lia.
  - intros H. rewrite (IH _ _ H). lia.
Qed.

Lemma assign_ids_length (l : list ExchangeData.t) (i : Z) :
  length (assign_ids i l) = length l.
Proof. revert i. induction l as [|y l IH]; intros i; simpl; [reflexivity | now rewrite IH]. Qed.

Lemma assign_ids_rows (l : list ExchangeData.t) (i : Z) :
  map (ExchangeData.set_id 0) (assign_ids i l) = map (ExchangeData.set_id 0) l.
Proof.
  revert i. induction l as [|y l IH]; intros i; simpl; [reflexivity|].
  now rewrite IH.
Qed.

Lemma list_sort_perm {A : Type} (key : A -> PyFloat.float_error + sort_key)
  (reverse : bool) (l l' : list A) :
  list_sort key reverse l = inr l' -> l' ≡ₚ l.
Proof.
  unfold list_sort. destruct (decorate key l) as [e|kl] eqn:Hdec; [discriminate|].
  intros [= <-]. destruct (decorate_inr key l kl Hdec) as [<- _].
  apply fmap_Permutation. apply sorted_pairs_perm.
Qed.

(** X15: the ranks of a response: when sorting succeeds, the listings
    returned are the listings given, in some order and up to their ids,
    and their ids are 1, 2, ..., N in the order returned. *)
Theorem ranks_after_sort (sort_by : option SortCriterion) (descending : bool)
  (exchanges ranked : list ExchangeData.t) :
  sort_and_rank sort_by descending exchanges = inr ranked ->
  length ranked = length exchanges /\
  (forall (n : nat) (x : ExchangeData.t),
      ranked !! n = Some x -> ExchangeData.id x = Z.of_nat n + 1) /\
  map (ExchangeData.set_id 0) ranked ≡ₚ map (ExchangeData.set_id 0) exchanges.
Proof.
  unfold sort_and_rank.
  destruct (sort_exchanges sort_by descending exchanges) as [e|sorted] eqn:Hsort;
    [discriminate|].
  intros [= <-].
  assert (Hperm : sorted ≡ₚ exchanges).
  { rewrite sort_exchanges_list_sort in Hsort. exact (list_sort_perm _ _ _ _ Hsort). }
  split; [|split].
  - rewrite assign_ids_length. now rewrite Hperm.
  - intros n x Hx. rewrite (assign_ids_lookup _ _ _ _ Hx). lia.
  - rewrite assign_ids_rows. now apply fmap_Permutation.
Qed.

Lemma ranks_after_sort_witness :
  exists ranked,
    sort_and_rank (Some VOLUME) true Sample.rows = inr ranked /\
    length ranked = 3%nat /\
    map ExchangeData.id ranked = [1; 2; 3] /\
    map ExchangeData.exchange ranked = ["C"; "A"; "B"].
Proof.
  eexists. split; [reflexivity|].
  pose proof (ranks_after_sort (Some VOLUME) true Sample.rows _ eq_refl) as (Hlen & _).
  split; [exact Hlen|]. split; reflexivity.
Defined.

(** No two cache keys collide. *)
Lemma cache_keys_apart (s1 s2 : option SortCriterion) (d1 d2 : bool) :
  (s1, d1) <> (s2, d2) ->
  sort_cache_key s1 d1 <> sort_cache_key s2 d2 /\
  sort_cache_key s1 d1 <> base_cache_key.
Proof.
  intros Hne. split.
  - intros Heq. apply Hne.
    destruct s1 as [[]|], s2 as [[]|], d1, d2; try reflexivity; discriminate Heq.
  - destruct s1 as [[]|], d1; discriminate.
Qed.

Lemma holds_requests_get {A} d c (e : Endpoint) (answer : nat -> HttpReply A) :
  keeps (holds d c) (requests_get e answer).
Proof.
  apply keeps_bind; [intros w HP; exact HP|].
  intros n. destruct (answer n); now apply keeps_pure.
Qed.

Lemma holds_custom_rows (env : Env) d c (customs : list ExchangeData.t) :
  keeps (holds d c) (custom_rows env customs).
Proof.
  induction customs as [|x customs IH]; simpl; [now apply keeps_pure|].
  apply keeps_bind.
  - intros w HP. rewrite merged_price_run.
    destruct (ExchangeData.price_percent x); exact HP.
  - intros s. apply keeps_bind; [exact IH|]. intros rows. now apply keeps_pure.
Qed.

(** The fetch reads the providers only: the store and the cache are as
    before, however it ends. *)
Lemma holds_fetch (env : Env) d c : keeps (holds d c) (fetch_exchange_data_from_api env).
Proof.
  unfold fetch_exchange_data_from_api.
  apply keeps_bind; [apply holds_requests_get|]. intros [code body].
  apply keeps_bind.
  { destruct (code =? 200); [destruct body|]; now apply keeps_pure. }
  intros exchanges_data.
  apply keeps_bind; [apply holds_requests_get|]. intros [code' body'].
  destruct (negb (code' =? 200)); [now apply keeps_pure|].
  apply keeps_bind; [destruct body'; now apply keeps_pure|]. intros tickers.
  apply keeps_bind; [apply keeps_lift_float|]. intros exchanges.
  apply keeps_bind; [now apply keeps_pure|]. intros d'.
  apply keeps_bind; [apply holds_custom_rows|]. intros customs.
  now apply keeps_pure.
Qed.

Lemma cache_hit_payload (payload : string) : payload <> "" -> cache_hit (Some payload) = Some payload.
Proof. intros H. unfold cache_hit. destruct payload; [contradiction | reflexivity]. Qed.

Lemma cached_after_write_eq (env : Env) (key : string) (result : ExchangeResponse)
  (w : World) (payload : string) :
  json_dumps env result = Some payload -> payload <> "" ->
  redis_down env (clock w) = false ->
  cached key (after_cache_write env key result w) = Some payload.
Proof.
  intros Hdumps Hne Hup. unfold cached.
  rewrite (after_cache_write_stored env key result w payload Hdumps Hup).
  now apply cache_hit_payload.
Qed.

Lemma cached_after_write_ne (env : Env) (key key' : string) (result : ExchangeResponse)
  (w : World) :
  key <> key' -> cached key' (after_cache_write env key result w) = cached key' w.
Proof.
  intros Hne. unfold cached, after_cache_write.
  destruct (json_dumps env result) as [payload|]; [|reflexivity].
  destruct (redis_down env (clock w)); [reflexivity|].
  cbn [redis_client with_cached after_call].
  now rewrite lookup_insert_ne.
Qed.

Lemma cached_after_reads (sort_by : option SortCriterion) (descending : bool)
  (key : string) (w : World) :
  cached key (after_reads sort_by descending w) = cached key w.
Proof. reflexivity. Qed.

(** A request that is not served from its sorted key and returns has
    computed its response from some rows, and ends by trying to cache
    it. *)
Lemma computed_response (env : Env) (sort_by : option SortCriterion) (descending : bool)
  (w w1 : World) (r : ExchangeResponse) :
  redis_down env (clock w) = false ->
  redis_down env (S (clock w)) = false ->
  cached (sort_cache_key sort_by descending) w = None ->
  get_ltc_exchanges env sort_by descending w = (Return r, w1) ->
  exists exchanges w',
    sort_and_rank sort_by descending exchanges = inr (data r) /\
    r = success (data r) /\
    w1 = after_cache_write env (sort_cache_key sort_by descending) r w'.
Proof.
  intros Hup1 Hup2 Hmiss.
  rewrite (get_ltc_exchanges_run env sort_by descending w Hup1 Hup2). cbv zeta.
  rewrite Hmiss.
  destruct (cached base_cache_key w) as [payload|].
  - destruct (json_loads env payload) as [r0|]; [|discriminate].
    destruct (sort_and_rank sort_by descending (data r0)) as [e|ranked] eqn:Hsort;
      [discriminate|].
    intros [= <- <-]. now exists (data r0), (after_reads sort_by descending w).
  - destruct (fetch_exchange_data_from_api env _) as [[exchanges|e] w3]; [|discriminate].
    destruct (sort_and_rank sort_by descending exchanges) as [e|ranked] eqn:Hsort;
      [discriminate|].
    intros [= <- <-]. now eexists exchanges, _.
Qed.

(** X16: a response that has been computed and cached is served again:
    when a request that misses its sorted key returns [r], the payload of
    [r] is accepted by Redis and decodes to [r] again, then the same
    request, sent next, returns [r] after its two cache reads alone. *)
Theorem second_request_from_cache
  (env : Env) (sort_by : option SortCriterion) (descending : bool)
  (w w1 : World) (r : ExchangeResponse) (payload : string) :
  redis_down env (clock w) = false ->
  redis_down env (S (clock w)) = false ->
  cached (sort_cache_key sort_by descending) w = None ->
  get_ltc_exchanges env sort_by descending w = (Return r, w1) ->
  json_dumps env r = Some payload ->
  payload <> "" ->
  json_loads env payload = Some r ->
  redis_down env (pred (clock w1)) = false ->
  redis_down env (clock w1) = false ->
  redis_down env (S (clock w1)) = false ->
  get_ltc_exchanges env sort_by descending w1 =
  (Return r, after_reads sort_by descending w1).
Proof.
  intros Hup1 Hup2 Hmiss Hrun Hdumps Hne Hloads Hwrite Hup3 Hup4.
  destruct (computed_response env sort_by descending w w1 r Hup1 Hup2 Hmiss Hrun)
    as (exchanges & w' & _ & _ & Hw1).
  rewrite (get_ltc_exchanges_run env sort_by descending w1 Hup3 Hup4). cbv zeta.
  assert (Hclock : pred (clock w1) = clock w').
  { rewrite Hw1. unfold after_cache_write. rewrite Hdumps.
    now destruct (redis_down env (clock w')). }
  rewrite Hclock in Hwrite.
  assert (Hhit : cached (sort_cache_key sort_by descending) w1 = Some payload).
  { rewrite Hw1. now apply cached_after_write_eq. }
  now rewrite Hhit, Hloads.
Qed.

Lemma second_request_from_cache_witness :
  let w1 := snd (get_ltc_exchanges Sample.env_up (Some VOLUME) true Sample.world_base_cached) in
  get_ltc_exchanges Sample.env_up (Some VOLUME) true w1 =
  (Return Sample.cached_response, after_reads (Some VOLUME) true w1).
Proof.
  cbv zeta.
  apply (second_request_from_cache Sample.env_up (Some VOLUME) true
           Sample.world_base_cached _ Sample.cached_response "MyEx;Pct");
    try reflexivity.
  discriminate.
Defined.

(** X17: one fetch serves every ordering: after a request that fetched
    the rows and cached them under the base key, a request for another
    ordering that is not cached yet makes no provider request: it sorts
    and ranks the same rows, read back from the base key. *)
Theorem other_ordering_from_base
  (env : Env) (sort_by sort_by' : option SortCriterion) (descending descending' : bool)
  (w w3 : World) (exchanges : list ExchangeData.t) (payload : string) :
  redis_down env (clock w) = false ->
  redis_down env (S (clock w)) = false ->
  cached (sort_cache_key sort_by descending) w = None ->
  cached base_cache_key w = None ->
  fetch_exchange_data_from_api env (after_reads sort_by descending w) = (Return exchanges, w3) ->
  json_dumps env (success exchanges) = Some payload ->
  payload <> "" ->
  json_loads env payload = Some (success exchanges) ->
  redis_down env (clock w3) = false ->
  (sort_by', descending') <> (sort_by, descending) ->
  cached (sort_cache_key sort_by' descending') w = None ->
  let w1 := snd (get_ltc_exchanges env sort_by descending w) in
  redis_down env (clock w1) = false ->
  redis_down env (S (clock w1)) = false ->
  get_ltc_exchanges env sort_by' descending' w1 =
  match sort_and_rank sort_by' descending' exchanges with
  | inr ranked =>
      (Return (success ranked),
       after_cache_write env (sort_cache_key sort_by' descending') (success ranked)
         (after_reads sort_by' descending' w1))
  | inl _ => (Raise (HTTPException 500), after_reads sort_by' descending' w1)
  end.
Proof.
  intros Hup1 Hup2 Hmiss Hbase Hfetch Hdumps Hne Hloads Hwrite Hother Hmiss' w1 Hup3 Hup4.
  destruct (cache_keys_apart sort_by' sort_by descending' descending Hother)
    as [Hkeys Hkey'].
  assert (Hkey : sort_cache_key sort_by descending <> base_cache_key).
  { destruct sort_by as [[]|], descending; discriminate. }
  set (wb := after_cache_write env base_cache_key (success exchanges) w3).
  assert (Hw3 : redis_client w3 = redis_client w).
  { pose proof (holds_fetch env (custom_exchanges w) (redis_client w)
                  (after_reads sort_by descending w) (conj eq_refl eq_refl)) as H.
    rewrite Hfetch in H. apply H. }
  assert (Hb : cached base_cache_key wb = Some payload).
  { now apply cached_after_write_eq. }
  assert (Hk' : cached (sort_cache_key sort_by' descending') wb = None).
  { unfold wb. rewrite cached_after_write_ne by congruence.
    unfold cached. rewrite Hw3. exact Hmiss'. }
  assert (Hw1 : cached base_cache_key w1 = Some payload /\
                cached (sort_cache_key sort_by' descending') w1 = None).
  { unfold w1.
    rewrite (get_ltc_exchanges_run env sort_by descending w Hup1 Hup2). cbv zeta.
    rewrite Hmiss, Hbase, Hfetch. fold wb.
    destruct (sort_and_rank sort_by descending exchanges) as [e|ranked]; cbn [snd].
    - now split.
    - rewrite !cached_after_write_ne by congruence. now split. }
  destruct Hw1 as [Hb1 Hk1].
  rewrite (get_ltc_exchanges_run env sort_by' descending' w1 Hup3 Hup4). cbv zeta.
  rewrite Hk1, Hb1, Hloads. reflexivity.
Qed.

Lemma tickers_status_becomes_500_witness :
  get_ltc_exchanges Cases.env_tickers_429 None false Sample.world =
  (Raise (HTTPException 500),
   after_calls [HttpGet CoinGeckoExchanges; HttpGet CoinGeckoTickers]
     (after_reads None false Sample.world)).
Proof.
  apply (tickers_status_becomes_500 Cases.env_tickers_429 None false Sample.world 429 None);
    try reflexivity.
  - discriminate.
  - discriminate.
Defined.

Lemma metadata_is_optional_witness :
  (exists customs w',
     custom_rows Cases.env_no_metadata (Dict.values (custom_exchanges Sample.world))
       (after_calls [HttpGet CoinGeckoExchanges; HttpGet CoinGeckoTickers] Sample.world)
     = (Return customs, w') /\
     fetch_exchange_data_from_api Cases.env_no_metadata Sample.world
     = (Return (assign_ids 1 (Cases.rows_of [] ++ customs)), w')) /\
  Forall (fun row => ExchangeData.url row = None) (Cases.rows_of []).
Proof.
  destruct (metadata_is_optional Cases.env_no_metadata Sample.world
              Sample.tickers (Cases.rows_of [])) as [Hfetch Hplain].
  - intros H. discriminate H.
  - reflexivity.
  - vm_compute. reflexivity.
  - split; [exact Hfetch|]. apply (Hplain 503 None); [reflexivity | discriminate].
Defined.

Lemma hardcoded_icons_override_witness :
  mapping_get (icon_mapping [ExchangeInfo.Build "hitbtc" (Some "https://provider.example/hitbtc.png") None])
    (Some "hitbtc") = Some "https://coin-images.coingecko.com/markets/images/25/small/hitbtc.png" /\
  mapping_get (icon_mapping [ExchangeInfo.Build "binance" (Some "https://provider.example/binance.png") None])
    (Some "binance") = Some "https://provider.example/binance.png".
Proof.
  split.
  - apply (proj1 (hardcoded_icons_override
                    [ExchangeInfo.Build "hitbtc" (Some "https://provider.example/hitbtc.png") None]
                    "hitbtc")).
    simpl. intuition.
  - rewrite (proj2 (hardcoded_icons_override
                      [ExchangeInfo.Build "binance" (Some "https://provider.example/binance.png") None]
                      "binance")).
    + reflexivity.
    + simpl. intuition discriminate.
Defined.

Lemma other_ordering_from_base_witness :
  let w1 := snd (get_ltc_exchanges Cases.env_customs_only None false Sample.world) in
  get_ltc_exchanges Cases.env_customs_only (Some EXCHANGE) false w1 =
  (Return Sample.cached_response,
   after_cache_write Cases.env_customs_only (sort_cache_key (Some EXCHANGE) false)
     Sample.cached_response (after_reads (Some EXCHANGE) false w1)).
Proof.
  cbv zeta.
  apply (other_ordering_from_base Cases.env_customs_only None (Some EXCHANGE) false false
           Sample.world
           (snd (fetch_exchange_data_from_api Cases.env_customs_only
                   (after_reads None false Sample.world)))
           (data Sample.cached_response) "MyEx;Pct");
    try reflexivity.
  - discriminate.
  - discriminate.
Defined.

(** ** The order-book depth *)

(** [get_current_ltc_price] never raises: it makes one request and
    returns the value, or 0. *)
Lemma get_current_ltc_price_run (providers : Providers) (w : World) :
  get_current_ltc_price providers w =
  (Return match coingecko_simple_price providers (clock w) with
          | Reply code (Some v) => if code =? 200 then v else Some (Int 0)
          | _ => Some (Int 0)
          end, after_tick w).
Proof.
  cbv beta iota zeta delta
    [get_current_ltc_price try_except bind requests_get_at tick_call ret raise].
  destruct (coingecko_simple_price providers (clock w)) as [|code body]; [reflexivity|].
  cbv beta iota. destruct (code =? 200); cbn [negb]; now destruct body.
Qed.

Lemma get_current_ltc_price_unavailable (providers : Providers) (w : World) :
  price_unavailable providers (clock w) ->
  get_current_ltc_price providers w = (Return (Some (Int 0)), after_tick w).
Proof.
  intros H. rewrite get_current_ltc_price_run. unfold price_unavailable in H.
  destruct (coingecko_simple_price providers (clock w)) as [|code body]; [reflexivity|].
  destruct H as [H| ->]; [|reflexivity].
  apply Z.eqb_neq in H. rewrite H. now destruct body.
Qed.

(** X18: the statuses of the depth endpoint.  It knows Binance only, by
    a name compared without regard to case: for any other exchange it
    raises the 404 [HTTPException] and calls no service.  When Binance
    answers the order-book request with a status other than 200, it
    raises an [HTTPException] with that very status, and the current
    price is not requested: one call has been made. *)
Theorem get_ltc_depth_statuses (providers : Providers) (exchange : string) (w : World) :
  (PyStr.lower exchange <> "binance" ->
   get_ltc_depth providers exchange w = (Raise (HTTPException 404), w)) /\
  (forall code body,
     PyStr.lower exchange = "binance" ->
     binance_depth providers (clock w) = Reply code body ->
     code <> 200 ->
     get_ltc_depth providers exchange w = (Raise (HTTPException code), after_tick w)).
Proof.
  split.
  - intros H. apply String.eqb_neq in H.
    unfold get_ltc_depth, try_except_http, try_except, bind. now rewrite H.
  - intros code body Hname Hreply Hcode. apply Z.eqb_neq in Hcode.
    unfold get_ltc_depth. rewrite Hname. cbn [String.eqb Ascii.eqb Bool.eqb].
    cbv beta iota zeta delta
      [try_except_http try_except bind requests_get_at tick_call ret raise].
    now rewrite Hreply, Hcode.
Qed.

(** X19: a side of the order book is read up to the first level beyond
    the bound: that level ends the loop, and nothing listed after it
    counts, whether it is within the bound, beyond it or malformed. *)
Theorem depth_sum_stops (within : float -> bool) (l1 l2 : list (scalar * scalar))
  (price volume : scalar) (p acc : float) :
  scalar_to_float price = inr p ->
  within p = false ->
  depth_sum within (l1 ++ (price, volume) :: l2) acc = depth_sum within l1 acc.
Proof.
  intros Hp Hout. revert acc. induction l1 as [|[p1 v1] l1 IH]; intros acc; simpl.
  - unfold and_then. now rewrite Hp, Hout.
  - unfold and_then. destruct (scalar_to_float p1) as [e|x]; [reflexivity|].
    destruct (within x); [|reflexivity].
    destruct (scalar_to_float v1) as [e|y]; [reflexivity|]. apply IH.
Qed.

Lemma get_ltc_depth_statuses_witness :
  get_ltc_depth Books.providers_up "Kraken" Sample.world =
    (Raise (HTTPException 404), Sample.world) /\
  get_ltc_depth Books.providers_busy "Binance" Sample.world =
    (Raise (HTTPException 429), after_tick Sample.world).
Proof.
  split.
  - apply (proj1 (get_ltc_depth_statuses Books.providers_up "Kraken" Sample.world)).
    discriminate.
  - apply (proj2 (get_ltc_depth_statuses Books.providers_busy "Binance" Sample.world)
             429 None).
    + reflexivity.
    + reflexivity.
    + discriminate.
Defined.

Lemma depth_sum_stops_witness :
  depth_sum (fun p => PrimFloat.leb 98%float p)
    ([(Str "100.00", Str "2.0"); (Str "99.00", Str "1.0")]
       ++ (Str "97.00", Str "5.0") :: [(Str "99.50", Str "7.0")]) 0%float =
  depth_sum (fun p => PrimFloat.leb 98%float p)
    [(Str "100.00", Str "2.0"); (Str "99.00", Str "1.0")] 0%float.
Proof.
  apply (depth_sum_stops (fun p => PrimFloat.leb 98%float p)
           [(Str "100.00", Str "2.0"); (Str "99.00", Str "1.0")] [(Str "99.50", Str "7.0")]
           (Str "97.00") (Str "5.0") 97%float 0%float).
  - reflexivity.
  - reflexivity.
Defined.

(** X20: the depth endpoint does not notice that the current price cannot
    be had: it takes the price for 0, so both bounds are 0, and it answers
    with success and the price 0: the bids priced 0 or more and the asks
    priced 0 or less are summed. *)
Theorem get_ltc_depth_price_unavailable (providers : Providers) (exchange : string)
  (w : World) (bids asks : list (scalar * scalar)) (below above : float) (minus plus : Z) :
  PyStr.lower exchange = "binance" ->
  binance_depth providers (clock w) = Reply 200 (Some (OrderBook.Build (Some bids) (Some asks))) ->
  price_unavailable providers (S (clock w)) ->
  depth_sum (fun p => PrimFloat.leb 0%float p) bids 0%float = inr below ->
  depth_sum (fun p => PrimFloat.leb p 0%float) asks 0%float = inr above ->
  PyFloat.floor below = inr minus ->
  PyFloat.floor above = inr plus ->
  get_ltc_depth providers exchange w =
  (Return {| depth_status := "success";
             depth_data := DepthData.Build exchange (Int 0)
                             ("$" ++ PyStr.format_int_comma plus)
                             ("$" ++ PyStr.format_int_comma minus) |},
   after_tick (after_tick w)).
Proof.
  intros Hname Hbook Hprice Hbids Hasks Hminus Hplus.
  unfold get_ltc_depth. rewrite Hname. cbn [String.eqb Ascii.eqb Bool.eqb].
  unfold try_except_http, try_except.
  cbv beta iota zeta delta [requests_get_at tick_call bind ret raise].
  rewrite Hbook. cbn [Z.eqb Pos.eqb negb]. cbv beta iota.
  rewrite (get_current_ltc_price_unavailable providers (after_tick w) Hprice).
  cbv beta iota.
  change (number_times (Int 0) 1.02%float) with (@inr PyFloat.float_error float 0%float).
  change (number_times (Int 0) 0.98%float) with (@inr PyFloat.float_error float 0%float).
  cbv beta iota zeta delta [bind lift_float ret raise OrderBook.bids OrderBook.asks].
  rewrite Hbids, Hasks.
  rewrite (format_money_run _ _ _ Hplus), (format_money_run _ _ _ Hminus).
  reflexivity.
Qed.

Lemma get_ltc_depth_price_unavailable_witness :
  get_ltc_depth Books.providers_no_price "binance" Sample.world =
  (Return {| depth_status := "success";
             depth_data := DepthData.Build "binance" (Int 0) "$0" "$1,480" |},
   after_tick (after_tick Sample.world)).
Proof.
  apply (get_ltc_depth_price_unavailable Books.providers_no_price "binance" Sample.world
           [ (Str "100.00", Str "2.0"); (Str "99.00", Str "1.0");
             (Str "97.00", Str "5.0"); (Str "99.50", Str "7.0") ]
           [ (Str "100.50", Str "1.0"); (Str "101.50", Str "2.0");
             (Str "103.00", Str "4.0") ]
           1480.5%float 0%float 1480 0).
  - reflexivity.
  - reflexivity.
  - left. discriminate.
  - vm_compute. reflexivity.
  - vm_compute. reflexivity.
  - reflexivity.
  - reflexivity.
Defined.

(** ** The CoinMarketCap listing *)

Lemma get_ltc_exchanges_cmc_no_listing (providers : Providers) (w : World) :
  no_listing (coinmarketcap_market_pairs providers (clock w)) ->
  get_ltc_exchanges_cmc providers w = (Raise (HTTPException 500), after_tick w).
Proof.
  intros H. unfold get_ltc_exchanges_cmc.
  cbv beta iota zeta delta [try_except bind requests_get_at tick_call ret raise].
  destruct (coinmarketcap_market_pairs providers (clock w)) as [|code body]; [reflexivity|].
  cbv beta iota. destruct H as [H| ->].
  - apply Z.eqb_neq in H. now rewrite H.
  - now destruct (code =? 200).
Qed.

Lemma market_pair_rows_lookup (pairs : list MarketPair.t) (index : Z)
  (rows : list ExchangeData.t) :
  market_pair_rows index pairs = inr rows ->
  length rows = length (usdt_pairs pairs) /\
  forall (n : nat) (x : ExchangeData.t), rows !! n = Some x ->
    ExchangeData.id x = index + Z.of_nat n /\
    exists market_pair, usdt_pairs pairs !! n = Some market_pair /\
                 ExchangeData.exchange x = MarketPair.exchange_name market_pair.
Proof.
  revert index rows. induction pairs as [|market_pair pairs IH]; intros index rows; simpl.
  - intros [= <-]. split; [reflexivity|]. intros n x. now rewrite lookup_nil.
  - destruct (String.eqb (MarketPair.quote_symbol market_pair) "USDT"); [|apply IH].
    unfold and_then.
    destruct (market_pair_row index market_pair) as [e|row] eqn:Hrow; [discriminate|].
    destruct (market_pair_rows (index + 1) pairs) as [e|rows'] eqn:Hrows; [discriminate|].
    intros [= <-]. destruct (IH _ _ Hrows) as [Hlen Hrest]. split; [simpl; now rewrite Hlen|].
    intros [|n] x; simpl.
    + intros [= <-]. unfold market_pair_row, and_then in Hrow.
      destruct (number_to_float _); [discriminate|].
      destruct (depth_estimate _ _); [discriminate|].
      destruct (depth_estimate _ _); [discriminate|].
      destruct (number_floor _); [discriminate|].
      injection Hrow as <-. simpl. split; [lia | now exists market_pair].
    + intros Hx. destruct (Hrest n x Hx) as [Hid Hpair]. split; [lia | exact Hpair].
Qed.

(** ** Rendering an amount and reading it back *)

Lemma remove_char_app (c : ascii) (s t : string) :
  PyStr.remove_char c (s ++ t) = PyStr.remove_char c s ++ PyStr.remove_char c t.
Proof.
  induction s as [|a s IH]; simpl; [reflexivity|].
  destruct (Ascii.eqb a c); simpl; now rewrite IH.
Qed.

Lemma remove_char_list (c : ascii) (l : list ascii) :
  PyStr.remove_char c (string_of_list_ascii l) =
  string_of_list_ascii (List.filter (fun a => negb (Ascii.eqb a c)) l).
Proof.
  induction l as [|a l IH]; simpl; [reflexivity|].
  destruct (Ascii.eqb a c); simpl; now rewrite IH.
Qed.

Lemma filter_all {A} (f : A -> bool) (l : list A) :
  List.Forall (fun a => f a = true) l -> List.filter f l = l.
Proof.
  induction 1 as [|a l Ha _ IH]; simpl; [reflexivity|]. now rewrite Ha, IH.
Qed.

Lemma filter_rev {A} (f : A -> bool) (l : list A) :
  List.filter f (rev l) = rev (List.filter f l).
Proof.
  induction l as [|a l IH]; simpl; [reflexivity|].
  rewrite List.filter_app, IH. simpl. destruct (f a); simpl; [reflexivity|].
  now rewrite app_nil_r.
Qed.

Lemma group3_cons (a b c d : ascii) (rest : list ascii) :
  PyStr.group3 (a :: b :: c :: d :: rest) =
  ([a; b; c; ","%char] ++ PyStr.group3 (d :: rest))%list.
Proof. reflexivity. Qed.

(** The commas of [group3] are all it adds. *)
Lemma group3_filter (l : list ascii) :
  List.filter (fun a => negb (Ascii.eqb a ",")) (PyStr.group3 l) =
  List.filter (fun a => negb (Ascii.eqb a ",")) l.
Proof.
  remember (length l) as n eqn:Hn. revert l Hn.
  induction n as [n IH] using lt_wf_ind. intros l Hn.
  destruct l as [|a [|b [|c [|d rest]]]]; try reflexivity.
  rewrite group3_cons.
  change (a :: b :: c :: d :: rest) with ([a; b; c] ++ d :: rest)%list.
  rewrite !List.filter_app.
  rewrite (IH (length (d :: rest))) with (l := d :: rest);
    [|subst n; simpl; lia | reflexivity].
  reflexivity.
Qed.

Lemma digit_not_comma (a c : ascii) :
  PyFloat.is_digit a = true -> PyFloat.is_digit c = false -> negb (Ascii.eqb a c) = true.
Proof.
  intros Ha Hc. destruct (Ascii.eqb_spec a c) as [->|]; [congruence | reflexivity].
Qed.

Lemma string_of_uint_digits (d : Decimal.uint) :
  digit_chars (list_ascii_of_string (NilEmpty.string_of_uint d)).
Proof. induction d; simpl; constructor; auto. Qed.

Lemma digits_chars (n : N) : digit_chars (list_ascii_of_string (PyStr.digits n)).
Proof. apply string_of_uint_digits. Qed.

Lemma digits_nonempty (n : N) : PyStr.digits n <> "".
Proof.
  unfold PyStr.digits. destruct n as [|p]; [discriminate|].
  simpl. pose proof (DecimalPos.Unsigned.to_uint_nonnil p) as H.
  destruct (Pos.to_uint p); [contradiction | discriminate..].
Qed.

(** Removing the commas of a grouped run of digits gives the digits
    back. *)
Lemma remove_group_thousands (s : string) :
  digit_chars (list_ascii_of_string s) ->
  PyStr.remove_char "," (PyStr.group_thousands s) = s.
Proof.
  intros Hs. unfold PyStr.group_thousands.
  rewrite remove_char_list, filter_rev, group3_filter, <- filter_rev, rev_involutive.
  rewrite filter_all; [apply string_of_list_ascii_of_string|].
  eapply List.Forall_impl; [|exact Hs].
  intros a Ha. now apply digit_not_comma.
Qed.

Lemma remove_char_digits (c : ascii) (s : string) :
  PyFloat.is_digit c = false ->
  digit_chars (list_ascii_of_string s) -> PyStr.remove_char c s = s.
Proof.
  intros Hc Hs. rewrite <- (string_of_list_ascii_of_string s) at 1.
  rewrite remove_char_list, filter_all; [apply string_of_list_ascii_of_string|].
  eapply List.Forall_impl; [|exact Hs].
  intros a Ha. now apply digit_not_comma.
Qed.

(** The text of an amount without its dollar sign and commas: the sign
    and the digits. *)
Lemma money_text (n : Z) :
  PyStr.remove_char "," (PyStr.remove_char "$" ("$" ++ PyStr.format_int_comma n)) =
  (if n <? 0 then "-" else "") ++ PyStr.digits (Z.abs_N n).
Proof.
  change ("$" ++ PyStr.format_int_comma n) with (String "$" (PyStr.format_int_comma n)).
  cbn [PyStr.remove_char]. change (Ascii.eqb "$" "$") with true. cbv iota.
  unfold PyStr.format_int_comma.
  rewrite !remove_char_app.
  assert (Hg : PyStr.remove_char "$" (PyStr.group_thousands (PyStr.digits (Z.abs_N n)))
          = PyStr.group_thousands (PyStr.digits (Z.abs_N n))).
  { unfold PyStr.group_thousands. rewrite remove_char_list. f_equal.
    apply filter_all. apply List.Forall_rev.
    assert (H : forall l, digit_chars l ->
                List.Forall (fun a => negb (Ascii.eqb a "$") = true) (PyStr.group3 l)).
    { intros l. remember (length l) as k eqn:Hk. revert l Hk.
      induction k as [k IH] using lt_wf_ind. intros l Hk Hl.
      assert (Hd : List.Forall (fun a => negb (Ascii.eqb a "$") = true) l).
      { eapply List.Forall_impl; [|exact Hl]. intros a Ha. now apply digit_not_comma. }
      destruct l as [|a [|b [|c [|d rest]]]]; try exact Hd.
      rewrite group3_cons. cbn [app].
      inversion Hd as [|? ? Ha Hd1]; subst. inversion Hd1 as [|? ? Hb Hd2]; subst.
      inversion Hd2 as [|? ? Hc Hd3]; subst.
      repeat (constructor; [assumption|]). constructor; [reflexivity|].
      apply (IH (length (d :: rest))); [simpl; lia | reflexivity|].
      inversion Hl as [|? ? _ Hl1]; subst. inversion Hl1 as [|? ? _ Hl2]; subst.
      now inversion Hl2. }
    apply H. apply List.Forall_rev. apply digits_chars. }
  rewrite Hg, remove_group_thousands by apply digits_chars.
  now destruct (n <? 0).
Qed.

Lemma list_ascii_app (s t : string) :
  list_ascii_of_string (s ++ t) = (list_ascii_of_string s ++ list_ascii_of_string t)%list.
Proof. induction s as [|a s IH]; simpl; [reflexivity | now rewrite IH]. Qed.

(** What [float()] sees at the head of a run of digits: no space, no
    sign, no letter. *)
Lemma digit_head (a : ascii) :
  PyFloat.is_digit a = true ->
  PyFloat.is_space a = false /\
  (forall l, PyFloat.scan_sign (a :: l) = (false, a :: l)) /\
  (forall s, let word := PyStr.ascii_lower (String a s) in
             String.eqb word "inf" || String.eqb word "infinity" = false /\
             String.eqb word "nan" = false).
Proof.
  destruct a as [b0 b1 b2 b3 b4 b5 b6 b7].
  destruct b0, b1, b2, b3, b4, b5, b6, b7; try discriminate; intros _;
    (split; [reflexivity | split; [reflexivity | split; reflexivity]]).
Qed.

Lemma digit_ascii (a : ascii) : PyFloat.is_digit a = true -> PyFloat.is_ascii a = true.
Proof.
  destruct a as [b0 b1 b2 b3 b4 b5 b6 b7].
  destruct b0, b1, b2, b3, b4, b5, b6, b7; try discriminate; reflexivity.
Qed.

Lemma to_ascii_plain (l : list ascii) :
  List.Forall (fun c => PyFloat.is_ascii c = true) l -> PyFloat.to_ascii l = l.
Proof.
  intros Hl. unfold PyFloat.to_ascii.
  replace (forallb PyFloat.is_ascii l) with true; [reflexivity|].
  symmetry. apply forallb_forall. now apply List.Forall_forall.
Qed.

Lemma strip_plain (l : list ascii) :
  List.Forall (fun a => PyFloat.is_space a = false) l -> PyFloat.strip l = l.
Proof.
  intros Hl. unfold PyFloat.strip.
  assert (Hlstrip : forall l', List.Forall (fun a => PyFloat.is_space a = false) l' ->
                               PyFloat.lstrip l' = l').
  { intros l' H. destruct H as [|a l' Ha _]; simpl; [reflexivity | now rewrite Ha]. }
  rewrite (Hlstrip l Hl), (Hlstrip (rev l) (List.Forall_rev Hl)).
  apply rev_involutive.
Qed.

Lemma scan_digits_all (l : list ascii) (acc cnt : Z) :
  digit_chars l ->
  PyFloat.scan_digits l acc cnt = (digits_value l acc, cnt + Z.of_nat (length l), []).
Proof.
  intros Hl. revert acc cnt. induction Hl as [|a l Ha _ IH]; intros acc cnt; simpl.
  - now rewrite Z.add_0_r.
  - rewrite Ha, IH. unfold digits_value. cbn [fold_left length].
    replace (cnt + 1 + Z.of_nat (length l)) with (cnt + Z.of_nat (S (length l))) by lia.
    reflexivity.
Qed.

Ltac digit_step :=
  cbn [NilEmpty.string_of_uint list_ascii_of_string fold_left Pos.of_uint_acc Pos.of_uint];
  match goal with
  | |- context [PyFloat.digit_val ?c] =>
      let x := eval vm_compute in (PyFloat.digit_val c) in
      change (PyFloat.digit_val c) with x
  end.

Lemma digits_value_acc (d : Decimal.uint) (acc : positive) :
  digits_value (list_ascii_of_string (NilEmpty.string_of_uint d)) (Zpos acc) =
  Zpos (Pos.of_uint_acc d acc).
Proof.
  revert acc. unfold digits_value.
  induction d; intros acc; [reflexivity|..]; digit_step;
    match goal with
    | |- fold_left _ _ ?v = Zpos (Pos.of_uint_acc _ ?p) =>
        replace v with (Zpos p) by lia
    end; apply IHd.
Qed.

Lemma digits_value_uint (d : Decimal.uint) :
  digits_value (list_ascii_of_string (NilEmpty.string_of_uint d)) 0 = Z.of_N (Pos.of_uint d).
Proof.
  unfold digits_value.
  induction d; [reflexivity|..]; digit_step; [exact IHd|..];
    cbn [Z.of_N];
    match goal with
    | |- fold_left _ _ ?v = Zpos (Pos.of_uint_acc _ ?p) =>
        replace v with (Zpos p) by lia
    end; apply digits_value_acc.
Qed.

Lemma digits_value_digits (n : N) :
  digits_value (list_ascii_of_string (PyStr.digits n)) 0 = Z.of_N n.
Proof.
  unfold PyStr.digits. rewrite digits_value_uint.
  change (Pos.of_uint (N.to_uint n)) with (N.of_uint (N.to_uint n)).
  now rewrite DecimalN.Unsigned.of_to.
Qed.

(** [float()] of a sign and a run of digits: the number they spell. *)
Lemma of_string_digits (s : bool) (n : N) :
  PyFloat.of_string ((if s then "-" else "") ++ PyStr.digits n) =
  inr (PyFloat.of_decimal s (Z.of_N n) 0).
Proof.
  pose proof (digits_chars n) as Hd. pose proof (digits_nonempty n) as Hne.
  pose proof (digits_value_digits n) as Hv.
  unfold PyFloat.of_string. rewrite list_ascii_app.
  destruct (list_ascii_of_string (PyStr.digits n)) as [|a l] eqn:Hl.
  { exfalso. apply Hne. rewrite <- (string_of_list_ascii_of_string (PyStr.digits n)).
    now rewrite Hl. }
  inversion Hd as [|? ? Ha Hl']; subst.
  destruct (digit_head a Ha) as (Hspace & Hsign & Hword).
  assert (Hplain : List.Forall (fun c => PyFloat.is_space c = false) (a :: l)).
  { eapply List.Forall_impl; [|exact Hd]. intros c Hc. now apply (digit_head c Hc). }
  rewrite to_ascii_plain.
  2:{ apply List.Forall_app. split; [destruct s; repeat constructor|].
      eapply List.Forall_impl; [|exact Hd]. exact digit_ascii. }
  assert (Hscan : PyFloat.scan_sign
                    (PyFloat.strip (list_ascii_of_string (if s then "-" else "") ++ a :: l))
                  = (s, a :: l)).
  { destruct s; simpl.
    - rewrite (strip_plain ("-"%char :: a :: l)); [reflexivity|].
      now constructor.
    - rewrite strip_plain by assumption. apply Hsign. }
  rewrite Hscan. cbn [string_of_list_ascii].
  destruct (Hword (string_of_list_ascii l)) as [Hinf Hnan]. cbv zeta in Hinf, Hnan.
  rewrite Hinf, Hnan.
  rewrite (scan_digits_all (a :: l) 0 0 Hd). rewrite Hv.
  cbn [length]. 
  replace (0 + Z.of_nat (S (length l)) =? 0) with false by (symmetry; apply Z.eqb_neq; lia).
  cbn [andb PyFloat.scan_exponent]. reflexivity.
Qed.

(** The sort key of an amount rendered as money: the number itself. *)
Lemma money_key (n : Z) :
  float_key (PyStr.remove_char "," (PyStr.remove_char "$" ("$" ++ PyStr.format_int_comma n))) =
  inr (KFloat (PyFloat.of_decimal (n <? 0) (Z.abs n) 0)).
Proof.
  rewrite money_text. unfold float_key. rewrite of_string_digits.
  now rewrite N2Z.inj_abs_N.
Qed.

(** ** Conversions never give NaN *)

Lemma shr_1_nonneg (mrs : shr_record) : 0 <= shr_m mrs -> 0 <= shr_m (shr_1 mrs).
Proof.
  destruct mrs as [m r s]. simpl. intros Hm.
  destruct m as [|p|p]; [easy| |lia]. destruct p; simpl; lia.
Qed.

Lemma iter_shr_1_nonneg (p : positive) (mrs : shr_record) :
  0 <= shr_m mrs -> 0 <= shr_m (SpecFloat.iter_pos shr_1 p mrs).
Proof.
  revert mrs. induction p as [p IH|p IH|]; intros mrs Hm; simpl.
  - apply IH, IH. now apply shr_1_nonneg.
  - apply IH. now apply IH.
  - now apply shr_1_nonneg.
Qed.

Lemma shr_nonneg (mrs : shr_record) (e n : Z) :
  0 <= shr_m mrs -> 0 <= shr_m (fst (shr mrs e n)).
Proof.
  intros Hm. unfold shr. destruct n; simpl; try assumption.
  now apply iter_shr_1_nonneg.
Qed.

Lemma shr_fexp_nonneg (m e : Z) (l : location) :
  0 <= m -> 0 <= shr_m (fst (shr_fexp prec emax m e l)).
Proof.
  intros Hm. unfold shr_fexp. apply shr_nonneg.
  now destruct l as [|[]].
Qed.

Lemma binary_round_aux_not_nan (sx : bool) (mx ex : Z) (lx : location) :
  0 <= mx -> binary_round_aux prec emax sx mx ex lx <> S754_nan.
Proof.
  intros Hm. unfold binary_round_aux.
  pose proof (shr_fexp_nonneg mx ex lx Hm) as H1.
  destruct (shr_fexp prec emax mx ex lx) as [mrs' e']. cbn [fst] in H1.
  assert (H2 : 0 <= round_nearest_even (shr_m mrs') (loc_of_shr_record mrs')).
  { unfold round_nearest_even. destruct (loc_of_shr_record mrs') as [|[]]; try lia.
    destruct (Z.even (shr_m mrs')); lia. }
  pose proof (shr_fexp_nonneg _ e' loc_Exact H2) as H3.
  destruct (shr_fexp prec emax _ e' loc_Exact) as [mrs'' e'']. cbn [fst] in H3.
  destruct (shr_m mrs'') as [|p|p]; [discriminate| |lia].
  now destruct (e'' <=? emax - prec).
Qed.

Lemma binary_round_not_nan (sx : bool) (mx : positive) (ex : Z) :
  binary_round prec emax sx mx ex <> S754_nan.
Proof.
  unfold binary_round. destruct (shl_align _ _ _) as [mz ez].
  now apply binary_round_aux_not_nan.
Qed.

Lemma binary_normalize_not_nan (m e : Z) (szero : bool) :
  binary_normalize prec emax m e szero <> S754_nan.
Proof.
  unfold binary_normalize. destruct m; [discriminate|apply binary_round_not_nan..].
Qed.

(** The double of a specification float that is no NaN is no NaN. *)
Lemma SF2Prim_not_nan (sf : spec_float) :
  sf <> S754_nan -> Prim2SF (SF2Prim sf) <> S754_nan.
Proof.
  intros Hsf. destruct sf as [[]|[]| |s m e]; try discriminate; try contradiction.
  unfold SF2Prim.
  assert (H : Prim2SF (Z.ldexp (of_uint63 (Uint63.of_Z (Z.pos m))) e) <> S754_nan).
  { rewrite FloatLemmas.Z_ldexp_spec, of_uint63_spec. unfold SFldexp.
    pose proof (binary_normalize_not_nan (Uint63.to_Z (Uint63.of_Z (Z.pos m))) 0 false) as Hn.
    destruct (binary_normalize prec emax _ 0 false); try assumption.
    apply binary_round_not_nan. }
  destruct s; [|exact H].
  rewrite opp_spec. now destruct (Prim2SF _).
Qed.

Lemma of_decimal_not_nan (s : bool) (n e : Z) :
  0 <= n -> Prim2SF (PyFloat.of_decimal s n e) <> S754_nan.
Proof.
  intros Hn. unfold PyFloat.of_decimal.
  destruct (n =? 0); [now destruct s|].
  destruct (Z.leb_spec 0 e) as [He|He].
  - apply SF2Prim_not_nan, binary_normalize_not_nan.
  - unfold PyFloat.of_ratio. apply SF2Prim_not_nan, binary_round_aux_not_nan.
    apply Z.div_pos; [|apply Z.pow_pos_nonneg; lia].
    apply Z.mul_nonneg_nonneg; [assumption | apply Z.pow_nonneg; lia].
Qed.

Lemma key_eq_float_refl (x : float) :
  Prim2SF x <> S754_nan -> key_eq (KFloat x) (KFloat x) = true.
Proof.
  intros Hx. rewrite key_eq_cmp. unfold key_cmp, key_code.
  destruct (float_code (Prim2SF x)) as [c|] eqn:Hc.
  - cbn [Nat.eqb]. now rewrite lex_refl.
  - destruct (Prim2SF x) as [[]|[]| |[] m e]; try discriminate Hc. contradiction.
Qed.

Lemma of_int_of_decimal (n : Z) (x : float) :
  PyFloat.of_int n = inr x -> PyFloat.of_decimal (n <? 0) (Z.abs n) 0 = x.
Proof.
  unfold PyFloat.of_int, PyFloat.of_decimal. intros H.
  destruct (Z.eqb_spec (Z.abs n) 0) as [Hz|Hz].
  - assert (n = 0) by lia. subst n. simpl in H. now injection H as <-.
  - replace ((if n <? 0 then -1 else 1) * (Z.abs n * 10 ^ 0)) with n
      by (destruct (Z.ltb_spec n 0); lia).
    cbn [Z.leb Z.compare].
    destruct (binary_normalize prec emax n 0 false); try discriminate; now injection H as <-.
Qed.

(** X21: an amount survives its rendering: the sort key read back from
    the text [f"${n:,}"] of an integer [n], with the dollar sign and the
    commas removed, is the number [float(n)]; it is never NaN. *)
Theorem money_round_trip (c : SortCriterion) (x : ExchangeData.t) (n : Z) (v : float) :
  by_amount c = true ->
  amount_of c x = "$" ++ PyStr.format_int_comma n ->
  PyFloat.of_int n = inr v ->
  sort_key_of c x = inr (KFloat v) /\ key_eq (KFloat v) (KFloat v) = true.
Proof.
  intros Hc Hx Hv.
  assert (Hkey : sort_key_of c x = inr (KFloat v)).
  { destruct c; try discriminate; simpl in Hx |- *; rewrite Hx, money_key;
      now rewrite (of_int_of_decimal n v Hv). }
  split; [exact Hkey|].
  apply key_eq_float_refl. rewrite <- (of_int_of_decimal n v Hv).
  apply of_decimal_not_nan. lia.
Qed.

Lemma money_round_trip_witness :
  sort_key_of VOLUME Sample.fixed = inr (KFloat 1234567%float) /\
  key_eq (KFloat 1234567%float) (KFloat 1234567%float) = true.
Proof.
  apply (money_round_trip VOLUME Sample.fixed 1234567 1234567%float); reflexivity.
Defined.

(** The key of a rendered amount can always be computed and is a
    number, whatever the size of the amount. *)
Lemma money_sortable (c : SortCriterion) (x : ExchangeData.t) :
  by_amount c = true -> money (amount_of c x) ->
  exists k, sort_key_of c x = inr k /\ key_eq k k = true.
Proof.
  intros Hc [n Hn].
  exists (KFloat (PyFloat.of_decimal (n <? 0) (Z.abs n) 0)). split.
  - destruct c; try discriminate; simpl in Hn |- *; now rewrite Hn, money_key.
  - apply key_eq_float_refl, of_decimal_not_nan. lia.
Qed.

Lemma amounts_rendered_sortable (c : SortCriterion) (l : list ExchangeData.t) :
  by_amount c = true -> List.Forall amounts_rendered l -> sortable c l.
Proof.
  intros Hc Hl. unfold sortable. eapply List.Forall_impl; [|exact Hl].
  intros x (Hp & Hm & Hv). apply money_sortable; [assumption|].
  destruct c; try discriminate; assumption.
Qed.

(** ** Listings that can always be sorted *)

Lemma ticker_row_amounts (icons urls : gmap string (option string)) (ticker : Ticker.t)
  (row : ExchangeData.t) :
  ticker_row icons urls ticker = inr row -> amounts_rendered row.
Proof.
  unfold ticker_row, and_then.
  destruct (depth_estimate _ _) as [|plus]; [discriminate|].
  destruct (depth_estimate _ _) as [|minus]; [discriminate|].
  destruct (number_to_float _); [discriminate|].
  destruct (number_floor _) as [|volume]; [discriminate|].
  destruct (number_to_float _); [discriminate|].
  intros [= <-]. repeat split; simpl; eexists; reflexivity.
Qed.

Lemma ticker_row_total (icons urls icons' urls' : gmap string (option string))
  (ticker : Ticker.t) (row : ExchangeData.t) :
  ticker_row icons urls ticker = inr row ->
  exists row', ticker_row icons' urls' ticker = inr row'.
Proof.
  unfold ticker_row, and_then.
  destruct (depth_estimate _ _) as [|plus]; [discriminate|].
  destruct (depth_estimate _ _) as [|minus]; [discriminate|].
  destruct (number_to_float _); [discriminate|].
  destruct (number_floor _) as [|volume]; [discriminate|].
  destruct (number_to_float _); [discriminate|].
  intros _. now eexists.
Qed.

(** Whether the rows can be built depends on the numbers of the tickers
    alone; the rows are as many as the USDT tickers, and their amounts
    are renderings. *)
Lemma ticker_rows_total (icons urls icons' urls' : gmap string (option string))
  (tickers : list Ticker.t) (rows : list ExchangeData.t) :
  ticker_rows icons urls tickers = inr rows ->
  exists rows',
    ticker_rows icons' urls' tickers = inr rows' /\
    length rows' = length (List.filter is_usdt tickers) /\
    List.Forall amounts_rendered rows'.
Proof.
  revert rows. induction tickers as [|ticker tickers IH]; intros rows; simpl.
  - intros _. exists []. repeat split. constructor.
  - unfold is_usdt at 1. destruct (String.eqb (Ticker.target ticker) "USDT"); [|apply IH].
    unfold and_then.
    destruct (ticker_row icons urls ticker) as [|row] eqn:Hrow; [discriminate|].
    destruct (ticker_rows icons urls tickers) as [|rows1] eqn:Hrows; [discriminate|].
    intros _. destruct (ticker_row_total _ _ icons' urls' _ _ Hrow) as [row' Hrow'].
    destruct (IH _ eq_refl) as (rows' & Hrows' & Hlen & Hall).
    exists (row' :: rows'). rewrite Hrow', Hrows'. split; [reflexivity|].
    split; [simpl; now rewrite Hlen|].
    constructor; [exact (ticker_row_amounts _ _ _ _ Hrow') | exact Hall].
Qed.

Lemma custom_rows_amounts (env : Env) (customs rows : list ExchangeData.t) (w w' : World) :
  List.Forall amounts_rendered customs ->
  custom_rows env customs w = (Return rows, w') ->
  List.Forall amounts_rendered rows /\ length rows = length customs.
Proof.
  intros Hall. revert rows w w'. induction Hall as [|c customs Hc _ IH]; intros rows w w'; simpl.
  - intros [= <- <-]. split; [constructor | reflexivity].
  - unfold bind at 1. rewrite merged_price_run.
    destruct (ExchangeData.price_percent c); cbv zeta; cbv beta iota;
      unfold bind;
      match goal with
      | |- context [custom_rows env customs ?w0] =>
          destruct (custom_rows env customs w0) as [[rows1|e] w1] eqn:Hrun
      end; try discriminate;
      intros [= <- <-]; destruct (IH _ _ _ Hrun) as [Hrows Hlen];
      (split; [constructor; [exact Hc | exact Hrows] | simpl; now rewrite Hlen]).
Qed.

Lemma assign_ids_amounts (l : list ExchangeData.t) (i : Z) :
  List.Forall amounts_rendered l -> List.Forall amounts_rendered (assign_ids i l).
Proof.
  intros Hl. revert i. induction Hl as [|x l Hx _ IH]; intros i; simpl; constructor; auto.
Qed.

(** The fetch succeeds as soon as the tickers request does and the
    numbers of the tickers can be rendered. *)
Lemma fetch_exchange_data_from_api_returns (env : Env) (w : World)
  (tickers : list Ticker.t) (rows0 : list ExchangeData.t) :
  metadata_answered (coingecko_exchanges env (clock w)) ->
  coingecko_tickers env (S (clock w)) = Reply 200 (Some tickers) ->
  ticker_rows ∅ ∅ tickers = inr rows0 ->
  List.Forall amounts_rendered (Dict.values (custom_exchanges w)) ->
  exists exchanges w',
    fetch_exchange_data_from_api env w = (Return exchanges, w') /\
    List.Forall amounts_rendered exchanges /\
    length exchanges =
      (length (List.filter is_usdt tickers) + length (custom_exchanges w))%nat.
Proof.
  intros Hmeta Htick Hrows0 Hstore.
  destruct (ticker_rows_total _ _
              (icon_mapping (metadata_of (coingecko_exchanges env (clock w))))
              (url_mapping (metadata_of (coingecko_exchanges env (clock w))))
              _ _ Hrows0) as (rows & Hrows & Hlen & Hall).
  destruct (fetch_exchange_data_from_api_run env w tickers rows Hmeta Htick Hrows)
    as (customs & w' & Hrun & Hfetch).
  destruct (custom_rows_amounts _ _ _ _ _ Hstore Hrun) as [Hcall Hclen].
  exists (assign_ids 1 (rows ++ customs)), w'. split; [exact Hfetch|split].
  - apply assign_ids_amounts. apply List.Forall_app. now split.
  - rewrite assign_ids_length, length_app, Hlen, Hclen.
    unfold Dict.values. now rewrite length_map.
Qed.

Lemma values_set_Forall {V : Type} (P : V -> Prop) (k : string) (v : V) (d : Dict.t V) :
  P v -> List.Forall P (Dict.values d) -> List.Forall P (Dict.values (Dict.set k v d)).
Proof.
  intros Hv. unfold Dict.values.
  induction d as [|[k0 v0] d IH]; simpl; intros Hd.
  - now constructor.
  - inversion Hd as [|? ? H0 Hd']; subst.
    destruct (String.eqb k k0); simpl; constructor; auto.
Qed.

Lemma values_del_Forall {V : Type} (P : V -> Prop) (k : string) (d : Dict.t V) :
  List.Forall P (Dict.values d) -> List.Forall P (Dict.values (Dict.del k d)).
Proof.
  unfold Dict.values. induction d as [|[k0 v0] d IH]; simpl; intros Hd; [constructor|].
  inversion Hd as [|? ? H0 Hd']; subst.
  destruct (String.eqb k k0); simpl; [assumption | constructor; auto].
Qed.

Lemma values_get_Forall {V : Type} (P : V -> Prop) (k : string) (v : V) (d : Dict.t V) :
  List.Forall P (Dict.values d) -> Dict.get k d = Some v -> P v.
Proof.
  intros Hd Hget. apply DictMore.get_values in Hget.
  rewrite List.Forall_forall in Hd. now apply Hd.
Qed.

Lemma patched_amounts (body : CustomExchangeUpdateInput.t) (r : float) (x0 : ExchangeData.t) :
  amounts_rendered x0 -> amounts_rendered (fst (patched body r x0)).
Proof.
  intros (Hp & Hm & Hv). unfold amounts_rendered. patch_cases body x0.
  cbn [ExchangeData.plusTwoPercentDepth ExchangeData.minusTwoPercentDepth
       ExchangeData.volume24h] in Hp, Hm, Hv.
  destruct plus as [a|]; [destruct (PyFloat.floor a)|];
  (destruct minus as [b|]; [destruct (PyFloat.floor b)|]);
  (destruct vol as [c|]; [destruct (PyFloat.floor c)|]);
  destruct pair, pp, price, (PyFloat.lt 0 r), vp, icon, url; cbn;
    repeat split; first [assumption | eexists; reflexivity].
Qed.

(** X22: the amounts in the store are always renderings of integers:
    every handler of the custom exchanges leaves each stored listing with
    its two depths and its volume of the form [f"${n:,}"], however the
    handler ends. *)
Theorem store_amounts_rendered (env : Env) (w : World) :
  store_rendered (custom_exchanges w) ->
  (forall exchange_data,
      store_rendered (custom_exchanges (snd (add_custom_exchange env exchange_data w)))) /\
  (forall exchange_name,
      store_rendered (custom_exchanges (snd (delete_custom_exchange exchange_name w)))) /\
  (forall exchange_name body,
      store_rendered
        (custom_exchanges (snd (update_custom_exchange env exchange_name body w)))).
Proof.
  intros Hstore. unfold store_rendered in *. split; [|split].
  - intros exchange_data. rewrite add_custom_exchange_run. cbv zeta.
    pose proof (store_after_calls (add_calls exchange_data) w) as [Hs _].
    destruct (PyFloat.floor (CustomExchangeInput.plusTwoPercentDepth exchange_data));
      [cbn [snd]; now rewrite Hs|].
    destruct (PyFloat.floor (CustomExchangeInput.minusTwoPercentDepth exchange_data));
      [cbn [snd]; now rewrite Hs|].
    destruct (PyFloat.floor (CustomExchangeInput.volume24h exchange_data));
      [cbn [snd]; now rewrite Hs|].
    cbn [snd custom_exchanges with_store].
    apply values_set_Forall; [|assumption].
    repeat split; cbn; eexists; reflexivity.
  - intros exchange_name.
    unfold delete_custom_exchange, bind, get_custom_exchanges_dict, put_custom_exchanges.
    destruct (Dict.mem _ _); cbn [snd custom_exchanges with_store raise]; [|assumption].
    now apply values_del_Forall.
  - intros exchange_name body.
    destruct (Dict.get (PyStr.lower exchange_name) (custom_exchanges w)) as [x0|] eqn:Hget.
    + rewrite (update_custom_exchange_patched env exchange_name body x0 w Hget).
      cbn [snd custom_exchanges with_store].
      apply values_set_Forall; [|assumption].
      apply patched_amounts. exact (values_get_Forall _ _ _ _ Hstore Hget).
    + now rewrite (update_custom_exchange_missing env exchange_name body w Hget).
Qed.

Lemma sample_store_rendered : store_rendered Sample.store.
Proof.
  unfold store_rendered. simpl.
  repeat constructor; simpl;
    first [ now exists 1234 | now exists 99 | now exists 1234567 | now exists 500 ].
Defined.

Lemma store_amounts_rendered_witness :
  store_rendered
    (custom_exchanges
       (snd (update_custom_exchange Sample.env_up "myex"
               (CustomExchangeUpdateInput.Build None None None None None
                  (Some 2500.9%float) None None None)
               Sample.world))).
Proof.
  apply (proj2 (proj2 (store_amounts_rendered Sample.env_up Sample.world
                         sample_store_rendered))).
Defined.

(** X23: a listing request by volume or by depth, and so the default
    request, cannot fail on well-formed data: when Redis answers, both
    caches miss, the exchanges request is answered, the tickers request
    succeeds with numbers that can be rendered, and the stored amounts
    are renderings, the request returns a success response with one row
    for each USDT ticker and each custom exchange. *)
Theorem listing_by_amount_succeeds
  (env : Env) (sort_by : option SortCriterion) (descending : bool) (w : World)
  (tickers : list Ticker.t) (rows0 : list ExchangeData.t) :
  redis_down env (clock w) = false ->
  redis_down env (S (clock w)) = false ->
  cached (sort_cache_key sort_by descending) w = None ->
  cached base_cache_key w = None ->
  metadata_answered (coingecko_exchanges env (S (S (clock w)))) ->
  coingecko_tickers env (S (S (S (clock w)))) = Reply 200 (Some tickers) ->
  ticker_rows ∅ ∅ tickers = inr rows0 ->
  store_rendered (custom_exchanges w) ->
  by_amount (criterion_of sort_by) = true ->
  exists ranked w',
    get_ltc_exchanges env sort_by descending w = (Return (success ranked), w') /\
    length ranked =
      (length (List.filter is_usdt tickers) + length (custom_exchanges w))%nat.
Proof.
  intros Hup1 Hup2 Hsorted Hbase Hmeta Htick Hrows0 Hstore Hc.
  destruct (fetch_exchange_data_from_api_returns env (after_reads sort_by descending w)
              tickers rows0 Hmeta Htick Hrows0 Hstore)
    as (exchanges & w3 & Hfetch & Hall & Hlen).
  change (custom_exchanges (after_reads sort_by descending w))
    with (custom_exchanges w) in Hlen.
  pose proof (amounts_rendered_sortable _ _ Hc Hall) as Hsortable.
  destruct (sort_exchanges_sortable sort_by descending exchanges Hsortable)
    as (kl & Hdec & Hsort).
  rewrite (get_ltc_exchanges_run env sort_by descending w Hup1 Hup2). cbv zeta.
  rewrite Hsorted, Hbase, Hfetch. unfold sort_and_rank. rewrite Hsort.
  do 2 eexists. split; [reflexivity|].
  rewrite assign_ids_length, length_map.
  rewrite (Permutation_length (sorted_pairs_perm _ kl)).
  destruct (decorate_inr _ _ _ Hdec) as [Hsnd _].
  rewrite <- Hlen, <- Hsnd. now rewrite length_map.
Qed.

Lemma listing_by_amount_succeeds_witness :
  exists ranked w',
    get_ltc_exchanges Sample.env_up None false Sample.world = (Return (success ranked), w') /\
    length ranked = 5%nat.
Proof.
  apply (listing_by_amount_succeeds Sample.env_up None false Sample.world
           Sample.tickers
           (match ticker_rows ∅ ∅ Sample.tickers with inr rows => rows | inl _ => [] end)).
  - reflexivity.
  - reflexivity.
  - reflexivity.
  - reflexivity.
  - intros _. discriminate.
  - reflexivity.
  - vm_compute. reflexivity.
  - exact sample_store_rendered.
  - reflexivity.
Defined.

Lemma market_pair_rows_amounts (pairs : list MarketPair.t) (index : Z)
  (rows : list ExchangeData.t) :
  market_pair_rows index pairs = inr rows -> List.Forall amounts_rendered rows.
Proof.
  revert index rows. induction pairs as [|market_pair pairs IH]; intros index rows; simpl.
  - intros [= <-]. constructor.
  - destruct (String.eqb (MarketPair.quote_symbol market_pair) "USDT"); [|apply IH].
    unfold and_then.
    destruct (market_pair_row index market_pair) as [e|row] eqn:Hrow; [discriminate|].
    destruct (market_pair_rows (index + 1) pairs) as [e|rows'] eqn:Hrows; [discriminate|].
    intros [= <-]. constructor; [|exact (IH _ _ Hrows)].
    unfold market_pair_row, and_then in Hrow.
    destruct (number_to_float _); [discriminate|].
    destruct (depth_estimate _ _); [discriminate|].
    destruct (depth_estimate _ _); [discriminate|].
    destruct (number_floor _); [discriminate|].
    injection Hrow as <-. repeat split; simpl; eexists; reflexivity.
Qed.

Lemma positions_NoDup (rows : list ExchangeData.t) (index : Z) :
  (forall (n : nat) (x : ExchangeData.t),
      rows !! n = Some x -> ExchangeData.id x = index + Z.of_nat n) ->
  NoDup (map ExchangeData.id rows).
Proof.
  intros Hid. change (map ExchangeData.id rows) with (ExchangeData.id <$> rows).
  apply NoDup_alt. intros i j z Hi Hj.
  apply list_lookup_fmap_Some in Hi as (x & -> & Hx).
  apply list_lookup_fmap_Some in Hj as (y & Hxy & Hy).
  rewrite (Hid _ _ Hx), (Hid _ _ Hy) in Hxy. lia.
Qed.

(** X24: the CoinMarketCap endpoint.  It turns every failure of its
    request into the 500 [HTTPException]: a status other than 200 is not
    passed on.  When the request succeeds and the numbers of the pairs
    can be rendered, it returns the ten USDT pairs of largest volume, or
    all when there are fewer: the first ten of the rows sorted stably by
    volume, largest first.  The id of a row is the position of its pair
    among the USDT pairs as the provider lists them, not its rank: the
    ids returned are distinct, but the rows are not renumbered after the
    sort. *)
Theorem get_ltc_exchanges_cmc_top_ten (providers : Providers) (w : World) :
  (no_listing (coinmarketcap_market_pairs providers (clock w)) ->
   get_ltc_exchanges_cmc providers w = (Raise (HTTPException 500), after_tick w)) /\
  (forall (pairs : list MarketPair.t) (rows : list ExchangeData.t),
     coinmarketcap_market_pairs providers (clock w) = Reply 200 (Some pairs) ->
     market_pair_rows 1 pairs = inr rows ->
     exists sorted,
       list_sort (sort_key_of VOLUME) true rows = inr sorted /\
       sorted ≡ₚ rows /\
       get_ltc_exchanges_cmc providers w =
         (Return (success (firstn 10 sorted)), after_tick w) /\
       length (firstn 10 sorted) = Nat.min 10 (length (usdt_pairs pairs)) /\
       NoDup (map ExchangeData.id (firstn 10 sorted)) /\
       (forall x, In x (firstn 10 sorted) ->
          exists (n : nat) (market_pair : MarketPair.t),
            usdt_pairs pairs !! n = Some market_pair /\
            ExchangeData.id x = Z.of_nat n + 1 /\
            ExchangeData.exchange x = MarketPair.exchange_name market_pair)).
Proof.
  split; [apply get_ltc_exchanges_cmc_no_listing|].
  intros pairs rows Hreply Hrows.
  destruct (market_pair_rows_lookup pairs 1 rows Hrows) as [Hlen Hpos].
  pose proof (amounts_rendered_sortable VOLUME rows eq_refl
                (market_pair_rows_amounts _ _ _ Hrows)) as Hsortable.
  destruct (decorate_total (sort_key_of VOLUME) rows) as [kl Hdec].
  { eapply List.Forall_impl; [|exact Hsortable]. intros x (k & Hk & _). now exists k. }
  pose proof (list_sort_inr (sort_key_of VOLUME) true rows kl Hdec) as Hsort.
  set (sorted := map snd (sorted_pairs true kl)) in *.
  pose proof (list_sort_perm _ _ _ _ Hsort) as Hperm.
  exists sorted. split; [exact Hsort|]. split; [exact Hperm|]. split; [|split; [|split]].
  - unfold get_ltc_exchanges_cmc.
    cbv beta iota zeta delta
      [try_except bind requests_get_at tick_call ret raise lift_float].
    rewrite Hreply. cbn [Z.eqb Pos.eqb negb]. cbv beta iota.
    rewrite Hrows. cbv beta iota. rewrite Hsort. reflexivity.
  - rewrite length_take. now rewrite Hperm, Hlen.
  - assert (Hsub : map ExchangeData.id (firstn 10 sorted)
                   `sublist_of` map ExchangeData.id sorted).
    { change (map ExchangeData.id (firstn 10 sorted))
        with (ExchangeData.id <$> take 10 sorted).
      rewrite fmap_take. apply sublist_take. }
    refine (sublist_NoDup _ _ _ Hsub).
    change (map ExchangeData.id sorted) with (ExchangeData.id <$> sorted).
    rewrite Hperm. exact (positions_NoDup rows 1 (fun n x H => proj1 (Hpos n x H))).
  - intros x Hx. apply list_elem_of_In in Hx.
    change (firstn 10 sorted) with (take 10 sorted) in Hx.
    apply elem_of_take in Hx as (i & Hi & _).
    assert (Hin : x ∈ rows). { rewrite <- Hperm. apply list_elem_of_lookup. now exists i. }
    apply list_elem_of_lookup in Hin as [n Hn].
    destruct (Hpos n x Hn) as (Hid & market_pair & Hpair & Hname).
    exists n, market_pair. repeat split; [assumption | lia | assumption].
Qed.

Lemma get_ltc_exchanges_cmc_top_ten_witness :
  get_ltc_exchanges_cmc Books.providers_listed Sample.world =
  (Return (success (firstn 10 Books.listed_rows)), after_tick Sample.world) /\
  map ExchangeData.id (firstn 10 Books.listed_rows) = [2; 1].
Proof.
  destruct (proj2 (get_ltc_exchanges_cmc_top_ten Books.providers_listed Sample.world)
              Books.market_pairs
              [ ExchangeData.Build 1 "Aa" "LTC/USDT" "95.5000" None "$5" "$4" "$100"
                  "1.23%" "Recently" None None;
                ExchangeData.Build 2 "Cc" "LTC/USDT" "94.2500" None "$15" "$12" "$300"
                  "1.23%" "Recently" None None ]
              eq_refl eq_refl)
    as (sorted & Hsort & _ & Hrun & _).
  assert (Hs : sorted = Books.listed_rows).
  { vm_compute in Hsort. injection Hsort as <-. reflexivity. }
  rewrite Hs in Hrun. split; [exact Hrun | reflexivity].
Defined.

(** ** Reading back a number printed with decimals *)

Lemma scan_digits_stop (l1 rest : list ascii) (c : ascii) (acc cnt : Z) :
  digit_chars l1 -> PyFloat.is_digit c = false -> Ascii.eqb c "_" = false ->
  PyFloat.scan_digits (l1 ++ c :: rest) acc cnt =
  (digits_value l1 acc, cnt + Z.of_nat (length l1), c :: rest).
Proof.
  intros Hl Hc Hu. revert acc cnt. induction Hl as [|a l Ha _ IH]; intros acc cnt.
  - cbn [app PyFloat.scan_digits]. rewrite Hc, Hu. cbn [andb length].
    unfold digits_value. cbn [fold_left]. now rewrite Z.add_0_r.
  - cbn [app PyFloat.scan_digits]. rewrite Ha, IH. unfold digits_value. cbn [fold_left length].
    replace (cnt + 1 + Z.of_nat (length l)) with (cnt + Z.of_nat (S (length l))) by lia.
    reflexivity.
Qed.

Lemma digits_value_nonneg (l : list ascii) (acc : Z) :
  digit_chars l -> 0 <= acc -> 0 <= digits_value l acc.
Proof.
  intros Hl. revert acc. unfold digits_value.
  induction Hl as [|a l Ha _ IH]; intros acc Hacc; cbn [fold_left]; [assumption|].
  apply IH. unfold PyFloat.is_digit in Ha. unfold PyFloat.digit_val.
  apply andb_prop in Ha as [Ha _]. apply Nat.leb_le in Ha. lia.
Qed.

(** [float()] of a sign, a run of digits, a point and a run of digits. *)
Lemma of_string_fixed (s : bool) (ip fp : string) :
  digit_chars (list_ascii_of_string ip) -> ip <> "" ->
  digit_chars (list_ascii_of_string fp) ->
  exists n e,
    0 <= n /\
    PyFloat.of_string ((if s then "-" else "") ++ ip ++ "." ++ fp) =
    inr (PyFloat.of_decimal s n e).
Proof.
  intros Hip Hne Hfp.
  unfold PyFloat.of_string. rewrite !list_ascii_app.
  destruct (list_ascii_of_string ip) as [|a l] eqn:Hl.
  { exfalso. apply Hne. rewrite <- (string_of_list_ascii_of_string ip). now rewrite Hl. }
  set (F := list_ascii_of_string fp) in *.
  inversion Hip as [|? ? Ha Hl']; subst.
  destruct (digit_head a Ha) as (Hspace & Hsign & Hword).
  assert (Hplain : List.Forall (fun c => PyFloat.is_space c = false)
                     ((a :: l) ++ list_ascii_of_string "." ++ F)%list).
  { apply List.Forall_app. split.
    - eapply List.Forall_impl; [|exact Hip]. intros c Hc. now apply (digit_head c Hc).
    - apply List.Forall_app. split; [now repeat constructor|].
      eapply List.Forall_impl; [|exact Hfp]. intros c Hc. now apply (digit_head c Hc). }
  rewrite to_ascii_plain.
  2:{ apply List.Forall_app. split; [destruct s; repeat constructor|].
      apply List.Forall_app. split.
      - eapply List.Forall_impl; [|exact Hip]. exact digit_ascii.
      - apply List.Forall_app. split; [now repeat constructor|].
        eapply List.Forall_impl; [|exact Hfp]. exact digit_ascii. }
  assert (Hscan : PyFloat.scan_sign
                    (PyFloat.strip (list_ascii_of_string (if s then "-" else "")
                                    ++ (a :: l) ++ list_ascii_of_string "." ++ F)%list)
                  = (s, ((a :: l) ++ "."%char :: F)%list)).
  { destruct s; cbn [list_ascii_of_string app].
    - rewrite (strip_plain ("-"%char :: a :: (l ++ "."%char :: F)%list)); [reflexivity|].
      constructor; [reflexivity | exact Hplain].
    - rewrite (strip_plain (a :: (l ++ "."%char :: F)%list)) by exact Hplain. apply Hsign. }
  rewrite Hscan. cbn [app string_of_list_ascii].
  destruct (Hword (string_of_list_ascii (l ++ "."%char :: F)%list)) as [Hinf Hnan].
  cbv zeta in Hinf, Hnan. rewrite Hinf, Hnan.
  change (a :: l ++ "."%char :: F)%list with ((a :: l) ++ "."%char :: F)%list.
  rewrite (scan_digits_stop (a :: l) F "." 0 0 Hip eq_refl eq_refl).
  rewrite (scan_digits_all F _ 0 Hfp).
  cbn [length].
  replace (0 + Z.of_nat (S (length l)) =? 0) with false by (symmetry; apply Z.eqb_neq; lia).
  cbn [andb PyFloat.scan_exponent].
  eexists. eexists. split; [|reflexivity].
  apply digits_value_nonneg; [exact Hfp|]. apply digits_value_nonneg; [exact Hip | lia].
Qed.

Lemma zero_pad_digits (w : nat) (s : string) :
  digit_chars (list_ascii_of_string s) ->
  digit_chars (list_ascii_of_string (PyStr.zero_pad w s)).
Proof.
  intros Hs. unfold PyStr.zero_pad. rewrite list_ascii_app, list_ascii_of_string_of_list_ascii.
  apply List.Forall_app. split; [|exact Hs].
  induction (w - String.length s)%nat; simpl; constructor; auto.
Qed.

(** What [float()] reads from a float printed with [d] decimals, [d]
    positive: a number, unless the float is NaN. *)
Lemma format_fixed_parses (d : nat) (x : float) :
  (0 < d)%nat -> Prim2SF x <> S754_nan ->
  exists y, PyFloat.of_string (PyFloat.format_fixed d x) = inr y /\ Prim2SF y <> S754_nan.
Proof.
  intros Hd Hx. unfold PyFloat.format_fixed.
  assert (Hfixed : forall s n,
    exists y, PyFloat.of_string (PyFloat.sign_str s ++ PyFloat.fixed_digits d n) = inr y /\
              Prim2SF y <> S754_nan).
  { intros s n. unfold PyFloat.fixed_digits, PyFloat.sign_str.
    destruct d as [|d']; [lia|].
    destruct (of_string_fixed s (PyStr.digits (Z.to_N (n / 10 ^ Z.of_nat (S d'))))
                (PyStr.zero_pad (S d') (PyStr.digits (Z.to_N (n mod 10 ^ Z.of_nat (S d'))))))
      as (m & e & Hm & Hparse).
    - apply digits_chars.
    - apply digits_nonempty.
    - apply zero_pad_digits, digits_chars.
    - eexists. split; [exact Hparse|]. now apply of_decimal_not_nan. }
  destruct (Prim2SF x) as [s|s| |s m e]; [apply Hfixed| |contradiction|apply Hfixed].
  destruct s; eexists; (split; [reflexivity | discriminate]).
Qed.

Lemma app_nil_r_string (s : string) : s ++ "" = s.
Proof.
  induction s as [|x s IH]; [reflexivity|].
  change (String x (s ++ "") = String x s). now f_equal.
Qed.

Lemma eq_refl_not_nan (x : float) : PyFloat.eq x x = true -> Prim2SF x <> S754_nan.
Proof.
  unfold PyFloat.eq. rewrite FloatAxioms.eqb_spec. intros H Hnan. rewrite Hnan in H.
  discriminate.
Qed.

Lemma number_to_float_numeric (v : number) (x : float) :
  numeric v -> number_to_float v = inr x -> Prim2SF x <> S754_nan.
Proof.
  destruct v as [n|y]; simpl.
  - intros _. unfold PyFloat.of_int. intros H.
    assert (Hx : x = SF2Prim (binary_normalize prec emax n 0 false)).
    { destruct (binary_normalize prec emax n 0 false); try discriminate;
        now injection H as <-. }
    rewrite Hx. apply SF2Prim_not_nan, binary_normalize_not_nan.
  - intros Hy [= <-]. now apply eq_refl_not_nan.
Qed.

(** A character that no printed number holds is removed from none. *)
Lemma remove_char_format_fixed (c : ascii) (d : nat) (x : float) :
  PyFloat.is_digit c = false ->
  PyStr.remove_char c "-.nanif" = "-.nanif" ->
  PyStr.remove_char c (PyFloat.format_fixed d x) = PyFloat.format_fixed d x.
Proof.
  intros Hc Hk.
  assert (Hone : forall a, In a (list_ascii_of_string "-.nanif") -> Ascii.eqb a c = false).
  { intros a Ha. destruct (Ascii.eqb_spec a c) as [->|]; [|reflexivity]. exfalso.
    assert (Hrm : forall s, In c (list_ascii_of_string s) -> PyStr.remove_char c s <> s).
    { clear. intros s Hin E.
      assert (Hlen : forall t, (String.length (PyStr.remove_char c t) <= String.length t)%nat).
      { induction t as [|b t IH]; simpl; [lia|]. destruct (Ascii.eqb b c); simpl; lia. }
      induction s as [|b s IH]; simpl in *; [contradiction|].
      destruct (Ascii.eqb_spec b c) as [->|Hb].
      - pose proof (Hlen s) as H. rewrite E in H. simpl in H. lia.
      - injection E as E. destruct Hin as [Hin|Hin]; [contradiction | now apply IH]. }
    now apply (Hrm _ Ha). }
  assert (Hsign : forall s, PyStr.remove_char c (PyFloat.sign_str s) = PyFloat.sign_str s).
  { intros [|]; cbn [PyFloat.sign_str PyStr.remove_char]; [|reflexivity].
    rewrite (Hone "-"%char); [reflexivity | simpl; tauto]. }
  assert (Hfixed : forall n, PyStr.remove_char c (PyFloat.fixed_digits d n)
                             = PyFloat.fixed_digits d n).
  { intros n. unfold PyFloat.fixed_digits. rewrite remove_char_app.
    rewrite (remove_char_digits c _ Hc (digits_chars _)). f_equal.
    destruct d as [|d']; [reflexivity|].
    change ("." ++ ?s) with (String "." s). cbn [PyStr.remove_char].
    rewrite (Hone "."%char) by (simpl; tauto). f_equal.
    apply (remove_char_digits c _ Hc). apply zero_pad_digits, digits_chars. }
  unfold PyFloat.format_fixed.
  destruct (Prim2SF x) as [s|s| |s m e].
  - now rewrite remove_char_app, Hsign, Hfixed.
  - rewrite remove_char_app, Hsign. f_equal. cbn [PyStr.remove_char].
    rewrite (Hone "i"%char), (Hone "n"%char), (Hone "f"%char) by (simpl; tauto).
    reflexivity.
  - cbn [PyStr.remove_char].
    rewrite (Hone "n"%char), (Hone "a"%char) by (simpl; tauto). reflexivity.
  - now rewrite remove_char_app, Hsign, Hfixed.
Qed.

Lemma printed_sortable (c : SortCriterion) (x : ExchangeData.t) :
  c = PRICE \/ c = VOLUME_PERCENTAGE -> printed x ->
  exists k, sort_key_of c x = inr k /\ key_eq k k = true.
Proof.
  intros Hc [(v & Hv & Hprice) (u & Hu & Hshare)].
  destruct Hc as [-> | ->]; simpl.
  - rewrite Hprice. unfold format_price.
    rewrite (remove_char_format_fixed "," 4 v eq_refl eq_refl).
    destruct (format_fixed_parses 4 v ltac:(lia) Hv) as (y & Hy & Hnan).
    exists (KFloat y). unfold float_key. rewrite Hy. split; [reflexivity|].
    now apply key_eq_float_refl.
  - rewrite Hshare. unfold format_percentage. rewrite remove_char_app.
    rewrite (remove_char_format_fixed "%" 2 u eq_refl eq_refl).
    change (PyStr.remove_char "%" "%") with "". rewrite app_nil_r_string.
    destruct (format_fixed_parses 2 u ltac:(lia) Hu) as (y & Hy & Hnan).
    exists (KFloat y). unfold float_key. rewrite Hy. split; [reflexivity|].
    now apply key_eq_float_refl.
Qed.

Lemma ticker_row_printed (icons urls : gmap string (option string)) (ticker : Ticker.t)
  (row : ExchangeData.t) :
  quoted ticker -> ticker_row icons urls ticker = inr row -> printed row.
Proof.
  intros [Hlast Hspread]. unfold ticker_row, and_then. fold (spread_of ticker).
  destruct (depth_estimate _ _) as [|plus]; [discriminate|].
  destruct (depth_estimate _ _) as [|minus]; [discriminate|].
  destruct (number_to_float (Ticker.last ticker)) as [|last] eqn:El; [discriminate|].
  destruct (number_floor _) as [|volume]; [discriminate|].
  destruct (number_to_float (spread_of ticker)) as [|spread] eqn:Es; [discriminate|].
  intros [= <-]. split; simpl.
  - exists last. split; [exact (number_to_float_numeric _ _ Hlast El) | reflexivity].
  - exists spread. split; [exact (number_to_float_numeric _ _ Hspread Es) | reflexivity].
Qed.

Lemma ticker_rows_printed (icons urls : gmap string (option string))
  (tickers : list Ticker.t) (rows : list ExchangeData.t) :
  List.Forall quoted (List.filter is_usdt tickers) ->
  ticker_rows icons urls tickers = inr rows -> List.Forall printed rows.
Proof.
  revert rows. induction tickers as [|ticker tickers IH]; intros rows; simpl.
  - intros _ [= <-]. constructor.
  - unfold is_usdt at 1. destruct (String.eqb (Ticker.target ticker) "USDT"); [|apply IH].
    intros Hq. inversion Hq as [|? ? Hq1 Hq2]; subst. unfold and_then.
    destruct (ticker_row icons urls ticker) as [|row] eqn:Hrow; [discriminate|].
    destruct (ticker_rows icons urls tickers) as [|rows1] eqn:Hrows; [discriminate|].
    intros [= <-]. constructor; [exact (ticker_row_printed _ _ _ _ Hq1 Hrow) | now apply IH].
Qed.

(** X25: the rows the fetch builds from the tickers can always be sorted
    by id, by name, by volume and by either depth: the key of each row
    can be computed and is a number or a string.  They can be sorted by
    price and by volume share as well when the last price and the spread
    of every USDT ticker are numbers, that is, not NaN. *)
Theorem ticker_rows_sortable (icons urls : gmap string (option string))
  (tickers : list Ticker.t) (rows : list ExchangeData.t) :
  ticker_rows icons urls tickers = inr rows ->
  (forall c, c <> PRICE -> c <> VOLUME_PERCENTAGE -> sortable c rows) /\
  (List.Forall quoted (List.filter is_usdt tickers) -> forall c, sortable c rows).
Proof.
  intros Hrows.
  destruct (ticker_rows_total icons urls icons urls tickers rows Hrows)
    as (rows' & Hrows' & _ & Hall).
  rewrite Hrows in Hrows'. injection Hrows' as <-.
  assert (Hplain : forall c, c <> PRICE -> c <> VOLUME_PERCENTAGE -> sortable c rows).
  { intros c Hp Hs. destruct c; try contradiction;
      try (now apply amounts_rendered_sortable);
      unfold sortable; apply List.Forall_forall; intros x _; eexists;
      (split; [reflexivity|]); simpl.
    - apply Z.eqb_refl.
    - apply String.eqb_refl. }
  split; [exact Hplain|].
  intros Hq c. pose proof (ticker_rows_printed _ _ _ _ Hq Hrows) as Hprinted.
  destruct (SortCriterion_eq_dec c PRICE) as [->|Hp];
    [|destruct (SortCriterion_eq_dec c VOLUME_PERCENTAGE) as [->|Hs]].
  - unfold sortable. eapply List.Forall_impl; [|exact Hprinted].
    intros x Hx. apply printed_sortable; [now left | exact Hx].
  - unfold sortable. eapply List.Forall_impl; [|exact Hprinted].
    intros x Hx. apply printed_sortable; [now right | exact Hx].
  - now apply Hplain.
Qed.

Lemma sample_tickers_quoted : List.Forall quoted (List.filter is_usdt Sample.tickers).
Proof. repeat constructor. Defined.

Lemma ticker_rows_sortable_witness :
  sortable PLUS_DEPTH (Cases.rows_of []) /\ sortable PRICE (Cases.rows_of []).
Proof.
  destruct (ticker_rows_sortable (icon_mapping []) (url_mapping []) Sample.tickers
              (Cases.rows_of [])) as [Hplain Hall].
  - vm_compute. reflexivity.
  - split.
    + apply Hplain; discriminate.
    + apply Hall. exact sample_tickers_quoted.
Defined.

(** ** The price history *)

Lemma clamp_days_range (days : Z) : 1 <= clamp_days days <= 90.
Proof.
  unfold clamp_days. destruct (Z.ltb_spec 90 days); [lia|].
  destruct (Z.ltb_spec days 1); lia.
Qed.

Lemma clamp_days_idem (days : Z) : clamp_days (clamp_days days) = clamp_days days.
Proof.
  pose proof (clamp_days_range days) as H. unfold clamp_days at 1.
  destruct (Z.ltb_spec 90 (clamp_days days)); [lia|].
  destruct (Z.ltb_spec (clamp_days days) 1); [lia | reflexivity].
Qed.

(** X26: the number of days of a history request counts only as clamped
    to the range from 1 to 90: two requests whose numbers of days clamp
    to the same value are the same request, with the same cache key, the
    same question to the provider and the same period label. *)
Theorem price_history_days_clamped (env : Env) (chart : Chart) (days days' : Z)
  (daily_close : bool) :
  clamp_days days = clamp_days days' ->
  1 <= clamp_days days <= 90 /\
  get_ltc_price_history env chart days daily_close =
  get_ltc_price_history env chart days' daily_close.
Proof.
  intros H. split; [apply clamp_days_range|].
  unfold get_ltc_price_history. cbv zeta. now rewrite H.
Qed.

Lemma price_history_days_clamped_witness :
  1 <= clamp_days 500 <= 90 /\
  get_ltc_price_history Sample.env_up
    {| coingecko_market_chart := fun _ _ => ConnectionError;
       fromtimestamp := fun _ => inl PyFloat.OverflowError;
       history_dumps := fun _ => None;
       history_loads := fun _ => None |} 500 true =
  get_ltc_price_history Sample.env_up
    {| coingecko_market_chart := fun _ _ => ConnectionError;
       fromtimestamp := fun _ => inl PyFloat.OverflowError;
       history_dumps := fun _ => None;
       history_loads := fun _ => None |} 90 true.
Proof.
  apply (price_history_days_clamped Sample.env_up
           {| coingecko_market_chart := fun _ _ => ConnectionError;
              fromtimestamp := fun _ => inl PyFloat.OverflowError;
              history_dumps := fun _ => None;
              history_loads := fun _ => None |} 500 90 true).
  reflexivity.
Defined.

(** What a history request does when Redis answers its read. *)
Lemma get_ltc_price_history_run (env : Env) (chart : Chart) (days : Z)
  (daily_close : bool) (w : World) :
  redis_down env (clock w) = false ->
  let key := history_cache_key (clamp_days days) daily_close in
  let w1 := after_call (RedisGet key) w in
  let w2 := after_tick w1 in
  get_ltc_price_history env chart days daily_close w =
  match cached key w with
  | Some payload =>
      (match history_loads chart payload with
       | Some r => Return r
       | None => Raise (HTTPException 500)
       end, w1)
  | None =>
      match coingecko_market_chart chart (clamp_days days) (S (clock w)) with
      | Reply 200 (Some prices) =>
          match history_of chart daily_close prices with
          | inr h =>
              match history_dumps chart (history_response days h) with
              | Some payload =>
                  let w3 := after_call (RedisSetex key (ttl_of (clamp_days days)) payload) w2 in
                  if redis_down env (S (S (clock w))) then (Raise (HTTPException 500), w3)
                  else (Return (history_response days h),
                        with_cached key (ttl_of (clamp_days days)) payload w3)
              | None => (Raise (HTTPException 500), w2)
              end
          | inl _ => (Raise (HTTPException 500), w2)
          end
      | _ => (Raise (HTTPException 500), w2)
      end
  end.
Proof.
  intros Hup. cbv zeta. unfold get_ltc_price_history, cached, history_of, history_response.
  cbv beta iota zeta delta [try_except bind].
  rewrite redis_get_run, Hup.
  destruct (cache_hit (snd <$> redis_client w !! _)) as [payload|].
  - now destruct (history_loads chart payload).
  - cbv beta iota zeta delta [requests_get_at tick_call bind ret raise].
    change (clock (after_call (RedisGet ?k) w)) with (S (clock w)).
    destruct (coingecko_market_chart chart (clamp_days days) (S (clock w)))
      as [|code body]; [reflexivity|].
    cbv beta iota.
    destruct (Z.eqb_spec code 200) as [->|Hcode].
    + cbn [negb]. destruct body as [prices|]; [|reflexivity]. cbv beta iota.
      unfold lift_float.
      destruct (if daily_close then daily_history chart prices
                else hourly_history chart prices) as [e|h]; [reflexivity|].
      cbv beta iota delta [ret raise].
      destruct (history_dumps chart _) as [payload|]; [|reflexivity].
      cbv beta iota zeta delta [redis_setex bind external_call raise].
      change (clock (after_tick (after_call (RedisGet ?k) w))) with (S (S (clock w))).
      now destruct (redis_down env (S (S (clock w)))).
    + cbn [negb].
      destruct code as [|p|p]; try reflexivity.
      repeat (destruct p as [p|p|]; try reflexivity); now exfalso.
Qed.

(** X27: the history request does not survive a failure of its cache
    write: when the history has been computed but cannot be serialised,
    or Redis refuses the write, the request fails with the 500
    [HTTPException] and nothing is cached; the listing request, in the
    same situation, returns its response. *)
Theorem price_history_write_failure (env : Env) (chart : Chart) (days : Z)
  (daily_close : bool) (w : World) (prices : list (number * number))
  (h : list PriceHistoryItem.t) :
  redis_down env (clock w) = false ->
  cached (history_cache_key (clamp_days days) daily_close) w = None ->
  coingecko_market_chart chart (clamp_days days) (S (clock w)) = Reply 200 (Some prices) ->
  history_of chart daily_close prices = inr h ->
  history_dumps chart (history_response days h) = None \/
  redis_down env (S (S (clock w))) = true ->
  exists w',
    get_ltc_price_history env chart days daily_close w = (Raise (HTTPException 500), w') /\
    redis_client w' = redis_client w.
Proof.
  intros Hup Hmiss Hreply Hh Hfail.
  rewrite (get_ltc_price_history_run env chart days daily_close w Hup). cbv zeta.
  rewrite Hmiss, Hreply, Hh.
  destruct (history_dumps chart (history_response days h)) as [payload|].
  - destruct Hfail as [Hfail|Hfail]; [discriminate|]. rewrite Hfail. now eexists.
  - now eexists.
Qed.

Lemma price_history_write_failure_witness :
  exists w',
    get_ltc_price_history Sample.env_no_write Charts.chart_up 30 true Sample.world =
    (Raise (HTTPException 500), w') /\
    redis_client w' = redis_client Sample.world.
Proof.
  apply (price_history_write_failure Sample.env_no_write Charts.chart_up 30 true Sample.world
           Charts.prices Charts.closes).
  - reflexivity.
  - reflexivity.
  - reflexivity.
  - vm_compute. reflexivity.
  - right. reflexivity.
Defined.

(** X28: a history that has been computed and cached is served again to
    every request that clamps to the same number of days: when the first
    request returns and its payload decodes to its response, the next one
    returns the same response after one read of Redis. *)
Theorem price_history_served_again (env : Env) (chart : Chart) (days days' : Z)
  (daily_close : bool) (w : World) (prices : list (number * number))
  (h : list PriceHistoryItem.t) (payload : string) :
  redis_down env (clock w) = false ->
  cached (history_cache_key (clamp_days days) daily_close) w = None ->
  coingecko_market_chart chart (clamp_days days) (S (clock w)) = Reply 200 (Some prices) ->
  history_of chart daily_close prices = inr h ->
  history_dumps chart (history_response days h) = Some payload ->
  payload <> "" ->
  history_loads chart payload = Some (history_response days h) ->
  redis_down env (S (S (clock w))) = false ->
  redis_down env (S (S (S (clock w)))) = false ->
  clamp_days days' = clamp_days days ->
  exists w1,
    get_ltc_price_history env chart days daily_close w =
      (Return (history_response days h), w1) /\
    get_ltc_price_history env chart days' daily_close w1 =
      (Return (history_response days h),
       after_call (RedisGet (history_cache_key (clamp_days days) daily_close)) w1) /\
    (snd <$> redis_client w1 !! history_cache_key (clamp_days days) daily_close) =
      Some payload /\
    (fst <$> redis_client w1 !! history_cache_key (clamp_days days) daily_close) =
      Some (ttl_of (clamp_days days)).
Proof.
  intros Hup Hmiss Hreply Hh Hdumps Hne Hloads Hup2 Hup3 Hclamp.
  pose proof (get_ltc_price_history_run env chart days daily_close w Hup) as Hrun.
  cbv zeta in Hrun. rewrite Hmiss, Hreply, Hh, Hdumps, Hup2 in Hrun.
  eexists. split; [exact Hrun|].
  set (key := history_cache_key (clamp_days days) daily_close) in *.
  set (w1 := with_cached key _ payload _).
  assert (Hstored : redis_client w1 !! key = Some (ttl_of (clamp_days days), payload)).
  { apply lookup_insert_eq. }
  split; [|now rewrite Hstored].
  assert (Hup' : redis_down env (clock w1) = false) by exact Hup3.
  rewrite (get_ltc_price_history_run env chart days' daily_close w1 Hup'). cbv zeta.
  rewrite Hclamp. fold key. unfold cached. rewrite Hstored. cbn [fmap option_fmap option_map snd].
  now rewrite (cache_hit_payload payload Hne), Hloads.
Qed.

Lemma price_history_served_again_witness :
  exists w1,
    get_ltc_price_history Sample.env_up Charts.chart_up 30 true Sample.world =
      (Return (history_response 30 Charts.closes), w1) /\
    get_ltc_price_history Sample.env_up Charts.chart_up 30 true w1 =
      (Return (history_response 30 Charts.closes),
       after_call (RedisGet (history_cache_key (clamp_days 30) true)) w1) /\
    (snd <$> redis_client w1 !! history_cache_key (clamp_days 30) true) =
      Some "3/1;3/10;3/9" /\
    (fst <$> redis_client w1 !! history_cache_key (clamp_days 30) true) =
      Some 43200.
Proof.
  apply (price_history_served_again Sample.env_up Charts.chart_up 30 30 true Sample.world
           Charts.prices Charts.closes "3/1;3/10;3/9").
  - reflexivity.
  - reflexivity.
  - reflexivity.
  - vm_compute. reflexivity.
  - reflexivity.
  - discriminate.
  - reflexivity.
  - reflexivity.
  - reflexivity.
  - reflexivity.
Defined.

(** ** The daily closes *)

Lemma group_daily_app (chart : Chart) (l1 l2 : list (number * number))
  (acc : Dict.t PriceHistoryItem.t) :
  group_daily chart (l1 ++ l2) acc =
  match group_daily chart l1 acc with
  | inl e => inl e
  | inr d => group_daily chart l2 d
  end.
Proof.
  revert acc. induction l1 as [|[t p] l1 IH]; intros acc; simpl; [reflexivity|].
  unfold and_then. destruct (fromtimestamp chart t); [reflexivity|].
  destruct (round_2 p); [reflexivity|]. apply IH.
Qed.

Lemma group_daily_other_days (chart : Chart) (k : string) (l : list (number * number))
  (acc d : Dict.t PriceHistoryItem.t) :
  other_days chart k l -> group_daily chart l acc = inr d ->
  Dict.get k d = Dict.get k acc.
Proof.
  intros Hl. revert acc. induction Hl as [|[t p] l Hp _ IH]; intros acc; simpl.
  - now intros [= <-].
  - unfold and_then. destruct (fromtimestamp chart t) as [|dt] eqn:Ht; [discriminate|].
    destruct (round_2 p) as [|r]; [discriminate|].
    intros H. rewrite (IH _ H). apply DictFacts.get_set_ne. exact (Hp dt Ht).
Qed.

Lemma sorted_perm (keys : list string) : sorted keys ≡ₚ keys.
Proof.
  unfold sorted.
  change (map snd (sorted_pairs false (map (fun key => (KStr key, key)) keys)))
    with (snd <$> sorted_pairs false (map (fun key => (KStr key, key)) keys)).
  rewrite sorted_pairs_perm.
  change (snd <$> map (fun key => (KStr key, key)) keys)
    with (map snd (map (fun key : string => (KStr key, key)) keys)).
  rewrite map_map. simpl. now rewrite map_id.
Qed.

(** [round(v, 2)] never raises. *)
Lemma round_2_total (v : number) : exists rounded, round_2 v = inr rounded.
Proof.
  destruct v as [n|x]; simpl; [now eexists|]. unfold and_then.
  destruct (Prim2SF x) as [s|s| |s m e] eqn:Hx.
  2,3: unfold PyFloat.format_fixed; rewrite Hx.
  2: destruct s; now eexists.
  2: now eexists.
  all: destruct (format_fixed_parses 2 x ltac:(lia)) as (y & -> & _);
    [rewrite Hx; discriminate | now eexists].
Qed.

(** X29: the daily close of a day is its last point: when a point is
    followed by no other point of its day, the history of daily closes
    lists that day with the price of that point, rounded to two
    decimals. *)
Theorem daily_close_is_last_point (chart : Chart) (l1 l2 : list (number * number))
  (timestamp price : number) (d : date_obj) (h : list PriceHistoryItem.t) :
  fromtimestamp chart timestamp = inr d ->
  other_days chart (date_key_of d) l2 ->
  daily_history chart (l1 ++ (timestamp, price) :: l2) = inr h ->
  exists rounded, round_2 price = inr rounded /\ In (item_of d rounded) h.
Proof.
  intros Ht Hl2 H. destruct (round_2_total price) as [rounded Hr].
  exists rounded. split; [exact Hr|]. revert H. unfold daily_history, and_then.
  rewrite group_daily_app.
  destruct (group_daily chart l1 []) as [|d1]; [discriminate|].
  cbn [group_daily]. unfold and_then. rewrite Ht, Hr.
  fold (date_key_of d). fold (item_of d rounded).
  destruct (group_daily chart l2 _) as [|d2] eqn:Hd2; [discriminate|].
  intros [= <-].
  pose proof (group_daily_other_days _ _ _ _ _ Hl2 Hd2) as Hget.
  rewrite DictFacts.get_set_eq in Hget.
  apply list_elem_of_In. apply list_elem_of_omap. exists (date_key_of d). split; [|exact Hget].
  rewrite sorted_perm.
  destruct (decide (date_key_of d ∈ Dict.keys d2)) as [Hin|Hin]; [exact Hin|].
  apply DictFacts.get_None_keys in Hin. congruence.
Qed.

Lemma daily_close_is_last_point_witness :
  exists rounded,
    round_2 (Float 71.5%float) = inr rounded /\
    In (item_of {| year := 2024; month := 3; day := 1 |} rounded) Charts.closes.
Proof.
  apply (daily_close_is_last_point Charts.chart_up
           [(Int 0, Float 70.126%float)]
           [(Int 691200000, Float 72%float); (Int 777600000, Int 73)]
           (Int 3600000) (Float 71.5%float)
           {| year := 2024; month := 3; day := 1 |} Charts.closes).
  - reflexivity.
  - repeat constructor; simpl; intros d' [= <-]; discriminate.
  - vm_compute. reflexivity.
Defined.

Lemma append_assoc (a b c : string) : (a ++ b) ++ c = a ++ b ++ c.
Proof.
  induction a as [|x a IH]; [reflexivity|].
  change (String x ((a ++ b) ++ c) = String x (a ++ b ++ c)). now f_equal.
Qed.

Lemma compare_prefix (p a b : string) : String.compare (p ++ a) (p ++ b) = String.compare a b.
Proof.
  induction p as [|x p IH]; simpl; [reflexivity|].
  assert (H : Ascii.compare x x = Eq) by (unfold Ascii.compare; apply N.compare_refl).
  now rewrite H.
Qed.

Lemma comparable_strings (keys : list string) :
  comparable (map fst (map (fun key => (KStr key, key)) keys)).
Proof.
  intros a b Ha Hb.
  apply list_elem_of_fmap in Ha as ([k x] & -> & Ha).
  apply list_elem_of_fmap in Hb as ([k' x'] & -> & Hb).
  apply list_elem_of_fmap in Ha as (s & [= -> _] & _).
  apply list_elem_of_fmap in Hb as (s' & [= -> _] & _).
  discriminate.
Qed.

(** X30: the daily closes are listed in the order of the text of their
    keys [year-month-day], not in the order of the calendar: of a point
    on the 9th and a later point on the 10th of the same month, the 10th
    is listed first. *)
Theorem daily_closes_in_text_order (chart : Chart) (t9 t10 p9 p10 : number) (y m : Z) :
  fromtimestamp chart t9 = inr {| year := y; month := m; day := 9 |} ->
  fromtimestamp chart t10 = inr {| year := y; month := m; day := 10 |} ->
  exists r9 r10,
    round_2 p9 = inr r9 /\ round_2 p10 = inr r10 /\
    daily_history chart [(t9, p9); (t10, p10)] =
    inr [ item_of {| year := y; month := m; day := 10 |} r10;
          item_of {| year := y; month := m; day := 9 |} r9 ].
Proof.
  intros H9 H10.
  destruct (round_2_total p9) as [r9 Hr9]. destruct (round_2_total p10) as [r10 Hr10].
  exists r9, r10. split; [exact Hr9|]. split; [exact Hr10|].
  unfold daily_history, and_then. cbn [group_daily]. unfold and_then.
  rewrite H9, Hr9, H10, Hr10. cbn [year month day].
  change (str_int 9) with "9". change (str_int 10) with "10".
  set (P := str_int y ++ "-" ++ str_int m ++ "-").
  assert (E9 : str_int y ++ "-" ++ str_int m ++ "-" ++ "9" = P ++ "9").
  { unfold P. now rewrite !append_assoc. }
  assert (E10 : str_int y ++ "-" ++ str_int m ++ "-" ++ "10" = P ++ "10").
  { unfold P. now rewrite !append_assoc. }
  rewrite E9, E10.
  assert (Hlt : String.ltb (P ++ "10") (P ++ "9") = true).
  { unfold String.ltb. now rewrite compare_prefix. }
  assert (Hne : String.eqb (P ++ "10") (P ++ "9") = false).
  { apply String.eqb_neq. intros E.
    assert (Hc : String.compare (P ++ "10") (P ++ "9") = String.compare "10" "9")
      by apply compare_prefix.
    rewrite E, <- (app_nil_r_string (P ++ "9")) in Hc.
    rewrite compare_prefix in Hc. discriminate. }
  cbn [Dict.set]. rewrite Hne. cbn [Dict.keys map fst].
  unfold sorted. rewrite sorted_pairs_stable_sort by apply comparable_strings.
  cbn [map stable_sort insort_left fst snd key_lt].
  rewrite Hlt. cbn [map snd omap list_omap Dict.get].
  rewrite Hne, !String.eqb_refl. reflexivity.
Qed.

Lemma daily_closes_in_text_order_witness :
  exists r9 r10,
    round_2 (Float 72%float) = inr r9 /\ round_2 (Int 73) = inr r10 /\
    daily_history Charts.chart_up
      [(Int 691200000, Float 72%float); (Int 777600000, Int 73)] =
    inr [ item_of {| year := 2024; month := 3; day := 10 |} r10;
          item_of {| year := 2024; month := 3; day := 9 |} r9 ].
Proof.
  apply (daily_closes_in_text_order Charts.chart_up
           (Int 691200000) (Int 777600000) (Float 72%float) (Int 73) 2024 3); reflexivity.
Defined.
